(** * Nanos6 cluster runtime: workflow engine, leaf scheduler, policy
      selection and the shutdown collective

    A shallow embedding of four parts of the runtime, and the properties
    that the design document states of them:

    - [ExecutionWorkflow.cpp]: the transfer table, the creation of copy,
      execution, release and notification steps, and the finalisation
      callback of [executeTask];
    - [SchedulerInterface.cpp]: the choice of the scheduling policy;
    - [LeafScheduler.hpp]: [addTask], [handleQueueOverflow], [addTaskBatch];
    - [ThreadManager.cpp]: [shutdown] and [threadShutdownSequence].

    Part III adds properties read off the code itself, of these functions
    and of their neighbours: [WorkflowBase::start], [executeTask] as a
    whole and [setupTaskwaitWorkflow]; [getTask] and [disable] of the
    leaf; the constructor and destructor of [SchedulerInterface];
    [preinitialize] and [initialize] of [ThreadManager] and [CPUManager].

    Conventions.  A C++ pointer that may be null is an [option]; pointer
    equality of memory places is equality of their records.  [size_t]
    quantities are natural numbers: the arithmetic the modelled code
    performs on them is a comparison, a division by two, an increment and
    a product with 1.5 (written as a comparison of integers), none of
    which wraps for the sizes a process can hold.  The counter of the
    polling loop of [getTask] is an [unsigned int] compared with a
    [size_t]: a number below [2 ^ 32] whose increment wraps around.  The
    code of the steps of a workflow, which is not among the sources, is a
    parameter of the functions that start them.  What other threads do
    to a leaf that polls, and what [pthread_join] answers, come with the
    step that meets them.  Code runs in a debug build: an [assert] that
    fails stops the computation with [AssertionFails]. *)

From stdpp Require Import base decidable option numbers list strings.
From Stdlib Require Import Sorting.Sorted.

Set Default Proof Using "Type".

(* ================================================================== *)
(** * Part I: the embedding                                             *)
(* ================================================================== *)

(** ** Outcomes: return, failed assertion, fatal error *)

Module Outcome.

Inductive outcome (A : Type) : Type :=
| Returns (a : A)
| AssertionFails (what : string)
| FatalError (msg : string).
Arguments Returns {A} a.
Arguments AssertionFails {A} what.
Arguments FatalError {A} msg.

Definition bind {A B} (m : outcome A) (k : A -> outcome B) : outcome B :=
  match m with
  | Returns a => k a
  | AssertionFails w => AssertionFails w
  | FatalError e => FatalError e
  end.

(** [assert(cond)] of <cassert>. *)
Definition assert (cond : bool) (what : string) : outcome unit :=
  if cond then Returns tt else AssertionFails what.

(** [FatalErrorHandler::failIf(cond, msg)]. *)
Definition failIf (cond : bool) (msg : string) : outcome unit :=
  if cond then FatalError msg else Returns tt.

End Outcome.
Import Outcome.

#[global] Instance outcome_ret : MRet outcome := @Returns.
#[global] Instance outcome_bind : MBind outcome := fun A B k m => Outcome.bind m k.

(** ** Device kinds, memory places, data accesses *)

Module Hardware.

(** Modelled from the spec: the enumeration [nanos6_device_t] is declared
    in a header that is not among the sources.  Its kinds are the four
    that label the rows and columns of [_transfersMap] and that the
    data model lists: host, cuda, opencl, cluster. *)
Inductive nanos6_device_t : Set :=
| nanos6_host_device
| nanos6_cuda_device
| nanos6_opencl_device
| nanos6_cluster_device.

#[global] Instance nanos6_device_eq_dec : EqDecision nanos6_device_t.
Proof. solve_decision. Defined.

(** A memory place: its index (the node index for a cluster memory
    node) and its device kind ([getIndex], [getType]). *)
Record MemoryPlace : Set := {
  mp_index : Z;
  mp_type  : nanos6_device_t
}.

#[global] Instance MemoryPlace_eq_dec : EqDecision MemoryPlace.
Proof. solve_decision. Defined.

(** A compute place; only its kind and index matter here. *)
Record ComputePlace : Set := {
  cp_index : Z;
  cp_type  : nanos6_device_t
}.

#[global] Instance ComputePlace_eq_dec : EqDecision ComputePlace.
Proof. solve_decision. Defined.

(** What the workflow code asks of [ClusterManager] and [Directory]. *)
Record Cluster : Set := {
  inClusterMode        : bool;
  getCurrentMemoryNode : MemoryPlace;
  directoryMemoryPlace : MemoryPlace
}.

(** Modelled from the spec: [Directory::isDirectoryMemoryPlace] (the
    directory is not among the sources) recognises the one distinguished
    directory memory place; a null pointer is not it. *)
Definition isDirectoryMemoryPlace (c : Cluster) (mp : option MemoryPlace) : bool :=
  match mp with
  | Some p => bool_decide (p = directoryMemoryPlace c)
  | None => false
  end.

End Hardware.
Import Hardware.

Module Access.

(** The access types that the workflow code tests, and the plain ones. *)
Inductive DataAccessType : Set :=
| READ_ACCESS_TYPE
| WRITE_ACCESS_TYPE
| READWRITE_ACCESS_TYPE
| CONCURRENT_ACCESS_TYPE
| COMMUTATIVE_ACCESS_TYPE
| REDUCTION_ACCESS_TYPE.

#[global] Instance DataAccessType_eq_dec : EqDecision DataAccessType.
Proof. solve_decision. Defined.

Record DataAccessRegion : Set := {
  startAddress : Z;
  regionLength : Z
}.

#[global] Instance DataAccessRegion_eq_dec : EqDecision DataAccessRegion.
Proof. solve_decision. Defined.

(** The fields of a [DataAccess] that the workflow reads or writes. *)
Record DataAccess : Set := {
  getType              : DataAccessType;
  isWeak               : bool;
  getAccessRegion      : DataAccessRegion;
  getLocation          : option MemoryPlace;
  getOutputLocation    : option MemoryPlace;
  getValidNamespaceSelf : option Z
}.

#[global] Instance DataAccess_eq_dec : EqDecision DataAccess.
Proof. solve_decision. Defined.

Definition setValidNamespaceSelf (a : DataAccess) (idx : Z) : DataAccess :=
  {| getType := getType a;
     isWeak := isWeak a;
     getAccessRegion := getAccessRegion a;
     getLocation := getLocation a;
     getOutputLocation := getOutputLocation a;
     getValidNamespaceSelf := Some idx |}.

End Access.
Import Access.

(** ** The workflow engine ([ExecutionWorkflow.cpp]) *)

Module ExecutionWorkflow.

Definition TaskId := nat.
Definition WorkflowId := nat.

(** Calls into collaborators whose code is elsewhere (the dependency
    registrar, [Task], [TaskFinalization], the instrumentation) are
    recorded as events, in the order in which they happen.  The last two
    events are for the scenarios: they record a [start()] of a step and a
    [fetchVector] where nothing more is known of what these calls do. *)
Inductive Event : Set :=
| EvEnterCreateDataCopyStep (isTaskwait : bool)
| EvExitCreateDataCopyStep (isTaskwait : bool)
| EvUnregisterLocallyPropagatedTaskDataAccesses (task : TaskId) (cpu : option ComputePlace)
| EvMarkAsFinished (task : TaskId) (cpu : option ComputePlace) (ret : bool)
| EvUnregisterTaskDataAccesses (task : TaskId) (cpu : option ComputePlace)
                               (location : option MemoryPlace) (flag : bool)
| EvTaskFinished (task : TaskId) (cpu : option ComputePlace)
| EvMarkAsReleased (task : TaskId) (ret : bool)
| EvDisposeTask (task : TaskId)
| EvPropagateSatisfiability (task successor : TaskId)
| EvCompleteDelayedRelease (task : TaskId)
| EvMarkAsUnblocked (task : TaskId)
| EvHandleExitTaskwait (task : TaskId) (cpu : option ComputePlace)
| EvEnterSetupTaskwaitWorkflow
| EvExitSetupTaskwaitWorkflow
| EvReleaseTaskwaitFragment (task : TaskId) (region : DataAccessRegion)
                            (cpu : option ComputePlace) (first : bool)
| EvDeleteWorkflow (w : WorkflowId)
| EvStepStart (step : nat)
| EvFetchVector (nFragments : nat) (copySteps : list nat)
                (source : option MemoryPlace).

#[global] Instance Event_eq_dec : EqDecision Event.
Proof. solve_decision. Defined.

(** The part of the process state the workflow code acts on: the trace
    of collaborator calls and the workflows that are allocated. *)
Record World : Set := {
  trace : list Event;
  liveWorkflows : list WorkflowId;
  allocations : nat
}.

Definition W (A : Type) : Type := World -> outcome (A * World).

#[global] Instance W_ret : MRet W := fun A a w => Returns (a, w).
#[global] Instance W_bind : MBind W := fun A B k m w =>
  match m w with
  | Returns (a, w') => k a w'
  | AssertionFails what => AssertionFails what
  | FatalError msg => FatalError msg
  end.

Definition emit (e : Event) : W unit := fun w =>
  Returns (tt, {| trace := trace w ++ [e];
                  liveWorkflows := liveWorkflows w;
                  allocations := allocations w |}).

Definition liftO {A} (m : outcome A) : W A := fun w =>
  match m with
  | Returns a => Returns (a, w)
  | AssertionFails what => AssertionFails what
  | FatalError msg => FatalError msg
  end.

(** [new Workflow<...>(...)]: a workflow no allocation has named yet. *)
Definition newWorkflow : W WorkflowId := fun w =>
  Returns (allocations w,
           {| trace := trace w;
              liveWorkflows := liveWorkflows w ++ [allocations w];
              allocations := S (allocations w) |}).

(** [delete workflow]. *)
Definition deleteWorkflow (wf : WorkflowId) : W unit := fun w =>
  Returns (tt, {| trace := trace w ++ [EvDeleteWorkflow wf];
                  liveWorkflows := filter (fun x => x ≠ wf) (liveWorkflows w);
                  allocations := allocations w |}).

(** [WorkerThread::getCurrentWorkerThread()] is null outside a worker;
    a worker has a compute place (its CPU), which may be null. *)
Record WorkerThread : Set := { getThreadComputePlace : option ComputePlace }.

Definition currentCPU (currThread : option WorkerThread) : option ComputePlace :=
  match currThread with
  | Some t => getThreadComputePlace t
  | None => None
  end.

(** A notification callback runs later, on whichever thread drives the
    last transition of the workflow: it receives that thread. *)
Definition Callback : Type := option WorkerThread -> W unit.

(** The steps a workflow is made of. *)
Inductive Step : Type :=
| NullStep
| ClusterDataCopyStep (source : option MemoryPlace) (target : MemoryPlace)
                      (region : DataAccessRegion)
| HostExecutionStep (task : TaskId) (computePlace : ComputePlace)
| ClusterExecutionStep (task : TaskId) (computePlace : ComputePlace)
| DataReleaseStep (task : TaskId)
| ClusterDataReleaseStep (task : TaskId)
| HostNotificationStep (callback : Callback)
| ClusterNotificationStep (callback : Callback).

Definition isNullStep (s : Step) : bool :=
  match s with NullStep => true | _ => false end.

Definition isClusterDataCopyStep (s : Step) : bool :=
  match s with ClusterDataCopyStep _ _ _ => true | _ => false end.

(** The two functions the transfer table holds. *)
Inductive data_transfer_function_t : Set := nullCopy | clusterCopy.

#[global] Instance data_transfer_function_eq_dec : EqDecision data_transfer_function_t.
Proof. solve_decision. Defined.

(** Modelled from the spec: [nullCopy] and [clusterCopy] are defined in
    the host and cluster workflow headers, which are not among the
    sources.  [nullCopy] builds a [Null] step (immediately satisfied);
    [clusterCopy] builds a [ClusterDataCopy] step from source to target. *)
Definition callTransfer (f : data_transfer_function_t)
    (source : option MemoryPlace) (target : MemoryPlace)
    (region : DataAccessRegion) (access : DataAccess) : Step :=
  match f with
  | nullCopy => NullStep
  | clusterCopy => ClusterDataCopyStep source target region
  end.

(** [_transfersMap[source][target]]. *)
Definition _transfersMap (source target : nanos6_device_t) : data_transfer_function_t :=
  match source, target with
  | nanos6_host_device,    nanos6_host_device    => nullCopy
  | nanos6_host_device,    nanos6_cuda_device    => nullCopy
  | nanos6_host_device,    nanos6_opencl_device  => nullCopy
  | nanos6_host_device,    nanos6_cluster_device => clusterCopy
  | nanos6_cuda_device,    nanos6_host_device    => nullCopy
  | nanos6_cuda_device,    nanos6_cuda_device    => nullCopy
  | nanos6_cuda_device,    nanos6_opencl_device  => nullCopy
  | nanos6_cuda_device,    nanos6_cluster_device => nullCopy
  | nanos6_opencl_device,  nanos6_host_device    => nullCopy
  | nanos6_opencl_device,  nanos6_cuda_device    => nullCopy
  | nanos6_opencl_device,  nanos6_opencl_device  => nullCopy
  | nanos6_opencl_device,  nanos6_cluster_device => nullCopy
  | nanos6_cluster_device, nanos6_host_device    => clusterCopy
  | nanos6_cluster_device, nanos6_cuda_device    => nullCopy
  | nanos6_cluster_device, nanos6_opencl_device  => nullCopy
  | nanos6_cluster_device, nanos6_cluster_device => clusterCopy
  end.

(** The three cells of the table that hold [clusterCopy]. *)
Definition clusterCopyCell (s t : nanos6_device_t) : Prop :=
  (s = nanos6_host_device /\ t = nanos6_cluster_device)
  \/ (s = nanos6_cluster_device /\ t = nanos6_host_device)
  \/ (s = nanos6_cluster_device /\ t = nanos6_cluster_device).

(** The test that opens [createDataCopyStep]. *)
Definition unsupportedAccessType (t : DataAccessType) : bool :=
  bool_decide (t = REDUCTION_ACCESS_TYPE)
  || bool_decide (t = COMMUTATIVE_ACCESS_TYPE)
  || bool_decide (t = CONCURRENT_ACCESS_TYPE).

(** The kind under which the source is looked up: host when it is null. *)
Definition sourceTypeOf (source : option MemoryPlace) : nanos6_device_t :=
  match source with
  | None => nanos6_host_device
  | Some s => mp_type s
  end.

(** [WorkflowBase::createDataCopyStep].  The access is passed by pointer
    and may be updated by [setValidNamespaceSelf]; the model returns it
    beside the step. *)
Definition createDataCopyStep (c : Cluster)
    (sourceMemoryPlace targetMemoryPlace : option MemoryPlace)
    (region : DataAccessRegion) (access : DataAccess) (isTaskwait : bool)
  : W (Step * DataAccess) :=
  emit (EvEnterCreateDataCopyStep isTaskwait);;
  if unsupportedAccessType (getType access) then
    emit (EvExitCreateDataCopyStep isTaskwait);;
    mret (NullStep, access)
  else
    liftO (assert (bool_decide (targetMemoryPlace ≠ None))
                  "targetMemoryPlace != nullptr");;
    liftO (assert (negb (isDirectoryMemoryPlace c targetMemoryPlace))
                  "!Directory::isDirectoryMemoryPlace(targetMemoryPlace)");;
    match targetMemoryPlace with
    | None => liftO (AssertionFails "targetMemoryPlace != nullptr")
    | Some target =>
      let sourceType := sourceTypeOf sourceMemoryPlace in
      let targetType := mp_type target in
      let access' :=
        if bool_decide (targetType = nanos6_host_device)
           || bool_decide (target = getCurrentMemoryNode c)
        then setValidNamespaceSelf access (mp_index (getCurrentMemoryNode c))
        else access in
      let step :=
        if isDirectoryMemoryPlace c sourceMemoryPlace && inClusterMode c
        then callTransfer clusterCopy sourceMemoryPlace target region access'
        else callTransfer (_transfersMap sourceType targetType)
                          sourceMemoryPlace target region access' in
      emit (EvExitCreateDataCopyStep isTaskwait);;
      mret (step, access')
    end.

(** The world after the two instrumentation hooks of [createDataCopyStep]. *)
Definition afterCopyStepHooks (isTaskwait : bool) (w : World) : World :=
  {| trace := trace w ++ [EvEnterCreateDataCopyStep isTaskwait;
                          EvExitCreateDataCopyStep isTaskwait];
     liveWorkflows := liveWorkflows w;
     allocations := allocations w |}.

(** [WorkflowBase::createExecutionStep]. *)
Definition createExecutionStep (task : TaskId) (computePlace : ComputePlace)
  : outcome Step :=
  match cp_type computePlace with
  | nanos6_host_device => mret (HostExecutionStep task computePlace)
  | nanos6_cluster_device => mret (ClusterExecutionStep task computePlace)
  | _ => FatalError "Execution workflow does not support this device yet"
  end.

(** [WorkflowBase::createNotificationStep]. *)
Definition createNotificationStep (callback : Callback)
    (computePlace : option ComputePlace) : outcome Step :=
  let type := match computePlace with
              | None => nanos6_host_device
              | Some cp => cp_type cp
              end in
  match type with
  | nanos6_host_device => mret (HostNotificationStep callback)
  | nanos6_cluster_device => mret (ClusterNotificationStep callback)
  | _ => FatalError "Execution workflow does not support this device yet"
  end.

(** *** Tasks and worker threads, as the workflow code sees them *)

(** The fields of a [Task] that [executeTask] reads and writes. *)
Record Task : Type := {
  taskId           : TaskId;
  isRemoteTask     : bool;
  mustDelayRelease : bool;
  hasFinished      : bool;
  getDataAccesses  : list DataAccess;
  getWorkflow      : option WorkflowId;
  getExecutionStep : option Step;
  getMemoryPlace   : option MemoryPlace;
  getComputePlace  : option ComputePlace
}.

Definition setMemoryPlace (t : Task) (mp : option MemoryPlace) : Task :=
  {| taskId := taskId t; isRemoteTask := isRemoteTask t;
     mustDelayRelease := mustDelayRelease t; hasFinished := hasFinished t;
     getDataAccesses := getDataAccesses t; getWorkflow := getWorkflow t;
     getExecutionStep := getExecutionStep t;
     getMemoryPlace := mp; getComputePlace := getComputePlace t |}.

Definition setWorkflow (t : Task) (w : option WorkflowId) : Task :=
  {| taskId := taskId t; isRemoteTask := isRemoteTask t;
     mustDelayRelease := mustDelayRelease t; hasFinished := hasFinished t;
     getDataAccesses := getDataAccesses t; getWorkflow := w;
     getExecutionStep := getExecutionStep t;
     getMemoryPlace := getMemoryPlace t; getComputePlace := getComputePlace t |}.

Definition setComputePlace (t : Task) (cp : option ComputePlace) : Task :=
  {| taskId := taskId t; isRemoteTask := isRemoteTask t;
     mustDelayRelease := mustDelayRelease t; hasFinished := hasFinished t;
     getDataAccesses := getDataAccesses t; getWorkflow := getWorkflow t;
     getExecutionStep := getExecutionStep t;
     getMemoryPlace := getMemoryPlace t; getComputePlace := cp |}.

Definition setDataAccesses (t : Task) (l : list DataAccess) : Task :=
  {| taskId := taskId t; isRemoteTask := isRemoteTask t;
     mustDelayRelease := mustDelayRelease t; hasFinished := hasFinished t;
     getDataAccesses := l; getWorkflow := getWorkflow t;
     getExecutionStep := getExecutionStep t;
     getMemoryPlace := getMemoryPlace t; getComputePlace := getComputePlace t |}.

(** The methods of [ClusterDataCopyStep] that [WorkflowBase::start] asks,
    whose code is not among the sources: their answers for each step are
    parameters.  A step is named by its position among the steps of its
    workflow. *)
Record CopyStepAnswers : Type := {
  requiresDataFetch : nat -> bool;
  getNumFragments : nat -> nat
}.

(** The code that is not among the sources.  The answers of the task's
    finalisation state machine, of the dependency registrar and of the
    directory are parameters of the model: what they return on the calls
    below, the text that [operator<<] writes for a region and the label of
    the task.  So are the step classes and the cluster manager: the
    answers of the copy steps, the addresses of the memory places, and
    what [Step::start] and [ClusterManager::fetchVector] do.  [start()] of
    a step may run the rest of the workflow, down to the callback of the
    notification step, before it returns; it may also not return. *)
Record Collaborators : Type := {
  markAsFinished_returns : bool;
  markAsReleased_returns : bool;
  successors : list TaskId;
  directoryFinds : DataAccessRegion -> bool;
  regionText : DataAccessRegion -> string;
  getLabel_returns : string;
  copySteps : CopyStepAnswers;
  placeAddress : option MemoryPlace -> Z;
  stepStart : nat -> W unit;
  fetchVector : nat -> list nat -> option MemoryPlace -> W unit
}.

(** [task->markAsFinished(cpu)]. *)
Definition markAsFinished (o : Collaborators) (task : Task)
    (cpu : option ComputePlace) : W bool :=
  emit (EvMarkAsFinished (taskId task) cpu (markAsFinished_returns o));;
  mret (markAsFinished_returns o).

(** [task->markAsReleased()]. *)
Definition markAsReleased (o : Collaborators) (task : Task) : W bool :=
  emit (EvMarkAsReleased (taskId task) (markAsReleased_returns o));;
  mret (markAsReleased_returns o).

(** Modelled from the spec: [DataAccessRegistration::unregisterTaskDataAccesses]
    belongs to the dependency registrar, which is not among the sources.
    The design runs the finalisation callback it is handed inside the
    registrar and before any satisfiability is propagated to the
    successors of the task. *)
Definition unregisterTaskDataAccesses (o : Collaborators) (task : Task)
    (cpu : option ComputePlace) (location : option MemoryPlace)
    (flag : bool) (finaliser : W unit) : W unit :=
  emit (EvUnregisterTaskDataAccesses (taskId task) cpu location flag);;
  finaliser;;
  mapM (fun s => emit (EvPropagateSatisfiability (taskId task) s)) (successors o);;
  mret tt.

(** The lambda handed to [unregisterTaskDataAccesses], on both paths of
    [executeTask]. *)
Definition finalisationCallback (o : Collaborators) (task : Task)
    (cpu : option ComputePlace) : W unit :=
  emit (EvTaskFinished (taskId task) cpu);;
  ret ← markAsReleased o task;
  if ret : bool then emit (EvDisposeTask (taskId task)) else mret tt.

(** The lambda that [executeTask] hands to [createNotificationStep]; it
    captures [task], [targetMemoryPlace] and [workflow]. *)
Definition notificationCallback (o : Collaborators) (task : Task)
    (targetMemoryPlace : option MemoryPlace) (workflow : WorkflowId) : Callback :=
  fun currThread =>
  let cpu := currentCPU currThread in
  emit (EvUnregisterLocallyPropagatedTaskDataAccesses (taskId task) cpu);;
  finished ← markAsFinished o task cpu;
  (if finished : bool then
     unregisterTaskDataAccesses o task cpu targetMemoryPlace false
       (finalisationCallback o task cpu)
   else mret tt);;
  deleteWorkflow workflow.

(** *** Building the workflow of a task *)

(** Modelled from the spec: the [Workflow] template with [enforceOrder],
    [addRootStep] and [Step::ready] lives in a header that is not among
    the sources.  A workflow is a small graph of steps; an edge orders
    one step before another; a step is ready when no edge enters it.
    Steps are named by their position in [steps]. *)
Record WorkflowGraph : Type := {
  steps : list Step;
  order : list (nat * nat);
  rootSteps : list nat;
  releaseAccesses : list DataAccess
}.

Definition emptyWorkflow : WorkflowGraph :=
  {| steps := []; order := []; rootSteps := []; releaseAccesses := [] |}.

Definition addStep (g : WorkflowGraph) (s : Step) : nat * WorkflowGraph :=
  (length (steps g),
   {| steps := steps g ++ [s]; order := order g;
      rootSteps := rootSteps g; releaseAccesses := releaseAccesses g |}).

Definition enforceOrder (g : WorkflowGraph) (a b : nat) : WorkflowGraph :=
  {| steps := steps g; order := order g ++ [(a, b)];
     rootSteps := rootSteps g; releaseAccesses := releaseAccesses g |}.

Definition addRootStep (g : WorkflowGraph) (a : nat) : WorkflowGraph :=
  {| steps := steps g; order := order g;
     rootSteps := rootSteps g ++ [a]; releaseAccesses := releaseAccesses g |}.

Definition addAccess (g : WorkflowGraph) (a : DataAccess) : WorkflowGraph :=
  {| steps := steps g; order := order g;
     rootSteps := rootSteps g; releaseAccesses := releaseAccesses g ++ [a] |}.

Definition ready (g : WorkflowGraph) (a : nat) : bool :=
  forallb (fun e => negb (snd e =? a)) (order g).

(** [WorkflowBase::createDataReleaseStep]. *)
Definition createDataReleaseStep (task : Task) : Step :=
  if isRemoteTask task then ClusterDataReleaseStep (taskId task)
  else DataReleaseStep (taskId task).

(** The message of the fatal error for an unknown region:
    [FatalErrorHandler::failIf] writes its arguments one after the other. *)
Definition unknownRegionMessage (o : Collaborators) (region : DataAccessRegion)
  : string :=
  "Non-weak access " +:+ regionText o region +:+ " of " +:+ getLabel_returns o
  +:+ " is an unknown region not from lmalloc, dmalloc or the stack".

(** The visitor that [executeTask] hands to [processAllDataAccesses],
    for one access; [accs] collects the accesses as the visitor leaves
    them. *)
Definition visitDataAccess (c : Cluster) (o : Collaborators)
    (targetComputePlace : ComputePlace) (targetMemoryPlace : option MemoryPlace)
    (executionStep : nat) (st : WorkflowGraph * list DataAccess)
    (dataAccess : DataAccess) : W (WorkflowGraph * list DataAccess) :=
  let '(g, accs) := st in
  let region := getAccessRegion dataAccess in
  let currLocation := getLocation dataAccess in
  liftO (failIf
           (negb (isWeak dataAccess)
            && inClusterMode c
            && isDirectoryMemoryPlace c currLocation
            && bool_decide (cp_type targetComputePlace = nanos6_host_device)
            && negb (directoryFinds o region))
           (unknownRegionMessage o region));;
  '(dataCopyRegionStep, dataAccess') ←
    createDataCopyStep c currLocation targetMemoryPlace region dataAccess false;
  let '(copy, g) := addStep g dataCopyRegionStep in
  let g := enforceOrder g copy executionStep in
  let g := addRootStep g copy in
  let g := addAccess g dataAccess' in
  mret (g, accs ++ [dataAccess']).

Fixpoint processAllDataAccesses {S} (visit : S -> DataAccess -> W S)
    (st : S) (accesses : list DataAccess) : W S :=
  match accesses with
  | [] => mret st
  | a :: rest => st' ← visit st a; processAllDataAccesses visit st' rest
  end.

(** *** Starting a workflow ([WorkflowBase::start]) *)

(** A [std::map] keyed by [MemoryPlace const *]: its entries are kept in
    the order of the keys, which is the order of the addresses; [addr]
    gives the address of a memory place (of the null pointer too). *)
Section PointerMap.
Context {V : Type}.
Variable addr : option MemoryPlace -> Z.

Fixpoint find (k : option MemoryPlace) (m : list (option MemoryPlace * V))
  : option V :=
  match m with
  | [] => None
  | (k', v) :: rest => if decide (k = k') then Some v else find k rest
  end.

Fixpoint insertSorted (k : option MemoryPlace) (v : V)
    (m : list (option MemoryPlace * V)) : list (option MemoryPlace * V) :=
  match m with
  | [] => [(k, v)]
  | (k', v') :: rest =>
    if (addr k <? addr k')%Z then (k, v) :: m
    else (k', v') :: insertSorted k v rest
  end.

Fixpoint alterKey (k : option MemoryPlace) (f : V -> V)
    (m : list (option MemoryPlace * V)) : list (option MemoryPlace * V) :=
  match m with
  | [] => []
  | (k', v) :: rest =>
    if decide (k = k') then (k', f v) :: rest
    else (k', v) :: alterKey k f rest
  end.

(** [m[k] = f(m[k])]: [operator[]] creates a missing entry with the
    value-initialised [d] first. *)
Definition updateAt (k : option MemoryPlace) (f : V -> V) (d : V)
    (m : list (option MemoryPlace * V)) : list (option MemoryPlace * V) :=
  match find k m with
  | Some _ => alterKey k f m
  | None => insertSorted k (f d) m
  end.

End PointerMap.

(** What [start] calls: [step->start()] on a root step, and
    [ClusterManager::fetchVector(nFragments, copySteps, source)].  A step
    is named by its position among the steps of the workflow. *)
Inductive StartCall : Set :=
| CallStepStart (step : nat)
| CallFetchVector (nFragments : nat) (copySteps : list nat)
                  (source : option MemoryPlace).

#[global] Instance StartCall_eq_dec : EqDecision StartCall.
Proof. solve_decision. Defined.

Definition StartState : Type :=
  list StartCall
  * list (option MemoryPlace * nat)
  * list (option MemoryPlace * list nat).

(** One iteration of the loop over [_rootSteps]. *)
Definition startRoot (c : Cluster) (q : CopyStepAnswers)
    (addr : option MemoryPlace -> Z) (st : StartState) (root : nat * Step)
  : outcome StartState :=
  let '(calls, fragments, groups) := st in
  let '(id, step) := root in
  match step with
  | ClusterDataCopyStep source target _ =>
    if requiresDataFetch q id then
      assert (bool_decide (target = getCurrentMemoryNode c))
             "clusterCopy->getTargetMemoryPlace() == ClusterManager::getCurrentMemoryNode()";;
      mret (calls,
            updateAt addr source (fun n => n + getNumFragments q id) 0 fragments,
            updateAt addr source (fun l => l ++ [id]) [] groups)
    else mret st
  | _ => mret (calls ++ [CallStepStart id], fragments, groups)
  end.

Fixpoint forEachRoot (visit : StartState -> nat * Step -> outcome StartState)
    (st : StartState) (roots : list (nat * Step)) : outcome StartState :=
  match roots with
  | [] => mret st
  | r :: rest => st' ← visit st r; forEachRoot visit st' rest
  end.

(** [WorkflowBase::start], on the root steps of the workflow: the calls
    it makes, in their order, when each call returns. *)
Definition start (c : Cluster) (q : CopyStepAnswers)
    (addr : option MemoryPlace -> Z) (rootSteps : list (nat * Step))
  : outcome (list StartCall) :=
  '(calls, fragments, groups) ←
    forEachRoot (startRoot c q addr) ([], [], []) rootSteps;
  mret (calls
        ++ map (fun it : option MemoryPlace * list nat =>
                  CallFetchVector (default 0 (find it.1 fragments)) it.2 it.1)
               groups).

(** The root steps of a workflow graph, each with its name. *)
Definition rootsOf (g : WorkflowGraph) : list (nat * Step) :=
  omap (fun i => (fun s => (i, s)) <$> steps g !! i) (rootSteps g).

(** [WorkflowBase::start] again, with the calls made: [step->start()]
    inside the loop over the root steps, [fetchVector] in the loop over
    the groups.  A call that does not return ends [start]. *)
Definition StartMaps : Type :=
  list (option MemoryPlace * nat) * list (option MemoryPlace * list nat).

Definition WorkflowBase_startRoot (c : Cluster) (o : Collaborators)
    (st : StartMaps) (root : nat * Step) : W StartMaps :=
  let '(fragments, groups) := st in
  let '(id, step) := root in
  match step with
  | ClusterDataCopyStep source target _ =>
    if requiresDataFetch (copySteps o) id then
      liftO (assert (bool_decide (target = getCurrentMemoryNode c))
               "clusterCopy->getTargetMemoryPlace() == ClusterManager::getCurrentMemoryNode()");;
      mret (updateAt (placeAddress o) source
              (fun n => n + getNumFragments (copySteps o) id) 0 fragments,
            updateAt (placeAddress o) source (fun l => l ++ [id]) [] groups)
    else mret st
  | _ => stepStart o id;; mret st
  end.

Fixpoint WorkflowBase_forEachRoot (visit : StartMaps -> nat * Step -> W StartMaps)
    (st : StartMaps) (roots : list (nat * Step)) : W StartMaps :=
  match roots with
  | [] => mret st
  | r :: rest => st' ← visit st r; WorkflowBase_forEachRoot visit st' rest
  end.

Fixpoint WorkflowBase_forEachGroup (o : Collaborators)
    (fragments : list (option MemoryPlace * nat))
    (groups : list (option MemoryPlace * list nat)) : W unit :=
  match groups with
  | [] => mret tt
  | it :: rest =>
    fetchVector o (default 0 (find it.1 fragments)) it.2 it.1;;
    WorkflowBase_forEachGroup o fragments rest
  end.

Definition WorkflowBase_start (c : Cluster) (o : Collaborators)
    (rootSteps : list (nat * Step)) : W unit :=
  '(fragments, groups) ←
    WorkflowBase_forEachRoot (WorkflowBase_startRoot c o) ([], []) rootSteps;
  WorkflowBase_forEachGroup o fragments groups.

(** [ExecutionWorkflow::executeTask].  It returns the task as the code of
    the function has set it and, on the first call for a task, the
    workflow it built.  The execution step of a task is the first step
    created for its workflow: its name is 0. *)
Definition executeTask (c : Cluster) (o : Collaborators)
    (currThread : option WorkerThread) (task : Task)
    (targetComputePlace : ComputePlace) (targetMemoryPlace : option MemoryPlace)
  : W (Task * option WorkflowGraph) :=
  match getWorkflow task with
  | Some _ =>
    match getExecutionStep task with
    | None =>
      liftO (assert (mustDelayRelease task) "task->mustDelayRelease()");;
      let cpu := currentCPU currThread in
      emit (EvCompleteDelayedRelease (taskId task));;
      emit (EvMarkAsUnblocked (taskId task));;
      emit (EvHandleExitTaskwait (taskId task) cpu);;
      liftO (assert (hasFinished task) "task->hasFinished()");;
      unregisterTaskDataAccesses o task cpu targetMemoryPlace false
        (finalisationCallback o task cpu);;
      mret (task, None)
    | Some _ =>
      stepStart o 0;;
      mret (task, None)
    end
  | None =>
    let task := setMemoryPlace task targetMemoryPlace in
    workflow ← newWorkflow;
    let g := emptyWorkflow in
    execStep ← liftO (createExecutionStep (taskId task) targetComputePlace);
    let '(executionStep, g) := addStep g execStep in
    notifStep ← liftO (createNotificationStep
                         (notificationCallback o task targetMemoryPlace workflow)
                         (Some targetComputePlace));
    let '(notificationStep, g) := addStep g notifStep in
    let '(releaseStep, g) := addStep g (createDataReleaseStep task) in
    let g := enforceOrder g executionStep releaseStep in
    let g := enforceOrder g releaseStep notificationStep in
    '(g, accesses) ← processAllDataAccesses
                       (visitDataAccess c o targetComputePlace targetMemoryPlace executionStep)
                       (g, []) (getDataAccesses task);
    let g := if ready g executionStep
             then addRootStep (enforceOrder g executionStep notificationStep) executionStep
             else g in
    let task := setDataAccesses task accesses in
    let task := setWorkflow task (Some workflow) in
    let task := setComputePlace task (Some targetComputePlace) in
    WorkflowBase_start c o (rootsOf g);;
    mret (task, Some g)
  end.

(** The lambda that [setupTaskwaitWorkflow] hands to
    [createNotificationStep]. *)
Definition taskwaitNotificationCallback
    (task : Task) (region : DataAccessRegion) (workflow : WorkflowId) : Callback :=
  fun releasingThread =>
  let releasingComputePlace := currentCPU releasingThread in
  emit (EvReleaseTaskwaitFragment (taskId task) region releasingComputePlace true);;
  deleteWorkflow workflow.

(** [ExecutionWorkflow::setupTaskwaitWorkflow]. *)
Definition setupTaskwaitWorkflow (c : Cluster) (o : Collaborators)
    (currentThread : option WorkerThread) (task : Task)
    (taskwaitFragment : DataAccess) : W (DataAccess * option WorkflowGraph) :=
  emit EvEnterSetupTaskwaitWorkflow;;
  let computePlace := currentCPU currentThread in
  let region := getAccessRegion taskwaitFragment in
  let targetLocation := getOutputLocation taskwaitFragment in
  match targetLocation with
  | None =>
    emit (EvReleaseTaskwaitFragment (taskId task) region computePlace false);;
    emit EvExitSetupTaskwaitWorkflow;;
    mret (taskwaitFragment, None)
  | Some _ =>
    workflow ← newWorkflow;
    let g := emptyWorkflow in
    notifStep ← liftO (createNotificationStep
                         (taskwaitNotificationCallback task region workflow)
                         computePlace);
    let '(notificationStep, g) := addStep g notifStep in
    let currLocation := getLocation taskwaitFragment in
    '(step, fragment') ←
      createDataCopyStep c currLocation targetLocation region taskwaitFragment true;
    let '(copyStep, g) := addStep g step in
    let g := addRootStep g copyStep in
    let g := enforceOrder g copyStep notificationStep in
    WorkflowBase_start c o (rootsOf g);;
    emit EvExitSetupTaskwaitWorkflow;;
    mret (fragment', Some g)
  end.

(** *** Reading traces *)

(** The world with further events at the end of its trace. *)
Definition addEvents (evs : list Event) (w : World) : World :=
  {| trace := trace w ++ evs;
     liveWorkflows := liveWorkflows w;
     allocations := allocations w |}.

(** [m] returns [a] and does nothing but add the events [evs]. *)
Definition emits {A} (m : W A) (a : A) (evs : list Event) : Prop :=
  forall w, m w = Returns (a, addEvents evs w).

(** An occurrence of [e1] comes before an occurrence of [e2]. *)
Definition happensBefore (e1 e2 : Event) (tr : list Event) : Prop :=
  exists i j, i < j /\ tr !! i = Some e1 /\ tr !! j = Some e2.

(** Every event of [tr] that satisfies [P] has an occurrence of [e]
    before it. *)
Definition precedesEvery (e : Event) (P : Event -> Prop) (tr : list Event) : Prop :=
  forall j x, tr !! j = Some x -> P x -> exists i, i < j /\ tr !! i = Some e.

Definition isPropagateSatisfiability (x : Event) : Prop :=
  exists t s, x = EvPropagateSatisfiability t s.

Definition isMarkAsReleased (x : Event) : Prop :=
  exists t r, x = EvMarkAsReleased t r.

(** What the registrar and the finalisation callback add to the trace. *)
Definition finalisationEvents (o : Collaborators) (task : Task)
    (cpu : option ComputePlace) (location : option MemoryPlace) : list Event :=
  [EvUnregisterTaskDataAccesses (taskId task) cpu location false;
   EvTaskFinished (taskId task) cpu;
   EvMarkAsReleased (taskId task) (markAsReleased_returns o)]
  ++ (if markAsReleased_returns o then [EvDisposeTask (taskId task)] else [])
  ++ map (EvPropagateSatisfiability (taskId task)) (successors o).

(** What the notification callback adds to the trace before it deletes
    the workflow. *)
Definition callbackEvents (o : Collaborators) (task : Task)
    (cpu : option ComputePlace) (location : option MemoryPlace) : list Event :=
  [EvUnregisterLocallyPropagatedTaskDataAccesses (taskId task) cpu;
   EvMarkAsFinished (taskId task) cpu (markAsFinished_returns o)]
  ++ (if markAsFinished_returns o then finalisationEvents o task cpu location else []).

End ExecutionWorkflow.

(** ** Reading the outcomes of the workflow functions *)

Module WorkflowOutcomes.
Import ExecutionWorkflow.

(** The debug-build test that [executeTask] runs on every access: a
    non-weak access, in cluster mode, located in the directory, for a
    task on a host compute place, whose region the directory does not
    know. *)
Definition unknownRegion (c : Cluster) (o : Collaborators)
    (targetComputePlace : ComputePlace) (a : DataAccess) : bool :=
  negb (isWeak a)
  && inClusterMode c
  && isDirectoryMemoryPlace c (getLocation a)
  && bool_decide (cp_type targetComputePlace = nanos6_host_device)
  && negb (directoryFinds o (getAccessRegion a)).

(** The accesses that the visitor of [executeTask] gets past. *)
Definition visitReturns (c : Cluster) (o : Collaborators)
    (targetComputePlace : ComputePlace) (targetMemoryPlace : option MemoryPlace)
    (a : DataAccess) : Prop :=
  unknownRegion c o targetComputePlace a = false
  /\ (unsupportedAccessType (getType a) = true
      \/ exists tgt, targetMemoryPlace = Some tgt
                     /\ isDirectoryMemoryPlace c (Some tgt) = false).

(** [step] and [a'] are what [createDataCopyStep] returns for the access
    [a] of a task, in whatever world it is called. *)
Definition copyStepOf (c : Cluster) (targetMemoryPlace : option MemoryPlace)
    (a : DataAccess) (r : Step * DataAccess) : Prop :=
  forall w, createDataCopyStep c (getLocation a) targetMemoryPlace
              (getAccessRegion a) a false w
            = Returns (r, afterCopyStepHooks false w).

(** The instrumentation events of the copy steps of [n] accesses. *)
Definition copyStepEvents (n : nat) : list Event :=
  concat (replicate n [EvEnterCreateDataCopyStep false;
                       EvExitCreateDataCopyStep false]).

(** What the visitor stops with on an access it does not get past. *)
Definition visitError {A} (c : Cluster) (o : Collaborators)
    (cp : ComputePlace) (tmp : option MemoryPlace) (a : DataAccess) : outcome A :=
  if unknownRegion c o cp a
  then FatalError (unknownRegionMessage o (getAccessRegion a))
  else if isDirectoryMemoryPlace c tmp
       then AssertionFails "!Directory::isDirectoryMemoryPlace(targetMemoryPlace)"
       else AssertionFails "targetMemoryPlace != nullptr".

(** How a function ends whose last call is [r] and which then returns
    [a]. *)
Definition andReturn {A B} (r : outcome (B * World)) (a : A) : outcome (A * World) :=
  match r with
  | Returns (_, w) => Returns (a, w)
  | AssertionFails what => AssertionFails what
  | FatalError msg => FatalError msg
  end.

(** The step classes and the cluster manager return from every call. *)
Definition stepCodeReturns (o : Collaborators) : Prop :=
  (forall id w, exists w', stepStart o id w = Returns (tt, w'))
  /\ (forall n l source w, exists w', fetchVector o n l source w = Returns (tt, w')).

(** The world in which [setupTaskwaitWorkflow] creates its steps. *)
Definition taskwaitWorld (w : World) : World :=
  {| trace := trace w ++ [EvEnterSetupTaskwaitWorkflow];
     liveWorkflows := liveWorkflows w ++ [allocations w];
     allocations := S (allocations w) |}.

End WorkflowOutcomes.

(** ** Reading what [WorkflowBase::start] does *)

Module WorkflowStart.
Import ExecutionWorkflow.

(** The calls of [start], made. *)
Definition perform (o : Collaborators) (call : StartCall) : W unit :=
  match call with
  | CallStepStart id => stepStart o id
  | CallFetchVector nFragments copySteps source =>
    fetchVector o nFragments copySteps source
  end.

Fixpoint performAll (o : Collaborators) (calls : list StartCall) : W unit :=
  match calls with
  | [] => mret tt
  | call :: rest => perform o call;; performAll o rest
  end.

(** A root step that is a cluster copy from [source] and requires a
    data fetch. *)
Definition fetches (q : CopyStepAnswers) (source : option MemoryPlace)
    (root : nat * Step) : bool :=
  match root.2 with
  | ClusterDataCopyStep s _ _ => requiresDataFetch q root.1 && bool_decide (s = source)
  | _ => false
  end.

(** The copy steps to fetch from [source], in the order of the roots. *)
Definition group (q : CopyStepAnswers) (roots : list (nat * Step))
    (source : option MemoryPlace) : list nat :=
  map fst (filter (fun r => fetches q source r = true) roots).

(** The root steps that are no cluster copies, in the order of the roots. *)
Definition started (roots : list (nat * Step)) : list nat :=
  map fst (filter (fun r : nat * Step => isClusterDataCopyStep r.2 = false) roots).

(** A cluster copy that requires a data fetch to somewhere else than the
    current node. *)
Definition fetchesElsewhere (c : Cluster) (q : CopyStepAnswers)
    (root : nat * Step) : Prop :=
  exists source target region,
    root.2 = ClusterDataCopyStep source target region
    /\ requiresDataFetch q root.1 = true
    /\ target <> getCurrentMemoryNode c.

#[global] Instance fetchesElsewhere_dec c q r : Decision (fetchesElsewhere c q r).
Proof.
  unfold fetchesElsewhere. destruct r as [id s]. cbn [fst snd].
  destruct s as [| source target region | | | | | |];
    try (right; intros (s & t & rg & H & _); discriminate).
  destruct (requiresDataFetch q id) eqn:Hq.
  - destruct (decide (target = getCurrentMemoryNode c)) as [Ht | Ht].
    + right. intros (s & t & rg & [= <- <- <-] & _ & Hne). congruence.
    + left. exists source, target, region. repeat split; assumption.
  - right. intros (s & t & rg & _ & H & _). congruence.
Defined.

(** The copy step of the [i]-th access of a task is a cluster copy that
    requires a data fetch to somewhere else than the current node.  The
    copy steps of a task come after its execution, notification and
    release steps: the one of the [i]-th access is step [3 + i]. *)
Definition accessFetchesElsewhere (c : Cluster) (o : Collaborators)
    (targetMemoryPlace : option MemoryPlace) (accesses : list DataAccess)
    (i : nat) : Prop :=
  exists a r,
    accesses !! i = Some a
    /\ WorkflowOutcomes.copyStepOf c targetMemoryPlace a r
    /\ fetchesElsewhere c (copySteps o) (3 + i, r.1).

(** What the first loop of [start] has established after the roots
    [pre]. *)
Record StartInv (q : CopyStepAnswers) (addr : option MemoryPlace -> Z)
    (pre : list (nat * Step)) (st : StartState) : Prop := {
  inv_calls : st.1.1 = map CallStepStart (started pre);
  inv_nodup : NoDup (map fst st.2);
  inv_sorted : Sorted (fun a b => (addr a <= addr b)%Z) (map fst st.2);
  inv_groups : forall source,
    find source st.2 = if decide (group q pre source = [])
                       then None else Some (group q pre source);
  inv_fragments : forall source,
    default 0 (find source st.1.2)
    = sum_list_with (getNumFragments q) (group q pre source)
}.

End WorkflowStart.

(** ** The choice of the scheduling policy ([SchedulerInterface.cpp]) *)

Module SchedulerInterface.

Inductive SchedulingPolicy : Set := FIFO_POLICY | LIFO_POLICY.

#[global] Instance SchedulingPolicy_eq_dec : EqDecision SchedulingPolicy.
Proof. solve_decision. Defined.

(** The preprocessor switches the constructor is compiled under. *)
Record Build : Set := {
  USE_CUDA      : bool;
  USE_OPENACC   : bool;
  NANOS6_OPENCL : bool;
  USE_FPGA      : bool
}.

(** The process environment: a variable is unset or holds a string. *)
Record Environment : Set := {
  NANOS6_SCHEDULING_POLICY   : option string;
  NANOS6_IMMEDIATE_SUCCESSOR : option bool;
  NANOS6_PRIORITY            : option bool
}.

(** [EnvironmentVariable<T>(name, default).getValue()]. *)
Definition getValue {T} (var : option T) (default : T) : T :=
  match var with Some v => v | None => default end.

Definition _schedulingPolicy (e : Environment) : string :=
  getValue (NANOS6_SCHEDULING_POLICY e) "fifo".
Definition _enableImmediateSuccessor (e : Environment) : bool :=
  getValue (NANOS6_IMMEDIATE_SUCCESSOR e) true.
Definition _enablePriority (e : Environment) : bool :=
  getValue (NANOS6_PRIORITY e) true.

(** What [SchedulerGenerator::createHostScheduler] and
    [createDeviceScheduler] are called with. *)
Record Scheduler : Set := {
  computePlaceCount        : nat;
  policy                   : SchedulingPolicy;
  enablePriority           : bool;
  enableImmediateSuccessor : bool
}.

Record SchedulerInterface : Set := {
  runtimeInfo      : list (string * string * string);
  _hostScheduler   : Scheduler;
  _cudaScheduler   : option Scheduler;
  _openaccScheduler : option Scheduler
}.

(** The counts the constructor obtains from [CPUManager] and
    [HardwareInfo]. *)
Record Counts : Set := {
  getTotalCPUs : nat;
  cudaComputePlaceCount : nat;
  openaccComputePlaceCount : nat
}.

(** The policy chosen from the value of the setting. *)
Definition choosePolicy (value : string) : SchedulingPolicy :=
  if bool_decide (value = "LIFO") || bool_decide (value = "lifo")
  then LIFO_POLICY else FIFO_POLICY.

(** [SchedulerInterface::SchedulerInterface()]. *)
Definition constructor (b : Build) (e : Environment) (n : Counts)
  : outcome SchedulerInterface :=
  let info := [("schedulingPolicy", "SchedulingPolicy", _schedulingPolicy e)] in
  let policy := choosePolicy (_schedulingPolicy e) in
  let mk count := {| computePlaceCount := count; policy := policy;
                     enablePriority := _enablePriority e;
                     enableImmediateSuccessor := _enableImmediateSuccessor e |} in
  let host := mk (getTotalCPUs n) in
  let cuda := if USE_CUDA b then Some (mk (cudaComputePlaceCount n)) else None in
  let openacc := if USE_OPENACC b then Some (mk (openaccComputePlaceCount n)) else None in
  failIf (NANOS6_OPENCL b) "OpenCL is not supported yet.";;
  failIf (USE_FPGA b) "FPGA is not supported yet.";;
  mret {| runtimeInfo := info; _hostScheduler := host;
          _cudaScheduler := cuda; _openaccScheduler := openacc |}.

End SchedulerInterface.

(** ** The destructor of [SchedulerInterface] *)

Module SchedulerTeardown.
Import SchedulerInterface.

(** [SchedulerInterface::~SchedulerInterface()]: the schedulers it
    deletes, in order.  [delete] of a null pointer does nothing. *)
Definition destructor (b : Build) (s : SchedulerInterface)
  : outcome (list Scheduler) :=
  let deleted := [_hostScheduler s] in
  let deleted := if USE_CUDA b
                 then deleted ++ option_list (_cudaScheduler s) else deleted in
  let deleted := if USE_OPENACC b
                 then deleted ++ option_list (_openaccScheduler s) else deleted in
  failIf (NANOS6_OPENCL b) "OpenCL is not supported yet.";;
  failIf (USE_FPGA b) "FPGA is not supported yet.";;
  mret deleted.

(** The schedulers an interface object points to. *)
Definition schedulersOf (s : SchedulerInterface) : list Scheduler :=
  [_hostScheduler s] ++ option_list (_cudaScheduler s)
  ++ option_list (_openaccScheduler s).

End SchedulerTeardown.

(** ** The leaf of the scheduler tree ([LeafScheduler.hpp]) *)

Module TreeScheduler.

(** A task is known to the scheduler by its address. *)
Definition Task := nat.
(** [SchedulerInterface::ReadyTaskHint], passed on to the queue untouched. *)
Definition ReadyTaskHint := nat.

(** Modelled from the spec: [TreeSchedulerQueueInterface] is declared in
    a header that is not among the sources, and its FIFO, LIFO and
    priority implementations are elsewhere.  The leaf relies on this
    much: [addTask] stores a task and answers with the new number of
    elements; [getTaskBatch n] takes up to [n] tasks out of the queue;
    [addTaskBatch] stores every task of a batch. *)
Class TreeSchedulerQueueInterface (Q : Type) : Type := {
  tasksOf      : Q -> list Task;
  getSize      : Q -> nat;
  addTask      : Q -> Task -> ReadyTaskHint -> nat * Q;
  addTaskBatch : Q -> list Task -> Q;
  getTaskBatch : Q -> nat -> list Task * Q;
  getSize_spec : forall q, getSize q = length (tasksOf q);
  addTask_spec : forall q t h,
    tasksOf (addTask q t h).2 ≡ₚ tasksOf q ++ [t]
    /\ (addTask q t h).1 = length (tasksOf q) + 1;
  addTaskBatch_spec : forall q b,
    tasksOf (addTaskBatch q b) ≡ₚ tasksOf q ++ b;
  getTaskBatch_spec : forall q n,
    (getTaskBatch q n).1 ++ tasksOf (getTaskBatch q n).2 ≡ₚ tasksOf q
    /\ length (getTaskBatch q n).1 = n `min` length (tasksOf q)
}.

(** Modelled from the spec: the polling slot ([polling_slot_t], declared
    with [SchedulerInterface]) is a single-task handoff cell; [setTask]
    succeeds when the slot is empty and fails when it is already full. *)
Definition polling_slot_t := option Task.

Definition setTask (slot : polling_slot_t) (task : Task) : bool * polling_slot_t :=
  match slot with
  | None => (true, Some task)
  | Some _ => (false, slot)
  end.

Section Leaf.
Context {Q : Type} `{!TreeSchedulerQueueInterface Q}.

(** The members of a [LeafScheduler], and what it has asked of its
    parent and of the thread manager so far. *)
Record LeafScheduler : Type := {
  _queueThreshold : nat;
  _rebalance      : bool;
  _pollingSlot    : polling_slot_t;
  _queue          : Q;
  _idle           : bool;
  (** batches handed to [_parent->addTaskBatch(this, ...)], oldest first *)
  parentBatches   : list (list Task);
  (** calls of [ThreadManager::resumeIdle(_computePlace)] *)
  resumeIdleCalls : nat
}.

(** [LeafScheduler::handleQueueOverflow], on the queue and the parent. *)
Definition handleQueueOverflow (threshold : nat) (q : Q)
    (parent : list (list Task)) : Q * list (list Task) :=
  let th := threshold / 2 in
  let th := if bool_decide (th = 0) then 1 else th in
  let '(taskBatch, q') := getTaskBatch q th in
  if bool_decide (0 < length taskBatch)
  then (q', parent ++ [taskBatch])
  else (q', parent).

(** The lines shared by both branches of [addTask]: store the task in
    the queue and hand tasks up when the queue has outgrown the
    threshold. *)
Definition enqueue (l : LeafScheduler) (task : Task) (hint : ReadyTaskHint)
  : Q * list (list Task) :=
  let '(elements, q) := addTask (_queue l) task hint in
  if bool_decide (_queueThreshold l < elements)
  then handleQueueOverflow (_queueThreshold l) q (parentBatches l)
  else (q, parentBatches l).

(** [LeafScheduler::addTask]. *)
Definition leafAddTask (l : LeafScheduler) (task : Task)
    (hasComputePlace : bool) (hint : ReadyTaskHint) : outcome LeafScheduler :=
  if hasComputePlace then
    assert (negb (_idle l)) "!_idle";;
    let '(q, parent) := enqueue l task hint in
    mret {| _queueThreshold := _queueThreshold l; _rebalance := false;
            _pollingSlot := _pollingSlot l; _queue := q; _idle := _idle l;
            parentBatches := parent; resumeIdleCalls := resumeIdleCalls l |}
  else
    let '(success, slot) := setTask (_pollingSlot l) task in
    let idle := _idle l in
    if success then
      mret {| _queueThreshold := _queueThreshold l; _rebalance := false;
              _pollingSlot := slot; _queue := _queue l; _idle := _idle l;
              parentBatches := parentBatches l;
              resumeIdleCalls := if idle then S (resumeIdleCalls l)
                                 else resumeIdleCalls l |}
    else
      let '(q, parent) := enqueue l task hint in
      mret {| _queueThreshold := _queueThreshold l; _rebalance := false;
              _pollingSlot := slot; _queue := q; _idle := _idle l;
              parentBatches := parent; resumeIdleCalls := resumeIdleCalls l |}.

(** [LeafScheduler::addTaskBatch]; [whoIsParent] is [who == _parent]. *)
Definition leafAddTaskBatch (l : LeafScheduler) (whoIsParent : bool)
    (taskBatch : list Task) : outcome LeafScheduler :=
  assert (bool_decide (0 < length taskBatch)) "taskBatch.size() > 0";;
  assert whoIsParent "who == _parent";;
  match last taskBatch with
  | None => AssertionFails "taskBatch.size() > 0"
  | Some task =>
    let '(success, slot) := setTask (_pollingSlot l) task in
    let idle := _idle l in
    let taskBatch' := if success then removelast taskBatch else taskBatch in
    mret {| _queueThreshold := _queueThreshold l; _rebalance := _rebalance l;
            _pollingSlot := slot;
            _queue := addTaskBatch (_queue l) taskBatch';
            _idle := _idle l;
            parentBatches := parentBatches l;
            resumeIdleCalls := if success && idle then S (resumeIdleCalls l)
                               else resumeIdleCalls l |}
  end.

(** [LeafScheduler::updateQueueThreshold]. *)
Definition updateQueueThreshold (l : LeafScheduler) (queueThreshold : nat)
  : LeafScheduler :=
  {| _queueThreshold := queueThreshold;
     _rebalance := if bool_decide (queueThreshold < _queueThreshold l)
                   then true else _rebalance l;
     _pollingSlot := _pollingSlot l; _queue := _queue l; _idle := _idle l;
     parentBatches := parentBatches l; resumeIdleCalls := resumeIdleCalls l |}.

End Leaf.
Arguments LeafScheduler Q : clear implicits.

(** *** Two queues that implement the interface *)

(** Modelled from the spec: a leaf queue keeps its tasks in arrival order
    (oldest first).  Under FIFO tasks are dequeued at the old end, under
    LIFO at the new end; a batch is taken from the end opposite to the
    one tasks are dequeued at. *)
Record Deque : Set := {
  dq_policy : SchedulerInterface.SchedulingPolicy;
  dq_tasks  : list Task
}.

Definition dq_addTask (q : Deque) (t : Task) (h : ReadyTaskHint) : nat * Deque :=
  (length (dq_tasks q) + 1,
   {| dq_policy := dq_policy q; dq_tasks := dq_tasks q ++ [t] |}).

Definition dq_addTaskBatch (q : Deque) (b : list Task) : Deque :=
  {| dq_policy := dq_policy q; dq_tasks := dq_tasks q ++ b |}.

Definition dq_getTaskBatch (q : Deque) (n : nat) : list Task * Deque :=
  let m := n `min` length (dq_tasks q) in
  match dq_policy q with
  | SchedulerInterface.FIFO_POLICY =>
    let keep := length (dq_tasks q) - m in
    (drop keep (dq_tasks q),
     {| dq_policy := dq_policy q; dq_tasks := take keep (dq_tasks q) |})
  | SchedulerInterface.LIFO_POLICY =>
    (take m (dq_tasks q),
     {| dq_policy := dq_policy q; dq_tasks := drop m (dq_tasks q) |})
  end.

Lemma dq_addTask_spec q t h :
  dq_tasks (dq_addTask q t h).2 ≡ₚ dq_tasks q ++ [t]
  /\ (dq_addTask q t h).1 = length (dq_tasks q) + 1.
Proof. split; reflexivity. Qed.

Lemma dq_getTaskBatch_spec q n :
  (dq_getTaskBatch q n).1 ++ dq_tasks (dq_getTaskBatch q n).2 ≡ₚ dq_tasks q
  /\ length (dq_getTaskBatch q n).1 = n `min` length (dq_tasks q).
Proof.
  unfold dq_getTaskBatch. destruct (dq_policy q); simpl.
  - split.
    + rewrite Permutation_app_comm, take_drop. reflexivity.
    + rewrite length_drop. lia.
  - split.
    + rewrite take_drop. reflexivity.
    + rewrite length_take. lia.
Qed.

#[global] Instance Deque_queue : TreeSchedulerQueueInterface Deque := {|
  tasksOf := dq_tasks;
  getSize := fun q => length (dq_tasks q);
  addTask := dq_addTask;
  addTaskBatch := dq_addTaskBatch;
  getTaskBatch := dq_getTaskBatch;
  getSize_spec := fun q => eq_refl;
  addTask_spec := dq_addTask_spec;
  addTaskBatch_spec := fun q b => reflexivity (dq_tasks q ++ b);
  getTaskBatch_spec := dq_getTaskBatch_spec
|}.

End TreeScheduler.

(** ** [LeafScheduler::getTask] and [LeafScheduler::disable] *)

Module LeafPolling.
Import TreeScheduler.

(** Modelled from the spec: [getTask] of the queue interface, declared in
    the header that is not among the sources, takes one task out of the
    queue, and answers null when the queue is empty. *)
Class TreeSchedulerQueueGetTask (Q : Type) `{!TreeSchedulerQueueInterface Q}
  : Type := {
  queueGetTask : Q -> option Task * Q;
  queueGetTask_spec : forall q,
    match queueGetTask q with
    | (Some t, q') => tasksOf q ≡ₚ t :: tasksOf q'
    | (None, q') => tasksOf q = [] /\ q' = q
    end
}.

(** Modelled from the spec: [polling_slot_t::getTask] takes the task out
    of the slot, which is left empty. *)
Definition slotGetTask (slot : polling_slot_t) : option Task * polling_slot_t :=
  (slot, None).

(** The calls of a leaf to [CPUManager] and to its parent, beside the
    batches it hands up. *)
Inductive LeafCall : Set :=
| UnidleCPU
| CpuBecomesIdle
| UnidleChild
| ParentGetTask.

#[global] Instance LeafCall_eq_dec : EqDecision LeafCall.
Proof. solve_decision. Defined.

(** What the parent does to a leaf while the leaf is inside
    [_parent->getTask(this)]: the parent, whose code is not among the
    sources, can reach the leaf only through the methods it is the caller
    of, [addTaskBatch] and [updateQueueThreshold]. *)
Inductive ParentOp : Set :=
| ParentAddsBatch (taskBatch : list Task)
| ParentUpdatesThreshold (queueThreshold : nat).

(** What another thread does to a leaf whose own thread is inside
    [getTask]: a call of the parent, or [addTask] from another CPU. *)
Inductive OtherOp : Set :=
| OtherParent (op : ParentOp)
| OtherAddsTask (task : Task) (hint : ReadyTaskHint).

Section Leaf.
Context {Q : Type} `{!TreeSchedulerQueueInterface Q}
        `{!TreeSchedulerQueueGetTask Q}.

Definition applyParentOp (l : LeafScheduler Q) (op : ParentOp)
  : outcome (LeafScheduler Q) :=
  match op with
  | ParentAddsBatch taskBatch => leafAddTaskBatch l true taskBatch
  | ParentUpdatesThreshold queueThreshold =>
    mret (updateQueueThreshold l queueThreshold)
  end.

Fixpoint applyParentOps (l : LeafScheduler Q) (ops : list ParentOp)
  : outcome (LeafScheduler Q) :=
  match ops with
  | [] => mret l
  | op :: rest => l' ← applyParentOp l op; applyParentOps l' rest
  end.

(** What the other threads do to a leaf while its own thread polls the
    slot: the parent hands a batch down or updates the threshold, or a
    thread of another CPU adds a task ([addTask] without compute place).
    Each of these calls is taken as a whole, between two looks of the
    leaf at its slot. *)
Definition applyOtherOp (l : LeafScheduler Q) (op : OtherOp)
  : outcome (LeafScheduler Q) :=
  match op with
  | OtherParent op => applyParentOp l op
  | OtherAddsTask task hint => leafAddTask l task false hint
  end.

Fixpoint applyOtherOps (l : LeafScheduler Q) (ops : list OtherOp)
  : outcome (LeafScheduler Q) :=
  match ops with
  | [] => mret l
  | op :: rest => l' ← applyOtherOp l op; applyOtherOps l' rest
  end.

Definition setPollingSlot (l : LeafScheduler Q) (slot : polling_slot_t)
  : LeafScheduler Q :=
  {| _queueThreshold := _queueThreshold l; _rebalance := _rebalance l;
     _pollingSlot := slot; _queue := _queue l; _idle := _idle l;
     parentBatches := parentBatches l;
     resumeIdleCalls := resumeIdleCalls l |}.

(** [task = _pollingSlot.getTask()], after what the other threads have
    done since the leaf last looked at the slot. *)
Definition pollSlot (others : list OtherOp) (l : LeafScheduler Q)
  : outcome (option Task * LeafScheduler Q) :=
  l ← applyOtherOps l others;
  let '(task, slot) := slotGetTask (_pollingSlot l) in
  mret (task, setPollingSlot l slot).

(** The loop [while (task == nullptr && iterations < _pollingIterations)].
    [_pollingIterations] is a [size_t] and [iterations] an [unsigned int]
    that starts from 0: [++iterations] wraps around at [2 ^ 32], and the
    comparison is made on [size_t].  [others k] is what the other threads
    do before the leaf looks at the slot for the [k]-th time, [polls] the
    number of looks so far.  The loop need not end: [fuel] bounds the
    number of passes, and the result is [None] when they do not suffice. *)
Definition incr (iterations : N) : N := ((iterations + 1) mod 2 ^ 32)%N.

Fixpoint poll (fuel : nat) (_pollingIterations : N) (others : nat -> list OtherOp)
    (polls : nat) (iterations : N) (l : LeafScheduler Q)
  : option (outcome (option Task * LeafScheduler Q * nat)) :=
  if (iterations <? _pollingIterations)%N then
    match fuel with
    | 0 => None
    | S fuel =>
      match pollSlot (others polls) l with
      | Returns (Some t, l) => Some (Returns (Some t, l, S polls))
      | Returns (None, l) =>
        poll fuel _pollingIterations others (S polls) (incr iterations) l
      | AssertionFails what => Some (AssertionFails what)
      | FatalError msg => Some (FatalError msg)
      end
    end
  else Some (Returns (None, l, polls)).

(** The end of [getTask], from [if (doWait)] on. *)
Definition pollOnce (others : nat -> list OtherOp) (l : LeafScheduler Q)
  : outcome (option Task * LeafScheduler Q * nat) :=
  '(task, l) ← pollSlot (others 0) l;
  mret (task, l, 1).

Definition afterPolling (others : nat -> list OtherOp) (calls : list LeafCall)
    (polled : option Task * LeafScheduler Q * nat)
  : outcome (option Task * LeafScheduler Q * list LeafCall) :=
  let '(task, l, polls) := polled in
  match task with
  | Some t => mret (Some t, l, calls)
  | None =>
    '(task, l) ← pollSlot (others polls) l;
    match task with
    | Some t => mret (Some t, l, calls)
    | None =>
      mret (None,
            {| _queueThreshold := _queueThreshold l; _rebalance := _rebalance l;
               _pollingSlot := _pollingSlot l; _queue := _queue l; _idle := true;
               parentBatches := parentBatches l;
               resumeIdleCalls := resumeIdleCalls l |},
            calls ++ [CpuBecomesIdle])
    end
  end.

(** [LeafScheduler::getTask].  The test [getSize() > _queueThreshold * 1.5]
    is written on integers.  The answer is [None] when the polling loop
    has not ended within [fuel] passes. *)
Definition leafGetTask (fuel : nat) (_pollingIterations : N)
    (parent : list ParentOp) (others : nat -> list OtherOp)
    (l : LeafScheduler Q) (doWait : bool)
  : option (outcome (option Task * LeafScheduler Q * list LeafCall)) :=
  let calls := if _idle l then [UnidleCPU] else [] in
  let '(task, slot) := slotGetTask (_pollingSlot l) in
  match task with
  | Some t =>
    Some (mret (Some t,
                {| _queueThreshold := _queueThreshold l; _rebalance := false;
                   _pollingSlot := slot; _queue := _queue l; _idle := false;
                   parentBatches := parentBatches l;
                   resumeIdleCalls := resumeIdleCalls l |},
                calls))
  | None =>
    let '(task, q) := queueGetTask (_queue l) in
    match task with
    | Some t =>
      let '(q, parentBatches') :=
        if _rebalance l && bool_decide (3 * _queueThreshold l < 2 * getSize q)
        then handleQueueOverflow (_queueThreshold l) q (parentBatches l)
        else (q, parentBatches l) in
      Some (mret (Some t,
                  {| _queueThreshold := _queueThreshold l; _rebalance := false;
                     _pollingSlot := slot; _queue := q; _idle := false;
                     parentBatches := parentBatches';
                     resumeIdleCalls := resumeIdleCalls l |},
                  calls))
    | None =>
      let calls := calls ++ [ParentGetTask] in
      match applyParentOps
              {| _queueThreshold := _queueThreshold l; _rebalance := false;
                 _pollingSlot := slot; _queue := q; _idle := false;
                 parentBatches := parentBatches l;
                 resumeIdleCalls := resumeIdleCalls l |}
              parent with
      | Returns l =>
        match (if doWait then poll fuel _pollingIterations others 0 0 l
               else Some (pollOnce others l)) with
        | Some polled => Some (polled ≫= afterPolling others calls)
        | None => None
        end
      | AssertionFails what => Some (AssertionFails what)
      | FatalError msg => Some (FatalError msg)
      end
    end
  end.

(** [LeafScheduler::disable]; [everything] is the [-1] that
    [getTaskBatch] receives as a number of elements. *)
Definition leafDisable (everything : nat) (l : LeafScheduler Q)
  : LeafScheduler Q * list LeafCall :=
  let calls := if _idle l then [UnidleChild; UnidleCPU] else [] in
  let '(taskBatch, q) := getTaskBatch (_queue l) everything in
  let '(pollingTask, slot) := slotGetTask (_pollingSlot l) in
  let taskBatch := match pollingTask with
                   | Some t => taskBatch ++ [t]
                   | None => taskBatch
                   end in
  ({| _queueThreshold := _queueThreshold l; _rebalance := _rebalance l;
      _pollingSlot := slot; _queue := q; _idle := false;
      parentBatches := if bool_decide (0 < length taskBatch)
                       then parentBatches l ++ [taskBatch]
                       else parentBatches l;
      resumeIdleCalls := resumeIdleCalls l |},
   calls).

(** The tasks a leaf holds, and those it has handed to its parent. *)
Definition heldTasks (l : LeafScheduler Q) : list Task :=
  option_list (_pollingSlot l) ++ tasksOf (_queue l).

Definition allTasks (l : LeafScheduler Q) : list Task :=
  heldTasks l ++ concat (parentBatches l).

(** The tasks that the parent delivers. *)
Definition delivered (ops : list ParentOp) : list Task :=
  concat (map (fun op => match op with
                         | ParentAddsBatch b => b
                         | ParentUpdatesThreshold _ => []
                         end) ops).

(** The tasks that the other threads bring, in one round and before the
    leaf has looked at the slot [polls] times. *)
Definition brought (ops : list OtherOp) : list Task :=
  concat (map (fun op => match op with
                         | OtherParent (ParentAddsBatch b) => b
                         | OtherParent (ParentUpdatesThreshold _) => []
                         | OtherAddsTask task _ => [task]
                         end) ops).

(** Those brought in the [n] rounds from round [from] on. *)
Definition arrivedFrom (others : nat -> list OtherOp) (from n : nat) : list Task :=
  concat (map (fun k => brought (others k)) (seq from n)).

Definition arrived (others : nat -> list OtherOp) (polls : nat) : list Task :=
  arrivedFrom others 0 polls.

(** The leaf when it asks its parent, and the calls it has made by then. *)
Definition askingLeaf (l : LeafScheduler Q) : LeafScheduler Q :=
  {| _queueThreshold := _queueThreshold l; _rebalance := false;
     _pollingSlot := None; _queue := _queue l; _idle := false;
     parentBatches := parentBatches l;
     resumeIdleCalls := resumeIdleCalls l |}.

Definition askingCalls (l : LeafScheduler Q) : list LeafCall :=
  (if _idle l then [UnidleCPU] else []) ++ [ParentGetTask].

End Leaf.

(** The queue of the scenarios takes a task at the old end under FIFO
    and at the new end under LIFO. *)
Definition dq_getTask (q : Deque) : option Task * Deque :=
  match dq_policy q with
  | SchedulerInterface.FIFO_POLICY =>
    match dq_tasks q with
    | [] => (None, q)
    | t :: rest => (Some t, {| dq_policy := dq_policy q; dq_tasks := rest |})
    end
  | SchedulerInterface.LIFO_POLICY =>
    match last (dq_tasks q) with
    | None => (None, q)
    | Some t => (Some t, {| dq_policy := dq_policy q;
                            dq_tasks := removelast (dq_tasks q) |})
    end
  end.

Lemma dq_getTask_spec q :
  match dq_getTask q with
  | (Some t, q') => dq_tasks q ≡ₚ t :: dq_tasks q'
  | (None, q') => dq_tasks q = [] /\ q' = q
  end.
Proof.
  unfold dq_getTask. destruct (dq_policy q).
  - destruct (dq_tasks q); [split; reflexivity | reflexivity].
  - destruct (dq_tasks q) as [| x l] using rev_ind; [split; reflexivity |].
    rewrite last_snoc, removelast_last. cbn [dq_tasks].
    symmetry. apply Permutation_cons_append.
Qed.

#[global] Instance Deque_getTask : TreeSchedulerQueueGetTask Deque := {|
  queueGetTask := dq_getTask;
  queueGetTask_spec := dq_getTask_spec
|}.

End LeafPolling.

(** ** The shutdown collective ([ThreadManager.cpp]) *)

(** The threads of the runtime run concurrently.  The model is a
    transition system: a state of the process, and a step function that
    lets one actor (the thread that called [shutdown], or one worker)
    take its next step.  A step is one pass through a loop body or one
    blocking call.  A spinning loop that finds nothing to do leaves the
    state as it is; a [pthread_join] on a thread that has not exited is
    not enabled, and what it answers once the thread has exited comes
    with the step.  An assertion that fails stops the process, and so
    does a fatal error. *)

Module ThreadManager.

(** Workers and CPUs are named by their position in [threads] and
    [_cpus]. *)
Abbreviation tid := nat (only parsing).
Abbreviation cpuid := nat (only parsing).

(** Where a worker is.  [Busy] workers are the ones "lagging behind":
    not in the idle queue yet.  A worker that was resumed with the
    shutdown signal runs [threadShutdownSequence] from [ShutdownEntry]. *)
Inductive WorkerStatus : Set :=
| Busy
| Idle
| ShutdownEntry
| ControllerLoop (isMainController : bool)
| ControllerJoin (next : tid) (isMainController : bool)
| Decrementing
| Exiting
| Exited.

#[global] Instance WorkerStatus_eq_dec : EqDecision WorkerStatus.
Proof. solve_decision. Defined.

(** A worker: where it is, the CPU it runs on, how many times it has
    executed [_shutdownThreads--] so far, what
    [WorkerThread::getCurrentWorkerThread()] answers on its thread (the
    thread-local [_currentWorkerThread]), the task it holds, and the CPU
    it is to be resumed on. *)
Record WorkerThread : Set := {
  status     : WorkerStatus;
  _cpu       : cpuid;
  decrements : nat;
  _currentWorkerThread : option tid;
  getTask    : option nat;
  _cpuToBeResumedOn : option cpuid
}.

Record CPU : Set := {
  acceptsWork              : bool;
  isBeingInitialized       : bool;
  _shutdownControlerThread : option tid
}.

(** Where the thread that called [ThreadManager::shutdown] is: before the
    call, at the head of the loop over [_cpus] (with its local
    [shutdownThreads] and [participatingCPUs]), inside that loop waiting
    for an idle thread, in the loop that joins the controllers, or back
    from the call. *)
Inductive ShutdownPc : Set :=
| NotCalled
| WakeLoop (k : nat) (shutdownThreads : Z) (participatingCPUs : list cpuid)
| WaitIdle (k : nat) (shutdownThreads : Z) (participatingCPUs : list cpuid)
| JoinLoop (remaining : list cpuid) (shutdownThreads : Z)
| Returned.

Record State : Set := {
  _mustExit : bool;
  _cpus : list (option CPU);
  _idleThreads : list tid;
  _totalThreads : Z;
  _shutdownThreads : Z;
  _mainShutdownControllerThread : option tid;
  threads : list WorkerThread;
  shutdown : ShutdownPc;
  failed : option string
}.

Definition setPc (pc : ShutdownPc) (s : State) : State :=
  {| _mustExit := _mustExit s; _cpus := _cpus s; _idleThreads := _idleThreads s;
     _totalThreads := _totalThreads s; _shutdownThreads := _shutdownThreads s;
     _mainShutdownControllerThread := _mainShutdownControllerThread s;
     threads := threads s; shutdown := pc; failed := failed s |}.

Definition fail (what : string) (s : State) : State :=
  {| _mustExit := _mustExit s; _cpus := _cpus s; _idleThreads := _idleThreads s;
     _totalThreads := _totalThreads s; _shutdownThreads := _shutdownThreads s;
     _mainShutdownControllerThread := _mainShutdownControllerThread s;
     threads := threads s; shutdown := shutdown s; failed := Some what |}.

Definition setThreads (ts : list WorkerThread) (s : State) : State :=
  {| _mustExit := _mustExit s; _cpus := _cpus s; _idleThreads := _idleThreads s;
     _totalThreads := _totalThreads s; _shutdownThreads := _shutdownThreads s;
     _mainShutdownControllerThread := _mainShutdownControllerThread s;
     threads := ts; shutdown := shutdown s; failed := failed s |}.

Definition setIdleThreads (idle : list tid) (s : State) : State :=
  {| _mustExit := _mustExit s; _cpus := _cpus s; _idleThreads := idle;
     _totalThreads := _totalThreads s; _shutdownThreads := _shutdownThreads s;
     _mainShutdownControllerThread := _mainShutdownControllerThread s;
     threads := threads s; shutdown := shutdown s; failed := failed s |}.

Definition setStatus (st : WorkerStatus) (th : WorkerThread) : WorkerThread :=
  {| status := st; _cpu := _cpu th; decrements := decrements th;
     _currentWorkerThread := _currentWorkerThread th; getTask := getTask th;
     _cpuToBeResumedOn := _cpuToBeResumedOn th |}.

(** Modelled from the spec: [FatalErrorHandler::handle(rc, ...)], whose
    code is not among the sources, aborts when the call it guards has
    failed, that is when [rc] is not zero.  The message is written from
    the pieces it is handed; the model keeps the first. *)
Definition handle (rc : Z) (msg : string) : outcome unit :=
  failIf (bool_decide (rc <> 0%Z)) msg.

(** [getIdleThread(cpu, true)]; the code is not among the sources.  It
    answers null when no worker is idle, and otherwise takes one idle
    worker out of the queue.  Which one (it prefers one bound to [cpu]) is
    left to [pick]: a position in the queue, the front when out of range. *)
Definition getIdleThread (idle : list tid) (pick : nat) : option (tid * list tid) :=
  let i := if bool_decide (pick < length idle) then pick else 0 in
  match idle !! i with
  | Some t => Some (t, delete i idle)
  | None => None
  end.

(** A parked worker is signalled to shut down and resumed on [cpu]:
    [signalShutdown(); _cpuToBeResumedOn = cpu; resume()], after which the
    worker takes [_cpuToBeResumedOn] for its CPU. *)
Definition resumeForShutdown (cpu : cpuid) (th : WorkerThread) : WorkerThread :=
  {| status := ShutdownEntry; _cpu := cpu; decrements := decrements th;
     _currentWorkerThread := _currentWorkerThread th; getTask := getTask th;
     _cpuToBeResumedOn := Some cpu |}.

Definition setControler (t : tid) (c : CPU) : CPU :=
  {| acceptsWork := acceptsWork c; isBeingInitialized := isBeingInitialized c;
     _shutdownControlerThread := Some t |}.

Definition hasExited (ts : list WorkerThread) (t : tid) : bool :=
  match ts !! t with
  | Some th => bool_decide (status th = Exited)
  | None => false
  end.

(** [next->getTask() != nullptr] and [next->_cpuToBeResumedOn != nullptr]. *)
Definition holdsTask (ts : list WorkerThread) (next : tid) : bool :=
  match ts !! next with
  | Some th => bool_decide (getTask th <> None)
  | None => false
  end.

Definition isToBeResumed (ts : list WorkerThread) (next : tid) : bool :=
  match ts !! next with
  | Some th => bool_decide (_cpuToBeResumedOn th <> None)
  | None => false
  end.

(** What [handle] makes of the answer [rc] of a [pthread_join]: the
    thread goes on in [s'], or the process stops in [s]. *)
Definition afterJoin (rc : Z) (s s' : State) : State :=
  match handle rc " during shutdown when joining pthread " with
  | Returns _ => s'
  | AssertionFails what | FatalError what => fail what s
  end.

(** The worker [t] once [threadStartup] has set the thread-local
    pointer, and once it has run to its end on [cpu]. *)
Definition setCurrentWorkerThread (t : tid) (th : WorkerThread) : WorkerThread :=
  {| status := status th; _cpu := _cpu th; decrements := decrements th;
     _currentWorkerThread := Some t; getTask := getTask th;
     _cpuToBeResumedOn := _cpuToBeResumedOn th |}.

Definition afterStartup (t : tid) (cpu : cpuid) (th : WorkerThread) : WorkerThread :=
  {| status := status th; _cpu := cpu; decrements := decrements th;
     _currentWorkerThread := Some t; getTask := getTask th;
     _cpuToBeResumedOn := None |}.

(** [ThreadManager::threadStartup], which a worker runs first, on
    itself: [currentThread] is the worker [t] and never null.  It stops
    on its assertions when the worker has no CPU or, once resumed, no CPU
    to be resumed on; else the thread-local pointer names the worker, the
    worker takes [_cpuToBeResumedOn] for its CPU and clears it.  The
    worker is suspended in the middle of the function until it is
    resumed, which [initialize] does as soon as it has created it; the
    model takes the function in one step.  Its calls to [CPUActivation]
    and to the instrumentation, whose code is elsewhere, are not
    followed. *)
Definition threadStartup (t : tid) (th : WorkerThread) (s : State) : State :=
  match _cpus s !! _cpu th with
  | Some (Some _) =>
    match _cpuToBeResumedOn th with
    | Some cpu => setThreads (alter (afterStartup t cpu) t (threads s)) s
    | None =>
      fail "currentThread->_cpuToBeResumedOn != nullptr"
           (setThreads (alter (setCurrentWorkerThread t) t (threads s)) s)
    end
  | _ => fail "currentThread->_cpu != nullptr" s
  end.

(** The worker after [_shutdownThreads--]. *)
Definition afterDecrement (th : WorkerThread) : WorkerThread :=
  {| status := Exiting; _cpu := _cpu th; decrements := S (decrements th);
     _currentWorkerThread := _currentWorkerThread th; getTask := getTask th;
     _cpuToBeResumedOn := _cpuToBeResumedOn th |}.

(** One step of the thread that runs [ThreadManager::shutdown]; [rc] is
    what [pthread_join] answers if the step is a join. *)
Definition shutdownStep (pick : nat) (rc : Z) (s : State) : option State :=
  match shutdown s with
  | NotCalled =>
    Some {| _mustExit := true; _cpus := _cpus s; _idleThreads := _idleThreads s;
            _totalThreads := _totalThreads s;
            _shutdownThreads := _totalThreads s;
            _mainShutdownControllerThread := _mainShutdownControllerThread s;
            threads := threads s;
            shutdown := WakeLoop 0 (_totalThreads s) [];
            failed := failed s |}
  | WakeLoop k shutdownThreads participatingCPUs =>
    match _cpus s !! k with
    | None =>
      if bool_decide (_mainShutdownControllerThread s = None)
      then Some (fail "_mainShutdownControllerThread != nullptr" s)
      else Some (setPc (JoinLoop participatingCPUs shutdownThreads) s)
    | Some cpu =>
      if negb (bool_decide (_totalThreads s = shutdownThreads))
      then Some (fail "_totalThreads == shutdownThreads" s)
      else if negb (bool_decide (_shutdownThreads s ≤ shutdownThreads)%Z)
      then Some (fail "_shutdownThreads <= shutdownThreads" s)
      else
        match cpu with
        | Some c =>
          if acceptsWork c
          then Some (setPc (WaitIdle k shutdownThreads participatingCPUs) s)
          else Some (setPc (WakeLoop (S k) shutdownThreads participatingCPUs) s)
        | None => Some (setPc (WakeLoop (S k) shutdownThreads participatingCPUs) s)
        end
    end
  | WaitIdle k shutdownThreads participatingCPUs =>
    match _cpus s !! k with
    | Some (Some c) =>
      if isBeingInitialized c then Some s
      else
        match getIdleThread (_idleThreads s) pick with
        | Some (idleThread, idle') =>
          if bool_decide (_shutdownControlerThread c = None) then
            Some {| _mustExit := _mustExit s;
                    _cpus := <[k := Some (setControler idleThread c)]> (_cpus s);
                    _idleThreads := idle';
                    _totalThreads := _totalThreads s;
                    _shutdownThreads := _shutdownThreads s;
                    _mainShutdownControllerThread :=
                      match _mainShutdownControllerThread s with
                      | None => Some idleThread
                      | Some m => Some m
                      end;
                    threads := alter (resumeForShutdown k) idleThread (threads s);
                    shutdown := WakeLoop (S k) shutdownThreads (k :: participatingCPUs);
                    failed := failed s |}
          else Some (fail "cpu->_shutdownControlerThread == nullptr"
                          (setIdleThreads idle' s))
        | None =>
          if bool_decide (0 < _shutdownThreads s)%Z then Some s
          else Some (setPc (WakeLoop (S k) shutdownThreads participatingCPUs) s)
        end
    | _ => None
    end
  | JoinLoop [] shutdownThreads =>
    if negb (bool_decide (_totalThreads s = shutdownThreads))
    then Some (fail "_totalThreads == shutdownThreads" s)
    else if negb (bool_decide (_shutdownThreads s = 0)%Z)
    then Some (fail "_shutdownThreads == 0" s)
    else Some (setPc Returned s)
  | JoinLoop (cpu :: rest) shutdownThreads =>
    if negb (bool_decide (_totalThreads s = shutdownThreads))
    then Some (fail "_totalThreads == shutdownThreads" s)
    else if negb (bool_decide (_shutdownThreads s ≤ shutdownThreads)%Z)
    then Some (fail "_shutdownThreads <= shutdownThreads" s)
    else
      match _cpus s !! cpu with
      | Some (Some c) =>
        match _shutdownControlerThread c with
        | Some shutdownControllerThread =>
          if hasExited (threads s) shutdownControllerThread
          then Some (afterJoin rc s (setPc (JoinLoop rest shutdownThreads) s))
          else None
        | None => Some (fail "shutdownControllerThread != nullptr" s)
        end
      | _ => None
      end
  | Returned => None
  end.

(** One step of worker [t]: a busy worker that has not been through
    [threadStartup] runs it; any other busy worker runs out of work and
    parks in the idle queue; a worker resumed with the shutdown signal
    runs [ThreadManager::threadShutdownSequence].  [rc] is what
    [pthread_join] answers if the step is a join.  The body of the
    worker, which runs its tasks and parks it, is not among the sources:
    parking leaves the fields of the worker as they are. *)
Definition workerStep (t : tid) (pick : nat) (rc : Z) (s : State) : option State :=
  match threads s !! t with
  | None => None
  | Some th =>
    match status th with
    | Busy =>
      if bool_decide (_currentWorkerThread th = None)
      then Some (threadStartup t th s)
      else Some (setIdleThreads (_idleThreads s ++ [t])
                   (setThreads (alter (setStatus Idle) t (threads s)) s))
    | Idle => None
    | ShutdownEntry =>
      match _cpus s !! _cpu th with
      | Some (Some c) =>
        if negb (bool_decide (_currentWorkerThread th = Some t))
        then Some (fail "WorkerThread::getCurrentWorkerThread() == currentThread" s)
        else if bool_decide (_shutdownControlerThread c = Some t)
        then
          let isMainController :=
            bool_decide (_mainShutdownControllerThread s = Some t) in
          Some (setThreads
                  (alter (setStatus (ControllerLoop isMainController)) t (threads s)) s)
        else Some (setThreads (alter (setStatus Decrementing) t (threads s)) s)
      | _ => Some (fail "cpu != nullptr" s)
      end
    | ControllerLoop isMainController =>
      match getIdleThread (_idleThreads s) pick with
      | Some (next, idle') =>
        if holdsTask (threads s) next
        then Some (fail "next->getTask() == nullptr" (setIdleThreads idle' s))
        else if isToBeResumed (threads s) next
        then Some (fail "next->_cpuToBeResumedOn == nullptr" (setIdleThreads idle' s))
        else
        Some (setIdleThreads idle'
                (setThreads
                   (alter (setStatus (ControllerJoin next isMainController)) t
                      (alter (resumeForShutdown (_cpu th)) next (threads s))) s))
      | None =>
        if negb isMainController
        then Some (setThreads (alter (setStatus Decrementing) t (threads s)) s)
        else if bool_decide (_shutdownThreads s = 1)%Z
        then Some (setThreads (alter (setStatus Decrementing) t (threads s)) s)
        else Some s
      end
    | ControllerJoin next isMainController =>
      if hasExited (threads s) next
      then Some (afterJoin rc s
                   (setThreads
                      (alter (setStatus (ControllerLoop isMainController)) t
                         (threads s)) s))
      else None
    | Decrementing =>
      Some {| _mustExit := _mustExit s; _cpus := _cpus s;
              _idleThreads := _idleThreads s;
              _totalThreads := _totalThreads s;
              _shutdownThreads := (_shutdownThreads s - 1)%Z;
              _mainShutdownControllerThread := _mainShutdownControllerThread s;
              threads := alter afterDecrement t (threads s);
              shutdown := shutdown s; failed := failed s |}
    | Exiting =>
      Some (setThreads (alter (setStatus Exited) t (threads s)) s)
    | Exited => None
    end
  end.

(** A CPU leaves its initialisation phase ([CPUActivation], elsewhere). *)
Definition cpuStarted (c : cpuid) (s : State) : option State :=
  match _cpus s !! c with
  | Some (Some cpu) =>
    Some {| _mustExit := _mustExit s;
            _cpus := <[c := Some {| acceptsWork := acceptsWork cpu;
                                    isBeingInitialized := false;
                                    _shutdownControlerThread :=
                                      _shutdownControlerThread cpu |}]> (_cpus s);
            _idleThreads := _idleThreads s;
            _totalThreads := _totalThreads s;
            _shutdownThreads := _shutdownThreads s;
            _mainShutdownControllerThread := _mainShutdownControllerThread s;
            threads := threads s; shutdown := shutdown s; failed := failed s |}
  | _ => None
  end.

(** What moves next: the thread inside [shutdown], a worker, or a CPU;
    [pick] is the choice of [getIdleThread] and [rc] the answer of
    [pthread_join], where the step calls them. *)
Inductive Action : Set :=
| Shutdown (pick : nat) (rc : Z)
| Worker (t : tid) (pick : nat) (rc : Z)
| CPUStarted (c : cpuid).

(** Nothing moves once the process has stopped. *)
Definition step (a : Action) (s : State) : option State :=
  match failed s with
  | Some _ => None
  | None =>
    match a with
    | Shutdown pick rc => shutdownStep pick rc s
    | Worker t pick rc => workerStep t pick rc s
    | CPUStarted c => cpuStarted c s
    end
  end.

Fixpoint run (schedule : list Action) (s : State) : option State :=
  match schedule with
  | [] => Some s
  | a :: rest =>
    match step a s with
    | Some s' => run rest s'
    | None => None
    end
  end.

(** A state in which [shutdown] may be called: it has not been called,
    [_totalThreads] counts the workers, every worker is busy or parked,
    the idle queue holds parked workers only, each once, and no shutdown
    controller has been named. *)
Definition initial (s : State) : Prop :=
  shutdown s = NotCalled
  /\ _mustExit s = false
  /\ failed s = None
  /\ _totalThreads s = Z.of_nat (length (threads s))
  /\ NoDup (_idleThreads s)
  /\ (forall t, t ∈ _idleThreads s ->
                exists th, threads s !! t = Some th /\ status th = Idle)
  /\ (forall t th, threads s !! t = Some th ->
                   (status th = Busy \/ status th = Idle) /\ decrements th = 0)
  /\ _mainShutdownControllerThread s = None
  /\ (forall k c, _cpus s !! k = Some (Some c) -> _shutdownControlerThread c = None).

Definition reachable (s0 s : State) : Prop :=
  initial s0 /\ exists schedule, run schedule s0 = Some s.

(** *** The invariant of the collective *)

(** The workers that have not executed [_shutdownThreads--] yet. *)
Fixpoint pendingThreads (ts : list WorkerThread) : nat :=
  match ts with
  | [] => 0
  | th :: rest =>
    (if bool_decide (decrements th = 0) then 1 else 0) + pendingThreads rest
  end.

Definition controlerOf (cpus : list (option CPU)) (c : cpuid) : option tid :=
  match cpus !! c with
  | Some (Some cpu) => _shutdownControlerThread cpu
  | _ => None
  end.

(** How far the main shutdown controller [m] has got, and what that says
    about the other workers: it leaves its loop only as the last worker
    that has not decremented the counter. *)
Definition mainProgress (s : State) (m : tid) (th : WorkerThread) : Prop :=
  match status th with
  | Busy | Idle => False
  | ShutdownEntry => controlerOf (_cpus s) (_cpu th) = Some m
  | ControllerLoop b | ControllerJoin _ b => b = true
  | Decrementing => pendingThreads (threads s) = 1
  | Exiting | Exited => pendingThreads (threads s) = 0
  end.

(** The invariant on the workers and the counters. *)
Record ThreadsInv (s : State) : Prop := {
  inv_total : _totalThreads s = Z.of_nat (length (threads s));
  inv_idle_nodup : NoDup (_idleThreads s);
  inv_idle : forall t, t ∈ _idleThreads s ->
               exists th, threads s !! t = Some th /\ status th = Idle;
  inv_dec : forall t th, threads s !! t = Some th ->
              decrements th = match status th with
                              | Exiting | Exited => 1
                              | _ => 0
                              end;
  inv_count : _mustExit s = true ->
              _shutdownThreads s = Z.of_nat (pendingThreads (threads s));
  inv_before : _mustExit s = false ->
               _mainShutdownControllerThread s = None
               /\ (forall k, controlerOf (_cpus s) k = None)
               /\ forall t th, threads s !! t = Some th ->
                                status th = Busy \/ status th = Idle;
  inv_main : forall m, _mainShutdownControllerThread s = Some m ->
               exists th, threads s !! m = Some th /\ mainProgress s m th
}.

(** The invariant on the thread that runs [shutdown]: the CPU of the main
    controller is among the participating CPUs until it has been joined. *)
Definition PcInv (s : State) : Prop :=
  match shutdown s with
  | NotCalled => _mustExit s = false
  | WakeLoop k sh part | WaitIdle k sh part =>
    _mustExit s = true
    /\ forall m, _mainShutdownControllerThread s = Some m ->
                 exists c, c ∈ part /\ controlerOf (_cpus s) c = Some m
  | JoinLoop rest sh =>
    _mustExit s = true
    /\ exists m, _mainShutdownControllerThread s = Some m
                 /\ ((exists c, c ∈ rest /\ controlerOf (_cpus s) c = Some m)
                     \/ hasExited (threads s) m = true)
  | Returned =>
    _mustExit s = true
    /\ exists m, _mainShutdownControllerThread s = Some m
                 /\ hasExited (threads s) m = true
  end.

Definition Inv (s : State) : Prop := ThreadsInv s /\ PcInv s.

End ThreadManager.

(** ** Starting the workers ([ThreadManager.cpp], [CPUManager.cpp]) *)

Module Startup.
Import ThreadManager.

(** A [cpu_set_t]: [CPU_ISSET] answers for the CPUs below [CPU_SETSIZE]
    and is false for any other. *)
Definition cpu_set_t : Type := nat -> bool.

Definition CPU_ISSET (CPU_SETSIZE : nat) (cpu : nat) (set : cpu_set_t) : bool :=
  bool_decide (cpu < CPU_SETSIZE) && set cpu.

(** The loop of [ThreadManager::preinitialize] from index [i] on, over
    the compute nodes that are left; the state is [_cpus], [_totalCPUs]
    and [_totalThreads]. *)
Fixpoint preinitializeLoop (CPU_SETSIZE : nat) (processCPUMask : cpu_set_t)
    (shutdownThreads : Z) (i : nat) (cpus : list (option CPU))
    (st : list (option CPU) * Z * Z) : outcome (list (option CPU) * Z * Z) :=
  match cpus with
  | [] => mret st
  | cpu :: rest =>
    let '(_cpus, totalCPUs, totalThreads) := st in
    let _cpus := <[i := cpu]> _cpus in
    st' ← (if CPU_ISSET CPU_SETSIZE i processCPUMask then
             assert (bool_decide (cpu <> None)) "_cpus[i] != nullptr";;
             assert (bool_decide (shutdownThreads = 0%Z)) "_shutdownThreads == 0";;
             mret (_cpus, (totalCPUs + 1)%Z, (totalThreads + 1)%Z)
           else mret (_cpus, totalCPUs, totalThreads));
    preinitializeLoop CPU_SETSIZE processCPUMask shutdownThreads (S i) rest st'
  end.

(** [ThreadManager::preinitialize]: [rc] and [processCPUMask] are what
    [sched_getaffinity] answers, [cpus] what [HardwareInfo::getComputeNodes]
    answers.  It returns the state of the manager and [_totalCPUs]. *)
Definition preinitialize (CPU_SETSIZE : nat) (rc : Z) (processCPUMask : cpu_set_t)
    (cpus : list (option CPU)) : outcome (State * Z) :=
  handle rc " when retrieving the affinity of the current pthread ";;
  '(_cpus, totalCPUs, totalThreads) ←
    preinitializeLoop CPU_SETSIZE processCPUMask 0 0 cpus
      (replicate CPU_SETSIZE None, 0%Z, 0%Z);
  mret ({| _mustExit := false; _cpus := _cpus; _idleThreads := [];
           _totalThreads := totalThreads; _shutdownThreads := 0;
           _mainShutdownControllerThread := None; threads := [];
           shutdown := NotCalled; failed := None |},
        totalCPUs).

(** Modelled from the spec: [ThreadManager::getCPU], defined in the header
    that is not among the sources, reads [_cpus] at the system id. *)
Definition getCPU (s : State) (systemCPUId : nat) : option CPU :=
  match _cpus s !! systemCPUId with
  | Some cpu => cpu
  | None => None
  end.

(** The loop of [ThreadManager::initialize] over the system ids that are
    left.  The worker it creates is on its way to its first suspension. *)
Fixpoint initializeLoop (CPU_SETSIZE : nat) (processCPUMask : cpu_set_t)
    (ids : list nat) (s : State) : outcome State :=
  match ids with
  | [] => mret s
  | systemCPUId :: rest =>
    s' ← (if CPU_ISSET CPU_SETSIZE systemCPUId processCPUMask then
            assert (bool_decide (getCPU s systemCPUId <> None)) "cpu != nullptr";;
            assert (bool_decide (_shutdownThreads s = 0%Z)) "_shutdownThreads == 0";;
            mret (setThreads (threads s ++ [{| status := Busy;
                                               _cpu := systemCPUId;
                                               decrements := 0;
                                               _currentWorkerThread := None;
                                               getTask := None;
                                               _cpuToBeResumedOn :=
                                                 Some systemCPUId |}]) s)
          else mret s);
    initializeLoop CPU_SETSIZE processCPUMask rest s'
  end.

(** [ThreadManager::initialize]; it returns the state and
    [_finishedCPUInitialization]. *)
Definition initialize (CPU_SETSIZE : nat) (processCPUMask : cpu_set_t)
    (s : State) : outcome (State * bool) :=
  s' ← initializeLoop CPU_SETSIZE processCPUMask (seq 0 CPU_SETSIZE) s;
  mret (s', true).

(** The CPUs of the mask among the first [n]. *)
Definition enabledBelow (CPU_SETSIZE : nat) (processCPUMask : cpu_set_t)
    (n : nat) : list nat :=
  filter (fun i => CPU_ISSET CPU_SETSIZE i processCPUMask = true) (seq 0 n).

(** *** [CPUManager] *)

(** The loop of [CPUManager::preinitialize] from index [i] on, over the
    system ids of the compute nodes that are left; the state is [_cpus]
    and [_totalCPUs]. *)
Fixpoint cpuPreinitializeLoop (CPU_SETSIZE : nat) (processCPUMask : cpu_set_t)
    (i : nat) (systemCPUIds : list nat) (st : list (option nat) * nat)
  : list (option nat) * nat :=
  match systemCPUIds with
  | [] => st
  | id :: rest =>
    let '(_cpus, _totalCPUs) := st in
    let st' := if CPU_ISSET CPU_SETSIZE id processCPUMask
               then (<[i := Some id]> _cpus, S _totalCPUs)
               else st in
    cpuPreinitializeLoop CPU_SETSIZE processCPUMask (S i) rest st'
  end.

(** [CPUManager::preinitialize]; a CPU is known by its system id.  It
    returns [_cpus], [_totalCPUs], [_idleCPUs] and
    [_finishedCPUInitialization]. *)
Definition cpuPreinitialize (CPU_SETSIZE : nat) (rc : Z)
    (processCPUMask : cpu_set_t) (systemCPUIds : list nat)
  : outcome (list (option nat) * nat * list bool * bool) :=
  handle rc " when retrieving the affinity of the process";;
  let '(_cpus, _totalCPUs) :=
    cpuPreinitializeLoop CPU_SETSIZE processCPUMask 0 systemCPUIds
      (replicate (length systemCPUIds) None, 0) in
  mret (_cpus, _totalCPUs, replicate (length _cpus) false, false).

(** The loop of [CPUManager::initialize]: the CPUs that
    [ThreadManager::initializeThread] is called with. *)
Fixpoint cpuInitializeLoop (_cpus : list (option nat)) (calls : list nat)
  : list nat :=
  match _cpus with
  | [] => calls
  | Some cpu :: rest => cpuInitializeLoop rest (calls ++ [cpu])
  | None :: rest => cpuInitializeLoop rest calls
  end.

(** [CPUManager::initialize]; it returns the calls and
    [_finishedCPUInitialization]. *)
Definition cpuInitialize (_cpus : list (option nat)) : list nat * bool :=
  (cpuInitializeLoop _cpus [], true).

(** The worker that [initialize] creates on a CPU. *)
Definition newWorker (cpu : cpuid) : WorkerThread :=
  {| status := Busy; _cpu := cpu; decrements := 0;
     _currentWorkerThread := None; getTask := None;
     _cpuToBeResumedOn := Some cpu |}.

End Startup.

(** ** What the shutdown collective relies on *)

Module ShutdownChecks.
Import ThreadManager.

(** A worker that has not been woken for the shutdown. *)
Definition parked (th : WorkerThread) : Prop :=
  status th = Busy \/ status th = Idle.

(** There is nobody to wake: no worker at all, or no CPU that accepts
    work. *)
Definition nobodyToWake (s : State) : Prop :=
  forall j c, _cpus s !! j = Some (Some c) -> acceptsWork c = true ->
              threads s = [].

(** What the thread inside [shutdown] can rely on: its local
    [shutdownThreads] is [_totalThreads]; the CPUs it has not visited yet
    have no controller and the participating CPUs have one; and as long
    as no main controller is named, there was nobody to wake on the CPUs
    visited so far. *)
Definition PcSanity (s : State) : Prop :=
  match shutdown s with
  | NotCalled | Returned => True
  | WakeLoop k sh part | WaitIdle k sh part =>
    sh = _totalThreads s
    /\ (forall j, k <= j -> controlerOf (_cpus s) j = None)
    /\ (forall c, c ∈ part -> controlerOf (_cpus s) c <> None)
    /\ (_mainShutdownControllerThread s = None ->
        forall j c, j < k -> _cpus s !! j = Some (Some c) ->
                    acceptsWork c = true -> threads s = [])
  | JoinLoop rest sh =>
    sh = _totalThreads s
    /\ forall c, c ∈ rest -> controlerOf (_cpus s) c <> None
  end.

Record SanityInv (s : State) : Prop := {
  san_cpu : forall t th, threads s !! t = Some th -> ~ parked th ->
              exists c, _cpus s !! _cpu th = Some (Some c);
  san_main : _mainShutdownControllerThread s = None ->
             forall t th, threads s !! t = Some th -> parked th;
  san_pc : PcSanity s;
  san_failed : failed s = None
               \/ (failed s = Some "_mainShutdownControllerThread != nullptr"
                   /\ nobodyToWake s)
               \/ failed s = Some " during shutdown when joining pthread "
}.

(** The step comes with an error for the answer of [pthread_join]. *)
Definition joinFails (a : Action) : Prop :=
  match a with
  | Shutdown _ rc | Worker _ _ rc => rc <> 0%Z
  | CPUStarted _ => False
  end.

(** What the collective relies on in a worker [t], and the code outside
    [ThreadManager.cpp] is to see to.  A worker that is yet to run
    [threadStartup] is as [initialize] has left it: on a CPU, with a CPU
    to be resumed on.  A worker that has run it is named by the
    thread-local pointer of its thread and, as long as nobody has resumed
    it for the shutdown, has no CPU to be resumed on.  A worker that is
    parked or on its way to the idle queue holds no task. *)
Definition workerReady (cpus : list (option CPU)) (t : tid) (th : WorkerThread)
  : Prop :=
  match status th with
  | Busy =>
    getTask th = None
    /\ ((_currentWorkerThread th = Some t /\ _cpuToBeResumedOn th = None)
        \/ (_currentWorkerThread th = None /\ _cpuToBeResumedOn th <> None
            /\ exists c, cpus !! _cpu th = Some (Some c)))
  | Idle =>
    getTask th = None
    /\ _currentWorkerThread th = Some t /\ _cpuToBeResumedOn th = None
  | _ => _currentWorkerThread th = Some t
  end.

Definition workersReady (s : State) : Prop :=
  forall t th, threads s !! t = Some th -> workerReady (_cpus s) t th.

End ShutdownChecks.

(** ** Who joins whom

    [shutdown] joins the controller of every participating CPU, and a
    controller joins every worker it wakes, before it looks for the next
    one.  The invariant below says that every worker inside
    [threadShutdownSequence] has somebody who is going to join it. *)
Module ShutdownJoins.
Import ThreadManager.

(** A worker inside [threadShutdownSequence]: resumed with the shutdown
    signal and not through [exit()] yet. *)
Definition inSequence (th : WorkerThread) : Prop :=
  match status th with
  | Busy | Idle | Exited => False
  | _ => True
  end.

(** A worker inside the loop of a controller. *)
Definition controlling (th : WorkerThread) : Prop :=
  match status th with
  | ControllerLoop _ | ControllerJoin _ _ => True
  | _ => False
  end.

(** The controller [t] of CPU [c] and the thread inside [shutdown]: the
    CPU is in [participatingCPUs], and in the second loop it is still to
    be visited unless [t] has exited. *)
Definition joinedByShutdown (s : State) (c : cpuid) (t : tid) : Prop :=
  match shutdown s with
  | NotCalled => False
  | WakeLoop _ _ part | WaitIdle _ _ part => c ∈ part
  | JoinLoop rest _ => c ∈ rest \/ hasExited (threads s) t = true
  | Returned => hasExited (threads s) t = true
  end.

Record JoinInv (s : State) : Prop := {
  join_ctl : forall c t, controlerOf (_cpus s) c = Some t -> joinedByShutdown s c t;
  join_role : forall t th, threads s !! t = Some th -> controlling th ->
                controlerOf (_cpus s) (_cpu th) = Some t;
  join_joiner : forall t th, threads s !! t = Some th -> inSequence th ->
                  controlerOf (_cpus s) (_cpu th) = Some t
                  \/ exists t' th' b, threads s !! t' = Some th'
                                      /\ status th' = ControllerJoin t b
}.

End ShutdownJoins.

(** ** Concrete scenarios *)

Module Scenario.
Import ExecutionWorkflow.

Definition hostMemory : MemoryPlace :=
  {| mp_index := 0; mp_type := nanos6_host_device |}.
Definition node0 : MemoryPlace :=
  {| mp_index := 0; mp_type := nanos6_cluster_device |}.
Definition node1 : MemoryPlace :=
  {| mp_index := 1; mp_type := nanos6_cluster_device |}.
Definition directory : MemoryPlace :=
  {| mp_index := -42; mp_type := nanos6_cluster_device |}.
Definition cpu0 : ComputePlace :=
  {| cp_index := 0; cp_type := nanos6_host_device |}.

Definition cluster : Cluster :=
  {| inClusterMode := true;
     getCurrentMemoryNode := node0;
     directoryMemoryPlace := directory |}.

Definition region : DataAccessRegion :=
  {| startAddress := 4096; regionLength := 64 |}.

Definition reductionAccess : DataAccess :=
  {| getType := REDUCTION_ACCESS_TYPE; isWeak := false;
     getAccessRegion := region; getLocation := Some node1;
     getOutputLocation := None; getValidNamespaceSelf := None |}.

Definition worker : WorkerThread := {| getThreadComputePlace := Some cpu0 |}.

Definition cudaMemory : MemoryPlace :=
  {| mp_index := 0; mp_type := nanos6_cuda_device |}.

(** A read access whose data is at [location]. *)
Definition readAccess (location : option MemoryPlace) : DataAccess :=
  {| getType := READ_ACCESS_TYPE; isWeak := false;
     getAccessRegion := region; getLocation := location;
     getOutputLocation := None; getValidNamespaceSelf := None |}.

(** A task that [executeTask] has not seen yet. *)
Definition freshTask (accesses : list DataAccess) : Task :=
  {| taskId := 7; isRemoteTask := false; mustDelayRelease := false;
     hasFinished := false; getDataAccesses := accesses;
     getWorkflow := None; getExecutionStep := None;
     getMemoryPlace := None; getComputePlace := None |}.

Definition emptyWorld : World :=
  {| trace := []; liveWorkflows := []; allocations := 0 |}.

(** A task with a [wait] clause that has run its body: the workflow
    pointer is set, the execution step is null again. *)
Definition waitingTask : Task :=
  {| taskId := 7; isRemoteTask := false; mustDelayRelease := true;
     hasFinished := true; getDataAccesses := [];
     getWorkflow := Some 0; getExecutionStep := None;
     getMemoryPlace := Some hostMemory; getComputePlace := Some cpu0 |}.

(** Addresses for the memory places of the scenarios: the null pointer
    is 0, a memory place lies at a multiple of 64 given by its index. *)
Definition placeAt (mp : option MemoryPlace) : Z :=
  match mp with
  | None => 0
  | Some p => 4096 + 64 * mp_index p
  end.

(** Every copy step requires a fetch of two fragments. *)
Definition fetchTwo : CopyStepAnswers :=
  {| requiresDataFetch := fun _ => true; getNumFragments := fun _ => 2 |}.

(** Children still running: [markAsFinished] answers false.  Of the step
    classes and the cluster manager the scenarios know the calls only:
    they are recorded. *)
Definition childrenAlive : Collaborators :=
  {| markAsFinished_returns := false; markAsReleased_returns := true;
     successors := [8; 9]; directoryFinds := fun _ => true;
     regionText := fun _ => "[4096:64]"; getLabel_returns := "task";
     copySteps := fetchTwo; placeAddress := placeAt;
     stepStart := fun id => emit (EvStepStart id);
     fetchVector := fun n l source => emit (EvFetchVector n l source) |}.

(** No child left: [markAsFinished] and [markAsReleased] answer true. *)
Definition childrenDone : Collaborators :=
  {| markAsFinished_returns := true; markAsReleased_returns := true;
     successors := [8; 9]; directoryFinds := fun _ => true;
     regionText := fun _ => "[4096:64]"; getLabel_returns := "task";
     copySteps := fetchTwo; placeAddress := placeAt;
     stepStart := fun id => emit (EvStepStart id);
     fetchVector := fun n l source => emit (EvFetchVector n l source) |}.

(** The world when the notification step of [waitingTask] fires: its
    workflow, number 0, is allocated. *)
Definition world0 : World :=
  {| trace := []; liveWorkflows := [0]; allocations := 1 |}.

(** A leaf with threshold 4 whose FIFO queue holds four tasks. *)
Definition fullLeaf : TreeScheduler.LeafScheduler TreeScheduler.Deque :=
  {| TreeScheduler._queueThreshold := 4;
     TreeScheduler._rebalance := false;
     TreeScheduler._pollingSlot := None;
     TreeScheduler._queue :=
       {| TreeScheduler.dq_policy := SchedulerInterface.FIFO_POLICY;
          TreeScheduler.dq_tasks := [1; 2; 3; 4] |};
     TreeScheduler._idle := false;
     TreeScheduler.parentBatches := [];
     TreeScheduler.resumeIdleCalls := 0 |}.

(** The same leaf one task earlier. *)
Definition roomyLeaf : TreeScheduler.LeafScheduler TreeScheduler.Deque :=
  {| TreeScheduler._queueThreshold := 4;
     TreeScheduler._rebalance := false;
     TreeScheduler._pollingSlot := None;
     TreeScheduler._queue :=
       {| TreeScheduler.dq_policy := SchedulerInterface.FIFO_POLICY;
          TreeScheduler.dq_tasks := [1; 2; 3] |};
     TreeScheduler._idle := false;
     TreeScheduler.parentBatches := [];
     TreeScheduler.resumeIdleCalls := 0 |}.

(** A build without OpenCL and FPGA support. *)
Definition hostBuild : SchedulerInterface.Build :=
  {| SchedulerInterface.USE_CUDA := false;
     SchedulerInterface.USE_OPENACC := false;
     SchedulerInterface.NANOS6_OPENCL := false;
     SchedulerInterface.USE_FPGA := false |}.

(** An environment whose scheduling policy is none of the enumeration. *)
Definition bogusPolicy : SchedulerInterface.Environment :=
  {| SchedulerInterface.NANOS6_SCHEDULING_POLICY := Some "round-robin";
     SchedulerInterface.NANOS6_IMMEDIATE_SUCCESSOR := None;
     SchedulerInterface.NANOS6_PRIORITY := None |}.

Definition fourCPUs : SchedulerInterface.Counts :=
  {| SchedulerInterface.getTotalCPUs := 4;
     SchedulerInterface.cudaComputePlaceCount := 0;
     SchedulerInterface.openaccComputePlaceCount := 0 |}.

(** Two CPUs and three workers: two parked, one still busy. *)
Definition beforeShutdown : ThreadManager.State :=
  {| ThreadManager._mustExit := false;
     ThreadManager._cpus :=
       [Some {| ThreadManager.acceptsWork := true;
                ThreadManager.isBeingInitialized := false;
                ThreadManager._shutdownControlerThread := None |};
        Some {| ThreadManager.acceptsWork := true;
                ThreadManager.isBeingInitialized := false;
                ThreadManager._shutdownControlerThread := None |}];
     ThreadManager._idleThreads := [0; 1];
     ThreadManager._totalThreads := 3;
     ThreadManager._shutdownThreads := 0;
     ThreadManager._mainShutdownControllerThread := None;
     ThreadManager.threads :=
       [{| ThreadManager.status := ThreadManager.Idle;
           ThreadManager._cpu := 0; ThreadManager.decrements := 0;
           ThreadManager._currentWorkerThread := Some 0;
           ThreadManager.getTask := None;
           ThreadManager._cpuToBeResumedOn := None |};
        {| ThreadManager.status := ThreadManager.Idle;
           ThreadManager._cpu := 1; ThreadManager.decrements := 0;
           ThreadManager._currentWorkerThread := Some 1;
           ThreadManager.getTask := None;
           ThreadManager._cpuToBeResumedOn := None |};
        {| ThreadManager.status := ThreadManager.Busy;
           ThreadManager._cpu := 1; ThreadManager.decrements := 0;
           ThreadManager._currentWorkerThread := None;
           ThreadManager.getTask := None;
           ThreadManager._cpuToBeResumedOn := Some 1 |}];
     ThreadManager.shutdown := ThreadManager.NotCalled;
     ThreadManager.failed := None |}.

(** One interleaving of the collective, in which every [pthread_join]
    answers 0: worker 0 becomes the main controller, worker 1 the
    controller of CPU 1; worker 1 finds nobody idle and leaves; worker 0
    spins until worker 2, which was still to run [threadStartup], parks,
    shuts it down, and leaves last. *)
Definition collectiveShutdown : list ThreadManager.Action :=
  [ThreadManager.Shutdown 0 0; ThreadManager.Shutdown 0 0;
   ThreadManager.Shutdown 0 0; ThreadManager.Shutdown 0 0;
   ThreadManager.Shutdown 0 0; ThreadManager.Shutdown 0 0;
   ThreadManager.Worker 1 0 0; ThreadManager.Worker 1 0 0;
   ThreadManager.Worker 1 0 0; ThreadManager.Worker 1 0 0;
   ThreadManager.Shutdown 0 0;
   ThreadManager.Worker 0 0 0; ThreadManager.Worker 0 0 0;
   ThreadManager.Worker 2 0 0; ThreadManager.Worker 2 0 0;
   ThreadManager.Worker 0 0 0;
   ThreadManager.Worker 2 0 0; ThreadManager.Worker 2 0 0;
   ThreadManager.Worker 2 0 0;
   ThreadManager.Worker 0 0 0; ThreadManager.Worker 0 0 0;
   ThreadManager.Worker 0 0 0; ThreadManager.Worker 0 0 0;
   ThreadManager.Shutdown 0 0; ThreadManager.Shutdown 0 0].

(** Where that interleaving ends. *)
Definition afterShutdown : ThreadManager.State :=
  {| ThreadManager._mustExit := true;
     ThreadManager._cpus :=
       [Some {| ThreadManager.acceptsWork := true;
                ThreadManager.isBeingInitialized := false;
                ThreadManager._shutdownControlerThread := Some 0 |};
        Some {| ThreadManager.acceptsWork := true;
                ThreadManager.isBeingInitialized := false;
                ThreadManager._shutdownControlerThread := Some 1 |}];
     ThreadManager._idleThreads := [];
     ThreadManager._totalThreads := 3;
     ThreadManager._shutdownThreads := 0;
     ThreadManager._mainShutdownControllerThread := Some 0;
     ThreadManager.threads :=
       [{| ThreadManager.status := ThreadManager.Exited;
           ThreadManager._cpu := 0; ThreadManager.decrements := 1;
           ThreadManager._currentWorkerThread := Some 0;
           ThreadManager.getTask := None;
           ThreadManager._cpuToBeResumedOn := Some 0 |};
        {| ThreadManager.status := ThreadManager.Exited;
           ThreadManager._cpu := 1; ThreadManager.decrements := 1;
           ThreadManager._currentWorkerThread := Some 1;
           ThreadManager.getTask := None;
           ThreadManager._cpuToBeResumedOn := Some 1 |};
        {| ThreadManager.status := ThreadManager.Exited;
           ThreadManager._cpu := 0; ThreadManager.decrements := 1;
           ThreadManager._currentWorkerThread := Some 2;
           ThreadManager.getTask := None;
           ThreadManager._cpuToBeResumedOn := Some 0 |}];
     ThreadManager.shutdown := ThreadManager.Returned;
     ThreadManager.failed := None |}.

End Scenario.

(** ** Further scenarios *)

Module MoreScenarios.
Import ExecutionWorkflow.

(** A task back from its wait that has not finished. *)
Definition unfinishedTask : Task :=
  {| taskId := 7; isRemoteTask := false; mustDelayRelease := true;
     hasFinished := false; getDataAccesses := [];
     getWorkflow := Some 0; getExecutionStep := None;
     getMemoryPlace := Some Scenario.hostMemory;
     getComputePlace := Some Scenario.cpu0 |}.

(** Step code that runs a task without accesses on the spot: [start()]
    of the execution step, step 0, executes the task and lets the
    workflow run through to the callback of the notification step of
    workflow 0, with the answers of [Scenario.childrenDone]. *)
Definition runsToCompletion : Collaborators :=
  {| markAsFinished_returns := true; markAsReleased_returns := true;
     successors := [8; 9]; directoryFinds := fun _ => true;
     regionText := fun _ => "[4096:64]"; getLabel_returns := "task";
     copySteps := Scenario.fetchTwo; placeAddress := Scenario.placeAt;
     stepStart := fun id =>
       emit (EvStepStart id);;
       if id =? 0
       then notificationCallback Scenario.childrenDone
              (setMemoryPlace (Scenario.freshTask []) (Some Scenario.hostMemory))
              (Some Scenario.hostMemory) 0 (Some Scenario.worker)
       else mret tt;
     fetchVector := fun n l source => emit (EvFetchVector n l source) |}.

(** A taskwait fragment to be copied from node 1 to node 0. *)
Definition fragmentToNode0 : DataAccess :=
  {| getType := READWRITE_ACCESS_TYPE; isWeak := false;
     getAccessRegion := Scenario.region; getLocation := Some Scenario.node1;
     getOutputLocation := Some Scenario.node0; getValidNamespaceSelf := None |}.

(** A taskwait fragment to be copied from node 0 to node 1, by node 0. *)
Definition fragmentToNode1 : DataAccess :=
  {| getType := READWRITE_ACCESS_TYPE; isWeak := false;
     getAccessRegion := Scenario.region; getLocation := Some Scenario.node0;
     getOutputLocation := Some Scenario.node1; getValidNamespaceSelf := None |}.

(** Addresses for the memory places of the scenarios: the null pointer
    is 0, a memory place lies at a multiple of 64 given by its index. *)
Definition addressOf (mp : option MemoryPlace) : Z :=
  match mp with
  | None => 0
  | Some p => 4096 + 64 * mp_index p
  end.

(** Every copy step requires a fetch of two fragments. *)
Definition twoFragments : CopyStepAnswers :=
  {| requiresDataFetch := fun _ => true;
     getNumFragments := fun _ => 2 |}.

(** A null copy, two fetches from node 1 to node 0 and an execution
    step. *)
Definition fourRoots : list (nat * Step) :=
  [(3, NullStep);
   (4, ClusterDataCopyStep (Some Scenario.node1) Scenario.node0 Scenario.region);
   (5, ClusterDataCopyStep (Some Scenario.node1) Scenario.node0 Scenario.region);
   (0, HostExecutionStep 7 Scenario.cpu0)].

(** An idle leaf that holds nothing. *)
Definition idleLeaf : TreeScheduler.LeafScheduler TreeScheduler.Deque :=
  {| TreeScheduler._queueThreshold := 4;
     TreeScheduler._rebalance := false;
     TreeScheduler._pollingSlot := None;
     TreeScheduler._queue :=
       {| TreeScheduler.dq_policy := SchedulerInterface.FIFO_POLICY;
          TreeScheduler.dq_tasks := [] |};
     TreeScheduler._idle := true;
     TreeScheduler.parentBatches := [];
     TreeScheduler.resumeIdleCalls := 0 |}.

(** A thread of another CPU adds task 7 to a leaf, after the thread of
    the leaf has looked at the polling slot twice. *)
Definition addsAfterTwoLooks (k : nat) : list LeafPolling.OtherOp :=
  if decide (k = 2) then [LeafPolling.OtherAddsTask 7 0] else [].

(** Four CPUs, of which the process may use the first two and the last. *)
Definition threeOfFour : Startup.cpu_set_t :=
  fun cpu => bool_decide (cpu <> 2).

Definition freshCPU : ThreadManager.CPU :=
  {| ThreadManager.acceptsWork := true;
     ThreadManager.isBeingInitialized := false;
     ThreadManager._shutdownControlerThread := None |}.

End MoreScenarios.


(* ================================================================== *)
(** * Part II: properties                                               *)
(* ================================================================== *)

(** ** The workflow engine *)

Section WorkflowFacts.
Import ExecutionWorkflow.

Lemma transfersMap_clusterCopy s t :
  _transfersMap s t = clusterCopy <-> clusterCopyCell s t.
Proof.
  unfold clusterCopyCell.
  destruct s, t; simpl; split; intros H; try discriminate; try reflexivity;
    try (right; right; split; reflexivity);
    try (right; left; split; reflexivity);
    try (left; split; reflexivity);
    destruct H as [[? ?] | [[? ?] | [? ?]]]; discriminate.
Qed.

Lemma transfersMap_nullCopy s t :
  _transfersMap s t = nullCopy <-> ~ clusterCopyCell s t.
Proof.
  rewrite <- transfersMap_clusterCopy.
  destruct (_transfersMap s t); split; intros H; try reflexivity;
    try discriminate; try congruence.
Qed.

(** C5.  In the table [_transfersMap], looked up with the kind of the
    source (host when the source is null) and the kind of the target, the
    entries that build a step other than [Null] are exactly host to
    cluster, cluster to host and cluster to cluster, where the step is a
    cluster data copy; every other pair of kinds builds a [Null] step. *)
Theorem transfer_table_non_null_entries :
  sourceTypeOf None = nanos6_host_device
  /\ (forall s t : nanos6_device_t,
        (_transfersMap s t = clusterCopy <-> clusterCopyCell s t)
        /\ (_transfersMap s t = nullCopy <-> ~ clusterCopyCell s t))
  /\ forall (source : option MemoryPlace) (target : MemoryPlace)
            (region : DataAccessRegion) (access : DataAccess),
       let step := callTransfer (_transfersMap (sourceTypeOf source) (mp_type target))
                                source target region access in
       (isNullStep step = false <-> clusterCopyCell (sourceTypeOf source) (mp_type target))
       /\ (isClusterDataCopyStep step = true
           <-> clusterCopyCell (sourceTypeOf source) (mp_type target))
       /\ (isNullStep step = true <-> ~ clusterCopyCell (sourceTypeOf source) (mp_type target)).
Proof.
  split; [reflexivity |].
  split; [intros s t; split;
          [apply transfersMap_clusterCopy | apply transfersMap_nullCopy] |].
  intros source target region access step. subst step.
  pose proof (transfersMap_clusterCopy (sourceTypeOf source) (mp_type target)) as Hc.
  pose proof (transfersMap_nullCopy (sourceTypeOf source) (mp_type target)) as Hn.
  destruct (_transfersMap (sourceTypeOf source) (mp_type target)); simpl.
  - split; [| split].
    + split; [discriminate |]. intros H. apply Hc in H. discriminate.
    + split; [discriminate |]. intros H. apply Hc in H. discriminate.
    + split; [intros _; apply Hn; reflexivity | reflexivity].
  - split; [| split].
    + split; [intros _; apply Hc; reflexivity | reflexivity].
    + split; [intros _; apply Hc; reflexivity | reflexivity].
    + split; [discriminate |]. intros H. apply Hn in H. discriminate.
Qed.

(** C6.  For an access of type reduction, commutative or concurrent,
    [createDataCopyStep] returns a [Null] step whatever the source and the
    target are (null and directory included): the access comes back as it
    went in, and nothing happens but the two instrumentation hooks. *)
Theorem createDataCopyStep_unsupported_access :
  forall (c : Cluster) (source target : option MemoryPlace)
         (region : DataAccessRegion) (access : DataAccess)
         (isTaskwait : bool) (w : World),
    getType access = REDUCTION_ACCESS_TYPE
    \/ getType access = COMMUTATIVE_ACCESS_TYPE
    \/ getType access = CONCURRENT_ACCESS_TYPE ->
    createDataCopyStep c source target region access isTaskwait w
    = Returns ((NullStep, access), afterCopyStepHooks isTaskwait w).
Proof.
  intros c source target region access isTaskwait w Hty.
  assert (Hu : unsupportedAccessType (getType access) = true).
  { unfold unsupportedAccessType.
    destruct Hty as [-> | [-> | ->]]; reflexivity. }
  unfold createDataCopyStep. rewrite Hu.
  unfold mbind at 1, W_bind at 1. simpl.
  unfold mbind, W_bind, emit, mret, W_ret, afterCopyStepHooks; simpl.
  rewrite <- app_assoc. reflexivity.
Qed.

(** For an access of a supported type the two assertions on the target
    decide whether [createDataCopyStep] returns: it stops on an assertion
    exactly when the target is null or the directory memory place. *)
Lemma createDataCopyStep_target_assertions :
  forall (c : Cluster) (source target : option MemoryPlace)
         (region : DataAccessRegion) (access : DataAccess)
         (isTaskwait : bool) (w : World),
    unsupportedAccessType (getType access) = false ->
    (exists what,
        createDataCopyStep c source target region access isTaskwait w
        = AssertionFails what)
    <-> target = None \/ isDirectoryMemoryPlace c target = true.
Proof.
  intros c source target region access isTaskwait w Hu.
  unfold createDataCopyStep. rewrite Hu.
  unfold mbind at 1, W_bind at 1. simpl.
  destruct target as [tgt |]; simpl.
  - destruct (bool_decide (tgt = directoryMemoryPlace c)) eqn:Hdir; simpl.
    + split; [intros _; right; reflexivity | intros _; eexists; reflexivity].
    + split; [intros [what H]; discriminate |].
      intros [H | H]; discriminate.
  - split; [intros _; left; reflexivity | intros _; eexists; reflexivity].
Qed.

(** Data on the host, task on the host: a [Null] step, and the access
    is marked with the index of this node. *)
Example null_copy_on_host :
  createDataCopyStep Scenario.cluster (Some Scenario.hostMemory)
    (Some Scenario.hostMemory) Scenario.region
    (Scenario.readAccess (Some Scenario.hostMemory)) false Scenario.emptyWorld
  = Returns ((NullStep,
              setValidNamespaceSelf (Scenario.readAccess (Some Scenario.hostMemory)) 0),
             afterCopyStepHooks false Scenario.emptyWorld).
Proof. reflexivity. Qed.

(** Data on node 1, task on node 0, the current node: a cluster copy. *)
Example cluster_fetch :
  createDataCopyStep Scenario.cluster (Some Scenario.node1)
    (Some Scenario.node0) Scenario.region
    (Scenario.readAccess (Some Scenario.node1)) false Scenario.emptyWorld
  = Returns ((ClusterDataCopyStep (Some Scenario.node1) Scenario.node0 Scenario.region,
              setValidNamespaceSelf (Scenario.readAccess (Some Scenario.node1)) 0),
             afterCopyStepHooks false Scenario.emptyWorld).
Proof. reflexivity. Qed.

(** Data in the directory, in cluster mode: a cluster copy whatever the
    table holds for the two kinds (here cluster to cuda, a [nullCopy]). *)
Example directory_source_bypasses_table :
  _transfersMap (mp_type Scenario.directory) (mp_type Scenario.cudaMemory) = nullCopy
  /\ createDataCopyStep Scenario.cluster (Some Scenario.directory)
       (Some Scenario.cudaMemory) Scenario.region
       (Scenario.readAccess (Some Scenario.directory)) false Scenario.emptyWorld
     = Returns ((ClusterDataCopyStep (Some Scenario.directory) Scenario.cudaMemory
                   Scenario.region,
                 Scenario.readAccess (Some Scenario.directory)),
                afterCopyStepHooks false Scenario.emptyWorld).
Proof. split; reflexivity. Qed.

(** A task without accesses: the execution step (step 0) is ready, is
    ordered before the notification step (step 1) and becomes a root,
    which [start] starts.  The step code of this scenario records the
    call and returns at once, so that the workflow is still allocated
    when [executeTask] returns. *)
Example task_without_accesses :
  match executeTask Scenario.cluster Scenario.childrenDone (Some Scenario.worker)
          (Scenario.freshTask []) Scenario.cpu0 (Some Scenario.hostMemory)
          Scenario.emptyWorld with
  | Returns ((task, Some g), w) =>
    order g = [(0, 2); (2, 1); (0, 1)] /\ rootSteps g = [0]
    /\ getWorkflow task = Some 0 /\ liveWorkflows w = [0]
    /\ trace w = [EvStepStart 0]
  | _ => False
  end.
Proof. repeat split. Qed.

(** A task with one access: the copy step (step 3) is the only root and
    is ordered before the execution step; [start] fetches it. *)
Example task_with_one_access :
  match executeTask Scenario.cluster Scenario.childrenDone (Some Scenario.worker)
          (Scenario.freshTask [Scenario.readAccess (Some Scenario.node1)])
          Scenario.cpu0 (Some Scenario.node0) Scenario.emptyWorld with
  | Returns ((task, Some g), w) =>
    order g = [(0, 2); (2, 1); (3, 0)] /\ rootSteps g = [3]
    /\ getWorkflow task = Some 0
    /\ trace w = [EvEnterCreateDataCopyStep false; EvExitCreateDataCopyStep false;
                  EvFetchVector 2 [3] (Some Scenario.node1)]
  | _ => False
  end.
Proof. repeat split. Qed.

(** C10.  [createNotificationStep] with a null compute place does what
    it does for a host compute place and returns a host notification
    step; it returns a cluster notification step exactly for a cluster
    compute place; for any other kind it stops with the fatal error. *)
Theorem createNotificationStep_kinds :
  forall (callback : Callback),
    createNotificationStep callback None = Returns (HostNotificationStep callback)
    /\ (forall i, createNotificationStep callback None
                  = createNotificationStep callback
                      (Some {| cp_index := i; cp_type := nanos6_host_device |}))
    /\ forall cp : ComputePlace,
         (createNotificationStep callback (Some cp)
            = Returns (HostNotificationStep callback)
          <-> cp_type cp = nanos6_host_device)
         /\ (createNotificationStep callback (Some cp)
               = Returns (ClusterNotificationStep callback)
             <-> cp_type cp = nanos6_cluster_device)
         /\ (createNotificationStep callback (Some cp)
               = FatalError "Execution workflow does not support this device yet"
             <-> cp_type cp <> nanos6_host_device
                 /\ cp_type cp <> nanos6_cluster_device).
Proof.
  intros callback. split; [reflexivity |]. split; [reflexivity |].
  intros [i ty]; unfold createNotificationStep; simpl.
  destruct ty; simpl; (split; [| split]); split; intros Hx;
    try discriminate; try reflexivity; try congruence;
    try (destruct Hx; congruence);
    try (split; discriminate).
Qed.

(** *** Running computations of the workflow monad *)

Lemma addEvents_nil w : addEvents [] w = w.
Proof. destruct w; unfold addEvents; simpl. rewrite app_nil_r. reflexivity. Qed.

Lemma addEvents_app e1 e2 w :
  addEvents e2 (addEvents e1 w) = addEvents (e1 ++ e2) w.
Proof. unfold addEvents; simpl. rewrite app_assoc. reflexivity. Qed.

Lemma emits_ret {A} (a : A) : emits (mret a) a [].
Proof. intros w. unfold mret, W_ret. rewrite addEvents_nil. reflexivity. Qed.

Lemma emits_emit e : emits (emit e) tt [e].
Proof. intros w. reflexivity. Qed.

Lemma emits_bind {A B} (m : W A) (k : A -> W B) a b e1 e2 :
  emits m a e1 -> emits (k a) b e2 -> emits (m ≫= k) b (e1 ++ e2).
Proof.
  intros Hm Hk w. unfold mbind, W_bind. rewrite Hm, Hk, addEvents_app.
  reflexivity.
Qed.

Lemma emits_liftO_assert what : emits (liftO (assert true what)) tt [].
Proof. intros w. simpl. rewrite addEvents_nil. reflexivity. Qed.

Lemma emits_bind_eq {A B} (m : W A) (k : A -> W B) a b e1 e2 e :
  emits m a e1 -> emits (k a) b e2 -> e = e1 ++ e2 -> emits (m ≫= k) b e.
Proof. intros Hm Hk ->. eapply emits_bind; eassumption. Qed.

Ltac trace_eq :=
  simpl; rewrite ?app_nil_r, <- ?app_assoc; simpl; reflexivity.

Lemma emits_mapM_emit {X} (f : X -> Event) (l : list X) :
  emits (mapM (fun x => emit (f x)) l) (map (fun _ => tt) l) (map f l).
Proof.
  induction l as [| x l IH]; simpl.
  - apply emits_ret.
  - eapply emits_bind_eq; [apply emits_emit | | ].
    + eapply emits_bind_eq; [apply IH | apply emits_ret | ]. trace_eq.
    + reflexivity.
Qed.

Lemma emits_markAsFinished o task cpu :
  emits (markAsFinished o task cpu) (markAsFinished_returns o)
        [EvMarkAsFinished (taskId task) cpu (markAsFinished_returns o)].
Proof.
  unfold markAsFinished.
  eapply emits_bind_eq; [apply emits_emit | apply emits_ret | ]. reflexivity.
Qed.

Lemma emits_markAsReleased o task :
  emits (markAsReleased o task) (markAsReleased_returns o)
        [EvMarkAsReleased (taskId task) (markAsReleased_returns o)].
Proof.
  unfold markAsReleased.
  eapply emits_bind_eq; [apply emits_emit | apply emits_ret | ]. reflexivity.
Qed.

Lemma emits_finalisationCallback o task cpu :
  emits (finalisationCallback o task cpu) tt
        ([EvTaskFinished (taskId task) cpu;
          EvMarkAsReleased (taskId task) (markAsReleased_returns o)]
         ++ (if markAsReleased_returns o then [EvDisposeTask (taskId task)] else [])).
Proof.
  unfold finalisationCallback.
  eapply emits_bind_eq; [apply emits_emit | | ].
  - eapply emits_bind_eq
      with (e2 := if markAsReleased_returns o
                  then [EvDisposeTask (taskId task)] else []);
      [apply emits_markAsReleased | | ].
    + destruct (markAsReleased_returns o); [apply emits_emit | apply emits_ret].
    + reflexivity.
  - reflexivity.
Qed.

Lemma emits_unregisterTaskDataAccesses o task cpu location :
  emits (unregisterTaskDataAccesses o task cpu location false
           (finalisationCallback o task cpu))
        tt (finalisationEvents o task cpu location).
Proof.
  unfold unregisterTaskDataAccesses, finalisationEvents.
  eapply emits_bind_eq; [apply emits_emit | | ].
  - eapply emits_bind_eq; [apply emits_finalisationCallback | | ].
    + eapply emits_bind_eq; [apply emits_mapM_emit | apply emits_ret | ].
      trace_eq.
    + reflexivity.
  - trace_eq.
Qed.

Lemma emits_callback_prefix o task location cpu :
  emits (emit (EvUnregisterLocallyPropagatedTaskDataAccesses (taskId task) cpu);;
         finished ← markAsFinished o task cpu;
         (if finished : bool
          then unregisterTaskDataAccesses o task cpu location false
                 (finalisationCallback o task cpu)
          else mret tt))
        tt (callbackEvents o task cpu location).
Proof.
  unfold callbackEvents.
  eapply emits_bind_eq; [apply emits_emit | | ].
  - eapply emits_bind_eq
      with (e2 := if markAsFinished_returns o
                  then finalisationEvents o task cpu location else []);
      [apply emits_markAsFinished | | ].
    + destruct (markAsFinished_returns o);
        [apply emits_unregisterTaskDataAccesses | apply emits_ret].
    + reflexivity.
  - reflexivity.
Qed.

(** The notification callback in closed form: the events of
    [callbackEvents], then the deletion of the workflow. *)
Lemma notificationCallback_run o task location wf thr w :
  notificationCallback o task location wf thr w
  = Returns (tt, {| trace := trace w
                             ++ callbackEvents o task (currentCPU thr) location
                             ++ [EvDeleteWorkflow wf];
                    liveWorkflows := filter (fun x => x ≠ wf) (liveWorkflows w);
                    allocations := allocations w |}).
Proof.
  pose proof (emits_callback_prefix o task location (currentCPU thr) w) as Hpre.
  unfold notificationCallback.
  unfold mbind in *. unfold W_bind at 1 2 in Hpre.
  unfold W_bind at 1 2 3.
  destruct (emit _ w) as [[[] w1] | |] eqn:E1; try discriminate.
  destruct (markAsFinished o task (currentCPU thr) w1) as [[b w2] | |] eqn:E2;
    try discriminate.
  rewrite Hpre. unfold deleteWorkflow, addEvents; simpl.
  rewrite <- app_assoc. reflexivity.
Qed.

(** The finalisation that [executeTask] runs when a task comes back from
    its wait (workflow pointer set, execution step null): it adds events
    and deletes nothing. *)
Lemma executeTask_wait_reentry_run c o thr task cp mp :
  getWorkflow task <> None ->
  getExecutionStep task = None ->
  mustDelayRelease task = true ->
  hasFinished task = true ->
  emits (executeTask c o thr task cp mp) (task, None)
        ([EvCompleteDelayedRelease (taskId task);
          EvMarkAsUnblocked (taskId task);
          EvHandleExitTaskwait (taskId task) (currentCPU thr)]
         ++ finalisationEvents o task (currentCPU thr) mp).
Proof.
  intros Hwf Hstep Hdelay Hfin. unfold executeTask.
  destruct (getWorkflow task) as [wf |]; [| congruence].
  rewrite Hstep, Hdelay, Hfin.
  eapply emits_bind_eq; [apply emits_liftO_assert | | ].
  - eapply emits_bind_eq; [apply emits_emit | | ].
    + eapply emits_bind_eq; [apply emits_emit | | ].
      * eapply emits_bind_eq; [apply emits_emit | | ].
        -- eapply emits_bind_eq; [apply emits_liftO_assert | | ].
           ++ eapply emits_bind_eq;
                [apply emits_unregisterTaskDataAccesses | apply emits_ret | ].
              trace_eq.
           ++ reflexivity.
        -- reflexivity.
      * reflexivity.
    + reflexivity.
  - reflexivity.
Qed.

Lemma elem_of_map_iff {A B} (f : A -> B) (l : list A) (y : B) :
  y ∈ map f l <-> exists x, f x = y /\ In x l.
Proof. rewrite list_elem_of_In. apply in_map_iff. Qed.

Lemma no_delete_in_finalisationEvents o task cpu mp x :
  EvDeleteWorkflow x ∉ finalisationEvents o task cpu mp.
Proof.
  unfold finalisationEvents. rewrite list_elem_of_In, !in_app_iff, in_map_iff.
  intros [H | [H | H]].
  - simpl in H. destruct H as [H | [H | [H | []]]]; discriminate.
  - destruct (markAsReleased_returns o); simpl in H;
      [destruct H as [H | []]; discriminate | destruct H].
  - destruct H as [s [H _]]. discriminate.
Qed.

(** C1, as the code has it.  When [markAsFinished] returns false the
    notification callback runs neither the registrar nor the finalisation,
    and still deletes the workflow, as its last action.  The finalisation
    that [executeTask] runs later, when the task comes back from its wait
    with its workflow pointer still set, deletes nothing: the set of
    allocated workflows is as before. *)
Theorem notification_callback_deletes_workflow_of_waiting_task :
  forall (c : Cluster) (o o' : Collaborators) (task : Task)
         (location : option MemoryPlace) (wf : WorkflowId)
         (thr thr' : option WorkerThread) (cp : ComputePlace) (w w1 : World),
    markAsFinished_returns o = false ->
    getWorkflow task = Some wf ->
    getExecutionStep task = None ->
    mustDelayRelease task = true ->
    hasFinished task = true ->
    (exists w',
        notificationCallback o task location wf thr w = Returns (tt, w')
        /\ trace w' = trace w
             ++ [EvUnregisterLocallyPropagatedTaskDataAccesses (taskId task) (currentCPU thr);
                 EvMarkAsFinished (taskId task) (currentCPU thr) false;
                 EvDeleteWorkflow wf]
        /\ wf ∉ liveWorkflows w')
    /\ (exists w2,
          executeTask c o' thr' task cp location w1 = Returns ((task, None), w2)
          /\ liveWorkflows w2 = liveWorkflows w1
          /\ (forall x, EvDeleteWorkflow x ∈ trace w2 -> EvDeleteWorkflow x ∈ trace w1)).
Proof.
  intros c o o' task location wf thr thr' cp w w1 Hfalse Hwf Hstep Hdelay Hfin.
  split.
  - eexists. split; [apply notificationCallback_run |]. simpl. split.
    + unfold callbackEvents. rewrite Hfalse. reflexivity.
    + intros Hin. apply list_elem_of_filter in Hin. destruct Hin as [Hne _].
      apply Hne. reflexivity.
  - eexists. split.
    + apply (executeTask_wait_reentry_run c o' thr' task cp location);
        [congruence | assumption | assumption | assumption].
    + split; [reflexivity |]. intros x. simpl.
      rewrite elem_of_app, !elem_of_cons.
      intros [H | [H | [H | [H | H]]]];
        [assumption | discriminate | discriminate | discriminate |].
      exfalso. revert H. apply no_delete_in_finalisationEvents.
Qed.

(** The scenario of a task that waits for its children: the hypotheses of
    the theorem hold and its conclusion is obtained from it. *)
Lemma notification_callback_deletes_workflow_of_waiting_task_witness :
  (exists w',
      notificationCallback Scenario.childrenAlive Scenario.waitingTask
        (Some Scenario.hostMemory) 0 (Some Scenario.worker) Scenario.world0
      = Returns (tt, w')
      /\ trace w' = trace Scenario.world0
           ++ [EvUnregisterLocallyPropagatedTaskDataAccesses 7 (Some Scenario.cpu0);
               EvMarkAsFinished 7 (Some Scenario.cpu0) false;
               EvDeleteWorkflow 0]
      /\ 0 ∉ liveWorkflows w')
  /\ (exists w2,
        executeTask Scenario.cluster Scenario.childrenDone (Some Scenario.worker)
          Scenario.waitingTask Scenario.cpu0 (Some Scenario.hostMemory)
          {| trace := []; liveWorkflows := []; allocations := 1 |}
        = Returns ((Scenario.waitingTask, None), w2)
        /\ liveWorkflows w2 = []
        /\ (forall x, EvDeleteWorkflow x ∈ trace w2 -> EvDeleteWorkflow x ∈ [])).
Proof.
  exact (notification_callback_deletes_workflow_of_waiting_task
           Scenario.cluster Scenario.childrenAlive Scenario.childrenDone
           Scenario.waitingTask (Some Scenario.hostMemory) 0
           (Some Scenario.worker) (Some Scenario.worker) Scenario.cpu0
           Scenario.world0
           {| trace := []; liveWorkflows := []; allocations := 1 |}
           eq_refl eq_refl eq_refl eq_refl eq_refl).
Defined.

(** C1, as the design document words it, fails: [markAsFinished] returns
    false, and the callback has deleted workflow 0, the only one that was
    allocated. *)
Lemma waiting_task_workflow_is_deleted :
  markAsFinished_returns Scenario.childrenAlive = false
  /\ notificationCallback Scenario.childrenAlive Scenario.waitingTask
       (Some Scenario.hostMemory) 0 (Some Scenario.worker) Scenario.world0
     = Returns (tt, {| trace :=
                         [EvUnregisterLocallyPropagatedTaskDataAccesses 7 (Some Scenario.cpu0);
                          EvMarkAsFinished 7 (Some Scenario.cpu0) false;
                          EvDeleteWorkflow 0];
                       liveWorkflows := [];
                       allocations := 1 |}).
Proof. split; reflexivity. Qed.

(** C2.  When [markAsFinished] returns true in the notification
    callback, [TaskFinalization::taskFinished] runs once the registrar has
    been entered, before [markAsReleased] is attempted and before any
    satisfiability is propagated to a successor; [disposeTask] is called
    if and only if [markAsReleased] returns true. *)
Theorem taskFinished_precedes_release_and_satisfiability :
  forall (o : Collaborators) (task : Task) (location : option MemoryPlace)
         (wf : WorkflowId) (thr : option WorkerThread) (w : World),
    markAsFinished_returns o = true ->
    exists (evs : list Event) (w' : World),
      notificationCallback o task location wf thr w = Returns (tt, w')
      /\ trace w' = trace w ++ evs
      /\ happensBefore
           (EvUnregisterTaskDataAccesses (taskId task) (currentCPU thr) location false)
           (EvTaskFinished (taskId task) (currentCPU thr)) evs
      /\ happensBefore
           (EvTaskFinished (taskId task) (currentCPU thr))
           (EvMarkAsReleased (taskId task) (markAsReleased_returns o)) evs
      /\ precedesEvery (EvTaskFinished (taskId task) (currentCPU thr))
           isMarkAsReleased evs
      /\ precedesEvery (EvTaskFinished (taskId task) (currentCPU thr))
           isPropagateSatisfiability evs
      /\ (forall s, s ∈ successors o ->
                    EvPropagateSatisfiability (taskId task) s ∈ evs)
      /\ (EvDisposeTask (taskId task) ∈ evs <-> markAsReleased_returns o = true).
Proof.
  intros o task location wf thr w Htrue.
  eexists. eexists. split; [apply notificationCallback_run |].
  split; [reflexivity |].
  unfold callbackEvents, finalisationEvents. rewrite Htrue.
  set (cpu := currentCPU thr). set (t := taskId task).
  set (tail := ((if markAsReleased_returns o then [EvDisposeTask t] else [])
                ++ map (EvPropagateSatisfiability t) (successors o))
               ++ [EvDeleteWorkflow wf]).
  assert (Hshape :
    ([EvUnregisterLocallyPropagatedTaskDataAccesses t cpu; EvMarkAsFinished t cpu true]
     ++ [EvUnregisterTaskDataAccesses t cpu location false; EvTaskFinished t cpu;
         EvMarkAsReleased t (markAsReleased_returns o)]
     ++ (if markAsReleased_returns o then [EvDisposeTask t] else [])
     ++ map (EvPropagateSatisfiability t) (successors o))
    ++ [EvDeleteWorkflow wf]
    = EvUnregisterLocallyPropagatedTaskDataAccesses t cpu
      :: EvMarkAsFinished t cpu true
      :: EvUnregisterTaskDataAccesses t cpu location false
      :: EvTaskFinished t cpu
      :: EvMarkAsReleased t (markAsReleased_returns o) :: tail).
  { reflexivity. }
  rewrite Hshape. clear Hshape.
  assert (Hafter : forall j x P,
    (EvUnregisterLocallyPropagatedTaskDataAccesses t cpu
      :: EvMarkAsFinished t cpu true
      :: EvUnregisterTaskDataAccesses t cpu location false
      :: EvTaskFinished t cpu
      :: EvMarkAsReleased t (markAsReleased_returns o) :: tail) !! j = Some x ->
    (forall a b, ~ P (EvUnregisterLocallyPropagatedTaskDataAccesses a b)) ->
    (forall a b c, ~ P (EvMarkAsFinished a b c)) ->
    (forall a b c d, ~ P (EvUnregisterTaskDataAccesses a b c d)) ->
    (forall a b, ~ P (EvTaskFinished a b)) ->
    P x ->
    exists i, i < j /\
      (EvUnregisterLocallyPropagatedTaskDataAccesses t cpu
        :: EvMarkAsFinished t cpu true
        :: EvUnregisterTaskDataAccesses t cpu location false
        :: EvTaskFinished t cpu
        :: EvMarkAsReleased t (markAsReleased_returns o) :: tail) !! i
      = Some (EvTaskFinished t cpu)).
  { intros j x P Hj P0 P1 P2 P3 HP.
    destruct j as [| [| [| [| j]]]]; simpl in Hj;
      try (injection Hj as <-; exfalso; eauto; fail).
    - injection Hj as <-. exfalso. eapply P0; eassumption.
    - injection Hj as <-. exfalso. eapply P1; eassumption.
    - injection Hj as <-. exfalso. eapply P2; eassumption.
    - injection Hj as <-. exfalso. eapply P3; eassumption.
    - exists 3. split; [lia | reflexivity]. }
  split; [exists 2, 3; split; [lia | split; reflexivity] |].
  split; [exists 3, 4; split; [lia | split; reflexivity] |].
  split.
  { intros j x Hj HP. apply (Hafter j x isMarkAsReleased Hj); try assumption;
      intros; intros [? [? ?]]; discriminate. }
  split.
  { intros j x Hj HP. apply (Hafter j x isPropagateSatisfiability Hj); try assumption;
      intros; intros [? [? ?]]; discriminate. }
  split.
  { intros s Hs. do 5 apply list_elem_of_further. subst tail.
    apply elem_of_app; left. apply elem_of_app; right.
    apply list_elem_of_In, in_map, list_elem_of_In, Hs. }
  subst tail. destruct (markAsReleased_returns o).
  - split; [reflexivity |]. intros _. do 5 apply list_elem_of_further.
    apply list_elem_of_here.
  - split; [| discriminate]. simpl.
    rewrite !elem_of_cons, elem_of_app, elem_of_map_iff, elem_of_cons, elem_of_nil.
    intros [H | [H | [H | [H | [H | [H | [H | H]]]]]]]; try discriminate.
    + destruct H as [? [? _]]. discriminate.
    + destruct H.
Qed.

(** The scenario of a task whose children are done. *)
Lemma taskFinished_precedes_release_and_satisfiability_witness :
  exists (evs : list Event) (w' : World),
    notificationCallback Scenario.childrenDone Scenario.waitingTask
      (Some Scenario.hostMemory) 0 (Some Scenario.worker) Scenario.world0
    = Returns (tt, w')
    /\ trace w' = trace Scenario.world0 ++ evs
    /\ happensBefore
         (EvUnregisterTaskDataAccesses 7 (Some Scenario.cpu0)
            (Some Scenario.hostMemory) false)
         (EvTaskFinished 7 (Some Scenario.cpu0)) evs
    /\ happensBefore (EvTaskFinished 7 (Some Scenario.cpu0))
         (EvMarkAsReleased 7 true) evs
    /\ precedesEvery (EvTaskFinished 7 (Some Scenario.cpu0)) isMarkAsReleased evs
    /\ precedesEvery (EvTaskFinished 7 (Some Scenario.cpu0))
         isPropagateSatisfiability evs
    /\ (forall s, s ∈ [8; 9] -> EvPropagateSatisfiability 7 s ∈ evs)
    /\ (EvDisposeTask 7 ∈ evs <-> true = true).
Proof.
  exact (taskFinished_precedes_release_and_satisfiability
           Scenario.childrenDone Scenario.waitingTask (Some Scenario.hostMemory)
           0 (Some Scenario.worker) Scenario.world0 eq_refl).
Defined.

(** A reduction access whose target is the directory itself: C6 applies. *)
Lemma createDataCopyStep_unsupported_access_witness :
  createDataCopyStep Scenario.cluster (Some Scenario.node1)
    (Some Scenario.directory) Scenario.region Scenario.reductionAccess false
    Scenario.world0
  = Returns ((NullStep, Scenario.reductionAccess),
             afterCopyStepHooks false Scenario.world0).
Proof.
  exact (createDataCopyStep_unsupported_access
           Scenario.cluster (Some Scenario.node1) (Some Scenario.directory)
           Scenario.region Scenario.reductionAccess false Scenario.world0
           (or_introl eq_refl)).
Defined.

End WorkflowFacts.

(** ** The leaf scheduler *)

Section LeafFacts.
Import TreeScheduler.
Context {Q : Type} `{!TreeSchedulerQueueInterface Q}.

(** What storing a task in the queue of a leaf does, by the size [n] the
    queue is brought to: up to the threshold nothing is handed up; above
    it, one batch of [max (t / 2) 1] tasks (or of all [n], if fewer)
    leaves the queue for the parent. *)
Lemma enqueue_spec (l : LeafScheduler Q) task hint q' parent' :
  enqueue l task hint = (q', parent') ->
  let n := getSize (_queue l) + 1 in
  let t := _queueThreshold l in
  (n <= t -> parent' = parentBatches l /\ getSize q' = n)
  /\ (t < n -> exists batch,
        parent' = parentBatches l ++ [batch]
        /\ length batch = ((t / 2) `max` 1) `min` n
        /\ getSize q' + length batch = n).
Proof.
  unfold enqueue. cbv zeta. intros Heq.
  destruct (addTask (_queue l) task hint) as [elements q] eqn:Eadd.
  pose proof (addTask_spec (_queue l) task hint) as [Hperm Helem].
  rewrite Eadd in Hperm, Helem. simpl in Hperm, Helem.
  apply Permutation_length in Hperm. rewrite length_app in Hperm. simpl in Hperm.
  rewrite !getSize_spec. rewrite <- getSize_spec in Hperm.
  case_bool_decide as Hover.
  - split; [intros ?; exfalso; lia |]. intros _.
    unfold handleQueueOverflow in Heq.
    set (th := if bool_decide (_queueThreshold l / 2 = 0) then 1
               else _queueThreshold l / 2) in Heq.
    assert (Hth : th = (_queueThreshold l / 2) `max` 1).
    { subst th. case_bool_decide; lia. }
    destruct (getTaskBatch q th) as [batch q''] eqn:Ebatch.
    pose proof (getTaskBatch_spec q th) as [Hp Hlen].
    rewrite Ebatch in Hp, Hlen. simpl in Hp, Hlen.
    apply Permutation_length in Hp. rewrite length_app in Hp.
    rewrite <- !getSize_spec in *.
    case_bool_decide as Hnonempty.
    + injection Heq as <- <-. exists batch. repeat split; lia.
    + exfalso. lia.
  - injection Heq as <- <-. rewrite getSize_spec in Hperm.
    split; [| intros ?; exfalso; lia]. intros _. split; [reflexivity | lia].
Qed.

(** [addTask] stores the task in the queue when the caller runs on the
    leaf's CPU (which must not be idle), or when the polling slot is
    already full. *)
Lemma leafAddTask_enqueues (l : LeafScheduler Q) task hasComputePlace hint :
  (hasComputePlace = true /\ _idle l = false)
  \/ (hasComputePlace = false /\ _pollingSlot l <> None) ->
  exists l',
    leafAddTask l task hasComputePlace hint = Returns l'
    /\ (_queue l', parentBatches l') = enqueue l task hint
    /\ _queueThreshold l' = _queueThreshold l
    /\ _pollingSlot l' = _pollingSlot l
    /\ _rebalance l' = false.
Proof.
  intros [[-> Hidle] | [-> Hslot]]; unfold leafAddTask.
  - rewrite Hidle. simpl.
    destruct (enqueue l task hint) as [q parent] eqn:E.
    eexists. split; [reflexivity |]. simpl. repeat split.
  - destruct (_pollingSlot l) as [t |] eqn:Es; [| congruence]. simpl.
    destruct (enqueue l task hint) as [q parent] eqn:E.
    eexists. split; [reflexivity |]. simpl. repeat split.
Qed.

(** C3, as the code has it.  When [addTask] stores the task in the queue
    of a leaf with threshold [t] and the queue thereby holds [n] tasks:
    for [n <= t], so for [n = t], nothing is handed up; for [t < n], so
    for [n = t + 1], [handleQueueOverflow] hands one batch that is not
    empty, of [min (max (t / 2) 1) n] tasks, to the parent, and the queue
    keeps the others.  After the handoff the queue holds at most [t]
    tasks exactly when [n <= t + max (t / 2) 1]: always for [n = t + 1],
    not for every batch that is handed up. *)
Theorem leaf_overflow_post_handoff_size :
  forall (l : LeafScheduler Q) (task : Task) (hasComputePlace : bool)
         (hint : ReadyTaskHint) (n t : nat),
    (hasComputePlace = true /\ _idle l = false)
    \/ (hasComputePlace = false /\ _pollingSlot l <> None) ->
    n = getSize (_queue l) + 1 ->
    t = _queueThreshold l ->
    exists l',
      leafAddTask l task hasComputePlace hint = Returns l'
      /\ (n <= t ->
          parentBatches l' = parentBatches l /\ getSize (_queue l') = n)
      /\ (t < n ->
          exists batch,
            parentBatches l' = parentBatches l ++ [batch]
            /\ batch <> []
            /\ length batch = ((t / 2) `max` 1) `min` n
            /\ getSize (_queue l') + length batch = n
            /\ (getSize (_queue l') <= t <-> n <= t + (t / 2) `max` 1))
      /\ (n = t + 1 ->
          exists batch,
            parentBatches l' = parentBatches l ++ [batch]
            /\ length batch = (t / 2) `max` 1
            /\ getSize (_queue l') + length batch = t + 1
            /\ getSize (_queue l') <= t).
Proof.
  intros l task hasComputePlace hint n t Hpath -> ->.
  destruct (leafAddTask_enqueues l task hasComputePlace hint Hpath)
    as (l' & Hrun & Henq & _).
  exists l'. split; [exact Hrun |].
  symmetry in Henq. apply enqueue_spec in Henq. destruct Henq as [Hbelow Habove].
  assert (_queueThreshold l / 2 <= _queueThreshold l) as Hhalf
    by (apply Nat.Div0.div_le_upper_bound; lia).
  split; [exact Hbelow |]. split.
  - intros Hn. destruct (Habove Hn) as (batch & Hparent & Hlen & Hsize).
    exists batch. split; [exact Hparent |].
    split; [intros ->; cbn [length] in Hlen; lia |].
    split; [exact Hlen |]. split; [exact Hsize |]. lia.
  - intros Hn. destruct Habove as (batch & Hparent & Hlen & Hsize); [lia |].
    exists batch. split; [exact Hparent |]. repeat split; lia.
Qed.

(** C7.  [addTaskBatch] of a batch that is not empty, on a leaf whose
    polling slot is empty: the last task of the batch goes to the polling
    slot and the tasks before it go to the queue. *)
Theorem leaf_addTaskBatch_empty_slot :
  forall (l : LeafScheduler Q) (taskBatch : list Task),
    taskBatch <> [] ->
    _pollingSlot l = None ->
    exists l' front tail,
      taskBatch = front ++ [tail]
      /\ leafAddTaskBatch l true taskBatch = Returns l'
      /\ _pollingSlot l' = Some tail
      /\ tasksOf (_queue l') ≡ₚ tasksOf (_queue l) ++ front
      /\ parentBatches l' = parentBatches l.
Proof.
  intros l taskBatch Hne Hslot.
  destruct (exists_last Hne) as (front & tail & ->).
  exists {| _queueThreshold := _queueThreshold l; _rebalance := _rebalance l;
            _pollingSlot := Some tail;
            _queue := addTaskBatch (_queue l) front;
            _idle := _idle l; parentBatches := parentBatches l;
            resumeIdleCalls := if _idle l then S (resumeIdleCalls l)
                               else resumeIdleCalls l |}, front, tail.
  split; [reflexivity |]. split.
  - unfold leafAddTaskBatch.
    rewrite bool_decide_eq_true_2 by (rewrite length_app; simpl; lia).
    simpl. rewrite last_snoc, Hslot. simpl. rewrite removelast_last.
    reflexivity.
  - simpl. split; [reflexivity |]. split; [apply addTaskBatch_spec | reflexivity].
Qed.

End LeafFacts.

Section LeafScenarios.
Import TreeScheduler.

Example roomy_leaf_reaches_threshold :
  leafAddTask Scenario.roomyLeaf 4 true 0 = Returns Scenario.fullLeaf.
Proof. reflexivity. Qed.

Example full_leaf_overflows :
  leafAddTask Scenario.fullLeaf 5 true 0
  = Returns {| _queueThreshold := 4; _rebalance := false; _pollingSlot := None;
               _queue := {| dq_policy := SchedulerInterface.FIFO_POLICY;
                            dq_tasks := [1; 2; 3] |};
               _idle := false; parentBatches := [[4; 5]];
               resumeIdleCalls := 0 |}.
Proof. reflexivity. Qed.

(** The bound is that of a queue which was within its threshold: once
    the threshold has been lowered under the size of the queue, a batch
    is handed up and the queue stays above the threshold. *)
Example lowered_threshold_overflow :
  leafAddTask (updateQueueThreshold Scenario.fullLeaf 2) 5 true 0
  = Returns {| _queueThreshold := 2; _rebalance := false; _pollingSlot := None;
               _queue := {| dq_policy := SchedulerInterface.FIFO_POLICY;
                            dq_tasks := [1; 2; 3; 4] |};
               _idle := false; parentBatches := [[5]];
               resumeIdleCalls := 0 |}.
Proof. reflexivity. Qed.

(** A fifth task for a leaf of threshold 4 that holds four. *)
Lemma leaf_overflow_post_handoff_size_witness :
  exists l',
    leafAddTask Scenario.fullLeaf 5 true 0 = Returns l'
    /\ (5 <= 4 -> parentBatches l' = [] /\ getSize (_queue l') = 5)
    /\ (4 < 5 ->
        exists batch,
          parentBatches l' = [] ++ [batch]
          /\ batch <> []
          /\ length batch = ((4 / 2) `max` 1) `min` 5
          /\ getSize (_queue l') + length batch = 5
          /\ (getSize (_queue l') <= 4 <-> 5 <= 4 + (4 / 2) `max` 1))
    /\ (5 = 4 + 1 ->
        exists batch,
          parentBatches l' = [] ++ [batch]
          /\ length batch = (4 / 2) `max` 1
          /\ getSize (_queue l') + length batch = 4 + 1
          /\ getSize (_queue l') <= 4).
Proof.
  exact (leaf_overflow_post_handoff_size Scenario.fullLeaf 5 true 0 5 4
           (or_introl (conj eq_refl eq_refl)) eq_refl eq_refl).
Defined.

(** C3, as the design document words it, fails.  The leaf of threshold 4
    that holds four tasks receives a batch of three from its parent, which
    [addTaskBatch] stores without a look at the threshold: one task in the
    polling slot, two in the queue.  The next [addTask] brings the queue
    to seven tasks; the overflow hands the batch [11; 5] to the parent,
    and the queue is left with five tasks, one more than the threshold. *)
Lemma overflow_after_batch_leaves_queue_above_threshold :
  (leafAddTaskBatch Scenario.fullLeaf true [10; 11; 12]
     ≫= fun l => leafAddTask l 5 true 0)
  = Returns {| _queueThreshold := 4; _rebalance := false;
               _pollingSlot := Some 12;
               _queue := {| dq_policy := SchedulerInterface.FIFO_POLICY;
                            dq_tasks := [1; 2; 3; 4; 10] |};
               _idle := false; parentBatches := [[11; 5]];
               resumeIdleCalls := 0 |}
  /\ _queueThreshold Scenario.fullLeaf = 4
  /\ 4 < length [1; 2; 3; 4; 10].
Proof. split; [reflexivity |]. split; [reflexivity |]. cbn. lia. Qed.

(** A batch of three for a leaf whose polling slot is empty. *)
Lemma leaf_addTaskBatch_empty_slot_witness :
  exists l' front tail,
    [10; 11; 12] = front ++ [tail]
    /\ leafAddTaskBatch Scenario.fullLeaf true [10; 11; 12] = Returns l'
    /\ _pollingSlot l' = Some tail
    /\ tasksOf (_queue l') ≡ₚ [1; 2; 3; 4] ++ front
    /\ parentBatches l' = [].
Proof.
  refine (leaf_addTaskBatch_empty_slot Scenario.fullLeaf [10; 11; 12] _ eq_refl).
  discriminate.
Defined.

Example batch_for_empty_slot :
  leafAddTaskBatch Scenario.fullLeaf true [10; 11; 12]
  = Returns {| _queueThreshold := 4; _rebalance := false;
               _pollingSlot := Some 12;
               _queue := {| dq_policy := SchedulerInterface.FIFO_POLICY;
                            dq_tasks := [1; 2; 3; 4; 10; 11] |};
               _idle := false; parentBatches := [];
               resumeIdleCalls := 0 |}.
Proof. reflexivity. Qed.

End LeafScenarios.

(** ** The scheduling policy *)

Section PolicyFacts.
Import SchedulerInterface.

Lemma choosePolicy_fifo value :
  value <> "LIFO" -> value <> "lifo" -> choosePolicy value = FIFO_POLICY.
Proof.
  intros H1 H2. unfold choosePolicy.
  rewrite !bool_decide_eq_false_2 by assumption. reflexivity.
Qed.

Lemma choosePolicy_lifo value :
  choosePolicy value = LIFO_POLICY <-> value = "LIFO" \/ value = "lifo".
Proof.
  unfold choosePolicy.
  destruct (decide (value = "LIFO")) as [-> | H1]; [split; auto |].
  destruct (decide (value = "lifo")) as [-> | H2]; [split; auto |].
  rewrite !bool_decide_eq_false_2 by assumption. simpl.
  split; [discriminate | intros [? | ?]; contradiction].
Qed.

(** C4, as the code has it.  A value of the scheduling-policy setting
    other than "LIFO" and "lifo", malformed or not, is not diagnosed: the
    constructor takes it for FIFO.  It stops only in a build with OpenCL
    or FPGA support, with a message about that build, whatever the value
    of the setting. *)
Theorem unknown_policy_value_selects_fifo :
  forall (b : Build) (e : Environment) (n : Counts) (value : string),
    NANOS6_SCHEDULING_POLICY e = Some value ->
    value <> "LIFO" ->
    value <> "lifo" ->
    match constructor b e n with
    | Returns s =>
      policy (_hostScheduler s) = FIFO_POLICY
      /\ NANOS6_OPENCL b = false /\ USE_FPGA b = false
    | FatalError msg =>
      (NANOS6_OPENCL b = true /\ msg = "OpenCL is not supported yet.")
      \/ (USE_FPGA b = true /\ msg = "FPGA is not supported yet.")
    | AssertionFails _ => False
    end.
Proof.
  intros b e n value He H1 H2. unfold constructor, _schedulingPolicy.
  rewrite He. simpl. rewrite (choosePolicy_fifo value H1 H2).
  destruct (NANOS6_OPENCL b); simpl; [left; split; reflexivity |].
  destruct (USE_FPGA b); simpl; [right; split; reflexivity |].
  repeat split.
Qed.

(** The policy "round-robin" on a host build. *)
Lemma unknown_policy_value_selects_fifo_witness :
  match constructor Scenario.hostBuild Scenario.bogusPolicy Scenario.fourCPUs with
  | Returns s =>
    policy (_hostScheduler s) = FIFO_POLICY
    /\ NANOS6_OPENCL Scenario.hostBuild = false
    /\ USE_FPGA Scenario.hostBuild = false
  | FatalError msg =>
    (NANOS6_OPENCL Scenario.hostBuild = true /\ msg = "OpenCL is not supported yet.")
    \/ (USE_FPGA Scenario.hostBuild = true /\ msg = "FPGA is not supported yet.")
  | AssertionFails _ => False
  end.
Proof.
  refine (unknown_policy_value_selects_fifo Scenario.hostBuild Scenario.bogusPolicy
            Scenario.fourCPUs "round-robin" eq_refl _ _); discriminate.
Defined.

(** C4, as the design document words it, fails: the value "round-robin"
    is not of the fifo/lifo enumeration, and the constructor returns, with
    a FIFO host scheduler. *)
Lemma malformed_policy_value_does_not_abort :
  "round-robin" <> "fifo" /\ "round-robin" <> "FIFO"
  /\ "round-robin" <> "lifo" /\ "round-robin" <> "LIFO"
  /\ constructor Scenario.hostBuild Scenario.bogusPolicy Scenario.fourCPUs
     = Returns {| runtimeInfo := [("schedulingPolicy", "SchedulingPolicy", "round-robin")];
                  _hostScheduler := {| computePlaceCount := 4;
                                       policy := FIFO_POLICY;
                                       enablePriority := true;
                                       enableImmediateSuccessor := true |};
                  _cudaScheduler := None;
                  _openaccScheduler := None |}.
Proof. repeat split; discriminate. Qed.

End PolicyFacts.

(** ** The shutdown collective *)

Section ShutdownFacts.
Import ThreadManager.

(** *** Counting the workers that have not decremented *)

Lemma pendingThreads_all ts :
  (forall t th, ts !! t = Some th -> decrements th = 0) ->
  pendingThreads ts = length ts.
Proof.
  induction ts as [| th ts IH]; intros H; simpl; [reflexivity |].
  rewrite bool_decide_eq_true_2 by (apply (H 0); reflexivity).
  rewrite IH; [reflexivity |]. intros t th' Ht. apply (H (S t)). exact Ht.
Qed.

Lemma alter_head (f : WorkerThread -> WorkerThread) x l :
  alter f 0 (x :: l) = f x :: l.
Proof. reflexivity. Qed.

Lemma alter_tail (f : WorkerThread -> WorkerThread) t x l :
  alter f (S t) (x :: l) = x :: alter f t l.
Proof. reflexivity. Qed.

Lemma pendingThreads_alter_same f t ts :
  (forall th, decrements (f th) = decrements th) ->
  pendingThreads (alter f t ts) = pendingThreads ts.
Proof.
  intros Hf. revert t. induction ts as [| th ts IH]; intros [| t];
    try reflexivity.
  - rewrite alter_head. cbn [pendingThreads]. rewrite Hf. reflexivity.
  - rewrite alter_tail. cbn [pendingThreads]. rewrite IH. reflexivity.
Qed.

Lemma pendingThreads_alter_dec f t ts th :
  ts !! t = Some th ->
  decrements th = 0 ->
  decrements (f th) <> 0 ->
  pendingThreads (alter f t ts) + 1 = pendingThreads ts.
Proof.
  revert t. induction ts as [| th0 ts IH]; intros [| t] Ht H0 Hf;
    try discriminate.
  - injection Ht as ->. rewrite alter_head. cbn [pendingThreads].
    rewrite (bool_decide_eq_true_2 _ H0), (bool_decide_eq_false_2 _ Hf). lia.
  - rewrite alter_tail. cbn [pendingThreads].
    rewrite <- (IH t Ht H0 Hf). lia.
Qed.

Lemma pendingThreads_pos ts t th :
  ts !! t = Some th -> decrements th = 0 -> 1 <= pendingThreads ts.
Proof.
  revert t. induction ts as [| th0 ts IH]; intros [| t] Ht H0; simpl in *;
    try discriminate.
  - injection Ht as ->. rewrite (bool_decide_eq_true_2 _ H0). lia.
  - specialize (IH t Ht H0). lia.
Qed.

Lemma pendingThreads_two ts a b x y :
  a <> b ->
  ts !! a = Some x -> ts !! b = Some y ->
  decrements x = 0 -> decrements y = 0 ->
  2 <= pendingThreads ts.
Proof.
  revert a b. induction ts as [| th0 ts IH]; intros [| a] [| b] Hab Ha Hb Hx Hy;
    simpl in *; try discriminate; try congruence.
  - injection Ha as ->. rewrite (bool_decide_eq_true_2 _ Hx).
    pose proof (pendingThreads_pos ts b y Hb Hy). lia.
  - injection Hb as ->. rewrite (bool_decide_eq_true_2 _ Hy).
    pose proof (pendingThreads_pos ts a x Ha Hx). lia.
  - assert (a <> b) by congruence.
    specialize (IH a b H Ha Hb Hx Hy). lia.
Qed.

Lemma pendingThreads_zero (ts : list WorkerThread) (t : tid) th :
  pendingThreads ts = 0 -> ts !! t = Some th -> decrements th <> 0.
Proof.
  intros H0 Ht Hd. pose proof (pendingThreads_pos ts t th Ht Hd). lia.
Qed.

(** *** Looking a worker up after an update *)

Lemma lookup_alter_inv (f : WorkerThread -> WorkerThread)
    (t : tid) (ts : list WorkerThread) (t' : tid) (th' : WorkerThread) :
  alter f t ts !! t' = Some th' ->
  (t' = t /\ exists th, ts !! t = Some th /\ th' = f th)
  \/ (t' <> t /\ ts !! t' = Some th').
Proof.
  destruct (decide (t' = t)) as [-> | Hne].
  - rewrite list_lookup_alter_eq. intros H.
    apply fmap_Some in H as (th & Hth & ->). left. eauto.
  - rewrite list_lookup_alter_ne by congruence. right. auto.
Qed.

Lemma lookup_alter_same (f : WorkerThread -> WorkerThread)
    (t : tid) (ts : list WorkerThread) (th : WorkerThread) :
  ts !! t = Some th -> alter f t ts !! t = Some (f th).
Proof. intros H. rewrite list_lookup_alter_eq, H. reflexivity. Qed.

Lemma hasExited_status ts m :
  hasExited ts m = true <-> exists th, ts !! m = Some th /\ status th = Exited.
Proof.
  unfold hasExited. destruct (ts !! m) as [th |].
  - rewrite bool_decide_eq_true. split; [eauto |].
    intros (th' & [= <-] & H). exact H.
  - split; [discriminate | intros (th' & H & _); discriminate].
Qed.

(** *** Taking a worker out of the idle queue *)

Lemma getIdleThread_Some idle pick t idle' :
  NoDup idle ->
  getIdleThread idle pick = Some (t, idle') ->
  t ∈ idle /\ NoDup idle' /\ (t ∉ idle') /\ (forall x, x ∈ idle' -> x ∈ idle).
Proof.
  intros Hnd. unfold getIdleThread.
  set (i := if bool_decide (pick < length idle) then pick else 0).
  destruct (idle !! i) as [x |] eqn:Hi; [| discriminate].
  intros [= <- <-].
  split; [eapply list_elem_of_lookup_2; eassumption |].
  split; [exact (sublist_NoDup _ _ Hnd (sublist_delete idle i)) |].
  split; [| intros y; apply list_elem_of_delete_inv].
  rewrite delete_take_drop.
  rewrite <- (take_drop_middle idle i x Hi) in Hnd.
  apply NoDup_app in Hnd as (_ & Hdisj & Hnd2).
  apply NoDup_cons in Hnd2 as [Hx _].
  rewrite elem_of_app. intros [Hin | Hin].
  - apply (Hdisj x Hin). apply list_elem_of_here.
  - exact (Hx Hin).
Qed.

Lemma getIdleThread_None idle pick :
  getIdleThread idle pick = None -> idle = [].
Proof.
  unfold getIdleThread. destruct idle as [| x idle]; [reflexivity |].
  case_bool_decide as Hp.
  - destruct ((x :: idle) !! pick) eqn:E; [discriminate |].
    apply lookup_ge_None in E. lia.
  - discriminate.
Qed.

(** *** The invariant is kept by every step *)

Lemma mainProgress_ext s s' m th :
  _cpus s' = _cpus s ->
  pendingThreads (threads s') = pendingThreads (threads s) ->
  mainProgress s m th -> mainProgress s' m th.
Proof.
  unfold mainProgress. intros -> ->. auto.
Qed.

(** A worker that is not parked moves on to a status that agrees with
    its count of decrements; nothing else changes. *)
Lemma ThreadsInv_setStatus s t th st :
  ThreadsInv s ->
  _mustExit s = true ->
  threads s !! t = Some th ->
  status th <> Idle ->
  st <> Idle ->
  decrements th = match st with Exiting | Exited => 1 | _ => 0 end ->
  (_mainShutdownControllerThread s = Some t -> mainProgress s t (setStatus st th)) ->
  ThreadsInv (setThreads (alter (setStatus st) t (threads s)) s).
Proof.
  intros [Htot Hnd Hidle Hdec Hcount Hbefore Hmain] Hexit Ht Hnotidle Hst Hd Hprog.
  assert (Hpend : pendingThreads (alter (setStatus st) t (threads s))
                  = pendingThreads (threads s))
    by (apply pendingThreads_alter_same; reflexivity).
  constructor; simpl.
  - rewrite length_alter. exact Htot.
  - exact Hnd.
  - intros x Hx. destruct (Hidle x Hx) as (thx & Hthx & Hsx).
    exists thx. split; [| exact Hsx].
    rewrite list_lookup_alter_ne; [exact Hthx |]. congruence.
  - intros x thx Hx. apply lookup_alter_inv in Hx as [[-> (th0 & Hth0 & ->)] | [Hne Hx]].
    + rewrite Ht in Hth0. injection Hth0 as <-. simpl. exact Hd.
    + exact (Hdec x thx Hx).
  - intros _. rewrite Hpend. exact (Hcount Hexit).
  - intros Hfalse. congruence.
  - intros m Hm. destruct (Hmain m Hm) as (thm & Hthm & Hpm).
    destruct (decide (m = t)) as [-> | Hne].
    + exists (setStatus st th). split; [apply lookup_alter_same; exact Ht |].
      eapply mainProgress_ext; [| | exact (Hprog Hm)]; [reflexivity | exact Hpend].
    + exists thm. split; [rewrite list_lookup_alter_ne by congruence; exact Hthm |].
      eapply mainProgress_ext; [| | exact Hpm]; [reflexivity | exact Hpend].
Qed.

(** A busy worker parks in the idle queue. *)
Lemma ThreadsInv_goIdle s t th :
  ThreadsInv s ->
  threads s !! t = Some th ->
  status th = Busy ->
  ThreadsInv (setIdleThreads (_idleThreads s ++ [t])
                (setThreads (alter (setStatus Idle) t (threads s)) s)).
Proof.
  intros [Htot Hnd Hidle Hdec Hcount Hbefore Hmain] Ht Hbusy.
  assert (Hpend : pendingThreads (alter (setStatus Idle) t (threads s))
                  = pendingThreads (threads s))
    by (apply pendingThreads_alter_same; reflexivity).
  assert (Hnotin : t ∉ _idleThreads s).
  { intros Hin. destruct (Hidle t Hin) as (th' & Hth' & Hs).
    rewrite Ht in Hth'. injection Hth' as <-. congruence. }
  constructor; simpl.
  - rewrite length_alter. exact Htot.
  - apply NoDup_app. split; [exact Hnd |]. split; [| apply NoDup_singleton].
    intros x Hx Hx'. apply list_elem_of_singleton in Hx'. subst x. exact (Hnotin Hx).
  - intros x Hx. apply elem_of_app in Hx as [Hx | Hx].
    + destruct (Hidle x Hx) as (thx & Hthx & Hsx).
      exists thx. split; [| exact Hsx].
      rewrite list_lookup_alter_ne; [exact Hthx |]. intros ->. exact (Hnotin Hx).
    + apply list_elem_of_singleton in Hx. subst x.
      exists (setStatus Idle th). split; [apply lookup_alter_same; exact Ht | reflexivity].
  - intros x thx Hx. apply lookup_alter_inv in Hx as [[-> (th0 & Hth0 & ->)] | [Hne Hx]].
    + rewrite Ht in Hth0. injection Hth0 as <-. simpl.
      rewrite (Hdec t th Ht), Hbusy. reflexivity.
    + exact (Hdec x thx Hx).
  - intros Hexit. rewrite Hpend. exact (Hcount Hexit).
  - intros Hfalse. destruct (Hbefore Hfalse) as (Hm & Hc & Hall).
    split; [exact Hm |]. split; [exact Hc |].
    intros x thx Hx. apply lookup_alter_inv in Hx as [[-> (th0 & Hth0 & ->)] | [Hne Hx]].
    + right. reflexivity.
    + exact (Hall x thx Hx).
  - intros m Hm. destruct (Hmain m Hm) as (thm & Hthm & Hpm).
    assert (m <> t).
    { intros ->. rewrite Ht in Hthm. injection Hthm as <-.
      unfold mainProgress in Hpm. rewrite Hbusy in Hpm. exact Hpm. }
    exists thm. split; [rewrite list_lookup_alter_ne by congruence; exact Hthm |].
    eapply mainProgress_ext; [| | exact Hpm]; [reflexivity | exact Hpend].
Qed.

(** A parked worker is taken out of the idle queue and resumed with the
    shutdown signal, by a controller or by [shutdown]. *)
Lemma ThreadsInv_resume s pick next idle' cpu :
  ThreadsInv s ->
  _mustExit s = true ->
  getIdleThread (_idleThreads s) pick = Some (next, idle') ->
  ThreadsInv (setIdleThreads idle'
                (setThreads (alter (resumeForShutdown cpu) next (threads s)) s))
  /\ (exists th, threads s !! next = Some th /\ status th = Idle)
  /\ _mainShutdownControllerThread s <> Some next.
Proof.
  intros [Htot Hnd Hidle Hdec Hcount Hbefore Hmain] Hexit Hget.
  destruct (getIdleThread_Some _ _ _ _ Hnd Hget) as (Hin & Hnd' & Hnotin & Hsub).
  destruct (Hidle next Hin) as (thn & Hthn & Hsn).
  assert (Hpend : pendingThreads (alter (resumeForShutdown cpu) next (threads s))
                  = pendingThreads (threads s))
    by (apply pendingThreads_alter_same; reflexivity).
  assert (Hnotmain : _mainShutdownControllerThread s <> Some next).
  { intros Hm. destruct (Hmain next Hm) as (thm & Hthm & Hpm).
    rewrite Hthn in Hthm. injection Hthm as <-.
    unfold mainProgress in Hpm. rewrite Hsn in Hpm. exact Hpm. }
  split; [| split; [eauto | exact Hnotmain]].
  constructor; simpl.
  - rewrite length_alter. exact Htot.
  - exact Hnd'.
  - intros x Hx. destruct (Hidle x (Hsub x Hx)) as (thx & Hthx & Hsx).
    exists thx. split; [| exact Hsx].
    rewrite list_lookup_alter_ne; [exact Hthx |]. intros ->. exact (Hnotin Hx).
  - intros x thx Hx. apply lookup_alter_inv in Hx as [[-> (th0 & Hth0 & ->)] | [Hne Hx]].
    + rewrite Hthn in Hth0. injection Hth0 as <-. simpl.
      rewrite (Hdec next thn Hthn), Hsn. reflexivity.
    + exact (Hdec x thx Hx).
  - intros _. rewrite Hpend. exact (Hcount Hexit).
  - intros Hfalse. congruence.
  - intros m Hm. destruct (Hmain m Hm) as (thm & Hthm & Hpm).
    assert (m <> next) by congruence.
    exists thm. split; [rewrite list_lookup_alter_ne by congruence; exact Hthm |].
    eapply mainProgress_ext; [| | exact Hpm]; [reflexivity | exact Hpend].
Qed.

(** A worker executes [_shutdownThreads--]. *)
Lemma ThreadsInv_decrement s t th :
  ThreadsInv s ->
  _mustExit s = true ->
  threads s !! t = Some th ->
  status th = Decrementing ->
  ThreadsInv
    {| _mustExit := _mustExit s; _cpus := _cpus s;
       _idleThreads := _idleThreads s;
       _totalThreads := _totalThreads s;
       _shutdownThreads := (_shutdownThreads s - 1)%Z;
       _mainShutdownControllerThread := _mainShutdownControllerThread s;
       threads :=
         alter afterDecrement t (threads s);
       shutdown := shutdown s; failed := failed s |}.
Proof.
  intros [Htot Hnd Hidle Hdec Hcount Hbefore Hmain] Hexit Ht Hst.
  set (f := afterDecrement).
  assert (Hd0 : decrements th = 0) by (rewrite (Hdec t th Ht), Hst; reflexivity).
  assert (Hpend : pendingThreads (alter f t (threads s)) + 1
                  = pendingThreads (threads s)).
  { apply (pendingThreads_alter_dec f t (threads s) th Ht Hd0). simpl. lia. }
  constructor; simpl.
  - rewrite length_alter. exact Htot.
  - exact Hnd.
  - intros x Hx. destruct (Hidle x Hx) as (thx & Hthx & Hsx).
    exists thx. split; [| exact Hsx].
    rewrite list_lookup_alter_ne; [exact Hthx |].
    intros ->. rewrite Ht in Hthx. injection Hthx as <-. congruence.
  - intros x thx Hx. apply lookup_alter_inv in Hx as [[-> (th0 & Hth0 & ->)] | [Hne Hx]].
    + rewrite Ht in Hth0. injection Hth0 as <-. simpl. rewrite Hd0. reflexivity.
    + exact (Hdec x thx Hx).
  - intros _. rewrite (Hcount Hexit). lia.
  - intros Hfalse. congruence.
  - intros m Hm. destruct (Hmain m Hm) as (thm & Hthm & Hpm).
    destruct (decide (m = t)) as [-> | Hne].
    + rewrite Ht in Hthm. injection Hthm as <-.
      exists (f th). split; [apply lookup_alter_same; exact Ht |].
      unfold mainProgress in *. rewrite Hst in Hpm. simpl. lia.
    + exists thm. split; [rewrite list_lookup_alter_ne by congruence; exact Hthm |].
      unfold mainProgress in *. simpl.
      destruct (status thm) eqn:Hsm; try exact Hpm.
      * pose proof (Hdec m thm Hthm) as Hdm. rewrite Hsm in Hdm.
        pose proof (pendingThreads_two (threads s) m t thm th Hne Hthm Ht Hdm Hd0).
        lia.
      * pose proof (pendingThreads_pos (threads s) t th Ht Hd0). lia.
      * pose proof (pendingThreads_pos (threads s) t th Ht Hd0). lia.
Qed.

Lemma controlerOf_insert_eq (cpus : list (option CPU)) (k : cpuid) c t :
  cpus !! k = Some (Some c) ->
  controlerOf (<[k := Some (setControler t c)]> cpus) k = Some t.
Proof.
  intros Hk. unfold controlerOf.
  rewrite list_lookup_insert_eq by (eapply lookup_lt_Some; eassumption).
  reflexivity.
Qed.

Lemma controlerOf_insert_ne (cpus : list (option CPU)) (k k' : cpuid) x :
  k <> k' -> controlerOf (<[k := x]> cpus) k' = controlerOf cpus k'.
Proof.
  intros Hne. unfold controlerOf. rewrite list_lookup_insert_ne by exact Hne.
  reflexivity.
Qed.

Lemma controlerOf_insert_same (cpus : list (option CPU)) (k k' : cpuid) c c' :
  cpus !! k = Some (Some c) ->
  _shutdownControlerThread c' = _shutdownControlerThread c ->
  controlerOf (<[k := Some c']> cpus) k' = controlerOf cpus k'.
Proof.
  intros Hk Hc. destruct (decide (k = k')) as [<- | Hne].
  - unfold controlerOf.
    rewrite list_lookup_insert_eq by (eapply lookup_lt_Some; eassumption).
    rewrite Hk. exact Hc.
  - apply controlerOf_insert_ne. exact Hne.
Qed.

(** Steps that touch none of the workers, counters and controllers. *)
Lemma ThreadsInv_ext s s' :
  _mustExit s' = _mustExit s ->
  (forall c, controlerOf (_cpus s') c = controlerOf (_cpus s) c) ->
  _idleThreads s' = _idleThreads s ->
  _totalThreads s' = _totalThreads s ->
  _shutdownThreads s' = _shutdownThreads s ->
  _mainShutdownControllerThread s' = _mainShutdownControllerThread s ->
  threads s' = threads s ->
  ThreadsInv s -> ThreadsInv s'.
Proof.
  intros He Hc Hi Ht Hs Hm Hth [Htot Hnd Hidle Hdec Hcount Hbefore Hmain].
  constructor; rewrite ?He, ?Hi, ?Ht, ?Hs, ?Hm, ?Hth; try assumption.
  - intros Hfalse. destruct (Hbefore Hfalse) as (H1 & H2 & H3).
    split; [exact H1 |]. split; [| exact H3].
    intros k. rewrite Hc. apply H2.
  - intros m Hmm. destruct (Hmain m Hmm) as (thm & Hthm & Hpm).
    exists thm. split; [exact Hthm |].
    unfold mainProgress in *. rewrite Hth, Hc. exact Hpm.
Qed.

Lemma ThreadsInv_setIdle_sub s idle' :
  NoDup idle' ->
  (forall x, x ∈ idle' -> x ∈ _idleThreads s) ->
  ThreadsInv s -> ThreadsInv (setIdleThreads idle' s).
Proof.
  intros Hnd' Hsub [Htot Hnd Hidle Hdec Hcount Hbefore Hmain].
  constructor; simpl; try assumption.
  intros x Hx. apply Hidle, Hsub, Hx.
Qed.

(** [shutdown] is called: the counter is seeded with [_totalThreads]. *)
Lemma ThreadsInv_call s pc :
  ThreadsInv s ->
  _mustExit s = false ->
  ThreadsInv {| _mustExit := true; _cpus := _cpus s;
                _idleThreads := _idleThreads s;
                _totalThreads := _totalThreads s;
                _shutdownThreads := _totalThreads s;
                _mainShutdownControllerThread := _mainShutdownControllerThread s;
                threads := threads s; shutdown := pc; failed := failed s |}.
Proof.
  intros [Htot Hnd Hidle Hdec Hcount Hbefore Hmain] Hfalse.
  destruct (Hbefore Hfalse) as (Hm & Hc & Hall).
  constructor; simpl; try assumption.
  - intros _. rewrite Htot. f_equal. symmetry. apply pendingThreads_all.
    intros t th Ht. rewrite (Hdec t th Ht).
    destruct (Hall t th Ht) as [-> | ->]; reflexivity.
  - intros Hx. discriminate.
Qed.

(** [shutdown] names a resumed worker the controller of CPU [k], and the
    main controller if there is none yet. *)
Lemma ThreadsInv_designate s k c t th :
  ThreadsInv s ->
  _mustExit s = true ->
  _cpus s !! k = Some (Some c) ->
  _shutdownControlerThread c = None ->
  threads s !! t = Some th ->
  status th = ShutdownEntry ->
  _cpu th = k ->
  _mainShutdownControllerThread s <> Some t ->
  ThreadsInv {| _mustExit := _mustExit s;
                _cpus := <[k := Some (setControler t c)]> (_cpus s);
                _idleThreads := _idleThreads s;
                _totalThreads := _totalThreads s;
                _shutdownThreads := _shutdownThreads s;
                _mainShutdownControllerThread :=
                  match _mainShutdownControllerThread s with
                  | None => Some t
                  | Some m => Some m
                  end;
                threads := threads s; shutdown := shutdown s; failed := failed s |}.
Proof.
  intros [Htot Hnd Hidle Hdec Hcount Hbefore Hmain] Hexit Hk Hnone Ht Hst Hcpu Hnotmain.
  assert (Hold : controlerOf (_cpus s) k = None).
  { unfold controlerOf. rewrite Hk. exact Hnone. }
  constructor; simpl; try assumption.
  - intros Hfalse. congruence.
  - intros m Hm.
    destruct (_mainShutdownControllerThread s) as [m0 |] eqn:Hmain0.
    + injection Hm as <-. destruct (Hmain m0 eq_refl) as (thm & Hthm & Hpm).
      exists thm. split; [exact Hthm |].
      unfold mainProgress in *. simpl.
      destruct (status thm); try exact Hpm.
      rewrite controlerOf_insert_ne; [exact Hpm |].
      intros Heq. rewrite <- Heq, Hold in Hpm. discriminate.
    + injection Hm as <-. exists th. split; [exact Ht |].
      unfold mainProgress. rewrite Hst, Hcpu. simpl.
      apply controlerOf_insert_eq. exact Hk.
Qed.

(** *** The invariant on the caller of [shutdown] *)

Lemma PcInv_ext s s' :
  shutdown s' = shutdown s ->
  _mustExit s' = _mustExit s ->
  _mainShutdownControllerThread s' = _mainShutdownControllerThread s ->
  (forall c, controlerOf (_cpus s') c = controlerOf (_cpus s) c) ->
  (forall m, hasExited (threads s) m = true -> hasExited (threads s') m = true) ->
  PcInv s -> PcInv s'.
Proof.
  intros Hpc He Hm Hc Hex. unfold PcInv. rewrite Hpc, He, Hm.
  destruct (shutdown s) as [| k sh part | k sh part | rest sh |]; try exact id.
  - intros [H1 H2]. split; [exact H1 |]. intros m Hmm.
    destruct (H2 m Hmm) as (c & Hin & Hcc). exists c. rewrite Hc. auto.
  - intros [H1 H2]. split; [exact H1 |]. intros m Hmm.
    destruct (H2 m Hmm) as (c & Hin & Hcc). exists c. rewrite Hc. auto.
  - intros [H1 (m & Hmm & H2)]. split; [exact H1 |]. exists m. split; [exact Hmm |].
    destruct H2 as [(c & Hin & Hcc) | H2]; [left | right; auto].
    exists c. rewrite Hc. auto.
  - intros [H1 (m & Hmm & H2)]. split; [exact H1 |]. exists m. auto.
Qed.

Lemma hasExited_alter_live f (t : tid) (ts : list WorkerThread) th m :
  ts !! t = Some th ->
  status th <> Exited ->
  hasExited ts m = true -> hasExited (alter f t ts) m = true.
Proof.
  intros Ht Hlive Hex. apply hasExited_status in Hex as (thm & Hm & Hs).
  apply hasExited_status. exists thm. split; [| exact Hs].
  rewrite list_lookup_alter_ne; [exact Hm |].
  intros ->. rewrite Ht in Hm. injection Hm as <-. congruence.
Qed.

Lemma Inv_fail what s : Inv s -> Inv (fail what s).
Proof.
  intros [HT HP]. split.
  - eapply ThreadsInv_ext; [.. | exact HT]; reflexivity.
  - exact HP.
Qed.

Lemma Inv_setPc pc s : ThreadsInv s -> PcInv (setPc pc s) -> Inv (setPc pc s).
Proof.
  intros HT HP. split; [| exact HP].
  eapply ThreadsInv_ext; [.. | exact HT]; reflexivity.
Qed.

Lemma running_after_call s (t : tid) th :
  ThreadsInv s ->
  threads s !! t = Some th ->
  status th <> Busy -> status th <> Idle ->
  _mustExit s = true.
Proof.
  intros HT Ht Hb Hi. destruct (_mustExit s) eqn:E; [reflexivity |].
  destruct (inv_before s HT E) as (_ & _ & Hall).
  destruct (Hall t th Ht); congruence.
Qed.

(** A worker changes its own status, and nothing else. *)
Lemma Inv_setStatus s (t : tid) th st :
  Inv s ->
  threads s !! t = Some th ->
  status th <> Busy -> status th <> Idle -> status th <> Exited ->
  st <> Idle ->
  decrements th = match st with Exiting | Exited => 1 | _ => 0 end ->
  (_mainShutdownControllerThread s = Some t -> mainProgress s t (setStatus st th)) ->
  Inv (setThreads (alter (setStatus st) t (threads s)) s).
Proof.
  intros [HT HP] Ht Hb Hi He Hst Hd Hprog. split.
  - eapply ThreadsInv_setStatus; try eassumption.
    eapply running_after_call; eassumption.
  - eapply PcInv_ext; [.. | exact HP]; try reflexivity.
    intros m. simpl. apply (hasExited_alter_live _ t _ th _ Ht He).
Qed.

(** A busy worker changes fields that the invariant does not read. *)
Lemma Inv_alter_busy s (t : tid) th (f : WorkerThread -> WorkerThread) :
  Inv s ->
  threads s !! t = Some th ->
  status th = Busy ->
  (forall x, status (f x) = status x) ->
  (forall x, decrements (f x) = decrements x) ->
  Inv (setThreads (alter f t (threads s)) s).
Proof.
  intros [[Htot Hnd Hidle Hdec Hcount Hbefore Hmain] HP] Ht Hbusy Hfs Hfd.
  assert (Hpend : pendingThreads (alter f t (threads s))
                  = pendingThreads (threads s))
    by (apply pendingThreads_alter_same; exact Hfd).
  split.
  - constructor; simpl.
    + rewrite length_alter. exact Htot.
    + exact Hnd.
    + intros x Hx. destruct (Hidle x Hx) as (thx & Hthx & Hsx).
      exists thx. split; [| exact Hsx].
      rewrite list_lookup_alter_ne; [exact Hthx |].
      intros ->. rewrite Ht in Hthx. injection Hthx as <-. congruence.
    + intros x thx Hx.
      apply lookup_alter_inv in Hx as [[-> (th0 & Hth0 & ->)] | [Hne Hx]].
      * rewrite Hfs, Hfd. exact (Hdec t th0 Hth0).
      * exact (Hdec x thx Hx).
    + intros Hexit. rewrite Hpend. exact (Hcount Hexit).
    + intros Hfalse. destruct (Hbefore Hfalse) as (Hm & Hc & Hall).
      split; [exact Hm |]. split; [exact Hc |].
      intros x thx Hx.
      apply lookup_alter_inv in Hx as [[-> (th0 & Hth0 & ->)] | [Hne Hx]].
      * rewrite Hfs. exact (Hall t th0 Hth0).
      * exact (Hall x thx Hx).
    + intros m Hm. destruct (Hmain m Hm) as (thm & Hthm & Hpm).
      assert (m <> t).
      { intros ->. rewrite Ht in Hthm. injection Hthm as <-.
        unfold mainProgress in Hpm. rewrite Hbusy in Hpm. exact Hpm. }
      exists thm. split; [rewrite list_lookup_alter_ne by congruence; exact Hthm |].
      eapply mainProgress_ext; [| | exact Hpm]; [reflexivity | exact Hpend].
  - eapply PcInv_ext; [.. | exact HP]; try reflexivity.
    intros m. simpl. apply (hasExited_alter_live _ t _ th _ Ht). congruence.
Qed.

Lemma afterJoin_cases rc s s' :
  afterJoin rc s s' = s'
  \/ afterJoin rc s s' = fail " during shutdown when joining pthread " s.
Proof.
  unfold afterJoin, handle, failIf.
  destruct (bool_decide (rc <> 0%Z)); [right | left]; reflexivity.
Qed.

Lemma workerStep_Inv t pick rc s s' :
  Inv s -> workerStep t pick rc s = Some s' -> Inv s'.
Proof.
  intros HI Hstep. pose proof HI as [HT HP]. unfold workerStep in Hstep.
  destruct (threads s !! t) as [th |] eqn:Ht; [| discriminate].
  pose proof (inv_dec s HT t th Ht) as Hd.
  pose proof (inv_main s HT) as Hmain.
  destruct (status th) as [| | | b | next b | | |] eqn:Hst.
  - (* a busy worker starts up, or parks *)
    destruct (bool_decide (_currentWorkerThread th = None)); injection Hstep as <-.
    { unfold threadStartup.
      destruct (_cpus s !! _cpu th) as [[c |] |];
        [| apply Inv_fail; exact HI ..].
      destruct (_cpuToBeResumedOn th) as [cpu |]; [| apply Inv_fail];
        apply (Inv_alter_busy s t th); auto. }
    split.
    + apply (ThreadsInv_goIdle s t th HT Ht Hst).
    + eapply PcInv_ext; [.. | exact HP]; try reflexivity.
      intros m. simpl. apply (hasExited_alter_live _ t _ th _ Ht). congruence.
  - discriminate.
  - (* entry of threadShutdownSequence *)
    destruct (_cpus s !! _cpu th) as [[c |] |] eqn:Hc;
      try (injection Hstep as <-; apply Inv_fail; exact HI).
    destruct (negb (bool_decide (_currentWorkerThread th = Some t)));
      [injection Hstep as <-; apply Inv_fail; exact HI |].
    case_bool_decide as Hctl; injection Hstep as <-.
    + apply (Inv_setStatus s t th); try assumption; try congruence.
      intros Hm. unfold mainProgress. simpl.
      apply bool_decide_eq_true. exact Hm.
    + apply (Inv_setStatus s t th); try assumption; try congruence.
      intros Hm. exfalso. destruct (Hmain t Hm) as (th' & Hth' & Hp).
      rewrite Ht in Hth'. injection Hth' as <-.
      unfold mainProgress in Hp. rewrite Hst in Hp.
      unfold controlerOf in Hp. rewrite Hc in Hp. exact (Hctl Hp).
  - (* the loop of a controller *)
    assert (Hexit : _mustExit s = true)
      by (eapply running_after_call; try eassumption; congruence).
    destruct (getIdleThread (_idleThreads s) pick) as [[nxt idle'] |] eqn:Hget.
    + assert (Inv (setIdleThreads idle' s)) as HI'.
      { split.
        - destruct (getIdleThread_Some _ _ _ _ (inv_idle_nodup s HT) Hget)
            as (_ & Hnd' & _ & Hsub).
          apply ThreadsInv_setIdle_sub; assumption.
        - exact HP. }
      destruct (holdsTask (threads s) nxt);
        [injection Hstep as <-; apply Inv_fail; exact HI' |].
      destruct (isToBeResumed (threads s) nxt);
        [injection Hstep as <-; apply Inv_fail; exact HI' |].
      injection Hstep as <-.
      destruct (ThreadsInv_resume s pick nxt idle' (_cpu th) HT Hexit Hget)
        as (HT1 & (thn & Hthn & Hsn) & Hnm).
      set (s1 := setIdleThreads idle'
                   (setThreads (alter (resumeForShutdown (_cpu th)) nxt (threads s)) s)).
      assert (Hne : t <> nxt).
      { intros ->. rewrite Ht in Hthn. injection Hthn as <-. congruence. }
      assert (Ht1 : threads s1 !! t = Some th).
      { simpl. rewrite list_lookup_alter_ne by congruence. exact Ht. }
      split.
      * apply (ThreadsInv_setStatus s1 t th (ControllerJoin nxt b) HT1 Hexit Ht1);
          try congruence.
        intros Hm. destruct (Hmain t Hm) as (th' & Hth' & Hp).
        rewrite Ht in Hth'. injection Hth' as <-.
        unfold mainProgress in *. rewrite Hst in Hp. simpl. exact Hp.
      * eapply PcInv_ext; [.. | exact HP]; try reflexivity.
        intros m Hm. simpl.
        apply (hasExited_alter_live _ t _ th _ Ht1); [congruence |].
        apply (hasExited_alter_live _ nxt _ thn _ Hthn); [congruence | exact Hm].
    + destruct (negb b) eqn:Hb.
      * injection Hstep as <-.
        apply (Inv_setStatus s t th); try assumption; try congruence.
        intros Hm. exfalso. destruct (Hmain t Hm) as (th' & Hth' & Hp).
        rewrite Ht in Hth'. injection Hth' as <-.
        unfold mainProgress in Hp. rewrite Hst in Hp. subst b. discriminate.
      * case_bool_decide as Hone; injection Hstep as <-; [| exact HI].
        apply (Inv_setStatus s t th); try assumption; try congruence.
        intros _. unfold mainProgress. simpl.
        pose proof (inv_count s HT Hexit) as Hcount. lia.
  - (* a controller joins the worker it shut down *)
    destruct (hasExited (threads s) next); [| discriminate].
    injection Hstep as <-.
    destruct (afterJoin_cases rc s
                (setThreads (alter (setStatus (ControllerLoop b)) t (threads s)) s))
      as [-> | ->]; [| apply Inv_fail; exact HI].
    apply (Inv_setStatus s t th); try assumption; try congruence.
    intros Hm. destruct (Hmain t Hm) as (th' & Hth' & Hp).
    rewrite Ht in Hth'. injection Hth' as <-.
    unfold mainProgress in *. rewrite Hst in Hp. simpl. exact Hp.
  - (* _shutdownThreads-- *)
    assert (Hexit : _mustExit s = true)
      by (eapply running_after_call; try eassumption; congruence).
    injection Hstep as <-. split.
    + apply (ThreadsInv_decrement s t th HT Hexit Ht Hst).
    + eapply PcInv_ext; [.. | exact HP]; try reflexivity.
      intros m. simpl. apply (hasExited_alter_live _ t _ th _ Ht). congruence.
  - (* exit *)
    injection Hstep as <-.
    apply (Inv_setStatus s t th); try assumption; try congruence.
    intros Hm. destruct (Hmain t Hm) as (th' & Hth' & Hp).
    rewrite Ht in Hth'. injection Hth' as <-.
    unfold mainProgress in *. rewrite Hst in Hp. simpl. exact Hp.
  - discriminate.
Qed.

Lemma shutdownStep_Inv pick rc s s' :
  Inv s -> shutdownStep pick rc s = Some s' -> Inv s'.
Proof.
  intros HI Hstep. pose proof HI as [HT HP]. unfold shutdownStep in Hstep.
  unfold PcInv in HP.
  destruct (shutdown s) as [| k sh part | k sh part | rest sh |] eqn:Hpc.
  - (* the call *)
    injection Hstep as <-. split.
    + apply ThreadsInv_call; assumption.
    + unfold PcInv. simpl. split; [reflexivity |].
      intros m Hm. destruct (inv_before s HT HP) as (Hnone & _). congruence.
  - (* head of the loop over the CPUs *)
    destruct HP as [Hexit Hpart].
    destruct (_cpus s !! k) as [cpu |] eqn:Hk.
    + destruct (negb (bool_decide (_totalThreads s = sh)));
        [injection Hstep as <-; apply Inv_fail; exact HI |].
      destruct (negb (bool_decide (_shutdownThreads s ≤ sh)%Z));
        [injection Hstep as <-; apply Inv_fail; exact HI |].
      destruct cpu as [c |]; [destruct (acceptsWork c) |];
        injection Hstep as <-; (apply Inv_setPc; [exact HT |]);
        unfold PcInv; simpl; auto.
    + case_bool_decide as Hmain; injection Hstep as <-;
        [apply Inv_fail; exact HI |].
      apply Inv_setPc; [exact HT |]. unfold PcInv. simpl.
      split; [exact Hexit |].
      destruct (_mainShutdownControllerThread s) as [m |] eqn:Hm; [| congruence].
      exists m. split; [reflexivity |]. left. apply Hpart. reflexivity.
  - (* waiting for an idle worker *)
    destruct HP as [Hexit Hpart].
    destruct (_cpus s !! k) as [[c |] |] eqn:Hk; try discriminate.
    destruct (isBeingInitialized c); [injection Hstep as <-; exact HI |].
    destruct (getIdleThread (_idleThreads s) pick) as [[t idle'] |] eqn:Hget.
    + destruct (ThreadsInv_resume s pick t idle' k HT Hexit Hget)
        as (HT1 & (tht & Htht & Hst) & Hnm).
      case_bool_decide as Hnone; injection Hstep as <-.
      * set (s1 := setIdleThreads idle'
                     (setThreads (alter (resumeForShutdown k) t (threads s)) s)).
        assert (Hold : controlerOf (_cpus s) k = None)
          by (unfold controlerOf; rewrite Hk; exact Hnone).
        split.
        -- eapply ThreadsInv_ext;
             [.. | apply (ThreadsInv_designate s1 k c t (resumeForShutdown k tht)
                            HT1 Hexit Hk Hnone)];
             try reflexivity; try exact Hnm.
           simpl. apply lookup_alter_same. exact Htht.
        -- unfold PcInv. simpl. split; [exact Hexit |].
           intros m Hm.
           destruct (_mainShutdownControllerThread s) as [m0 |] eqn:Hm0.
           ++ injection Hm as <-. destruct (Hpart m0 eq_refl) as (c0 & Hin & Hc0).
              exists c0. split; [apply list_elem_of_further; exact Hin |].
              rewrite controlerOf_insert_ne; [exact Hc0 |].
              intros Heq. rewrite <- Heq, Hold in Hc0. discriminate.
           ++ injection Hm as <-. exists k. split; [apply list_elem_of_here |].
              apply controlerOf_insert_eq. exact Hk.
      * apply Inv_fail. split.
        -- destruct (getIdleThread_Some _ _ _ _ (inv_idle_nodup s HT) Hget)
             as (_ & Hnd' & _ & Hsub).
           apply ThreadsInv_setIdle_sub; assumption.
        -- unfold PcInv. simpl. rewrite Hpc. auto.
    + case_bool_decide as Hpos; injection Hstep as <-; [exact HI |].
      apply Inv_setPc; [exact HT |]. unfold PcInv. simpl. auto.
  - (* joining the controllers *)
    destruct HP as [Hexit (m & Hm & Hwhere)].
    destruct rest as [| cpu rest].
    + destruct (negb (bool_decide (_totalThreads s = sh)));
        [injection Hstep as <-; apply Inv_fail; exact HI |].
      destruct (negb (bool_decide (_shutdownThreads s = 0)%Z));
        [injection Hstep as <-; apply Inv_fail; exact HI |].
      injection Hstep as <-. apply Inv_setPc; [exact HT |].
      unfold PcInv. simpl. split; [exact Hexit |]. exists m. split; [exact Hm |].
      destruct Hwhere as [(c & Hin & _) | Hex]; [| exact Hex].
      apply elem_of_nil in Hin. destruct Hin.
    + destruct (negb (bool_decide (_totalThreads s = sh)));
        [injection Hstep as <-; apply Inv_fail; exact HI |].
      destruct (negb (bool_decide (_shutdownThreads s ≤ sh)%Z));
        [injection Hstep as <-; apply Inv_fail; exact HI |].
      destruct (_cpus s !! cpu) as [[c |] |] eqn:Hc; try discriminate.
      destruct (_shutdownControlerThread c) as [ctl |] eqn:Hctl;
        [| injection Hstep as <-; apply Inv_fail; exact HI].
      destruct (hasExited (threads s) ctl) eqn:Hex; [| discriminate].
      injection Hstep as <-.
      destruct (afterJoin_cases rc s (setPc (JoinLoop rest sh) s))
        as [-> | ->]; [| apply Inv_fail; exact HI].
      apply Inv_setPc; [exact HT |].
      unfold PcInv. simpl. split; [exact Hexit |]. exists m. split; [exact Hm |].
      destruct Hwhere as [(c0 & Hin & Hc0) | Hdone]; [| right; exact Hdone].
      apply elem_of_cons in Hin as [-> | Hin].
      * right. unfold controlerOf in Hc0. rewrite Hc, Hctl in Hc0.
        injection Hc0 as <-. exact Hex.
      * left. exists c0. auto.
  - discriminate.
Qed.

Lemma cpuStarted_Inv c s s' :
  Inv s -> cpuStarted c s = Some s' -> Inv s'.
Proof.
  intros [HT HP] Hstep. unfold cpuStarted in Hstep.
  destruct (_cpus s !! c) as [[cpu |] |] eqn:Hc; try discriminate.
  injection Hstep as <-.
  assert (Hsame : forall k,
    controlerOf (<[c := Some {| acceptsWork := acceptsWork cpu;
                                isBeingInitialized := false;
                                _shutdownControlerThread :=
                                  _shutdownControlerThread cpu |}]> (_cpus s)) k
    = controlerOf (_cpus s) k).
  { intros k. apply (controlerOf_insert_same _ c k cpu); [exact Hc | reflexivity]. }
  split.
  - eapply ThreadsInv_ext; [.. | exact HT]; try reflexivity. exact Hsame.
  - eapply PcInv_ext; [.. | exact HP]; try reflexivity; [exact Hsame | auto].
Qed.

Lemma step_Inv a s s' : Inv s -> step a s = Some s' -> Inv s'.
Proof.
  intros HI. unfold step. destruct (failed s); [discriminate |].
  destruct a as [pick rc | t pick rc | c].
  - apply shutdownStep_Inv; exact HI.
  - apply workerStep_Inv; exact HI.
  - apply cpuStarted_Inv; exact HI.
Qed.

Lemma run_Inv schedule s s' : Inv s -> run schedule s = Some s' -> Inv s'.
Proof.
  revert s. induction schedule as [| a rest IH]; intros s HI; simpl.
  - intros [= <-]. exact HI.
  - destruct (step a s) as [s1 |] eqn:Hs; [| discriminate].
    apply IH. eapply step_Inv; eassumption.
Qed.

Lemma initial_Inv s : initial s -> Inv s.
Proof.
  intros (Hpc & Hexit & Hf & Htot & Hnd & Hidle & Hall & Hmain & Hctl).
  split.
  - constructor; try assumption.
    + intros t th Ht. destruct (Hall t th Ht) as [[-> | ->] ->]; reflexivity.
    + intros Htrue. congruence.
    + intros _. split; [exact Hmain |]. split.
      * intros k. unfold controlerOf.
        destruct (_cpus s !! k) as [[c |] |] eqn:Hk; try reflexivity.
        exact (Hctl k c Hk).
      * intros t th Ht. apply (Hall t th Ht).
    + intros m Hm. congruence.
  - unfold PcInv. rewrite Hpc. exact Hexit.
Qed.

Lemma step_totalThreads a s s' :
  step a s = Some s' ->
  _totalThreads s' = _totalThreads s /\ length (threads s') = length (threads s).
Proof.
  unfold step. destruct (failed s); [discriminate |].
  destruct a as [pick rc | t pick rc | c].
  - unfold shutdownStep, afterJoin, handle, failIf.
    repeat match goal with
           | |- context [match ?x with _ => _ end] => destruct x
           end;
      intros [= <-]; simpl; rewrite ?length_alter; auto.
  - unfold workerStep, threadStartup, afterJoin, handle, failIf.
    repeat match goal with
           | |- context [match ?x with _ => _ end] => destruct x
           end;
      intros [= <-]; simpl; rewrite ?length_alter; auto.
  - unfold cpuStarted.
    repeat match goal with
           | |- context [match ?x with _ => _ end] => destruct x
           end;
      intros [= <-]; simpl; auto.
Qed.

Lemma run_totalThreads schedule s s' :
  run schedule s = Some s' ->
  _totalThreads s' = _totalThreads s /\ length (threads s') = length (threads s).
Proof.
  revert s. induction schedule as [| a rest IH]; intros s; simpl.
  - intros [= <-]. auto.
  - destruct (step a s) as [s1 |] eqn:Hs; [| discriminate].
    intros Hrun. destruct (IH s1 Hrun) as [H1 H2].
    destruct (step_totalThreads a s s1 Hs) as [H3 H4]. split; congruence.
Qed.

(** C9.  In every state the collective can reach: a worker has executed
    [_shutdownThreads--] once if it is past that statement (about to exit,
    or exited) and never otherwise, and not at all before [shutdown] is
    called; [_totalThreads] is what it was before the call.  Once
    [shutdown] has returned, every worker has executed the decrement
    exactly once and [_shutdownThreads] is 0. *)
Theorem shutdown_collective_counters :
  forall s0 s : State,
    reachable s0 s ->
    (forall t th, threads s !! t = Some th ->
       decrements th = match status th with
                       | Exiting | Exited => 1
                       | _ => 0
                       end)
    /\ (shutdown s = NotCalled ->
        forall t th, threads s !! t = Some th -> decrements th = 0)
    /\ _totalThreads s = _totalThreads s0
    /\ length (threads s) = length (threads s0)
    /\ (shutdown s = Returned ->
        _shutdownThreads s = 0%Z
        /\ forall t th, threads s !! t = Some th ->
              decrements th = 1 /\ (status th = Exiting \/ status th = Exited)).
Proof.
  intros s0 s [Hinit [schedule Hrun]].
  pose proof (run_Inv schedule s0 s (initial_Inv s0 Hinit) Hrun) as [HT HP].
  destruct (run_totalThreads schedule s0 s Hrun) as [Htot Hlen].
  split; [exact (inv_dec s HT) |].
  split.
  { intros Hpc t th Ht. unfold PcInv in HP. rewrite Hpc in HP.
    destruct (inv_before s HT HP) as (_ & _ & Hall).
    rewrite (inv_dec s HT t th Ht).
    destruct (Hall t th Ht) as [-> | ->]; reflexivity. }
  split; [exact Htot |]. split; [exact Hlen |].
  intros Hpc. unfold PcInv in HP. rewrite Hpc in HP.
  destruct HP as [Hexit (m & Hm & Hex)].
  apply hasExited_status in Hex as (thm & Hthm & Hsm).
  destruct (inv_main s HT m Hm) as (thm' & Hthm' & Hp).
  rewrite Hthm in Hthm'. injection Hthm' as <-.
  unfold mainProgress in Hp. rewrite Hsm in Hp.
  split; [rewrite (inv_count s HT Hexit), Hp; reflexivity |].
  intros t th Ht.
  pose proof (pendingThreads_zero (threads s) t th Hp Ht) as Hnz.
  pose proof (inv_dec s HT t th Ht) as Hd.
  destruct (status th); try (exfalso; exact (Hnz Hd)); auto.
Qed.

Example collective_shutdown_runs :
  run Scenario.collectiveShutdown Scenario.beforeShutdown
  = Some Scenario.afterShutdown.
Proof. reflexivity. Qed.

Lemma beforeShutdown_initial : initial Scenario.beforeShutdown.
Proof.
  unfold initial. simpl.
  split; [reflexivity |]. split; [reflexivity |]. split; [reflexivity |].
  split; [reflexivity |].
  split.
  { apply NoDup_cons. split; [| apply NoDup_singleton].
    rewrite elem_of_cons, elem_of_nil. intros [? | []]; discriminate. }
  split.
  { intros t. rewrite !elem_of_cons, elem_of_nil.
    intros [-> | [-> | []]]; eexists; split; reflexivity. }
  split.
  { intros t th Ht.
    destruct t as [| [| [| t]]]; simpl in Ht; try discriminate;
      injection Ht as <-; simpl; auto. }
  split; [reflexivity |].
  intros k c Hk.
  destruct k as [| [| k]]; simpl in Hk; try discriminate;
    injection Hk as <-; reflexivity.
Qed.

(** Two CPUs, three workers, one of them lagging behind. *)
Lemma shutdown_collective_counters_witness :
  (forall t th, threads Scenario.afterShutdown !! t = Some th ->
     decrements th = match status th with
                     | Exiting | Exited => 1
                     | _ => 0
                     end)
  /\ (shutdown Scenario.afterShutdown = NotCalled ->
      forall t th, threads Scenario.afterShutdown !! t = Some th ->
                   decrements th = 0)
  /\ _totalThreads Scenario.afterShutdown = _totalThreads Scenario.beforeShutdown
  /\ length (threads Scenario.afterShutdown)
     = length (threads Scenario.beforeShutdown)
  /\ (shutdown Scenario.afterShutdown = Returned ->
      _shutdownThreads Scenario.afterShutdown = 0%Z
      /\ forall t th, threads Scenario.afterShutdown !! t = Some th ->
            decrements th = 1 /\ (status th = Exiting \/ status th = Exited)).
Proof.
  apply (shutdown_collective_counters Scenario.beforeShutdown Scenario.afterShutdown).
  split; [exact beforeShutdown_initial |].
  exists Scenario.collectiveShutdown. reflexivity.
Defined.

(** Without a CPU that accepts work nobody is woken, and the assertion
    that there is a main shutdown controller stops [shutdown]. *)
Example shutdown_without_cpus :
  run [Shutdown 0 0; Shutdown 0 0]
      {| _mustExit := false; _cpus := []; _idleThreads := [0];
         _totalThreads := 1; _shutdownThreads := 0;
         _mainShutdownControllerThread := None;
         threads := [{| status := Idle; _cpu := 0; decrements := 0;
                        _currentWorkerThread := Some 0; getTask := None;
                        _cpuToBeResumedOn := None |}];
         shutdown := NotCalled; failed := None |}
  = Some {| _mustExit := true; _cpus := []; _idleThreads := [0];
            _totalThreads := 1; _shutdownThreads := 1;
            _mainShutdownControllerThread := None;
            threads := [{| status := Idle; _cpu := 0; decrements := 0;
                           _currentWorkerThread := Some 0; getTask := None;
                           _cpuToBeResumedOn := None |}];
            shutdown := WakeLoop 0 1 [];
            failed := Some "_mainShutdownControllerThread != nullptr" |}.
Proof. reflexivity. Qed.

End ShutdownFacts.

(* ================================================================== *)
(** * Part III: further properties of the modelled code                 *)
(* ================================================================== *)

(** ** Creating steps *)

Section StepCreationFacts.
Import ExecutionWorkflow.

(** X1.  [createExecutionStep] and [createNotificationStep] support the same
    kinds of compute place: both return the host variant for a host
    compute place, both the cluster variant for a cluster compute place,
    and both stop with the same fatal error for any other kind. *)
Theorem creation_steps_support_same_kinds :
  forall (task : TaskId) (cp : ComputePlace) (callback : Callback),
    (cp_type cp = nanos6_host_device
     /\ createExecutionStep task cp = Returns (HostExecutionStep task cp)
     /\ createNotificationStep callback (Some cp)
        = Returns (HostNotificationStep callback))
    \/ (cp_type cp = nanos6_cluster_device
        /\ createExecutionStep task cp = Returns (ClusterExecutionStep task cp)
        /\ createNotificationStep callback (Some cp)
           = Returns (ClusterNotificationStep callback))
    \/ (cp_type cp <> nanos6_host_device
        /\ cp_type cp <> nanos6_cluster_device
        /\ createExecutionStep task cp
           = FatalError "Execution workflow does not support this device yet"
        /\ createNotificationStep callback (Some cp)
           = FatalError "Execution workflow does not support this device yet").
Proof.
  intros task [i ty] callback. unfold createExecutionStep, createNotificationStep.
  destruct ty; simpl.
  - left. repeat split.
  - right; right. repeat split; discriminate.
  - right; right. repeat split; discriminate.
  - right; left. repeat split.
Qed.

Lemma unsupportedAccessType_true (t : DataAccessType) :
  unsupportedAccessType t = true
  <-> t = REDUCTION_ACCESS_TYPE \/ t = COMMUTATIVE_ACCESS_TYPE
      \/ t = CONCURRENT_ACCESS_TYPE.
Proof.
  unfold unsupportedAccessType. destruct t; simpl; split; intros H;
    try discriminate; try reflexivity; auto;
    destruct H as [H | [H | H]]; discriminate.
Qed.

(** [createDataCopyStep] on an access of an unsupported type, in closed
    form. *)
Lemma createDataCopyStep_unsupported c source target region access isTaskwait w :
  unsupportedAccessType (getType access) = true ->
  createDataCopyStep c source target region access isTaskwait w
  = Returns ((NullStep, access), afterCopyStepHooks isTaskwait w).
Proof.
  intros Hu. unfold createDataCopyStep. rewrite Hu.
  unfold mbind at 1, W_bind at 1. simpl.
  unfold mbind, W_bind, emit, mret, W_ret, afterCopyStepHooks; simpl.
  rewrite <- app_assoc. reflexivity.
Qed.

(** [createDataCopyStep] on an access of a supported type, in closed
    form, for a target that passes the two assertions. *)
Lemma createDataCopyStep_supported c source tgt region access isTaskwait w :
  unsupportedAccessType (getType access) = false ->
  isDirectoryMemoryPlace c (Some tgt) = false ->
  createDataCopyStep c source (Some tgt) region access isTaskwait w
  = Returns
      ((if isDirectoryMemoryPlace c source && inClusterMode c
        then ClusterDataCopyStep source tgt region
        else callTransfer (_transfersMap (sourceTypeOf source) (mp_type tgt))
               source tgt region access,
        if bool_decide (mp_type tgt = nanos6_host_device)
           || bool_decide (tgt = getCurrentMemoryNode c)
        then setValidNamespaceSelf access (mp_index (getCurrentMemoryNode c))
        else access),
       afterCopyStepHooks isTaskwait w).
Proof.
  intros Hu Hdir. unfold createDataCopyStep. rewrite Hu.
  unfold mbind at 1, W_bind at 1. simpl.
  simpl in Hdir. rewrite Hdir. simpl.
  unfold afterCopyStepHooks.
  destruct (isDirectoryMemoryPlace c source && inClusterMode c);
    destruct (_transfersMap (sourceTypeOf source) (mp_type tgt));
    unfold mbind, W_bind, liftO, emit, mret, W_ret; simpl;
    rewrite <- ?app_assoc; reflexivity.
Qed.

(** X2.  What [createDataCopyStep] leaves behind whenever it returns, for any
    access: exactly the two instrumentation hooks, entered and left with
    the same flag; a step that is [Null] or a cluster copy from the given
    source to the given target; and an access that differs from the one
    passed in at most in its valid-namespace mark. *)
Theorem createDataCopyStep_returns :
  forall (c : Cluster) (source target : option MemoryPlace)
         (region : DataAccessRegion) (access : DataAccess) (isTaskwait : bool)
         (w w' : World) (step : Step) (access' : DataAccess),
    createDataCopyStep c source target region access isTaskwait w
    = Returns ((step, access'), w') ->
    w' = afterCopyStepHooks isTaskwait w
    /\ (step = NullStep
        \/ exists tgt, target = Some tgt
                       /\ step = ClusterDataCopyStep source tgt region)
    /\ getType access' = getType access
    /\ isWeak access' = isWeak access
    /\ getAccessRegion access' = getAccessRegion access
    /\ getLocation access' = getLocation access
    /\ getOutputLocation access' = getOutputLocation access
    /\ (access' = access
        \/ getValidNamespaceSelf access' = Some (mp_index (getCurrentMemoryNode c))).
Proof.
  intros c source target region access isTaskwait w w' step access' Hrun.
  destruct (unsupportedAccessType (getType access)) eqn:Hu.
  - rewrite (createDataCopyStep_unsupported c source target region
               access isTaskwait w Hu) in Hrun.
    injection Hrun as <- <- <-. repeat split; auto.
  - destruct target as [tgt |].
    + destruct (isDirectoryMemoryPlace c (Some tgt)) eqn:Hdir.
      * exfalso.
        destruct (proj2 (createDataCopyStep_target_assertions c source (Some tgt)
                           region access isTaskwait w Hu) (or_intror Hdir))
          as [what Hfail].
        congruence.
      * rewrite (createDataCopyStep_supported c source tgt region access
                   isTaskwait w Hu Hdir) in Hrun.
        injection Hrun as <- <- <-. split; [reflexivity |]. split.
        { destruct (isDirectoryMemoryPlace c source && inClusterMode c);
            [right; eauto |].
          destruct (_transfersMap (sourceTypeOf source) (mp_type tgt)); simpl;
            [left; reflexivity | right; eauto]. }
        destruct (bool_decide (mp_type tgt = nanos6_host_device)
                  || bool_decide (tgt = getCurrentMemoryNode c));
          simpl; repeat split; auto.
    + exfalso.
      destruct (proj2 (createDataCopyStep_target_assertions c source None
                         region access isTaskwait w Hu) (or_introl eq_refl))
        as [what Hfail].
      congruence.
Qed.

(** The access record of the cluster fetch scenario comes back marked
    with the index of this node, the step is the cluster copy. *)
Lemma createDataCopyStep_returns_witness :
  afterCopyStepHooks false Scenario.emptyWorld
  = afterCopyStepHooks false Scenario.emptyWorld
  /\ (ClusterDataCopyStep (Some Scenario.node1) Scenario.node0 Scenario.region
      = NullStep
      \/ exists tgt, Some Scenario.node0 = Some tgt
                     /\ ClusterDataCopyStep (Some Scenario.node1) Scenario.node0
                          Scenario.region
                        = ClusterDataCopyStep (Some Scenario.node1) tgt
                            Scenario.region)
  /\ getType (setValidNamespaceSelf (Scenario.readAccess (Some Scenario.node1)) 0)
     = getType (Scenario.readAccess (Some Scenario.node1))
  /\ isWeak (setValidNamespaceSelf (Scenario.readAccess (Some Scenario.node1)) 0)
     = isWeak (Scenario.readAccess (Some Scenario.node1))
  /\ getAccessRegion (setValidNamespaceSelf (Scenario.readAccess (Some Scenario.node1)) 0)
     = getAccessRegion (Scenario.readAccess (Some Scenario.node1))
  /\ getLocation (setValidNamespaceSelf (Scenario.readAccess (Some Scenario.node1)) 0)
     = getLocation (Scenario.readAccess (Some Scenario.node1))
  /\ getOutputLocation (setValidNamespaceSelf (Scenario.readAccess (Some Scenario.node1)) 0)
     = getOutputLocation (Scenario.readAccess (Some Scenario.node1))
  /\ (setValidNamespaceSelf (Scenario.readAccess (Some Scenario.node1)) 0
      = Scenario.readAccess (Some Scenario.node1)
      \/ getValidNamespaceSelf
           (setValidNamespaceSelf (Scenario.readAccess (Some Scenario.node1)) 0)
         = Some (mp_index (getCurrentMemoryNode Scenario.cluster))).
Proof.
  exact (createDataCopyStep_returns Scenario.cluster (Some Scenario.node1)
           (Some Scenario.node0) Scenario.region
           (Scenario.readAccess (Some Scenario.node1)) false
           Scenario.emptyWorld (afterCopyStepHooks false Scenario.emptyWorld)
           (ClusterDataCopyStep (Some Scenario.node1) Scenario.node0 Scenario.region)
           (setValidNamespaceSelf (Scenario.readAccess (Some Scenario.node1)) 0)
           eq_refl).
Defined.

Lemma createDataCopyStep_null_target c source region access isTaskwait w :
  unsupportedAccessType (getType access) = false ->
  createDataCopyStep c source None region access isTaskwait w
  = AssertionFails "targetMemoryPlace != nullptr".
Proof.
  intros Hu. unfold createDataCopyStep. rewrite Hu. reflexivity.
Qed.

Lemma createDataCopyStep_directory_target c source tgt region access isTaskwait w :
  unsupportedAccessType (getType access) = false ->
  isDirectoryMemoryPlace c (Some tgt) = true ->
  createDataCopyStep c source (Some tgt) region access isTaskwait w
  = AssertionFails "!Directory::isDirectoryMemoryPlace(targetMemoryPlace)".
Proof.
  intros Hu Hdir. unfold createDataCopyStep. rewrite Hu.
  unfold mbind at 1, W_bind at 1. simpl. simpl in Hdir. rewrite Hdir.
  reflexivity.
Qed.

(** X3.  For an access of a supported type [createDataCopyStep] stops on the
    first assertion exactly when the target is null, on the second exactly
    when the target is the directory memory place, never stops with a
    fatal error, and returns for every other target. *)
Theorem createDataCopyStep_assertion_failures :
  forall (c : Cluster) (source target : option MemoryPlace)
         (region : DataAccessRegion) (access : DataAccess)
         (isTaskwait : bool) (w : World),
    unsupportedAccessType (getType access) = false ->
    (createDataCopyStep c source target region access isTaskwait w
       = AssertionFails "targetMemoryPlace != nullptr"
     <-> target = None)
    /\ (createDataCopyStep c source target region access isTaskwait w
          = AssertionFails "!Directory::isDirectoryMemoryPlace(targetMemoryPlace)"
        <-> isDirectoryMemoryPlace c target = true)
    /\ (forall msg, createDataCopyStep c source target region access isTaskwait w
                    <> FatalError msg)
    /\ ((exists r, createDataCopyStep c source target region access isTaskwait w
                   = Returns r)
        <-> exists tgt, target = Some tgt
                        /\ isDirectoryMemoryPlace c (Some tgt) = false).
Proof.
  intros c source target region access isTaskwait w Hu.
  destruct target as [tgt |].
  - destruct (isDirectoryMemoryPlace c (Some tgt)) eqn:Hdir.
    + rewrite (createDataCopyStep_directory_target c source tgt region access
                 isTaskwait w Hu Hdir).
      split; [split; discriminate |]. split; [split; reflexivity |].
      split; [discriminate |].
      split; [intros [r H]; discriminate |].
      intros (tgt' & [= <-] & H). congruence.
    + rewrite (createDataCopyStep_supported c source tgt region access
                 isTaskwait w Hu Hdir).
      split; [split; discriminate |]. split; [split; discriminate |].
      split; [discriminate |].
      split; [intros _; eauto | intros _; eauto].
  - rewrite (createDataCopyStep_null_target c source region access isTaskwait w Hu).
    simpl. split; [split; reflexivity |]. split; [split; discriminate |].
    split; [discriminate |].
    split; [intros [r H]; discriminate | intros (tgt & H & _); discriminate].
Qed.

(** A read access whose target is the directory: the second assertion. *)
Lemma createDataCopyStep_assertion_failures_witness :
  (createDataCopyStep Scenario.cluster (Some Scenario.node1)
     (Some Scenario.directory) Scenario.region
     (Scenario.readAccess (Some Scenario.node1)) false Scenario.emptyWorld
     = AssertionFails "targetMemoryPlace != nullptr"
   <-> Some Scenario.directory = None)
  /\ (createDataCopyStep Scenario.cluster (Some Scenario.node1)
        (Some Scenario.directory) Scenario.region
        (Scenario.readAccess (Some Scenario.node1)) false Scenario.emptyWorld
        = AssertionFails "!Directory::isDirectoryMemoryPlace(targetMemoryPlace)"
      <-> isDirectoryMemoryPlace Scenario.cluster (Some Scenario.directory) = true)
  /\ (forall msg,
        createDataCopyStep Scenario.cluster (Some Scenario.node1)
          (Some Scenario.directory) Scenario.region
          (Scenario.readAccess (Some Scenario.node1)) false Scenario.emptyWorld
        <> FatalError msg)
  /\ ((exists r,
         createDataCopyStep Scenario.cluster (Some Scenario.node1)
           (Some Scenario.directory) Scenario.region
           (Scenario.readAccess (Some Scenario.node1)) false Scenario.emptyWorld
         = Returns r)
      <-> exists tgt, Some Scenario.directory = Some tgt
                      /\ isDirectoryMemoryPlace Scenario.cluster (Some tgt) = false).
Proof.
  exact (createDataCopyStep_assertion_failures Scenario.cluster
           (Some Scenario.node1) (Some Scenario.directory) Scenario.region
           (Scenario.readAccess (Some Scenario.node1)) false Scenario.emptyWorld
           eq_refl).
Defined.

(** X4.  For an access of a supported type and a target that is neither null
    nor the directory, [createDataCopyStep] builds a cluster copy exactly
    when the source is the directory in cluster mode or the kinds of
    source and target meet in one of the three [clusterCopy] cells, and a
    [Null] step otherwise; it marks the access with the index of this node
    exactly when the target is of host kind or is this node's memory. *)
Theorem createDataCopyStep_decision :
  forall (c : Cluster) (source : option MemoryPlace) (tgt : MemoryPlace)
         (region : DataAccessRegion) (access : DataAccess)
         (isTaskwait : bool) (w : World),
    unsupportedAccessType (getType access) = false ->
    isDirectoryMemoryPlace c (Some tgt) = false ->
    exists step access',
      createDataCopyStep c source (Some tgt) region access isTaskwait w
      = Returns ((step, access'), afterCopyStepHooks isTaskwait w)
      /\ (step = ClusterDataCopyStep source tgt region
          <-> (isDirectoryMemoryPlace c source = true /\ inClusterMode c = true)
              \/ clusterCopyCell (sourceTypeOf source) (mp_type tgt))
      /\ (step = NullStep
          <-> ~ ((isDirectoryMemoryPlace c source = true /\ inClusterMode c = true)
                 \/ clusterCopyCell (sourceTypeOf source) (mp_type tgt)))
      /\ (mp_type tgt = nanos6_host_device \/ tgt = getCurrentMemoryNode c ->
          access' = setValidNamespaceSelf access (mp_index (getCurrentMemoryNode c)))
      /\ (mp_type tgt <> nanos6_host_device -> tgt <> getCurrentMemoryNode c ->
          access' = access).
Proof.
  intros c source tgt region access isTaskwait w Hu Hdir.
  eexists. eexists. split; [apply createDataCopyStep_supported; assumption |].
  pose proof (transfersMap_clusterCopy (sourceTypeOf source) (mp_type tgt)) as Hc.
  pose proof (transfersMap_nullCopy (sourceTypeOf source) (mp_type tgt)) as Hn.
  split; [| split; [| split]].
  - destruct (isDirectoryMemoryPlace c source) eqn:Hs;
      destruct (inClusterMode c) eqn:Hm; simpl;
      try (split; [intros _; left; split; reflexivity | reflexivity]);
      destruct (_transfersMap (sourceTypeOf source) (mp_type tgt)); simpl;
      (split; [intros H; try discriminate; right; apply Hc; reflexivity
              | intros [[H1 H2] | H]; try discriminate; try reflexivity;
                apply Hc in H; discriminate]).
  - destruct (isDirectoryMemoryPlace c source) eqn:Hs;
      destruct (inClusterMode c) eqn:Hm; simpl;
      try (split; [discriminate | intros H; exfalso; apply H; left; split; reflexivity]);
      destruct (_transfersMap (sourceTypeOf source) (mp_type tgt)); simpl;
      (split; [intros H [[H1 H2] | H3]; try discriminate;
               try (apply Hc in H3; discriminate)
              | intros H; try reflexivity; exfalso; apply H; right;
                apply Hc; reflexivity]).
  - intros [Hh | Hcur].
    + rewrite (bool_decide_eq_true_2 _ Hh). reflexivity.
    + rewrite (bool_decide_eq_true_2 _ Hcur), orb_true_r. reflexivity.
  - intros Hh Hcur.
    rewrite (bool_decide_eq_false_2 _ Hh), (bool_decide_eq_false_2 _ Hcur).
    reflexivity.
Qed.

(** Data in the directory, target a CUDA memory place, cluster mode. *)
Lemma createDataCopyStep_decision_witness :
  exists step access',
    createDataCopyStep Scenario.cluster (Some Scenario.directory)
      (Some Scenario.cudaMemory) Scenario.region
      (Scenario.readAccess (Some Scenario.directory)) false Scenario.emptyWorld
    = Returns ((step, access'), afterCopyStepHooks false Scenario.emptyWorld)
    /\ (step = ClusterDataCopyStep (Some Scenario.directory) Scenario.cudaMemory
                 Scenario.region
        <-> (isDirectoryMemoryPlace Scenario.cluster (Some Scenario.directory) = true
             /\ inClusterMode Scenario.cluster = true)
            \/ clusterCopyCell (sourceTypeOf (Some Scenario.directory))
                 (mp_type Scenario.cudaMemory))
    /\ (step = NullStep
        <-> ~ ((isDirectoryMemoryPlace Scenario.cluster (Some Scenario.directory) = true
                /\ inClusterMode Scenario.cluster = true)
               \/ clusterCopyCell (sourceTypeOf (Some Scenario.directory))
                    (mp_type Scenario.cudaMemory)))
    /\ (mp_type Scenario.cudaMemory = nanos6_host_device
        \/ Scenario.cudaMemory = getCurrentMemoryNode Scenario.cluster ->
        access' = setValidNamespaceSelf (Scenario.readAccess (Some Scenario.directory))
                    (mp_index (getCurrentMemoryNode Scenario.cluster)))
    /\ (mp_type Scenario.cudaMemory <> nanos6_host_device ->
        Scenario.cudaMemory <> getCurrentMemoryNode Scenario.cluster ->
        access' = Scenario.readAccess (Some Scenario.directory)).
Proof.
  exact (createDataCopyStep_decision Scenario.cluster (Some Scenario.directory)
           Scenario.cudaMemory Scenario.region
           (Scenario.readAccess (Some Scenario.directory)) false
           Scenario.emptyWorld eq_refl eq_refl).
Defined.

End StepCreationFacts.

(** ** [executeTask]: the three paths *)

Section ExecuteTaskFacts.
Import ExecutionWorkflow WorkflowOutcomes MoreScenarios.

Lemma createDataCopyStep_cases c source target region access isTaskwait w :
  (unsupportedAccessType (getType access) = true
   /\ createDataCopyStep c source target region access isTaskwait w
      = Returns ((NullStep, access), afterCopyStepHooks isTaskwait w))
  \/ (unsupportedAccessType (getType access) = false /\ target = None
      /\ createDataCopyStep c source target region access isTaskwait w
         = AssertionFails "targetMemoryPlace != nullptr")
  \/ (unsupportedAccessType (getType access) = false
      /\ isDirectoryMemoryPlace c target = true
      /\ createDataCopyStep c source target region access isTaskwait w
         = AssertionFails "!Directory::isDirectoryMemoryPlace(targetMemoryPlace)")
  \/ (unsupportedAccessType (getType access) = false
      /\ exists tgt r, target = Some tgt
           /\ isDirectoryMemoryPlace c (Some tgt) = false
           /\ forall w0, createDataCopyStep c source target region access isTaskwait w0
                         = Returns (r, afterCopyStepHooks isTaskwait w0)).
Proof.
  destruct (unsupportedAccessType (getType access)) eqn:Hu.
  - left. split; [reflexivity |]. apply createDataCopyStep_unsupported, Hu.
  - right. destruct target as [tgt |].
    + destruct (isDirectoryMemoryPlace c (Some tgt)) eqn:Hdir.
      * right; left. split; [reflexivity |]. split; [reflexivity |].
        apply createDataCopyStep_directory_target; assumption.
      * right; right. split; [reflexivity |]. eexists tgt, _.
        split; [reflexivity |]. split; [exact Hdir |]. intros w0.
        apply createDataCopyStep_supported; assumption.
    + left. split; [reflexivity |]. split; [reflexivity |].
      apply createDataCopyStep_null_target; assumption.
Qed.

(** One visit, in closed form. *)
Lemma visitDataAccess_run c o cp tmp e g accs a w :
  visitReturns c o cp tmp a ->
  exists r,
    copyStepOf c tmp a r
    /\ visitDataAccess c o cp tmp e (g, accs) a w
       = Returns (({| steps := steps g ++ [r.1];
                      order := order g ++ [(length (steps g), e)];
                      rootSteps := rootSteps g ++ [length (steps g)];
                      releaseAccesses := releaseAccesses g ++ [r.2] |},
                   accs ++ [r.2]),
                  afterCopyStepHooks false w).
Proof.
  intros [Hk Hv]. unfold unknownRegion in Hk.
  assert (exists r, copyStepOf c tmp a r) as [[s a'] Hr].
  { destruct (createDataCopyStep_cases c (getLocation a) tmp (getAccessRegion a)
                a false w) as [[Hu H] | [(Hu & Ht & H) | [(Hu & Ht & H) | (Hu & H)]]].
    - exists (NullStep, a). intros w0. apply createDataCopyStep_unsupported, Hu.
    - destruct Hv as [Hv | (tgt & Hv & _)]; congruence.
    - destruct Hv as [Hv | (tgt & Hv & Hd)]; [congruence |]. subst tmp. congruence.
    - destruct H as (tgt & r & _ & _ & H). exists r. exact H. }
  exists (s, a'). split; [exact Hr |].
  unfold visitDataAccess. rewrite Hk.
  unfold mbind at 1, W_bind at 1. simpl.
  unfold mbind at 1, W_bind at 1. rewrite (Hr w). reflexivity.
Qed.

(** A visit that returns was of an access the visitor gets past. *)
Lemma visitDataAccess_returns c o cp tmp e st a w r :
  visitDataAccess c o cp tmp e st a w = Returns r ->
  visitReturns c o cp tmp a.
Proof.
  destruct st as [g accs]. unfold visitDataAccess, visitReturns, unknownRegion.
  destruct (negb (isWeak a) && inClusterMode c
            && isDirectoryMemoryPlace c (getLocation a)
            && bool_decide (cp_type cp = nanos6_host_device)
            && negb (directoryFinds o (getAccessRegion a))) eqn:Hk.
  - discriminate.
  - unfold mbind at 1, W_bind at 1. simpl.
    unfold mbind at 1, W_bind at 1.
    destruct (createDataCopyStep_cases c (getLocation a) tmp (getAccessRegion a)
                a false w) as [[Hu H] | [(Hu & Ht & H) | [(Hu & Ht & H) | (Hu & H)]]].
    + intros _. split; [reflexivity | left; exact Hu].
    + rewrite H. discriminate.
    + rewrite H. discriminate.
    + destruct H as (tgt & r0 & Ht & Hd & _). intros _.
      split; [reflexivity | right; eauto].
Qed.

Lemma visitDataAccess_known c o cp tmp e g accs a w :
  unknownRegion c o cp a = false ->
  visitDataAccess c o cp tmp e (g, accs) a w
  = match createDataCopyStep c (getLocation a) tmp (getAccessRegion a) a false w with
    | Returns (r, w') =>
      Returns (({| steps := steps g ++ [r.1];
                   order := order g ++ [(length (steps g), e)];
                   rootSteps := rootSteps g ++ [length (steps g)];
                   releaseAccesses := releaseAccesses g ++ [r.2] |},
                accs ++ [r.2]), w')
    | AssertionFails what => AssertionFails what
    | FatalError msg => FatalError msg
    end.
Proof.
  unfold unknownRegion. intros Hk. unfold visitDataAccess. rewrite Hk.
  unfold mbind at 1, W_bind at 1. simpl.
  unfold mbind at 1, W_bind at 1.
  destruct (createDataCopyStep c (getLocation a) tmp (getAccessRegion a) a false w)
    as [[[s a'] w'] | |]; reflexivity.
Qed.

(** What one visit that does not return stops with. *)
Lemma visitDataAccess_stops c o cp tmp e st a w :
  ~ visitReturns c o cp tmp a ->
  (unknownRegion c o cp a = true
   /\ visitDataAccess c o cp tmp e st a w
      = FatalError (unknownRegionMessage o (getAccessRegion a)))
  \/ (unknownRegion c o cp a = false /\ tmp = None
      /\ visitDataAccess c o cp tmp e st a w
         = AssertionFails "targetMemoryPlace != nullptr")
  \/ (unknownRegion c o cp a = false /\ isDirectoryMemoryPlace c tmp = true
      /\ visitDataAccess c o cp tmp e st a w
         = AssertionFails "!Directory::isDirectoryMemoryPlace(targetMemoryPlace)").
Proof.
  intros Hn. destruct st as [g accs].
  unfold visitReturns in Hn.
  destruct (unknownRegion c o cp a) eqn:Hk.
  - left. split; [reflexivity |]. unfold visitDataAccess.
    unfold unknownRegion in Hk. rewrite Hk. reflexivity.
  - right. rewrite (visitDataAccess_known _ _ _ _ _ _ _ _ _ Hk).
    destruct (createDataCopyStep_cases c (getLocation a) tmp (getAccessRegion a)
                a false w) as [[Hu H] | [(Hu & Ht & H) | [(Hu & Ht & H) | (Hu & H)]]].
    + exfalso. apply Hn. split; [reflexivity | left; exact Hu].
    + left. rewrite H. repeat split. exact Ht.
    + right. rewrite H. repeat split. exact Ht.
    + destruct H as (tgt & r0 & Ht & Hd & _). exfalso. apply Hn.
      split; [reflexivity | right; eauto].
Qed.

Lemma afterCopyStepHooks_addEvents isTaskwait w :
  afterCopyStepHooks isTaskwait w
  = addEvents [EvEnterCreateDataCopyStep isTaskwait;
               EvExitCreateDataCopyStep isTaskwait] w.
Proof. reflexivity. Qed.

(** All the visits of [processAllDataAccesses], in closed form. *)
Lemma processAllDataAccesses_run c o cp tmp e l :
  Forall (visitReturns c o cp tmp) l ->
  forall g accs w,
  exists res,
    Forall2 (copyStepOf c tmp) l res
    /\ processAllDataAccesses (visitDataAccess c o cp tmp e) (g, accs) l w
       = Returns (({| steps := steps g ++ map fst res;
                      order := order g
                               ++ map (fun i => (i, e)) (seq (length (steps g)) (length l));
                      rootSteps := rootSteps g ++ seq (length (steps g)) (length l);
                      releaseAccesses := releaseAccesses g ++ map snd res |},
                   accs ++ map snd res),
                  addEvents (copyStepEvents (length l)) w).
Proof.
  induction 1 as [| a l Ha Hl IH]; intros g accs w.
  - exists []. split; [constructor |]. simpl.
    unfold copyStepEvents. simpl. rewrite addEvents_nil, !app_nil_r.
    destruct g; reflexivity.
  - destruct (visitDataAccess_run c o cp tmp e g accs a w Ha) as (r & Hr & Hrun).
    match type of Hrun with _ = Returns ((?g1, ?accs1), ?w1) =>
      destruct (IH g1 accs1 w1) as (res & Hres & Hrest) end.
    exists (r :: res). split; [constructor; assumption |].
    cbn [processAllDataAccesses]. unfold mbind at 1, W_bind at 1.
    rewrite Hrun, Hrest. cbn [steps order rootSteps releaseAccesses].
    rewrite length_app. cbn [length map seq].
    rewrite Nat.add_1_r, <- !app_assoc. cbn [app].
    rewrite afterCopyStepHooks_addEvents, addEvents_app.
    reflexivity.
Qed.

(** [processAllDataAccesses] returns only if the visitor gets past every
    access. *)
Lemma processAllDataAccesses_returns c o cp tmp e l :
  forall st w r,
    processAllDataAccesses (visitDataAccess c o cp tmp e) st l w = Returns r ->
    Forall (visitReturns c o cp tmp) l.
Proof.
  induction l as [| a l IH]; intros st w r H; [constructor |].
  cbn [processAllDataAccesses] in H. unfold mbind at 1, W_bind at 1 in H.
  destruct (visitDataAccess c o cp tmp e st a w) as [[st' w'] | |] eqn:Hv;
    try discriminate.
  constructor.
  - eapply visitDataAccess_returns, Hv.
  - eapply IH, H.
Qed.

Lemma ready_after_visits ss rs accs n :
  ready {| steps := ss;
           order := (0, 2) :: (2, 1) :: map (fun i => (i, 0)) (seq 3 n);
           rootSteps := rs; releaseAccesses := accs |} 0
  = (n =? 0).
Proof. destruct n; reflexivity. Qed.

Lemma visitDataAccess_visitError c o cp tmp e st a w :
  ~ visitReturns c o cp tmp a ->
  visitDataAccess c o cp tmp e st a w = visitError c o cp tmp a.
Proof.
  intros Hn. unfold visitError.
  destruct (visitDataAccess_stops c o cp tmp e st a w Hn)
    as [[Hk H] | [(Hk & Ht & H) | (Hk & Ht & H)]]; rewrite Hk, H.
  - reflexivity.
  - subst tmp. reflexivity.
  - rewrite Ht. reflexivity.
Qed.

(** The visits stop at the first access the visitor does not get past. *)
Lemma processAllDataAccesses_stops c o cp tmp e pre a post :
  Forall (visitReturns c o cp tmp) pre ->
  ~ visitReturns c o cp tmp a ->
  forall st w,
    processAllDataAccesses (visitDataAccess c o cp tmp e) st (pre ++ a :: post) w
    = visitError c o cp tmp a.
Proof.
  induction 1 as [| x pre Hx Hpre IH]; intros Hn [g accs] w.
  - cbn [app processAllDataAccesses]. unfold mbind at 1, W_bind at 1.
    rewrite (visitDataAccess_visitError _ _ _ _ _ _ _ _ Hn).
    unfold visitError.
    destruct (unknownRegion c o cp a); [reflexivity |].
    destruct (isDirectoryMemoryPlace c tmp); reflexivity.
  - cbn [app processAllDataAccesses]. unfold mbind at 1, W_bind at 1.
    destruct (visitDataAccess_run c o cp tmp e g accs x w Hx) as (r & _ & Hrun).
    rewrite Hrun. apply IH, Hn.
Qed.

(** The task as the first call of [executeTask] has set it when it calls
    [workflow->start()]. *)
Lemma andReturn_bind {A} (m : W unit) (a : A) (w : World) :
  (m ;; mret a) w = andReturn (m w) a.
Proof.
  unfold mbind, W_bind, andReturn. destruct (m w) as [[[] w'] | |]; reflexivity.
Qed.

(** The first call of [executeTask], once the execution and notification
    steps are created: what is left is the visit of the accesses and the
    start of the workflow. *)
Lemma executeTask_first_call_unfold c o thr task cp tmp w e n :
  getWorkflow task = None ->
  createExecutionStep (taskId task) cp = Returns e ->
  createNotificationStep
    (notificationCallback o (setMemoryPlace task tmp) tmp (allocations w))
    (Some cp) = Returns n ->
  executeTask c o thr task cp tmp w
  = match processAllDataAccesses (visitDataAccess c o cp tmp 0)
            ({| steps := [e; n; createDataReleaseStep task];
                order := [(0, 2); (2, 1)];
                rootSteps := []; releaseAccesses := [] |}, [])
            (getDataAccesses task)
            {| trace := trace w;
               liveWorkflows := liveWorkflows w ++ [allocations w];
               allocations := S (allocations w) |} with
    | Returns ((g, accesses), w') =>
      andReturn
        (WorkflowBase_start c o
           (rootsOf (if ready g 0 then addRootStep (enforceOrder g 0 1) 0 else g))
           w')
        (setComputePlace
           (setWorkflow
              (setDataAccesses (setMemoryPlace task tmp) accesses)
              (Some (allocations w)))
           (Some cp),
         Some (if ready g 0 then addRootStep (enforceOrder g 0 1) 0 else g))
    | AssertionFails what => AssertionFails what
    | FatalError msg => FatalError msg
    end.
Proof.
  intros Hwf He Hn. unfold executeTask. rewrite Hwf.
  unfold mbind at 1, W_bind at 1, newWorkflow.
  unfold mbind at 1, W_bind at 1. cbn [taskId setMemoryPlace]. rewrite He.
  cbn [liftO addStep emptyWorkflow steps length].
  unfold mbind at 1, W_bind at 1. rewrite Hn.
  cbn [liftO addStep steps length app order rootSteps releaseAccesses enforceOrder
       getDataAccesses].
  unfold mbind at 1, W_bind at 1.
  cbn -[ready processAllDataAccesses visitDataAccess WorkflowBase_start rootsOf
        mbind].
  destruct (processAllDataAccesses _ _ _ _) as [[[g accs] w'] | |];
    [| reflexivity | reflexivity].
  apply andReturn_bind.
Qed.

(** On a host or cluster compute place the execution and notification
    steps are created. *)
Lemma first_call_steps_created (task : TaskId) (cp : ComputePlace) (cb : Callback) :
  cp_type cp = nanos6_host_device \/ cp_type cp = nanos6_cluster_device ->
  exists e n,
    createExecutionStep task cp = Returns e
    /\ createNotificationStep cb (Some cp) = Returns n
    /\ (n = HostNotificationStep cb \/ n = ClusterNotificationStep cb).
Proof.
  intros Hdev. unfold createExecutionStep, createNotificationStep.
  destruct Hdev as [-> | ->]; eexists _, _; (split; [reflexivity |]);
    (split; [reflexivity |]); [left | right]; reflexivity.
Qed.

(** The first call of [executeTask] up to [workflow->start()], in closed
    form. *)
Lemma executeTask_first_call_run c o thr task cp tmp w :
  getWorkflow task = None ->
  cp_type cp = nanos6_host_device \/ cp_type cp = nanos6_cluster_device ->
  Forall (visitReturns c o cp tmp) (getDataAccesses task) ->
  exists res e n,
    Forall2 (copyStepOf c tmp) (getDataAccesses task) res
    /\ createExecutionStep (taskId task) cp = Returns e
    /\ createNotificationStep
         (notificationCallback o (setMemoryPlace task tmp) tmp (allocations w))
         (Some cp) = Returns n
    /\ (n = HostNotificationStep
              (notificationCallback o (setMemoryPlace task tmp) tmp (allocations w))
        \/ n = ClusterNotificationStep
                 (notificationCallback o (setMemoryPlace task tmp) tmp (allocations w)))
    /\ executeTask c o thr task cp tmp w
       = andReturn
           (WorkflowBase_start c o
              (rootsOf
                 {| steps := [e; n; createDataReleaseStep task] ++ map fst res;
                    order := [(0, 2); (2, 1)]
                             ++ map (fun i => (i, 0))
                                    (seq 3 (length (getDataAccesses task)))
                             ++ (if length (getDataAccesses task) =? 0
                                 then [(0, 1)] else []);
                    rootSteps := seq 3 (length (getDataAccesses task))
                                 ++ (if length (getDataAccesses task) =? 0
                                     then [0] else []);
                    releaseAccesses := map snd res |})
              {| trace := trace w
                          ++ copyStepEvents (length (getDataAccesses task));
                 liveWorkflows := liveWorkflows w ++ [allocations w];
                 allocations := S (allocations w) |})
           (setComputePlace
              (setWorkflow
                 (setDataAccesses (setMemoryPlace task tmp) (map snd res))
                 (Some (allocations w)))
              (Some cp),
            Some {| steps := [e; n; createDataReleaseStep task] ++ map fst res;
                    order := [(0, 2); (2, 1)]
                             ++ map (fun i => (i, 0))
                                    (seq 3 (length (getDataAccesses task)))
                             ++ (if length (getDataAccesses task) =? 0
                                 then [(0, 1)] else []);
                    rootSteps := seq 3 (length (getDataAccesses task))
                                 ++ (if length (getDataAccesses task) =? 0
                                     then [0] else []);
                    releaseAccesses := map snd res |}).
Proof.
  intros Hwf Hdev Hall.
  destruct (first_call_steps_created (taskId task) cp
              (notificationCallback o (setMemoryPlace task tmp) tmp (allocations w))
              Hdev) as (e & n & He & Hn & Hkind).
  rewrite (executeTask_first_call_unfold c o thr task cp tmp w e n Hwf He Hn).
  match goal with
  | |- context [processAllDataAccesses ?v (?g0, ?a0) ?l ?w0] =>
    destruct (processAllDataAccesses_run c o cp tmp 0 l Hall g0 a0 w0)
      as (res & Hres & Hrun)
  end.
  exists res, e, n.
  split; [exact Hres |]. split; [exact He |]. split; [exact Hn |].
  split; [exact Hkind |].
  rewrite Hrun. cbn [steps order rootSteps releaseAccesses length app].
  rewrite ready_after_visits.
  destruct (length (getDataAccesses task) =? 0) eqn:Hlen;
    cbn [addRootStep enforceOrder steps order rootSteps releaseAccesses app];
    rewrite ?app_nil_r; unfold addEvents; cbn [trace liveWorkflows allocations];
    rewrite <- ?app_assoc; reflexivity.
Qed.

Lemma executeTask_first_call_returns_inv c o thr task cp tmp w r :
  getWorkflow task = None ->
  executeTask c o thr task cp tmp w = Returns r ->
  (cp_type cp = nanos6_host_device \/ cp_type cp = nanos6_cluster_device)
  /\ Forall (visitReturns c o cp tmp) (getDataAccesses task).
Proof.
  intros Hwf Hr.
  assert (cp_type cp = nanos6_host_device \/ cp_type cp = nanos6_cluster_device)
    as Hdev.
  { revert Hr. unfold executeTask. rewrite Hwf.
    unfold mbind at 1, W_bind at 1, newWorkflow.
    unfold mbind at 1, W_bind at 1. unfold createExecutionStep.
    destruct (cp_type cp); auto; discriminate. }
  split; [exact Hdev |].
  destruct (first_call_steps_created (taskId task) cp
              (notificationCallback o (setMemoryPlace task tmp) tmp (allocations w))
              Hdev) as (e & n & He & Hn & _).
  rewrite (executeTask_first_call_unfold c o thr task cp tmp w e n Hwf He Hn) in Hr.
  destruct (processAllDataAccesses _ _ _ _) as [p | |] eqn:Hp; try discriminate.
  eapply processAllDataAccesses_returns, Hp.
Qed.


(** X5.  The first call of [executeTask] for a task, on a host or cluster
    compute place and with accesses the visitor gets past, builds a
    workflow and calls [start()] on it; the call ends as [start] ends.
    The workflow holds the execution, notification and release steps and
    then one copy step per access, each the one [createDataCopyStep]
    returns for that access; every copy step is a root and ordered before
    the execution step; the execution step is a root, and ordered before
    the notification step directly, exactly when the task has no access.
    When [start] is called, the task has its accesses as the copy steps
    left them, its memory and compute place and the new workflow, which
    is allocated, and nothing but the hooks of the copy steps has been
    called. *)
Theorem executeTask_first_call :
  forall (c : Cluster) (o : Collaborators) (thr : option WorkerThread)
         (task : Task) (cp : ComputePlace) (tmp : option MemoryPlace) (w : World),
    getWorkflow task = None ->
    cp_type cp = nanos6_host_device \/ cp_type cp = nanos6_cluster_device ->
    Forall (visitReturns c o cp tmp) (getDataAccesses task) ->
    exists task' g w1 res execStep notifStep,
      executeTask c o thr task cp tmp w
      = andReturn (WorkflowBase_start c o (rootsOf g) w1) (task', Some g)
      /\ Forall2 (copyStepOf c tmp) (getDataAccesses task) res
      /\ createExecutionStep (taskId task) cp = Returns execStep
      /\ createNotificationStep
           (notificationCallback o (setMemoryPlace task tmp) tmp (allocations w))
           (Some cp) = Returns notifStep
      /\ steps g = [execStep; notifStep; createDataReleaseStep task] ++ map fst res
      /\ order g = [(0, 2); (2, 1)]
                   ++ map (fun i => (i, 0)) (seq 3 (length (getDataAccesses task)))
                   ++ (if length (getDataAccesses task) =? 0 then [(0, 1)] else [])
      /\ rootSteps g = seq 3 (length (getDataAccesses task))
                       ++ (if length (getDataAccesses task) =? 0 then [0] else [])
      /\ releaseAccesses g = map snd res
      /\ getDataAccesses task' = map snd res
      /\ getWorkflow task' = Some (allocations w)
      /\ getMemoryPlace task' = tmp
      /\ getComputePlace task' = Some cp
      /\ taskId task' = taskId task
      /\ liveWorkflows w1 = liveWorkflows w ++ [allocations w]
      /\ allocations w1 = S (allocations w)
      /\ trace w1 = trace w ++ copyStepEvents (length (getDataAccesses task)).
Proof.
  intros c o thr task cp tmp w Hwf Hdev Hall.
  destruct (executeTask_first_call_run c o thr task cp tmp w Hwf Hdev Hall)
    as (res & e & n & Hres & He & Hn & _ & Hrun).
  eexists _, _, _, res, e, n. split; [exact Hrun |].
  split; [exact Hres |]. split; [exact He |]. split; [exact Hn |].
  cbn. repeat split; reflexivity.
Qed.

(** A task with one read access whose data is on node 1, executed on
    node 0: one copy step, the only root; [start] fetches it. *)
Lemma executeTask_first_call_witness :
  exists task' g w1,
    executeTask Scenario.cluster Scenario.childrenDone (Some Scenario.worker)
      (Scenario.freshTask [Scenario.readAccess (Some Scenario.node1)])
      Scenario.cpu0 (Some Scenario.node0) Scenario.emptyWorld
    = andReturn (WorkflowBase_start Scenario.cluster Scenario.childrenDone
                   (rootsOf g) w1) (task', Some g)
    /\ rootSteps g = [3]
    /\ order g = [(0, 2); (2, 1); (3, 0)]
    /\ getWorkflow task' = Some 0
    /\ liveWorkflows w1 = [0].
Proof.
  destruct (executeTask_first_call Scenario.cluster Scenario.childrenDone
              (Some Scenario.worker)
              (Scenario.freshTask [Scenario.readAccess (Some Scenario.node1)])
              Scenario.cpu0 (Some Scenario.node0) Scenario.emptyWorld)
    as (task' & g & w1 & res & e & n & Hrun & _ & _ & _ & _ & Ho & Hr & _ & _
        & Hwf & _ & _ & _ & Hl & _).
  - reflexivity.
  - left. reflexivity.
  - constructor; [| constructor]. split; [reflexivity |].
    right. exists Scenario.node0. split; reflexivity.
  - exists task', g, w1. repeat split; assumption.
Defined.

Lemma filter_fresh (x : WorkflowId) (l : list WorkflowId) :
  x ∉ l -> filter (fun y => y ≠ x) (l ++ [x]) = l.
Proof.
  induction l as [| y l IH]; intros Hx.
  - cbn [app]. rewrite filter_cons_False by (intros H; apply H; reflexivity).
    reflexivity.
  - cbn [app]. rewrite not_elem_of_cons in Hx. destruct Hx as [Hne Hx].
    rewrite filter_cons_True by congruence.
    rewrite IH by exact Hx. reflexivity.
Qed.

(** X7.  The workflow that the first call of [executeTask] allocates is
    allocated when [start()] is called on it, and the task names it.  The
    callback of its notification step, in whatever world and on whichever
    thread it runs, inside the call of [start] or later, frees exactly
    this workflow, as its last action, and allocates nothing; if no
    workflow has been allocated or freed since [start] was called, the
    allocated workflows are then those of before the call of
    [executeTask].  Nothing in [executeTask] resets the workflow of the
    task. *)
Theorem executeTask_workflow_is_freed :
  forall (c : Cluster) (o : Collaborators) (thr : option WorkerThread)
         (task : Task) (cp : ComputePlace) (tmp : option MemoryPlace) (w : World),
    getWorkflow task = None ->
    cp_type cp = nanos6_host_device \/ cp_type cp = nanos6_cluster_device ->
    Forall (visitReturns c o cp tmp) (getDataAccesses task) ->
    exists task' g w1 callback,
      executeTask c o thr task cp tmp w
      = andReturn (WorkflowBase_start c o (rootsOf g) w1) (task', Some g)
      /\ (steps g !! 1 = Some (HostNotificationStep callback)
          \/ steps g !! 1 = Some (ClusterNotificationStep callback))
      /\ allocations w ∈ liveWorkflows w1
      /\ getWorkflow task' = Some (allocations w)
      /\ forall (releasingThread : option WorkerThread) (wx : World),
           exists wx',
             callback releasingThread wx = Returns (tt, wx')
             /\ liveWorkflows wx'
                = filter (fun x => x ≠ allocations w) (liveWorkflows wx)
             /\ allocations wx' = allocations wx
             /\ last (trace wx') = Some (EvDeleteWorkflow (allocations w))
             /\ ((allocations w ∉ liveWorkflows w) ->
                 liveWorkflows wx = liveWorkflows w1 ->
                 liveWorkflows wx' = liveWorkflows w).
Proof.
  intros c o thr task cp tmp w Hwf Hdev Hall.
  destruct (executeTask_first_call_run c o thr task cp tmp w Hwf Hdev Hall)
    as (res & e & n & Hres & He & Hn & Hkind & Hrun).
  eexists _, _, _,
    (notificationCallback o (setMemoryPlace task tmp) tmp (allocations w)).
  split; [exact Hrun |]. split; [| split; [| split]].
  - cbn. destruct Hkind as [-> | ->]; auto.
  - cbn. rewrite elem_of_app, list_elem_of_singleton. right. reflexivity.
  - reflexivity.
  - intros releasingThread wx. eexists. split; [apply notificationCallback_run |].
    cbn -[callbackEvents filter list_filter].
    split; [reflexivity |]. split; [reflexivity |]. split.
    + rewrite !app_assoc. apply last_snoc.
    + intros Hfresh ->. apply filter_fresh, Hfresh.
Qed.

(** The task with one access: workflow 0 is allocated when [start] is
    called, and freed by the callback of the notification step. *)
Lemma executeTask_workflow_is_freed_witness :
  exists task' g w1 callback,
    executeTask Scenario.cluster Scenario.childrenDone (Some Scenario.worker)
      (Scenario.freshTask [Scenario.readAccess (Some Scenario.node1)])
      Scenario.cpu0 (Some Scenario.node0) Scenario.emptyWorld
    = andReturn (WorkflowBase_start Scenario.cluster Scenario.childrenDone
                   (rootsOf g) w1) (task', Some g)
    /\ (steps g !! 1 = Some (HostNotificationStep callback)
        \/ steps g !! 1 = Some (ClusterNotificationStep callback))
    /\ 0 ∈ liveWorkflows w1
    /\ exists wx',
         callback None w1 = Returns (tt, wx')
         /\ liveWorkflows wx' = filter (fun x => x ≠ 0) (liveWorkflows w1)
         /\ last (trace wx') = Some (EvDeleteWorkflow 0).
Proof.
  destruct (executeTask_workflow_is_freed Scenario.cluster Scenario.childrenDone
              (Some Scenario.worker)
              (Scenario.freshTask [Scenario.readAccess (Some Scenario.node1)])
              Scenario.cpu0 (Some Scenario.node0) Scenario.emptyWorld)
    as (task' & g & w1 & callback & Hrun & Hcb & Hlive & _ & Hfree).
  - reflexivity.
  - left. reflexivity.
  - constructor; [| constructor]. split; [reflexivity |].
    right. exists Scenario.node0. split; reflexivity.
  - exists task', g, w1, callback. split; [exact Hrun |].
    split; [exact Hcb |]. split; [exact Hlive |].
    destruct (Hfree None w1) as (wx' & H1 & H2 & _ & H3 & _).
    exists wx'. auto.
Defined.

(** A task without accesses, with step code that runs it on the spot:
    [start()] of the execution step executes the task and lets the
    workflow run through to the callback of the notification step.  When
    [executeTask] returns, the workflow it allocated is gone. *)
Example task_without_accesses_runs_to_completion :
  match executeTask Scenario.cluster runsToCompletion (Some Scenario.worker)
          (Scenario.freshTask []) Scenario.cpu0 (Some Scenario.hostMemory)
          Scenario.emptyWorld with
  | Returns ((task, Some g), w) =>
    rootSteps g = [0]
    /\ getWorkflow task = Some 0
    /\ liveWorkflows w = []
    /\ head (trace w) = Some (EvStepStart 0)
    /\ last (trace w) = Some (EvDeleteWorkflow 0)
  | _ => False
  end.
Proof. cbv. repeat split. Qed.

(** X8.  For a task that has a workflow already, [executeTask] builds no
    workflow.  With an execution step it does nothing but call [start()]
    on that step: the call ends as this [start] ends.  Without one it is
    the return from a wait: the call stops on the first assertion exactly
    when the task need not delay its release, on the second exactly when
    it must and has not finished, never with a fatal error, and returns
    only when the task must delay its release and has finished. *)
Theorem executeTask_with_workflow :
  forall (c : Cluster) (o : Collaborators) (thr : option WorkerThread)
         (task : Task) (cp : ComputePlace) (tmp : option MemoryPlace) (w : World),
    getWorkflow task <> None ->
    (getExecutionStep task <> None ->
     executeTask c o thr task cp tmp w = andReturn (stepStart o 0 w) (task, None))
    /\ (getExecutionStep task = None ->
        (executeTask c o thr task cp tmp w
           = AssertionFails "task->mustDelayRelease()"
         <-> mustDelayRelease task = false)
        /\ (executeTask c o thr task cp tmp w = AssertionFails "task->hasFinished()"
            <-> mustDelayRelease task = true /\ hasFinished task = false)
        /\ (forall msg, executeTask c o thr task cp tmp w <> FatalError msg)
        /\ (forall r w',
              executeTask c o thr task cp tmp w = Returns (r, w') ->
              mustDelayRelease task = true /\ hasFinished task = true
              /\ r.2 = None)).
Proof.
  intros c o thr task cp tmp w Hwf.
  destruct (getWorkflow task) as [wf |] eqn:Ewf; [clear Hwf | congruence].
  split.
  - intros Hstep. unfold executeTask. rewrite Ewf.
    destruct (getExecutionStep task); [| congruence]. apply andReturn_bind.
  - intros Hstep.
    remember (executeTask c o thr task cp tmp w) as result eqn:Hresult.
    destruct (mustDelayRelease task) eqn:Hdelay.
    + destruct (hasFinished task) eqn:Hfin.
      * rewrite (executeTask_wait_reentry_run c o thr task cp tmp) in Hresult
          by congruence.
        subst result.
        split; [split; discriminate |].
        split; [split; [discriminate | intros [_ H]; discriminate] |].
        split; [intros msg; discriminate |].
        intros r w' [= <- _]. auto.
      * assert (result = AssertionFails "task->hasFinished()") as ->.
        { subst result. unfold executeTask. rewrite Ewf, Hstep, Hdelay, Hfin.
          reflexivity. }
        split; [split; discriminate |].
        split; [split; auto |]. split; intros; discriminate.
    + assert (result = AssertionFails "task->mustDelayRelease()") as ->.
      { subst result. unfold executeTask. rewrite Ewf, Hstep, Hdelay.
        reflexivity. }
      split; [split; auto |].
      split; [split; [discriminate | intros [H _]; discriminate] |].
      split; intros; discriminate.
Qed.

(** The unfinished task stops on the second assertion. *)
Lemma executeTask_with_workflow_witness :
  executeTask Scenario.cluster Scenario.childrenDone (Some Scenario.worker)
    unfinishedTask Scenario.cpu0 (Some Scenario.hostMemory) Scenario.world0
  = AssertionFails "task->hasFinished()".
Proof.
  assert (getWorkflow unfinishedTask <> None) as Hwf by discriminate.
  exact (proj2 (proj1 (proj2 (proj2
           (executeTask_with_workflow Scenario.cluster Scenario.childrenDone
              (Some Scenario.worker) unfinishedTask Scenario.cpu0
              (Some Scenario.hostMemory) Scenario.world0 Hwf) eq_refl)))
           (conj eq_refl eq_refl)).
Defined.

End ExecuteTaskFacts.

(** ** [setupTaskwaitWorkflow] *)

Section TaskwaitFacts.
Import ExecutionWorkflow WorkflowOutcomes MoreScenarios.

Lemma setupTaskwaitWorkflow_none c o thr task fragment w :
  getOutputLocation fragment = None ->
  setupTaskwaitWorkflow c o thr task fragment w
  = Returns ((fragment, None),
             addEvents [EvEnterSetupTaskwaitWorkflow;
                        EvReleaseTaskwaitFragment (taskId task)
                          (getAccessRegion fragment) (currentCPU thr) false;
                        EvExitSetupTaskwaitWorkflow] w).
Proof.
  intros Hout. unfold setupTaskwaitWorkflow. rewrite Hout.
  unfold mbind, W_bind, emit, mret, W_ret, addEvents. cbn.
  rewrite <- !app_assoc. reflexivity.
Qed.

Lemma andReturn_bind2 {A} (m1 m2 : W unit) (a : A) (w : World) :
  (m1 ;; m2 ;; mret a) w = andReturn ((m1 ;; m2) w) a.
Proof.
  unfold mbind, W_bind, andReturn. destruct (m1 w) as [[[] w1] | |]; [| reflexivity ..].
  destruct (m2 w1) as [[[] w2] | |]; reflexivity.
Qed.

(** [start] on a workflow with one root. *)
Lemma WorkflowBase_start_one c o (id : nat) (s : Step) (w : World) :
  WorkflowBase_start c o [(id, s)] w
  = match s with
    | ClusterDataCopyStep source target _ =>
      if requiresDataFetch (copySteps o) id
      then if bool_decide (target = getCurrentMemoryNode c)
           then fetchVector o (getNumFragments (copySteps o) id) [id] source w
           else AssertionFails
                  "clusterCopy->getTargetMemoryPlace() == ClusterManager::getCurrentMemoryNode()"
      else Returns (tt, w)
    | _ => stepStart o id w
    end.
Proof.
  assert (forall m : W unit, (m ;; mret (([], []) : StartMaps)
                                ≫= (fun '(fragments, groups) =>
                                      WorkflowBase_forEachGroup o fragments groups)) w
                             = m w) as Hplain.
  { intros m. unfold mbind, W_bind. destruct (m w) as [[[] w'] | |]; reflexivity. }
  unfold WorkflowBase_start. cbn [WorkflowBase_forEachRoot].
  destruct s as [| source target region | | | | | |];
    try (unfold WorkflowBase_startRoot; unfold mbind at 1 2, W_bind at 1 2;
         unfold mbind, W_bind;
         destruct (stepStart o id w) as [[[] w'] | |]; reflexivity).
  unfold WorkflowBase_startRoot.
  destruct (requiresDataFetch (copySteps o) id); [| reflexivity].
  case_bool_decide as Ht; [| reflexivity].
  unfold mbind, W_bind. cbn [liftO assert mret W_ret Outcome.assert].
  cbn [updateAt find insertSorted WorkflowBase_forEachGroup fst snd].
  rewrite decide_True by reflexivity.
  unfold default, from_option, Datatypes.id. cbn [app Nat.add].
  unfold mbind, W_bind.
  destruct (fetchVector o _ [id] source w) as [[[] w'] | |]; reflexivity.
Qed.

Lemma setupTaskwaitWorkflow_some c o thr task fragment w tgt :
  getOutputLocation fragment = Some tgt ->
  setupTaskwaitWorkflow c o thr task fragment w
  = match createNotificationStep
            (taskwaitNotificationCallback task (getAccessRegion fragment)
               (allocations w))
            (currentCPU thr) with
    | Returns n =>
      match createDataCopyStep c (getLocation fragment) (Some tgt)
              (getAccessRegion fragment) fragment true (taskwaitWorld w) with
      | Returns ((s, fragment'), w') =>
        andReturn
          ((WorkflowBase_start c o [(1, s)] ;; emit EvExitSetupTaskwaitWorkflow) w')
          (fragment',
           Some {| steps := [n; s]; order := [(1, 0)];
                   rootSteps := [1]; releaseAccesses := [] |})
      | AssertionFails what => AssertionFails what
      | FatalError msg => FatalError msg
      end
    | AssertionFails what => AssertionFails what
    | FatalError msg => FatalError msg
    end.
Proof.
  intros Hout. unfold setupTaskwaitWorkflow. rewrite Hout.
  unfold mbind at 1, W_bind at 1. cbn [emit].
  unfold mbind at 1, W_bind at 1, newWorkflow.
  unfold mbind at 1, W_bind at 1. cbn [allocations trace liveWorkflows].
  destruct (createNotificationStep _ (currentCPU thr)) as [n | what | msg];
    [| reflexivity | reflexivity].
  cbn [liftO addStep emptyWorkflow steps length].
  unfold mbind at 1, W_bind at 1. fold (taskwaitWorld w).
  destruct (createDataCopyStep _ _ _ _ _ _ _) as [[[s f'] w'] | |];
    [| reflexivity | reflexivity].
  apply andReturn_bind2.
Qed.

Lemma createNotificationStep_cases (cb : Callback) (ocp : option ComputePlace) :
  ((ocp = None
    \/ exists cp, ocp = Some cp
                  /\ (cp_type cp = nanos6_host_device
                      \/ cp_type cp = nanos6_cluster_device))
   /\ exists n, createNotificationStep cb ocp = Returns n
                /\ (n = HostNotificationStep cb \/ n = ClusterNotificationStep cb))
  \/ ((exists cp, ocp = Some cp
                  /\ cp_type cp <> nanos6_host_device
                  /\ cp_type cp <> nanos6_cluster_device)
      /\ createNotificationStep cb ocp
         = FatalError "Execution workflow does not support this device yet").
Proof.
  unfold createNotificationStep.
  destruct ocp as [cp |]; [| left; split; [left; reflexivity | eauto]].
  destruct (cp_type cp) eqn:Hty.
  - left. split; [right; exists cp; rewrite Hty; auto | eauto].
  - right. split; [exists cp; rewrite Hty; repeat split; discriminate | reflexivity].
  - right. split; [exists cp; rewrite Hty; repeat split; discriminate | reflexivity].
  - left. split; [right; exists cp; rewrite Hty; auto | eauto].
Qed.

Lemma createDataCopyStep_step_shape c source target region access isTaskwait w s a' w' :
  createDataCopyStep c source target region access isTaskwait w
  = Returns ((s, a'), w') ->
  w' = afterCopyStepHooks isTaskwait w
  /\ (s = NullStep
      \/ exists tgt, target = Some tgt /\ s = ClusterDataCopyStep source tgt region).
Proof.
  intros Hrun.
  destruct (unsupportedAccessType (getType access)) eqn:Hu.
  - rewrite (createDataCopyStep_unsupported c source target region access
               isTaskwait w Hu) in Hrun.
    injection Hrun as <- <- <-. auto.
  - destruct target as [tgt |].
    + destruct (isDirectoryMemoryPlace c (Some tgt)) eqn:Hdir.
      * rewrite (createDataCopyStep_directory_target c source tgt region access
                   isTaskwait w Hu Hdir) in Hrun. discriminate.
      * rewrite (createDataCopyStep_supported c source tgt region access
                   isTaskwait w Hu Hdir) in Hrun.
        injection Hrun as <- <- <-. split; [reflexivity |].
        destruct (isDirectoryMemoryPlace c source && inClusterMode c);
          [right; eauto |].
        destruct (_transfersMap (sourceTypeOf source) (mp_type tgt)); cbn;
          [left; reflexivity | right; eauto].
    + rewrite (createDataCopyStep_null_target c source region access
                 isTaskwait w Hu) in Hrun. discriminate.
Qed.

(** With an output location, on a supported compute place and with a
    copy step that can be created, [setupTaskwaitWorkflow] reaches
    [workflow->start()]. *)
Lemma setupTaskwaitWorkflow_run c o thr task fragment w tgt :
  getOutputLocation fragment = Some tgt ->
  (currentCPU thr = None
   \/ exists cp, currentCPU thr = Some cp
                 /\ (cp_type cp = nanos6_host_device
                     \/ cp_type cp = nanos6_cluster_device)) ->
  unsupportedAccessType (getType fragment) = true
  \/ isDirectoryMemoryPlace c (Some tgt) = false ->
  exists n step fragment',
    (n = HostNotificationStep
           (taskwaitNotificationCallback task (getAccessRegion fragment)
              (allocations w))
     \/ n = ClusterNotificationStep
              (taskwaitNotificationCallback task (getAccessRegion fragment)
                 (allocations w)))
    /\ (forall w0,
          createDataCopyStep c (getLocation fragment) (Some tgt)
            (getAccessRegion fragment) fragment true w0
          = Returns ((step, fragment'), afterCopyStepHooks true w0))
    /\ (step = NullStep
        \/ step = ClusterDataCopyStep (getLocation fragment) tgt
                    (getAccessRegion fragment))
    /\ setupTaskwaitWorkflow c o thr task fragment w
       = andReturn
           ((WorkflowBase_start c o [(1, step)] ;; emit EvExitSetupTaskwaitWorkflow)
              (afterCopyStepHooks true (taskwaitWorld w)))
           (fragment',
            Some {| steps := [n; step]; order := [(1, 0)];
                    rootSteps := [1]; releaseAccesses := [] |}).
Proof.
  intros Hout Hcp Hcopy.
  rewrite (setupTaskwaitWorkflow_some c o thr task fragment w tgt Hout).
  destruct (createNotificationStep_cases
              (taskwaitNotificationCallback task (getAccessRegion fragment)
                 (allocations w)) (currentCPU thr))
    as [[_ (n & Hn & Hkind)] | [(cp & Hc & H1 & H2) _]].
  - rewrite Hn.
    destruct (createDataCopyStep_cases c (getLocation fragment) (Some tgt)
                (getAccessRegion fragment) fragment true (taskwaitWorld w))
      as [[Hu H] | [(Hu & Ht & H) | [(Hu & Ht & H) | (Hu & H)]]].
    + exists n, NullStep, fragment. split; [exact Hkind |].
      split; [intros w0; apply createDataCopyStep_unsupported, Hu |].
      split; [left; reflexivity |]. rewrite H. reflexivity.
    + discriminate Ht.
    + destruct Hcopy as [Hx | Hx]; congruence.
    + destruct H as (tgt' & [s a'] & Ht & Hd & H). injection Ht as <-.
      exists n, s, a'. split; [exact Hkind |]. split; [exact H |].
      split.
      * destruct (createDataCopyStep_step_shape _ _ _ _ _ _ _ _ _ _
                    (H (taskwaitWorld w))) as [_ [-> | (t & [= <-] & ->)]]; auto.
      * rewrite H. reflexivity.
  - exfalso. destruct Hcp as [Hcp | (cp' & Hcp & [Hk | Hk])]; congruence.
Qed.

(** X9.  A taskwait fragment without output location is released at once,
    with the compute place of the calling thread and the flag unset; no
    workflow is built and nothing is started.  With an output location
    the call stops before it starts anything in two cases: with the fatal
    error when the calling thread has a compute place of a kind other
    than host and cluster, and else on the assertion of
    [createDataCopyStep] when the fragment is of a supported type and its
    output location is the directory.  In every other case it builds the
    workflow and calls [start()] on it, which does one of four things with
    the copy step, the only root: [start()] of a [Null] step; nothing for
    a cluster copy that requires no fetch; a failed assertion for one
    that requires a fetch to another node than this one; [fetchVector]
    for one that requires a fetch to this node.  The call ends as that
    call ends, and where it returns, the exit hook comes last. *)
Theorem setupTaskwaitWorkflow_outcomes :
  forall (c : Cluster) (o : Collaborators) (thr : option WorkerThread)
         (task : Task) (fragment : DataAccess) (w : World),
    (getOutputLocation fragment = None ->
     setupTaskwaitWorkflow c o thr task fragment w
     = Returns ((fragment, None),
                addEvents [EvEnterSetupTaskwaitWorkflow;
                           EvReleaseTaskwaitFragment (taskId task)
                             (getAccessRegion fragment) (currentCPU thr) false;
                           EvExitSetupTaskwaitWorkflow] w))
    /\ (forall tgt,
          getOutputLocation fragment = Some tgt ->
          ((exists cp, currentCPU thr = Some cp
                       /\ cp_type cp <> nanos6_host_device
                       /\ cp_type cp <> nanos6_cluster_device) ->
           setupTaskwaitWorkflow c o thr task fragment w
           = FatalError "Execution workflow does not support this device yet")
          /\ ((currentCPU thr = None
               \/ exists cp, currentCPU thr = Some cp
                             /\ (cp_type cp = nanos6_host_device
                                 \/ cp_type cp = nanos6_cluster_device)) ->
              (unsupportedAccessType (getType fragment) = false ->
               isDirectoryMemoryPlace c (Some tgt) = true ->
               setupTaskwaitWorkflow c o thr task fragment w
               = AssertionFails "!Directory::isDirectoryMemoryPlace(targetMemoryPlace)")
              /\ (unsupportedAccessType (getType fragment) = true
                  \/ isDirectoryMemoryPlace c (Some tgt) = false ->
                  exists step fragment' g,
                    (forall w0,
                       createDataCopyStep c (getLocation fragment) (Some tgt)
                         (getAccessRegion fragment) fragment true w0
                       = Returns ((step, fragment'), afterCopyStepHooks true w0))
                    /\ rootsOf g = [(1, step)]
                    /\ (step = NullStep ->
                        setupTaskwaitWorkflow c o thr task fragment w
                        = andReturn
                            ((stepStart o 1 ;; emit EvExitSetupTaskwaitWorkflow)
                               (afterCopyStepHooks true (taskwaitWorld w)))
                            (fragment', Some g))
                    /\ (forall source region,
                          step = ClusterDataCopyStep source tgt region ->
                          (requiresDataFetch (copySteps o) 1 = false ->
                           setupTaskwaitWorkflow c o thr task fragment w
                           = Returns ((fragment', Some g),
                                      addEvents [EvExitSetupTaskwaitWorkflow]
                                        (afterCopyStepHooks true (taskwaitWorld w))))
                          /\ (requiresDataFetch (copySteps o) 1 = true ->
                              tgt <> getCurrentMemoryNode c ->
                              setupTaskwaitWorkflow c o thr task fragment w
                              = AssertionFails
                                  "clusterCopy->getTargetMemoryPlace() == ClusterManager::getCurrentMemoryNode()")
                          /\ (requiresDataFetch (copySteps o) 1 = true ->
                              tgt = getCurrentMemoryNode c ->
                              setupTaskwaitWorkflow c o thr task fragment w
                              = andReturn
                                  ((fetchVector o (getNumFragments (copySteps o) 1)
                                      [1] source ;;
                                    emit EvExitSetupTaskwaitWorkflow)
                                     (afterCopyStepHooks true (taskwaitWorld w)))
                                  (fragment', Some g)))
                    /\ (step = NullStep
                        \/ step = ClusterDataCopyStep (getLocation fragment) tgt
                                    (getAccessRegion fragment))))).
Proof.
  intros c o thr task fragment w.
  split; [apply setupTaskwaitWorkflow_none |].
  intros tgt Hout. split.
  - intros Hbad.
    rewrite (setupTaskwaitWorkflow_some c o thr task fragment w tgt Hout).
    destruct (createNotificationStep_cases
                (taskwaitNotificationCallback task (getAccessRegion fragment)
                   (allocations w)) (currentCPU thr))
      as [[Hcp _] | [_ Hn]]; [| rewrite Hn; reflexivity].
    exfalso. destruct Hbad as (cp & Hc & H1 & H2).
    destruct Hcp as [Hcp | (cp' & Hcp & [Hk | Hk])]; congruence.
  - intros Hcp. split.
    + intros Hu Hdir.
      rewrite (setupTaskwaitWorkflow_some c o thr task fragment w tgt Hout).
      destruct (createNotificationStep_cases
                  (taskwaitNotificationCallback task (getAccessRegion fragment)
                     (allocations w)) (currentCPU thr))
        as [[_ (n & Hn & _)] | [(cp & Hc & H1 & H2) _]].
      * rewrite Hn.
        rewrite (createDataCopyStep_directory_target c _ tgt _ _ _ _ Hu Hdir).
        reflexivity.
      * exfalso. destruct Hcp as [Hcp | (cp' & Hcp & [Hk | Hk])]; congruence.
    + intros Hcopy.
      destruct (setupTaskwaitWorkflow_run c o thr task fragment w tgt Hout Hcp Hcopy)
        as (n & step & fragment' & _ & Hstep & Hshape & Hrun).
      exists step, fragment',
        {| steps := [n; step]; order := [(1, 0)];
           rootSteps := [1]; releaseAccesses := [] |}.
      split; [exact Hstep |]. split; [reflexivity |].
      rewrite Hrun. clear Hrun.
      assert (forall m : W unit,
                (forall w0, WorkflowBase_start c o [(1, step)] w0 = m w0) ->
                andReturn
                  ((WorkflowBase_start c o [(1, step)] ;;
                    emit EvExitSetupTaskwaitWorkflow)
                     (afterCopyStepHooks true (taskwaitWorld w)))
                  (fragment',
                   Some {| steps := [n; step]; order := [(1, 0)];
                           rootSteps := [1]; releaseAccesses := [] |})
                = andReturn
                    ((m ;; emit EvExitSetupTaskwaitWorkflow)
                       (afterCopyStepHooks true (taskwaitWorld w)))
                    (fragment',
                     Some {| steps := [n; step]; order := [(1, 0)];
                             rootSteps := [1]; releaseAccesses := [] |})) as Hsame.
      { intros m Hm. unfold mbind, W_bind. rewrite Hm. reflexivity. }
      split; [| split; [| exact Hshape]].
      * intros ->. apply Hsame. intros w0. apply WorkflowBase_start_one.
      * intros source region ->. split; [| split].
        -- intros Hq. unfold mbind, W_bind. rewrite WorkflowBase_start_one, Hq.
           reflexivity.
        -- intros Hq Hne. unfold mbind, W_bind.
           rewrite WorkflowBase_start_one, Hq.
           rewrite bool_decide_eq_false_2 by exact Hne. reflexivity.
        -- intros Hq Heq. apply Hsame. intros w0.
           rewrite WorkflowBase_start_one, Hq.
           rewrite bool_decide_eq_true_2 by exact Heq. reflexivity.
Qed.

(** The fragment to be copied from node 1 to node 0, the current node:
    one fetch, then the exit hook. *)
Lemma setupTaskwaitWorkflow_outcomes_witness :
  exists fragment' g,
    setupTaskwaitWorkflow Scenario.cluster Scenario.childrenDone
      (Some Scenario.worker) Scenario.waitingTask fragmentToNode0
      Scenario.emptyWorld
    = Returns ((fragment', Some g),
               {| trace := [EvEnterSetupTaskwaitWorkflow;
                            EvEnterCreateDataCopyStep true;
                            EvExitCreateDataCopyStep true;
                            EvFetchVector 2 [1] (Some Scenario.node1);
                            EvExitSetupTaskwaitWorkflow];
                  liveWorkflows := [0];
                  allocations := 1 |}).
Proof.
  destruct (proj2 (setupTaskwaitWorkflow_outcomes Scenario.cluster
                     Scenario.childrenDone (Some Scenario.worker)
                     Scenario.waitingTask fragmentToNode0 Scenario.emptyWorld)
              Scenario.node0 eq_refl) as [_ H].
  destruct H as [_ H].
  { right. exists Scenario.cpu0. split; [reflexivity | left; reflexivity]. }
  destruct H as (step & fragment' & g & Hstep & _ & _ & Hcluster & _).
  { right. reflexivity. }
  pose proof (Hstep Scenario.emptyWorld) as Hs. cbv in Hs.
  injection Hs as <- <-.
  destruct (Hcluster (Some Scenario.node1) Scenario.region eq_refl)
    as (_ & _ & Hfetch).
  eexists _, g. rewrite (Hfetch eq_refl eq_refl). reflexivity.
Defined.

(** The same fragment on another node than its output location: the
    assertion of [start] fails. *)
Example taskwait_fetch_to_another_node :
  setupTaskwaitWorkflow Scenario.cluster Scenario.childrenDone
    (Some Scenario.worker) Scenario.waitingTask fragmentToNode1
    Scenario.emptyWorld
  = AssertionFails
      "clusterCopy->getTargetMemoryPlace() == ClusterManager::getCurrentMemoryNode()".
Proof. reflexivity. Qed.

(** X10.  With an output location, on a supported compute place and with
    a copy step that can be created, [setupTaskwaitWorkflow] builds a
    workflow of two steps, the copy step, a root, ordered before the
    notification step, and calls [start()] on it.  When [start] is called
    the workflow is allocated and the fragment has not been released:
    only the entry hook and the two hooks of the copy step have been
    called.  The callback of the notification step, in whatever world and
    on whichever thread it runs, releases the fragment, with the flag set
    and with the compute place of that thread, and then frees the
    workflow. *)
Theorem setupTaskwaitWorkflow_builds :
  forall (c : Cluster) (o : Collaborators) (thr : option WorkerThread)
         (task : Task) (fragment : DataAccess) (tgt : MemoryPlace) (w : World),
    getOutputLocation fragment = Some tgt ->
    (currentCPU thr = None
     \/ exists cp, currentCPU thr = Some cp
                   /\ (cp_type cp = nanos6_host_device
                       \/ cp_type cp = nanos6_cluster_device)) ->
    unsupportedAccessType (getType fragment) = true
    \/ isDirectoryMemoryPlace c (Some tgt) = false ->
    exists n step fragment' callback w1,
      setupTaskwaitWorkflow c o thr task fragment w
      = andReturn
          ((WorkflowBase_start c o [(1, step)] ;; emit EvExitSetupTaskwaitWorkflow) w1)
          (fragment',
           Some {| steps := [n; step]; order := [(1, 0)];
                   rootSteps := [1]; releaseAccesses := [] |})
      /\ (n = HostNotificationStep callback \/ n = ClusterNotificationStep callback)
      /\ (step = NullStep
          \/ step = ClusterDataCopyStep (getLocation fragment) tgt
                      (getAccessRegion fragment))
      /\ trace w1 = trace w
                    ++ [EvEnterSetupTaskwaitWorkflow;
                        EvEnterCreateDataCopyStep true;
                        EvExitCreateDataCopyStep true]
      /\ liveWorkflows w1 = liveWorkflows w ++ [allocations w]
      /\ allocations w1 = S (allocations w)
      /\ forall (releasingThread : option WorkerThread) (wx : World),
           callback releasingThread wx
           = Returns (tt, {| trace := trace wx
                                      ++ [EvReleaseTaskwaitFragment (taskId task)
                                            (getAccessRegion fragment)
                                            (currentCPU releasingThread) true;
                                          EvDeleteWorkflow (allocations w)];
                             liveWorkflows :=
                               filter (fun x => x ≠ allocations w) (liveWorkflows wx);
                             allocations := allocations wx |}).
Proof.
  intros c o thr task fragment tgt w Hout Hcp Hcopy.
  destruct (setupTaskwaitWorkflow_run c o thr task fragment w tgt Hout Hcp Hcopy)
    as (n & step & fragment' & Hkind & _ & Hshape & Hrun).
  exists n, step, fragment',
    (taskwaitNotificationCallback task (getAccessRegion fragment) (allocations w)).
  eexists. split; [exact Hrun |]. split; [exact Hkind |]. split; [exact Hshape |].
  cbn. rewrite <- !app_assoc. split; [reflexivity |]. split; [reflexivity |].
  split; [reflexivity |].
  intros releasingThread wx. unfold taskwaitNotificationCallback.
  unfold mbind, W_bind, emit, deleteWorkflow. cbn -[filter list_filter].
  rewrite <- !app_assoc. reflexivity.
Qed.

Lemma setupTaskwaitWorkflow_builds_witness :
  exists n step fragment' callback w1,
    setupTaskwaitWorkflow Scenario.cluster Scenario.childrenDone
      (Some Scenario.worker) Scenario.waitingTask fragmentToNode0
      Scenario.emptyWorld
    = andReturn
        ((WorkflowBase_start Scenario.cluster Scenario.childrenDone [(1, step)] ;;
          emit EvExitSetupTaskwaitWorkflow) w1)
        (fragment',
         Some {| steps := [n; step]; order := [(1, 0)];
                 rootSteps := [1]; releaseAccesses := [] |})
    /\ (n = HostNotificationStep callback \/ n = ClusterNotificationStep callback)
    /\ liveWorkflows w1 = [0]
    /\ callback None w1
       = Returns (tt, {| trace := trace w1
                                  ++ [EvReleaseTaskwaitFragment 7 Scenario.region
                                        None true;
                                      EvDeleteWorkflow 0];
                         liveWorkflows := filter (fun x => x ≠ 0) (liveWorkflows w1);
                         allocations := allocations w1 |}).
Proof.
  destruct (setupTaskwaitWorkflow_builds Scenario.cluster Scenario.childrenDone
              (Some Scenario.worker) Scenario.waitingTask fragmentToNode0
              Scenario.node0 Scenario.emptyWorld eq_refl)
    as (n & step & fragment' & callback & w1 & Hrun & Hn & _ & _ & Hlive & _ & Hcb).
  - right. exists Scenario.cpu0. split; [reflexivity | left; reflexivity].
  - right. reflexivity.
  - exists n, step, fragment', callback, w1.
    split; [exact Hrun |]. split; [exact Hn |]. split; [exact Hlive |].
    exact (Hcb None w1).
Defined.

End TaskwaitFacts.


(** ** [WorkflowBase::start] *)

Section PointerMapFacts.
Import ExecutionWorkflow WorkflowStart.
Context {V : Type}.
Implicit Types (m : list (option MemoryPlace * V)) (k : option MemoryPlace)
  (addr : option MemoryPlace -> Z).

Lemma find_None m k : find k m = None <-> k ∉ map fst m.
Proof.
  induction m as [| [k' v] m IH]; cbn [find map fst].
  - split; [intros _; apply not_elem_of_nil | reflexivity].
  - rewrite not_elem_of_cons. destruct (decide (k = k')) as [-> | Hne].
    + split; [discriminate | intros [H _]; congruence].
    + rewrite IH. tauto.
Qed.

Lemma find_elem_of m k v :
  NoDup (map fst m) -> (k, v) ∈ m <-> find k m = Some v.
Proof.
  induction m as [| [k' v'] m IH]; cbn [find map fst]; intros Hnd.
  - split; [intros H; inversion H | discriminate].
  - apply NoDup_cons in Hnd. destruct Hnd as [Hk' Hnd].
    rewrite elem_of_cons. destruct (decide (k = k')) as [-> | Hne].
    + split.
      * intros [[= ->] | Hin]; [reflexivity |].
        exfalso. apply Hk'. apply elem_of_map_iff. exists (k', v).
        split; [reflexivity | apply list_elem_of_In, Hin].
      * intros [= ->]. left. reflexivity.
    + rewrite <- (IH Hnd). split.
      * intros [[= -> ->] | Hin]; [congruence | exact Hin].
      * intros Hin. right. exact Hin.
Qed.

Lemma keys_alterKey k (f : V -> V) m : map fst (alterKey k f m) = map fst m.
Proof.
  induction m as [| [k' v] m IH]; cbn [alterKey map fst]; [reflexivity |].
  destruct (decide (k = k')); cbn [map fst]; [reflexivity |].
  rewrite IH. reflexivity.
Qed.

Lemma find_alterKey_eq k (f : V -> V) m v :
  find k m = Some v -> find k (alterKey k f m) = Some (f v).
Proof.
  induction m as [| [k' v'] m IH]; cbn [alterKey find]; [discriminate |].
  destruct (decide (k = k')) as [-> | Hne]; cbn [find].
  - intros [= ->]. rewrite decide_True by reflexivity. reflexivity.
  - intros H. rewrite decide_False by exact Hne. apply IH, H.
Qed.

Lemma find_alterKey_ne k k' (f : V -> V) m :
  k <> k' -> find k' (alterKey k f m) = find k' m.
Proof.
  intros Hne. induction m as [| [k'' v'] m IH]; cbn [alterKey find]; [reflexivity |].
  destruct (decide (k = k'')) as [-> | Hne']; cbn [find].
  - rewrite !decide_False by congruence. reflexivity.
  - destruct (decide (k' = k'')); [reflexivity | exact IH].
Qed.

Lemma keys_insertSorted addr k v m :
  map fst (insertSorted addr k v m) ≡ₚ k :: map fst m.
Proof.
  induction m as [| [k' v'] m IH]; cbn [insertSorted map fst]; [reflexivity |].
  destruct (addr k <? addr k')%Z; cbn [map fst]; [reflexivity |].
  rewrite IH. apply Permutation_swap.
Qed.

Lemma find_insertSorted_eq addr k v m :
  find k m = None -> find k (insertSorted addr k v m) = Some v.
Proof.
  induction m as [| [k' v'] m IH]; cbn [insertSorted find].
  - intros _. rewrite decide_True by reflexivity. reflexivity.
  - destruct (decide (k = k')) as [-> | Hne]; [discriminate |]. intros H.
    destruct (addr k <? addr k')%Z; cbn [find].
    + rewrite decide_True by reflexivity. reflexivity.
    + rewrite decide_False by exact Hne. apply IH, H.
Qed.

Lemma find_insertSorted_ne addr k k' v m :
  k <> k' -> find k' (insertSorted addr k v m) = find k' m.
Proof.
  intros Hne. induction m as [| [k'' v'] m IH]; cbn [insertSorted find].
  - rewrite decide_False by congruence. reflexivity.
  - destruct (addr k <? addr k'')%Z; cbn [find].
    + rewrite (decide_False (P := k' = k)) by congruence. reflexivity.
    + destruct (decide (k' = k'')); [reflexivity | exact IH].
Qed.

Lemma Sorted_insertSorted addr k v m :
  Sorted (fun a b => (addr a <= addr b)%Z) (map fst m) ->
  Sorted (fun a b => (addr a <= addr b)%Z) (map fst (insertSorted addr k v m)).
Proof.
  induction m as [| [k' v'] m IH]; cbn [insertSorted map fst]; intros Hs.
  - repeat constructor.
  - destruct (addr k <? addr k')%Z eqn:E; cbn [map fst].
    + constructor; [exact Hs |]. constructor. apply Z.ltb_lt in E. lia.
    + apply Z.ltb_ge in E. inversion Hs as [| ? ? Hs' Hhd]; subst.
      constructor; [apply IH, Hs' |].
      destruct m as [| [k'' v''] m]; cbn [insertSorted map fst].
      * constructor. exact E.
      * destruct (addr k <? addr k'')%Z; cbn [map fst]; constructor;
          [exact E |]. cbn [map fst] in Hhd. inversion Hhd; assumption.
Qed.

Lemma find_updateAt_eq addr k (f : V -> V) d m :
  find k (updateAt addr k f d m) = Some (f (default d (find k m))).
Proof.
  unfold updateAt. destruct (find k m) as [v |] eqn:E; cbn [default].
  - apply find_alterKey_eq, E.
  - apply find_insertSorted_eq, E.
Qed.

Lemma find_updateAt_ne addr k k' (f : V -> V) d m :
  k <> k' -> find k' (updateAt addr k f d m) = find k' m.
Proof.
  intros Hne. unfold updateAt. destruct (find k m).
  - apply find_alterKey_ne, Hne.
  - apply find_insertSorted_ne, Hne.
Qed.

Lemma NoDup_updateAt addr k (f : V -> V) d m :
  NoDup (map fst m) -> NoDup (map fst (updateAt addr k f d m)).
Proof.
  intros Hnd. unfold updateAt. destruct (find k m) eqn:E.
  - rewrite keys_alterKey. exact Hnd.
  - rewrite keys_insertSorted. apply NoDup_cons. split; [| exact Hnd].
    apply find_None, E.
Qed.

Lemma Sorted_updateAt addr k (f : V -> V) d m :
  Sorted (fun a b => (addr a <= addr b)%Z) (map fst m) ->
  Sorted (fun a b => (addr a <= addr b)%Z) (map fst (updateAt addr k f d m)).
Proof.
  intros Hs. unfold updateAt. destruct (find k m).
  - rewrite keys_alterKey. exact Hs.
  - apply Sorted_insertSorted, Hs.
Qed.

End PointerMapFacts.

Section StartFacts.
Import ExecutionWorkflow WorkflowOutcomes WorkflowStart MoreScenarios.

Lemma group_snoc q pre r source :
  group q (pre ++ [r]) source
  = group q pre source ++ (if fetches q source r then [r.1] else []).
Proof.
  unfold group. rewrite filter_app, map_app. f_equal.
  destruct (fetches q source r) eqn:E.
  - rewrite filter_cons_True by exact E. reflexivity.
  - rewrite filter_cons_False by (rewrite E; discriminate). reflexivity.
Qed.

Lemma started_snoc pre r :
  started (pre ++ [r])
  = started pre ++ (if isClusterDataCopyStep r.2 then [] else [r.1]).
Proof.
  unfold started. rewrite filter_app, map_app. f_equal.
  destruct (isClusterDataCopyStep r.2) eqn:E.
  - rewrite filter_cons_False by (rewrite E; discriminate). reflexivity.
  - rewrite filter_cons_True by exact E. reflexivity.
Qed.

Lemma StartInv_initial q addr : StartInv q addr [] ([], [], []).
Proof.
  split; cbn; try reflexivity; try constructor.
Qed.

Lemma startRoot_fails c q addr st r :
  fetchesElsewhere c q r ->
  startRoot c q addr st r
  = AssertionFails
      "clusterCopy->getTargetMemoryPlace() == ClusterManager::getCurrentMemoryNode()".
Proof.
  intros (source & target & region & Hs & Hq & Hne).
  destruct st as [[calls fragments] groups]. destruct r as [id s].
  cbn [fst snd] in *. subst s. unfold startRoot. rewrite Hq.
  rewrite bool_decide_eq_false_2 by exact Hne. reflexivity.
Qed.

Lemma startRoot_inv c q addr pre st r :
  StartInv q addr pre st ->
  ~ fetchesElsewhere c q r ->
  exists st', startRoot c q addr st r = Returns st'
              /\ StartInv q addr (pre ++ [r]) st'.
Proof.
  intros [Hc Hnd Hs Hg Hf] Hok.
  destruct st as [[calls fragments] groups]. destruct r as [id s].
  cbn [fst snd] in *.
  assert (forall source, isClusterDataCopyStep s = false ->
                         fetches q source (id, s) = false) as Hnofetch.
  { intros source. unfold fetches. cbn [snd]. destruct s; try reflexivity.
    discriminate. }
  assert (isClusterDataCopyStep s = false ->
          exists st', Returns (calls ++ [CallStepStart id], fragments, groups)
                      = Returns st'
                      /\ StartInv q addr (pre ++ [(id, s)]) st') as Hplain.
  { intros Hk. eexists. split; [reflexivity |].
    split; cbn [fst snd]; try assumption.
    - rewrite started_snoc, map_app, Hc. cbn [snd]. rewrite Hk. reflexivity.
    - intros source. rewrite group_snoc, Hnofetch, app_nil_r by exact Hk. apply Hg.
    - intros source. rewrite group_snoc, Hnofetch, app_nil_r by exact Hk. apply Hf. }
  destruct s as [| source target region | | | | | |];
    try (apply Hplain; reflexivity).
  unfold startRoot. destruct (requiresDataFetch q id) eqn:Hq.
  - assert (target = getCurrentMemoryNode c) as Ht.
    { destruct (decide (target = getCurrentMemoryNode c)) as [Ht | Ht];
        [exact Ht |]. exfalso. apply Hok. exists source, target, region.
      cbn [fst snd]. auto. }
    rewrite bool_decide_eq_true_2 by exact Ht. eexists. split; [reflexivity |].
    split; cbn [fst snd].
    + rewrite started_snoc, app_nil_r. exact Hc.
    + apply NoDup_updateAt, Hnd.
    + apply Sorted_updateAt, Hs.
    + intros src. rewrite group_snoc.
      assert (fetches q src (id, ClusterDataCopyStep source target region)
              = bool_decide (source = src)) as ->
          by (unfold fetches; cbn [fst snd]; rewrite Hq; reflexivity).
      destruct (decide (source = src)) as [<- | Hne].
      * rewrite bool_decide_eq_true_2 by reflexivity.
        rewrite find_updateAt_eq, Hg.
        rewrite (decide_False (P := _ ++ [id] = [])) by (intros H; destruct (group q pre source); discriminate).
        destruct (decide (group q pre source = [])) as [-> | _]; reflexivity.
      * rewrite bool_decide_eq_false_2 by exact Hne.
        rewrite find_updateAt_ne by exact Hne. rewrite app_nil_r. apply Hg.
    + intros src. rewrite group_snoc.
      assert (fetches q src (id, ClusterDataCopyStep source target region)
              = bool_decide (source = src)) as ->
          by (unfold fetches; cbn [fst snd]; rewrite Hq; reflexivity).
      destruct (decide (source = src)) as [<- | Hne].
      * rewrite bool_decide_eq_true_2 by reflexivity.
        rewrite find_updateAt_eq, sum_list_with_app. cbn [default sum_list_with].
        unfold Datatypes.id. cbn [fst]. rewrite Hf. lia.
      * rewrite bool_decide_eq_false_2 by exact Hne.
        rewrite find_updateAt_ne by exact Hne. rewrite app_nil_r. apply Hf.
  - eexists. split; [reflexivity |].
    split; cbn [fst snd]; try assumption.
    + rewrite started_snoc, app_nil_r. exact Hc.
    + intros src. rewrite group_snoc.
      assert (fetches q src (id, ClusterDataCopyStep source target region)
              = false) as ->
          by (unfold fetches; cbn [fst snd]; rewrite Hq; reflexivity).
      rewrite app_nil_r. apply Hg.
    + intros src. rewrite group_snoc.
      assert (fetches q src (id, ClusterDataCopyStep source target region)
              = false) as ->
          by (unfold fetches; cbn [fst snd]; rewrite Hq; reflexivity).
      rewrite app_nil_r. apply Hf.
Qed.

Lemma forEachRoot_inv c q addr roots :
  Forall (fun r => ~ fetchesElsewhere c q r) roots ->
  forall pre st,
    StartInv q addr pre st ->
    exists st', forEachRoot (startRoot c q addr) st roots = Returns st'
                /\ StartInv q addr (pre ++ roots) st'.
Proof.
  induction 1 as [| r roots Hr Hroots IH]; intros pre st Hinv.
  - exists st. rewrite app_nil_r. split; [reflexivity | exact Hinv].
  - destruct (startRoot_inv c q addr pre st r Hinv Hr) as (st1 & Hrun & Hinv1).
    destruct (IH _ _ Hinv1) as (st' & Hrest & Hinv').
    exists st'. cbn [forEachRoot]. unfold mbind, outcome_bind, Outcome.bind.
    rewrite Hrun. split; [exact Hrest |].
    rewrite <- app_assoc in Hinv'. exact Hinv'.
Qed.

Lemma forEachRoot_fails c q addr roots :
  Exists (fetchesElsewhere c q) roots ->
  forall st,
    forEachRoot (startRoot c q addr) st roots
    = AssertionFails
        "clusterCopy->getTargetMemoryPlace() == ClusterManager::getCurrentMemoryNode()".
Proof.
  induction roots as [| r roots IH]; intros Hex st; [inversion Hex |].
  cbn [forEachRoot]. unfold mbind, outcome_bind, Outcome.bind.
  destruct (decide (fetchesElsewhere c q r)) as [Hbad | Hok].
  - rewrite (startRoot_fails c q addr st r Hbad). reflexivity.
  - assert (exists st', startRoot c q addr st r = Returns st') as [st' Hrun].
    { destruct st as [[calls fragments] groups]. destruct r as [id s].
      unfold startRoot. destruct s as [| source target region | | | | | |]; eauto.
      destruct (requiresDataFetch q id) eqn:Hq; eauto.
      destruct (decide (target = getCurrentMemoryNode c)) as [Ht | Ht].
      - rewrite bool_decide_eq_true_2 by exact Ht. eauto.
      - exfalso. apply Hok. exists source, target, region. cbn [fst snd]. auto. }
    rewrite Hrun. apply IH. apply Exists_cons in Hex.
    destruct Hex as [Hex | Hex]; [contradiction | exact Hex].
Qed.

Lemma start_run c q addr roots :
  Forall (fun r => ~ fetchesElsewhere c q r) roots ->
  exists groups,
    start c q addr roots
    = Returns (map CallStepStart (started roots)
               ++ map (fun it : option MemoryPlace * list nat =>
                         CallFetchVector (sum_list_with (getNumFragments q) it.2)
                                         it.2 it.1)
                      groups)
    /\ NoDup (map fst groups)
    /\ Sorted (fun a b => (addr a <= addr b)%Z) (map fst groups)
    /\ forall source l,
         (source, l) ∈ groups <-> l = group q roots source /\ l <> [].
Proof.
  intros Hok.
  destruct (forEachRoot_inv c q addr roots Hok [] _ (StartInv_initial q addr))
    as ([[calls fragments] groups] & Hrun & [Hc Hnd Hs Hg Hf]).
  cbn [fst snd app] in *.
  assert (forall source l,
             (source, l) ∈ groups <-> l = group q roots source /\ l <> []) as Hin.
  { intros source l. rewrite (find_elem_of groups source l Hnd), Hg.
    destruct (decide (group q roots source = [])) as [He | Hne].
    - split; [discriminate | intros [-> H]; contradiction].
    - split; [intros [= <-]; auto | intros [-> _]; reflexivity]. }
  exists groups. split; [| auto].
  unfold start, mbind, outcome_bind, Outcome.bind. rewrite Hrun, Hc.
  unfold mret, outcome_ret. do 2 f_equal.
  apply map_ext_in. intros [source l] Hit. cbn [fst snd].
  apply list_elem_of_In, Hin in Hit. destruct Hit as [-> _].
  rewrite Hf. reflexivity.
Qed.

(** X11.  When no root step is a cluster copy that requires a fetch to another
    node, [start] returns.  It has called [start()] on the roots that are
    no cluster copies, in their order and before any fetch, and on no
    cluster copy; and it has called [fetchVector] once for each source
    from which some root requires a fetch, in the order of the addresses
    of the sources, with the copy steps of that source in the order of the
    roots and with the sum of their numbers of fragments. *)
Theorem start_calls_and_fetches :
  forall (c : Cluster) (q : CopyStepAnswers) (addr : option MemoryPlace -> Z)
         (roots : list (nat * Step)),
    Forall (fun r => ~ fetchesElsewhere c q r) roots ->
    exists groups,
      start c q addr roots
      = Returns (map CallStepStart (started roots)
                 ++ map (fun it : option MemoryPlace * list nat =>
                           CallFetchVector (sum_list_with (getNumFragments q) it.2)
                                           it.2 it.1)
                        groups)
      /\ NoDup (map fst groups)
      /\ Sorted (fun a b => (addr a <= addr b)%Z) (map fst groups)
      /\ forall source l,
           (source, l) ∈ groups <-> l = group q roots source /\ l <> [].
Proof. exact start_run. Qed.

(** X12.  [start] stops on its assertion exactly when some root step is a
    cluster copy that requires a fetch and whose target is not the
    current node; it never stops otherwise. *)
Theorem start_assertion :
  forall (c : Cluster) (q : CopyStepAnswers) (addr : option MemoryPlace -> Z)
         (roots : list (nat * Step)),
    (start c q addr roots
       = AssertionFails
           "clusterCopy->getTargetMemoryPlace() == ClusterManager::getCurrentMemoryNode()"
     <-> Exists (fetchesElsewhere c q) roots)
    /\ ((exists calls, start c q addr roots = Returns calls)
        <-> Forall (fun r => ~ fetchesElsewhere c q r) roots)
    /\ forall msg, start c q addr roots <> FatalError msg.
Proof.
  intros c q addr roots.
  destruct (decide (Exists (fetchesElsewhere c q) roots)) as [Hex | Hall].
  - assert (start c q addr roots
            = AssertionFails
                "clusterCopy->getTargetMemoryPlace() == ClusterManager::getCurrentMemoryNode()")
      as Hfail.
    { unfold start, mbind, outcome_bind, Outcome.bind.
      rewrite (forEachRoot_fails c q addr roots Hex). reflexivity. }
    rewrite Hfail. split; [tauto |]. split; [| discriminate].
    split; [intros [calls H]; discriminate |].
    intros Hall. exfalso. apply Exists_exists in Hex.
    destruct Hex as (r & Hin & Hbad).
    rewrite Forall_forall in Hall. exact (Hall r Hin Hbad).
  - assert (Forall (fun r => ~ fetchesElsewhere c q r) roots) as Hok
      by (apply (not_Exists_Forall (fetchesElsewhere c q)); exact Hall).
    destruct (start_run c q addr roots Hok) as (groups & Hrun & _).
    rewrite Hrun. split; [split; [discriminate | contradiction] |].
    split; [| discriminate]. split; [intros _; exact Hok | eauto].
Qed.

Lemma start_calls_and_fetches_witness :
  exists groups,
    start Scenario.cluster twoFragments addressOf fourRoots
    = Returns (map CallStepStart (started fourRoots)
               ++ map (fun it : option MemoryPlace * list nat =>
                         CallFetchVector
                           (sum_list_with (getNumFragments twoFragments) it.2)
                           it.2 it.1)
                      groups)
    /\ NoDup (map fst groups)
    /\ Sorted (fun a b => (addressOf a <= addressOf b)%Z) (map fst groups)
    /\ forall source l,
         (source, l) ∈ groups
         <-> l = group twoFragments fourRoots source /\ l <> [].
Proof.
  apply (start_calls_and_fetches Scenario.cluster twoFragments addressOf
           fourRoots).
  apply Forall_forall. intros r Hr (source & target & region & Hs & _ & Hne).
  apply Hne. unfold fourRoots in Hr. rewrite !elem_of_cons in Hr.
  destruct Hr as [-> | [-> | [-> | [-> | Hr]]]]; cbn in Hs;
    try discriminate Hs; try (injection Hs as <- <- <-; reflexivity).
  inversion Hr.
Defined.

(** The calls of that example. *)
Example start_four_roots :
  start Scenario.cluster twoFragments addressOf fourRoots
  = Returns [CallStepStart 3; CallStepStart 0;
             CallFetchVector 4 [4; 5] (Some Scenario.node1)].
Proof. reflexivity. Qed.

(** *** [start], with its calls made *)

Lemma W_bind_assoc {A B C} (m : W A) (f : A -> W B) (g : B -> W C) (w : World) :
  ((m ≫= f) ≫= g) w = (m ≫= fun a => f a ≫= g) w.
Proof.
  unfold mbind, W_bind. destruct (m w) as [[a w1] | |]; reflexivity.
Qed.

Lemma performAll_app o l1 l2 w :
  performAll o (l1 ++ l2) w = (performAll o l1 ;; performAll o l2) w.
Proof.
  revert w. induction l1 as [| call l1 IH]; intros w; [reflexivity |].
  cbn [app performAll]. unfold mbind, W_bind in *.
  destruct (perform o call w) as [[[] w1] | |]; [| reflexivity ..].
  rewrite IH. reflexivity.
Qed.

Lemma performAll_returns o calls :
  stepCodeReturns o ->
  forall w, exists w', performAll o calls w = Returns (tt, w').
Proof.
  intros [Hstep Hfetch]. induction calls as [| call calls IH]; intros w.
  - exists w. reflexivity.
  - cbn [performAll]. unfold mbind, W_bind.
    assert (exists w1, perform o call w = Returns (tt, w1)) as [w1 ->].
    { destruct call as [id | n l source]; [apply Hstep | apply Hfetch]. }
    apply IH.
Qed.

Lemma WorkflowBase_forEachGroup_run o fragments groups w :
  WorkflowBase_forEachGroup o fragments groups w
  = performAll o
      (map (fun it : option MemoryPlace * list nat =>
              CallFetchVector (default 0 (find it.1 fragments)) it.2 it.1)
           groups) w.
Proof.
  revert w. induction groups as [| it groups IH]; intros w; [reflexivity |].
  cbn [WorkflowBase_forEachGroup map performAll perform].
  unfold mbind, W_bind.
  destruct (fetchVector o _ _ _ w) as [[[] w1] | |]; [| reflexivity ..].
  apply IH.
Qed.

(** One root, in both readings of the loop. *)
Lemma WorkflowBase_startRoot_run c o calls fragments groups r st' :
  startRoot c (copySteps o) (placeAddress o) (calls, fragments, groups) r
  = Returns st' ->
  st'.1.1 = calls ++ map CallStepStart (started [r])
  /\ forall w,
       WorkflowBase_startRoot c o (fragments, groups) r w
       = (performAll o (map CallStepStart (started [r])) ;;
          mret (st'.1.2, st'.2)) w.
Proof.
  destruct r as [id s].
  assert (started [(id, s)] = if isClusterDataCopyStep s then [] else [id]) as ->
    by exact (started_snoc [] (id, s)).
  unfold startRoot, WorkflowBase_startRoot.
  destruct s as [| source target region | | | | | |];
    try (intros [= <-]; cbn; split; [reflexivity |]; intros w;
         unfold mbind, W_bind;
         destruct (stepStart o id w) as [[[] w1] | |]; reflexivity).
  destruct (requiresDataFetch (copySteps o) id).
  - destruct (bool_decide (target = getCurrentMemoryNode c)); [| discriminate].
    intros [= <-]. cbn. rewrite app_nil_r. split; reflexivity.
  - intros [= <-]. cbn. rewrite app_nil_r. split; reflexivity.
Qed.

Lemma started_cons r roots : started (r :: roots) = started [r] ++ started roots.
Proof.
  unfold started. change (r :: roots) with ([r] ++ roots).
  rewrite filter_app, map_app. reflexivity.
Qed.

Lemma WorkflowBase_forEachRoot_run c o roots :
  forall calls fragments groups st',
    forEachRoot (startRoot c (copySteps o) (placeAddress o))
      (calls, fragments, groups) roots = Returns st' ->
    st'.1.1 = calls ++ map CallStepStart (started roots)
    /\ forall w,
         WorkflowBase_forEachRoot (WorkflowBase_startRoot c o)
           (fragments, groups) roots w
         = (performAll o (map CallStepStart (started roots)) ;;
            mret (st'.1.2, st'.2)) w.
Proof.
  induction roots as [| r roots IH]; intros calls fragments groups st' Hrun.
  - injection Hrun as <-. cbn. rewrite app_nil_r. split; reflexivity.
  - cbn [forEachRoot] in Hrun. unfold mbind, outcome_bind, Outcome.bind in Hrun.
    destruct (startRoot c (copySteps o) (placeAddress o)
                (calls, fragments, groups) r) as [[[calls1 f1] g1] | |] eqn:Hr;
      try discriminate.
    destruct (WorkflowBase_startRoot_run c o calls fragments groups r _ Hr)
      as [Hc1 Hw1]. cbn [fst snd] in Hc1, Hw1.
    destruct (IH calls1 f1 g1 st' Hrun) as [Hc Hw].
    rewrite started_cons, map_app. split.
    + rewrite Hc, Hc1, <- app_assoc. reflexivity.
    + intros w. cbn [WorkflowBase_forEachRoot].
      unfold mbind, W_bind in Hw1, Hw |- *. rewrite performAll_app.
      unfold mbind, W_bind. rewrite Hw1.
      destruct (performAll o (map CallStepStart (started [r])) w)
        as [[[] w1] | |]; [| reflexivity ..].
      cbn [mret W_ret]. apply Hw.
Qed.

Lemma WorkflowBase_startRoot_ok c o st x :
  ~ fetchesElsewhere c (copySteps o) x ->
  exists st1, forall w,
    WorkflowBase_startRoot c o st x w
    = (performAll o (map CallStepStart (started [x])) ;; mret st1) w.
Proof.
  intros Hok. destruct st as [f g]. destruct x as [id s].
  assert (started [(id, s)] = if isClusterDataCopyStep s then [] else [id]) as ->
    by exact (started_snoc [] (id, s)).
  unfold WorkflowBase_startRoot.
  destruct s as [| source target region | | | | | |];
    try (exists (f, g); intros w; cbn; unfold mbind, W_bind;
         destruct (stepStart o id w) as [[[] w1] | |]; reflexivity).
  destruct (requiresDataFetch (copySteps o) id) eqn:Hq.
  - destruct (decide (target = getCurrentMemoryNode c)) as [Ht | Ht].
    + rewrite bool_decide_eq_true_2 by exact Ht. eexists. intros w. reflexivity.
    + exfalso. apply Hok. exists source, target, region. cbn [fst snd]. auto.
  - exists (f, g). intros w. reflexivity.
Qed.

(** The loop stops at the first root that fetches to another node, with
    the steps before it started. *)
Lemma WorkflowBase_forEachRoot_fails c o pre r post :
  Forall (fun x => ~ fetchesElsewhere c (copySteps o) x) pre ->
  fetchesElsewhere c (copySteps o) r ->
  forall st w,
    WorkflowBase_forEachRoot (WorkflowBase_startRoot c o) st (pre ++ r :: post) w
    = (performAll o (map CallStepStart (started pre)) ;;
       liftO (AssertionFails
                "clusterCopy->getTargetMemoryPlace() == ClusterManager::getCurrentMemoryNode()"))
        w.
Proof.
  intros Hpre Hbad. induction Hpre as [| x pre Hx Hpre IH]; intros st w.
  - cbn [app WorkflowBase_forEachRoot]. destruct st as [f g]. destruct r as [id s].
    destruct Hbad as (source & target & region & Hs & Hq & Hne).
    cbn [fst snd] in Hs, Hq. subst s.
    unfold WorkflowBase_startRoot. rewrite Hq.
    rewrite bool_decide_eq_false_2 by exact Hne. reflexivity.
  - cbn [app WorkflowBase_forEachRoot]. rewrite started_cons, map_app.
    destruct (WorkflowBase_startRoot_ok c o st x Hx) as [st1 Hst1].
    unfold mbind, W_bind in Hst1, IH |- *. rewrite Hst1, performAll_app.
    unfold mbind, W_bind.
    destruct (performAll o (map CallStepStart (started [x])) w)
      as [[[] w1] | |]; [| reflexivity ..].
    cbn [mret W_ret]. apply IH.
Qed.

(** The first root that fetches to another node. *)
Lemma first_fetchesElsewhere c q (roots : list (nat * Step)) :
  Exists (fetchesElsewhere c q) roots ->
  exists pre r post,
    roots = pre ++ r :: post
    /\ Forall (fun x => ~ fetchesElsewhere c q x) pre
    /\ fetchesElsewhere c q r.
Proof.
  induction roots as [| x roots IH]; intros Hex; [inversion Hex |].
  destruct (decide (fetchesElsewhere c q x)) as [Hx | Hx].
  - exists [], x, roots. split; [reflexivity |]. split; [constructor | exact Hx].
  - apply Exists_cons in Hex. destruct Hex as [Hex | Hex]; [contradiction |].
    destruct (IH Hex) as (pre & r & post & -> & Hpre & Hr).
    exists (x :: pre), r, post. split; [reflexivity |].
    split; [constructor; assumption | exact Hr].
Qed.

Lemma WorkflowBase_start_run c o roots calls :
  start c (copySteps o) (placeAddress o) roots = Returns calls ->
  forall w, WorkflowBase_start c o roots w = performAll o calls w.
Proof.
  unfold start. unfold mbind at 1, outcome_bind at 1, Outcome.bind at 1.
  destruct (forEachRoot _ _ roots) as [[[calls1 f1] g1] | |] eqn:Hrun;
    try discriminate.
  intros [= <-] w.
  destruct (WorkflowBase_forEachRoot_run c o roots [] [] [] _ Hrun) as [Hc Hw].
  cbn [fst snd app] in Hc, Hw. subst calls1.
  unfold WorkflowBase_start. rewrite performAll_app.
  unfold mbind, W_bind in Hw |- *. rewrite Hw.
  destruct (performAll o (map CallStepStart (started roots)) w)
    as [[[] w1] | |]; [| reflexivity ..].
  cbn [mret W_ret]. apply WorkflowBase_forEachGroup_run.
Qed.

Lemma WorkflowBase_start_stops c o pre r post :
  Forall (fun x => ~ fetchesElsewhere c (copySteps o) x) pre ->
  fetchesElsewhere c (copySteps o) r ->
  forall w,
    WorkflowBase_start c o (pre ++ r :: post) w
    = (performAll o (map CallStepStart (started pre)) ;;
       liftO (AssertionFails
                "clusterCopy->getTargetMemoryPlace() == ClusterManager::getCurrentMemoryNode()"))
        w.
Proof.
  intros Hpre Hr w. unfold WorkflowBase_start.
  unfold mbind at 1, W_bind at 1.
  rewrite (WorkflowBase_forEachRoot_fails c o pre r post Hpre Hr).
  unfold mbind, W_bind.
  destruct (performAll o (map CallStepStart (started pre)) w)
    as [[[] w1] | |]; reflexivity.
Qed.

(** With step code that returns, [start] returns unless a root fetches
    to another node. *)
Lemma WorkflowBase_start_outcome c o roots w :
  stepCodeReturns o ->
  (Forall (fun x => ~ fetchesElsewhere c (copySteps o) x) roots
   /\ exists w', WorkflowBase_start c o roots w = Returns (tt, w'))
  \/ (Exists (fetchesElsewhere c (copySteps o)) roots
      /\ WorkflowBase_start c o roots w
         = AssertionFails
             "clusterCopy->getTargetMemoryPlace() == ClusterManager::getCurrentMemoryNode()").
Proof.
  intros Hret.
  destruct (decide (Exists (fetchesElsewhere c (copySteps o)) roots)) as [Hex | Hall].
  - right. split; [exact Hex |].
    destruct (first_fetchesElsewhere c _ roots Hex) as (pre & r & post & -> & Hpre & Hr).
    rewrite (WorkflowBase_start_stops c o pre r post Hpre Hr).
    unfold mbind, W_bind.
    destruct (performAll_returns o (map CallStepStart (started pre)) Hret w)
      as [w1 ->]. reflexivity.
  - left.
    assert (Forall (fun x => ~ fetchesElsewhere c (copySteps o) x) roots) as Hok
      by (apply (not_Exists_Forall (fetchesElsewhere c (copySteps o))); exact Hall).
    split; [exact Hok |].
    destruct (start_run c (copySteps o) (placeAddress o) roots Hok)
      as (groups & Hcalls & _).
    rewrite (WorkflowBase_start_run c o roots _ Hcalls).
    apply performAll_returns, Hret.
Qed.


(** The four roots of the scenario, with the calls recorded. *)
Example WorkflowBase_start_four_roots :
  WorkflowBase_start Scenario.cluster Scenario.childrenDone fourRoots
    Scenario.emptyWorld
  = Returns (tt, {| trace := [EvStepStart 3; EvStepStart 0;
                              EvFetchVector 4 [4; 5] (Some Scenario.node1)];
                    liveWorkflows := []; allocations := 0 |}).
Proof. reflexivity. Qed.

Lemma elem_of_rootsOf g i s :
  (i, s) ∈ rootsOf g <-> i ∈ rootSteps g /\ steps g !! i = Some s.
Proof.
  unfold rootsOf. rewrite list_elem_of_omap. split.
  - intros (j & Hj & Hs). destruct (steps g !! j) as [s' |] eqn:E; [| discriminate].
    cbn in Hs. injection Hs as <- <-. auto.
  - intros [Hi Hs]. exists i. split; [exact Hi |]. rewrite Hs. reflexivity.
Qed.



(** [start] returns only if no root fetches to another node. *)
Lemma WorkflowBase_start_returns_inv c o roots w r :
  WorkflowBase_start c o roots w = Returns r ->
  Forall (fun x => ~ fetchesElsewhere c (copySteps o) x) roots.
Proof.
  intros Hrun.
  destruct (decide (Exists (fetchesElsewhere c (copySteps o)) roots)) as [Hex | Hall].
  - destruct (first_fetchesElsewhere c _ roots Hex) as (pre & x & post & -> & Hpre & Hx).
    rewrite (WorkflowBase_start_stops c o pre x post Hpre Hx) in Hrun.
    unfold mbind, W_bind in Hrun.
    destruct (performAll o (map CallStepStart (started pre)) w) as [[[] w1] | |];
      discriminate.
  - apply (not_Exists_Forall (fetchesElsewhere c (copySteps o))); exact Hall.
Qed.

Lemma copyStepOf_functional c tmp a r r' :
  copyStepOf c tmp a r -> copyStepOf c tmp a r' -> r = r'.
Proof.
  intros H H'.
  pose proof (H {| trace := []; liveWorkflows := []; allocations := 0 |}) as E.
  rewrite H' in E. injection E as ->. reflexivity.
Qed.

(** The roots of the workflow of a task that fetch to another node are
    the copy steps of its accesses that do. *)
Lemma first_call_roots_fetch c o tmp accesses res e n rel ord accs :
  Forall2 (copyStepOf c tmp) accesses res ->
  isClusterDataCopyStep e = false ->
  Exists (fetchesElsewhere c (copySteps o))
         (rootsOf {| steps := [e; n; rel] ++ map fst res;
                     order := ord;
                     rootSteps := seq 3 (length accesses)
                                  ++ (if length accesses =? 0 then [0] else []);
                     releaseAccesses := accs |})
  <-> exists i, accessFetchesElsewhere c o tmp accesses i.
Proof.
  intros Hres He. rewrite Exists_exists. split.
  - intros ([i s] & Hin & Hbad). apply elem_of_rootsOf in Hin.
    cbn [steps rootSteps] in Hin. destruct Hin as [Hi Hs].
    apply elem_of_app in Hi. destruct Hi as [Hi | Hi].
    + apply elem_of_seq in Hi.
      destruct i as [| [| [| j]]]; try lia.
      change (([e; n; rel] ++ map fst res) !! S (S (S j)))
        with ((fst <$> res) !! j) in Hs.
      rewrite list_lookup_fmap in Hs.
      destruct (res !! j) as [r |] eqn:Hr; [| discriminate].
      cbn in Hs. injection Hs as <-.
      destruct (Forall2_lookup_r _ _ _ _ _ Hres Hr) as (a & Ha & Hcopy).
      exists j, a, r. auto.
    + destruct (length accesses =? 0); [| inversion Hi].
      apply list_elem_of_singleton in Hi. subst i. cbn in Hs. injection Hs as <-.
      destruct Hbad as (source & target & region & Hk & _). cbn in Hk.
      rewrite Hk in He. discriminate.
  - intros (j & a & r' & Ha & Hcopy & Hbad).
    destruct (Forall2_lookup_l _ _ _ _ _ Hres Ha) as (r & Hr & Hcopy').
    rewrite (copyStepOf_functional c tmp a r' r Hcopy Hcopy') in Hbad.
    exists (3 + j, r.1). split; [| exact Hbad].
    apply elem_of_rootsOf. cbn [steps rootSteps]. split.
    + apply elem_of_app. left. apply elem_of_seq.
      apply lookup_lt_Some in Ha. lia.
    + change (([e; n; rel] ++ map fst res) !! (3 + j))
        with ((fst <$> res) !! j).
      rewrite list_lookup_fmap, Hr. reflexivity.
Qed.

Lemma createExecutionStep_no_copy task cp e :
  createExecutionStep task cp = Returns e -> isClusterDataCopyStep e = false.
Proof.
  unfold createExecutionStep.
  destruct (cp_type cp); try discriminate; intros [= <-]; reflexivity.
Qed.

(** How the first call of [executeTask] ends, once the accesses are
    visited. *)
Lemma executeTask_first_call_start c o thr task cp tmp w :
  getWorkflow task = None ->
  cp_type cp = nanos6_host_device \/ cp_type cp = nanos6_cluster_device ->
  Forall (visitReturns c o cp tmp) (getDataAccesses task) ->
  exists roots w1 r,
    executeTask c o thr task cp tmp w = andReturn (WorkflowBase_start c o roots w1) r
    /\ (Exists (fetchesElsewhere c (copySteps o)) roots
        <-> exists i, accessFetchesElsewhere c o tmp (getDataAccesses task) i).
Proof.
  intros Hwf Hdev Hall.
  destruct (executeTask_first_call_run c o thr task cp tmp w Hwf Hdev Hall)
    as (res & e & n & Hres & He & _ & _ & Hrun).
  eexists _, _, _. split; [exact Hrun |].
  apply first_call_roots_fetch; [exact Hres |].
  eapply createExecutionStep_no_copy, He.
Qed.

(** X6.  How the first call of [executeTask] for a task stops.  For a
    compute place that is neither of host nor of cluster kind it stops
    with the fatal error of [createExecutionStep], whatever the accesses;
    otherwise, at the first access the visitor does not get past, with
    what this access raises: the fatal error that names the region and
    the label of the task for an unknown region, else the assertion on
    the target memory place.  It returns only if the compute place is
    supported, the visitor gets past every access and no copy step is a
    cluster copy that requires a fetch to another node than the current
    one.  With step code that returns from every call, and past the
    accesses, it returns exactly then, and stops on the assertion of
    [start] exactly when some copy step requires such a fetch. *)
Theorem executeTask_first_call_stops :
  forall (c : Cluster) (o : Collaborators) (thr : option WorkerThread)
         (task : Task) (cp : ComputePlace) (tmp : option MemoryPlace) (w : World),
    getWorkflow task = None ->
    (cp_type cp <> nanos6_host_device -> cp_type cp <> nanos6_cluster_device ->
     executeTask c o thr task cp tmp w
     = FatalError "Execution workflow does not support this device yet")
    /\ (cp_type cp = nanos6_host_device \/ cp_type cp = nanos6_cluster_device ->
        forall pre a post,
          getDataAccesses task = pre ++ a :: post ->
          Forall (visitReturns c o cp tmp) pre ->
          ~ visitReturns c o cp tmp a ->
          executeTask c o thr task cp tmp w = visitError c o cp tmp a)
    /\ (forall r,
          executeTask c o thr task cp tmp w = Returns r ->
          (cp_type cp = nanos6_host_device \/ cp_type cp = nanos6_cluster_device)
          /\ Forall (visitReturns c o cp tmp) (getDataAccesses task)
          /\ forall i, ~ accessFetchesElsewhere c o tmp (getDataAccesses task) i)
    /\ (stepCodeReturns o ->
        cp_type cp = nanos6_host_device \/ cp_type cp = nanos6_cluster_device ->
        Forall (visitReturns c o cp tmp) (getDataAccesses task) ->
        ((exists r, executeTask c o thr task cp tmp w = Returns r)
         <-> forall i, ~ accessFetchesElsewhere c o tmp (getDataAccesses task) i)
        /\ (executeTask c o thr task cp tmp w
            = AssertionFails
                "clusterCopy->getTargetMemoryPlace() == ClusterManager::getCurrentMemoryNode()"
            <-> exists i, accessFetchesElsewhere c o tmp (getDataAccesses task) i)
        /\ forall msg, executeTask c o thr task cp tmp w <> FatalError msg).
Proof.
  intros c o thr task cp tmp w Hwf.
  split; [| split; [| split]].
  - intros H1 H2. unfold executeTask. rewrite Hwf.
    unfold mbind at 1, W_bind at 1, newWorkflow.
    unfold mbind at 1, W_bind at 1. unfold createExecutionStep.
    destruct (cp_type cp); try congruence; reflexivity.
  - intros Hdev pre a post Hl Hpre Ha.
    destruct (first_call_steps_created (taskId task) cp
                (notificationCallback o (setMemoryPlace task tmp) tmp (allocations w))
                Hdev) as (e & n & He & Hn & _).
    rewrite (executeTask_first_call_unfold c o thr task cp tmp w e n Hwf He Hn).
    rewrite Hl, (processAllDataAccesses_stops c o cp tmp 0 pre a post Hpre Ha).
    unfold visitError.
    destruct (unknownRegion c o cp a); [reflexivity |].
    destruct (isDirectoryMemoryPlace c tmp); reflexivity.
  - intros r Hr.
    destruct (executeTask_first_call_returns_inv c o thr task cp tmp w r Hwf Hr)
      as [Hdev Hall].
    split; [exact Hdev |]. split; [exact Hall |].
    destruct (executeTask_first_call_start c o thr task cp tmp w Hwf Hdev Hall)
      as (roots & w1 & r1 & Hrun & Hroots).
    rewrite Hrun in Hr. unfold andReturn in Hr.
    destruct (WorkflowBase_start c o roots w1) as [[[] w2] | |] eqn:Hstart;
      try discriminate.
    pose proof (WorkflowBase_start_returns_inv c o roots w1 _ Hstart) as Hok.
    intros i Hi.
    assert (Exists (fetchesElsewhere c (copySteps o)) roots) as Hex
      by (apply Hroots; eauto).
    apply Exists_exists in Hex. destruct Hex as (x & Hin & Hx).
    rewrite Forall_forall in Hok. exact (Hok x Hin Hx).
  - intros Hret Hdev Hall.
    destruct (executeTask_first_call_start c o thr task cp tmp w Hwf Hdev Hall)
      as (roots & w1 & r1 & Hrun & Hroots).
    rewrite Hrun.
    destruct (WorkflowBase_start_outcome c o roots w1 Hret)
      as [[Hok [w' Hstart]] | [Hex Hstart]]; rewrite Hstart; cbn [andReturn].
    + assert (forall i, ~ accessFetchesElsewhere c o tmp (getDataAccesses task) i)
        as Hnone.
      { intros i Hi.
        assert (Exists (fetchesElsewhere c (copySteps o)) roots) as Hex
          by (apply Hroots; eauto).
        apply Exists_exists in Hex. destruct Hex as (x & Hin & Hx).
        rewrite Forall_forall in Hok. exact (Hok x Hin Hx). }
      split; [split; eauto |]. split; [| intros; discriminate].
      split; [discriminate |]. intros [i Hi]. exfalso. exact (Hnone i Hi).
    + apply Hroots in Hex.
      split; [| split; [tauto | intros; discriminate]].
      split; [intros [r H]; discriminate |].
      intros Hnone. exfalso. destruct Hex as [i Hi]. exact (Hnone i Hi).
Qed.

(** A task whose second access has a null target memory place. *)
Lemma executeTask_first_call_stops_witness :
  executeTask Scenario.cluster Scenario.childrenDone (Some Scenario.worker)
    (Scenario.freshTask [Scenario.reductionAccess;
                         Scenario.readAccess (Some Scenario.node1)])
    Scenario.cpu0 None Scenario.emptyWorld
  = AssertionFails "targetMemoryPlace != nullptr".
Proof.
  destruct (executeTask_first_call_stops Scenario.cluster Scenario.childrenDone
              (Some Scenario.worker)
              (Scenario.freshTask [Scenario.reductionAccess;
                                   Scenario.readAccess (Some Scenario.node1)])
              Scenario.cpu0 None Scenario.emptyWorld eq_refl) as (_ & H & _).
  apply (H (or_introl eq_refl) [Scenario.reductionAccess]
           (Scenario.readAccess (Some Scenario.node1)) []).
  - reflexivity.
  - constructor; [| constructor]. split; [reflexivity | left; reflexivity].
  - intros [_ [H1 | (tgt & H1 & _)]]; discriminate.
Defined.

(** A task with one read access whose data is on node 0, executed on
    node 0 with the memory of node 1 as its target: the copy step
    requires a fetch to node 1, and [start] stops on its assertion. *)
Example executeTask_fetch_to_another_node :
  executeTask Scenario.cluster Scenario.childrenDone (Some Scenario.worker)
    (Scenario.freshTask [Scenario.readAccess (Some Scenario.node0)])
    Scenario.cpu0 (Some Scenario.node1) Scenario.emptyWorld
  = AssertionFails
      "clusterCopy->getTargetMemoryPlace() == ClusterManager::getCurrentMemoryNode()".
Proof. reflexivity. Qed.



End StartFacts.


(** ** The leaf scheduler: conservation of tasks, [getTask], [disable] *)

Section LeafPollingFacts.
Import TreeScheduler LeafPolling.
Context {Q : Type} `{!TreeSchedulerQueueInterface Q}.

Lemma handleQueueOverflow_conserves threshold (q q' : Q) parent parent' :
  handleQueueOverflow threshold q parent = (q', parent') ->
  tasksOf q' ++ concat parent' ≡ₚ tasksOf q ++ concat parent.
Proof.
  unfold handleQueueOverflow. cbv zeta.
  set (th := if bool_decide (threshold / 2 = 0) then 1 else threshold / 2).
  clearbody th.
  destruct (getTaskBatch q th) as [batch q''] eqn:Ebatch.
  pose proof (getTaskBatch_spec q th) as [Hp _].
  rewrite Ebatch in Hp. cbn [fst snd] in Hp.
  case_bool_decide as Hlen; intros [= <- <-].
  - rewrite concat_app. cbn [concat]. rewrite app_nil_r, <- Hp.
    rewrite (Permutation_app_comm batch), <- !app_assoc.
    apply Permutation_app_head, Permutation_app_comm.
  - destruct batch; [| cbn in Hlen; lia]. cbn [app] in Hp. rewrite Hp.
    reflexivity.
Qed.

Lemma enqueue_conserves (l : LeafScheduler Q) task hint q' parent' :
  enqueue l task hint = (q', parent') ->
  tasksOf q' ++ concat parent'
  ≡ₚ tasksOf (_queue l) ++ concat (parentBatches l) ++ [task].
Proof.
  unfold enqueue.
  destruct (addTask (_queue l) task hint) as [elements q] eqn:Eadd.
  pose proof (addTask_spec (_queue l) task hint) as [Hperm _].
  rewrite Eadd in Hperm. cbn [snd] in Hperm.
  assert (tasksOf q ++ concat (parentBatches l)
          ≡ₚ tasksOf (_queue l) ++ concat (parentBatches l) ++ [task]) as Hq.
  { rewrite Hperm, <- !app_assoc. apply Permutation_app_head, Permutation_app_comm. }
  case_bool_decide.
  - intros Hover. rewrite (handleQueueOverflow_conserves _ _ _ _ _ Hover). exact Hq.
  - intros [= <- <-]. exact Hq.
Qed.

Ltac leaf_side :=
  repeat split; intros; try discriminate; try congruence; try lia;
  try (exfalso; lia); try tauto; auto;
  try (exfalso; intuition discriminate).

(** X14.  [addTask] stops on its assertion exactly when it is called from the
    leaf's own CPU while the leaf is marked idle.  Otherwise it returns,
    and the task has been added to the tasks that the leaf holds or has
    handed to its parent: none is lost and none is duplicated.  The CPU is
    woken exactly when the task went into the polling slot of an idle
    leaf, and the rebalance flag is cleared. *)
Theorem leafAddTask_conserves_tasks :
  forall (l : LeafScheduler Q) (task : Task) (hasComputePlace : bool)
         (hint : ReadyTaskHint),
    (leafAddTask l task hasComputePlace hint = AssertionFails "!_idle"
     <-> hasComputePlace = true /\ _idle l = true)
    /\ (~ (hasComputePlace = true /\ _idle l = true) ->
        exists l',
          leafAddTask l task hasComputePlace hint = Returns l'
          /\ allTasks l' ≡ₚ allTasks l ++ [task]
          /\ _rebalance l' = false
          /\ _idle l' = _idle l
          /\ _queueThreshold l' = _queueThreshold l
          /\ (resumeIdleCalls l' = S (resumeIdleCalls l)
              <-> hasComputePlace = false /\ _pollingSlot l = None
                  /\ _idle l = true)
          /\ (resumeIdleCalls l' = resumeIdleCalls l
              \/ resumeIdleCalls l' = S (resumeIdleCalls l))
          /\ (hasComputePlace = false -> _pollingSlot l = None ->
              _pollingSlot l' = Some task /\ _queue l' = _queue l
              /\ parentBatches l' = parentBatches l)).
Proof.
  intros l task hasComputePlace hint. unfold leafAddTask, allTasks, heldTasks.
  destruct hasComputePlace.
  - destruct (_idle l) eqn:Hidle; cbn.
    + split; [tauto |]. intros H. exfalso. apply H. auto.
    + destruct (enqueue l task hint) as [q parent] eqn:E.
      split; [split; [discriminate | intros [_ H]; discriminate] |].
      intros _. eexists. split; [reflexivity |]. cbn.
      split; [| leaf_side].
      rewrite <- !app_assoc. apply Permutation_app_head.
      apply (enqueue_conserves _ _ _ _ _ E).
  - destruct (_pollingSlot l) as [t |] eqn:Hslot; cbn.
    + destruct (enqueue l task hint) as [q parent] eqn:E.
      split; [split; [discriminate | intros [H _]; discriminate] |].
      intros _. eexists. split; [reflexivity |]. cbn.
      split; [| leaf_side].
      apply Permutation_skip. rewrite <- !app_assoc.
      apply (enqueue_conserves _ _ _ _ _ E).
    + split; [split; [discriminate | intros [H _]; discriminate] |].
      intros _. eexists. split; [reflexivity |]. cbn.
      split.
      { apply Permutation_cons_append. }
      destruct (_idle l); leaf_side.
Qed.

Lemma leafAddTaskBatch_run (l : LeafScheduler Q) (taskBatch : list Task) :
  taskBatch <> [] ->
  exists l',
    leafAddTaskBatch l true taskBatch = Returns l'
    /\ heldTasks l' ≡ₚ heldTasks l ++ taskBatch
    /\ parentBatches l' = parentBatches l
    /\ _idle l' = _idle l
    /\ _rebalance l' = _rebalance l
    /\ _queueThreshold l' = _queueThreshold l
    /\ (_pollingSlot l = None -> _pollingSlot l' = last taskBatch)
    /\ (_pollingSlot l <> None ->
        _pollingSlot l' = _pollingSlot l
        /\ tasksOf (_queue l') ≡ₚ tasksOf (_queue l) ++ taskBatch
        /\ resumeIdleCalls l' = resumeIdleCalls l).
Proof.
  intros Hne. destruct (exists_last Hne) as (front & tail & ->).
  unfold leafAddTaskBatch, heldTasks.
  rewrite bool_decide_eq_true_2 by (rewrite length_app; cbn; lia).
  cbn [assert]. unfold mbind at 1, outcome_bind at 1, Outcome.bind at 1.
  cbn [assert]. unfold mbind at 1, outcome_bind at 1, Outcome.bind at 1.
  rewrite last_snoc.
  destruct (_pollingSlot l) as [t |] eqn:Hslot; cbn [setTask].
  - eexists. split; [reflexivity |]. cbn.
    split; [apply Permutation_skip, addTaskBatch_spec |].
    repeat split; try congruence. apply addTaskBatch_spec.
  - eexists. split; [reflexivity |]. cbn. rewrite removelast_last.
    split.
    { rewrite addTaskBatch_spec, app_assoc. apply Permutation_cons_append. }
    repeat split; try congruence.
Qed.

(** X15.  [addTaskBatch] stops on its first assertion exactly for an empty
    batch and on its second exactly for a batch that is not empty and
    does not come from the parent.  Otherwise it returns with the tasks of
    the batch added to those the leaf holds; whatever the threshold, it
    hands nothing up to the parent; and when the polling slot is taken,
    the whole batch goes to the queue and the CPU is not woken. *)
Theorem leafAddTaskBatch_conserves_tasks :
  forall (l : LeafScheduler Q) (whoIsParent : bool) (taskBatch : list Task),
    (leafAddTaskBatch l whoIsParent taskBatch
       = AssertionFails "taskBatch.size() > 0"
     <-> taskBatch = [])
    /\ (leafAddTaskBatch l whoIsParent taskBatch = AssertionFails "who == _parent"
        <-> taskBatch <> [] /\ whoIsParent = false)
    /\ (taskBatch <> [] -> whoIsParent = true ->
        exists l',
          leafAddTaskBatch l whoIsParent taskBatch = Returns l'
          /\ heldTasks l' ≡ₚ heldTasks l ++ taskBatch
          /\ parentBatches l' = parentBatches l
          /\ (_pollingSlot l <> None ->
              _pollingSlot l' = _pollingSlot l
              /\ tasksOf (_queue l') ≡ₚ tasksOf (_queue l) ++ taskBatch
              /\ resumeIdleCalls l' = resumeIdleCalls l)).
Proof.
  intros l whoIsParent taskBatch.
  destruct taskBatch as [| x rest] eqn:Hb.
  - cbn. split; [tauto |]. split; [| intros H; congruence].
    split; [discriminate | intros [H _]; congruence].
  - rewrite <- Hb. assert (taskBatch <> []) as Hne by (subst; discriminate).
    clear Hb. destruct whoIsParent.
    + destruct (leafAddTaskBatch_run l taskBatch Hne)
        as (l' & Hrun & Hheld & Hparent & _ & _ & _ & _ & Hfull).
      rewrite Hrun. split; [split; [discriminate | contradiction] |].
      split; [split; [discriminate | intros [_ H]; discriminate] |].
      intros _ _. exists l'. auto.
    + assert (leafAddTaskBatch l false taskBatch = AssertionFails "who == _parent")
        as Hrun.
      { unfold leafAddTaskBatch.
        rewrite bool_decide_eq_true_2
          by (destruct taskBatch; [congruence | cbn; lia]).
        reflexivity. }
      rewrite Hrun. split; [split; [discriminate | contradiction] |].
      split; [tauto |]. intros _ H. discriminate.
Qed.

Context `{!TreeSchedulerQueueGetTask Q}.

Lemma applyParentOps_keeps_slot (ops : list ParentOp) :
  forall (l l' : LeafScheduler Q) t,
    applyParentOps l ops = Returns l' ->
    _pollingSlot l = Some t -> _pollingSlot l' = Some t.
Proof.
  induction ops as [| op ops IH]; intros l l' t Hrun Hs.
  - injection Hrun as <-. exact Hs.
  - cbn [applyParentOps] in Hrun.
    unfold mbind, outcome_bind, Outcome.bind in Hrun.
    destruct (applyParentOp l op) as [l1 | |] eqn:Hop; try discriminate.
    apply (IH _ _ _ Hrun). destruct op as [b | n]; cbn [applyParentOp] in Hop.
    + destruct b as [| x b]; [discriminate Hop |].
      destruct (leafAddTaskBatch_run l (x :: b))
        as (l1' & Hrun1 & _ & _ & _ & _ & _ & _ & Hfull); [discriminate |].
      rewrite Hrun1 in Hop. injection Hop as <-.
      destruct Hfull as [-> _]; congruence.
    + injection Hop as <-. exact Hs.
Qed.

Lemma applyParentOps_run (ops : list ParentOp) :
  forall (l l' : LeafScheduler Q),
    applyParentOps l ops = Returns l' ->
    heldTasks l' ≡ₚ heldTasks l ++ delivered ops
    /\ parentBatches l' = parentBatches l
    /\ _idle l' = _idle l
    /\ (delivered ops = [] -> _pollingSlot l' = _pollingSlot l)
    /\ (_pollingSlot l = None -> delivered ops <> [] -> _pollingSlot l' <> None).
Proof.
  induction ops as [| op ops IH]; intros l l' Hrun.
  - injection Hrun as <-. unfold delivered. cbn.
    rewrite app_nil_r. repeat split; try reflexivity; congruence.
  - cbn [applyParentOps] in Hrun.
    unfold mbind, outcome_bind, Outcome.bind in Hrun.
    destruct (applyParentOp l op) as [l1 | |] eqn:Hop; try discriminate.
    destruct (IH _ _ Hrun) as (Hheld & Hparent & Hidle & Hnone & Hsome).
    destruct op as [b | n]; cbn [applyParentOp] in Hop.
    + destruct b as [| x b]; [discriminate Hop |].
      destruct (leafAddTaskBatch_run l (x :: b)) as (l1' & Hrun1 & Hheld1 & Hparent1
        & Hidle1 & _ & _ & Hslot1 & Hfull1); [discriminate |].
      rewrite Hrun1 in Hop. injection Hop as <-.
      unfold delivered in *. cbn [map concat].
      split; [rewrite Hheld, Hheld1, <- app_assoc; reflexivity |].
      split; [congruence |]. split; [congruence |].
      split; [discriminate |]. intros Hslot _.
      destruct (exists_last (l := x :: b)) as (front & tail & Hb); [discriminate |].
      assert (_pollingSlot l1' = Some tail) as Hs1
        by (rewrite (Hslot1 Hslot), Hb, last_snoc; reflexivity).
      rewrite (applyParentOps_keeps_slot _ _ _ _ Hrun Hs1). discriminate.
    + injection Hop as <-. unfold delivered in *. cbn [map concat app].
      unfold heldTasks in *. cbn in *. auto.
Qed.

(** *** What the other threads do *)

Lemma leafAddTask_other (l : LeafScheduler Q) task hint :
  exists l',
    leafAddTask l task false hint = Returns l'
    /\ allTasks l' ≡ₚ allTasks l ++ [task]
    /\ _idle l' = _idle l
    /\ (forall t, _pollingSlot l = Some t -> _pollingSlot l' = Some t).
Proof.
  unfold leafAddTask, allTasks, heldTasks.
  destruct (_pollingSlot l) as [t |] eqn:Hslot; cbn.
  - destruct (enqueue l task hint) as [q parent] eqn:E.
    eexists. split; [reflexivity |]. cbn.
    split; [| split; [reflexivity | intros t' [= <-]; reflexivity]].
    apply Permutation_skip. rewrite <- !app_assoc.
    apply (enqueue_conserves _ _ _ _ _ E).
  - eexists. split; [reflexivity |]. cbn.
    split; [apply Permutation_cons_append |]. split; [reflexivity | discriminate].
Qed.

Lemma applyOtherOp_run (l l' : LeafScheduler Q) op :
  applyOtherOp l op = Returns l' ->
  allTasks l' ≡ₚ allTasks l ++ brought [op]
  /\ _idle l' = _idle l
  /\ (forall t, _pollingSlot l = Some t -> _pollingSlot l' = Some t).
Proof.
  destruct op as [[b | n] | task hint]; cbn [applyOtherOp applyParentOp]; intros Hop.
  - destruct b as [| x b]; [discriminate Hop |].
    destruct (leafAddTaskBatch_run l (x :: b))
      as (l1 & Hrun & Hheld & Hparent & Hidle & _ & _ & _ & Hfull); [discriminate |].
    rewrite Hrun in Hop. injection Hop as <-.
    unfold brought. cbn [map concat]. rewrite app_nil_r.
    split; [| split; [exact Hidle |]].
    + unfold allTasks. rewrite Hheld, Hparent, <- !app_assoc.
      apply Permutation_app_head, Permutation_app_comm.
    + intros t Ht. destruct Hfull as [-> _]; congruence.
  - injection Hop as <-. unfold brought, allTasks, heldTasks. cbn.
    rewrite app_nil_r. auto.
  - destruct (leafAddTask_other l task hint) as (l1 & Hrun & Hall & Hidle & Hslot).
    rewrite Hrun in Hop. injection Hop as <-. unfold brought. cbn. auto.
Qed.

Lemma brought_cons op ops : brought (op :: ops) = brought [op] ++ brought ops.
Proof. unfold brought. cbn [map concat]. rewrite app_nil_r. reflexivity. Qed.

Lemma applyOtherOps_run (ops : list OtherOp) :
  forall (l l' : LeafScheduler Q),
    applyOtherOps l ops = Returns l' ->
    allTasks l' ≡ₚ allTasks l ++ brought ops
    /\ _idle l' = _idle l
    /\ (forall t, _pollingSlot l = Some t -> _pollingSlot l' = Some t).
Proof.
  induction ops as [| op ops IH]; intros l l' Hrun.
  - injection Hrun as <-. unfold brought. cbn. rewrite app_nil_r. auto.
  - cbn [applyOtherOps] in Hrun.
    unfold mbind, outcome_bind, Outcome.bind in Hrun.
    destruct (applyOtherOp l op) as [l1 | |] eqn:Hop; try discriminate.
    destruct (applyOtherOp_run l l1 op Hop) as (Hall1 & Hidle1 & Hslot1).
    destruct (IH l1 l' Hrun) as (Hall & Hidle & Hslot).
    rewrite brought_cons, app_assoc, <- Hall1.
    split; [exact Hall |]. split; [congruence |].
    intros t Ht. apply Hslot, Hslot1, Ht.
Qed.

(** One look at the slot takes what is in it and loses nothing. *)
Lemma allTasks_take_slot (l : LeafScheduler Q) :
  option_list (_pollingSlot l) ++ allTasks (setPollingSlot l None) = allTasks l.
Proof. unfold allTasks, heldTasks. cbn. rewrite app_assoc. reflexivity. Qed.

Lemma pollSlot_run (ops : list OtherOp) (l l' : LeafScheduler Q) task :
  pollSlot ops l = Returns (task, l') ->
  option_list task ++ allTasks l' ≡ₚ allTasks l ++ brought ops
  /\ _idle l' = _idle l
  /\ _pollingSlot l' = None
  /\ (forall t, _pollingSlot l = Some t -> task = Some t).
Proof.
  unfold pollSlot, mbind, outcome_bind, Outcome.bind.
  destruct (applyOtherOps l ops) as [l1 | |] eqn:Hops; try discriminate.
  destruct (applyOtherOps_run ops l l1 Hops) as (Hall & Hidle & Hslot).
  cbn [slotGetTask]. intros [= <- <-].
  rewrite allTasks_take_slot.
  split; [exact Hall |]. split; [exact Hidle |]. split; [reflexivity |].
  exact Hslot.
Qed.

Lemma pollSlot_quiet (l : LeafScheduler Q) :
  pollSlot [] l = Returns (_pollingSlot l, setPollingSlot l None).
Proof. reflexivity. Qed.

(** *** The polling loop *)

Lemma arrivedFrom_S others from n :
  arrivedFrom others from (S n)
  = brought (others from) ++ arrivedFrom others (S from) n.
Proof. reflexivity. Qed.

Lemma arrivedFrom_snoc others from n :
  arrivedFrom others from (S n)
  = arrivedFrom others from n ++ brought (others (from + n)).
Proof.
  unfold arrivedFrom. rewrite seq_S, map_app, concat_app. cbn.
  rewrite app_nil_r. reflexivity.
Qed.

Lemma poll_run fuel _pollingIterations others :
  forall polls iterations (l l' : LeafScheduler Q) task polls',
    poll fuel _pollingIterations others polls iterations l
    = Some (Returns (task, l', polls')) ->
    exists n,
      polls' = polls + n
      /\ option_list task ++ allTasks l'
         ≡ₚ allTasks l ++ arrivedFrom others polls n
      /\ _idle l' = _idle l
      /\ (task <> None -> _pollingSlot l' = None).
Proof.
  induction fuel as [| fuel IH]; intros polls iterations l l' task polls' Hrun;
    cbn [poll] in Hrun;
    destruct (iterations <? _pollingIterations)%N.
  - discriminate.
  - injection Hrun as <- <- <-. exists 0. rewrite Nat.add_0_r.
    unfold arrivedFrom. cbn. rewrite app_nil_r.
    repeat split; try reflexivity. intros H. congruence.
  - destruct (pollSlot (others polls) l) as [[[t |] l1] | |] eqn:Hpoll;
      try discriminate.
    + injection Hrun as <- <- <-.
      destruct (pollSlot_run _ _ _ _ Hpoll) as (Hall & Hidle & Hslot & _).
      exists 1. rewrite Nat.add_1_r. split; [reflexivity |].
      rewrite arrivedFrom_S. unfold arrivedFrom at 1. cbn [seq map concat].
      rewrite app_nil_r. auto.
    + destruct (pollSlot_run _ _ _ _ Hpoll) as (Hall & Hidle & Hslot & _).
      destruct (IH _ _ _ _ _ _ Hrun) as (n & -> & Hall' & Hidle' & Hslot').
      exists (S n). split; [lia |].
      rewrite arrivedFrom_S, app_assoc, <- Hall. cbn [option_list app].
      split; [exact Hall' |]. split; [congruence | exact Hslot'].
  - injection Hrun as <- <- <-. exists 0. rewrite Nat.add_0_r.
    unfold arrivedFrom. cbn. rewrite app_nil_r.
    repeat split; try reflexivity. intros H. congruence.
Qed.

(** With fewer than [2 ^ 32] iterations asked for, the loop ends. *)
Lemma poll_ends fuel _pollingIterations others :
  (_pollingIterations < 2 ^ 32)%N ->
  forall polls iterations (l : LeafScheduler Q),
    (iterations <= _pollingIterations)%N ->
    N.to_nat (_pollingIterations - iterations) <= fuel ->
    exists r, poll fuel _pollingIterations others polls iterations l = Some r.
Proof.
  intros Hsmall. induction fuel as [| fuel IH]; intros polls iterations l Hle Hfuel;
    cbn [poll]; destruct (iterations <? _pollingIterations)%N eqn:Hlt;
    try (eexists; reflexivity).
  - apply N.ltb_lt in Hlt. lia.
  - apply N.ltb_lt in Hlt.
    destruct (pollSlot (others polls) l) as [[[t |] l1] | |];
      try (eexists; reflexivity).
    assert (incr iterations = (iterations + 1)%N) as ->
      by (unfold incr; apply N.mod_small; lia).
    apply IH; lia.
Qed.

(** With [2 ^ 32] iterations or more asked for, the counter never reaches
    the bound: the loop goes on for as long as no task comes. *)
Lemma incr_lt iterations : (incr iterations < 2 ^ 32)%N.
Proof. unfold incr. apply N.mod_lt. discriminate. Qed.

Lemma poll_never fuel _pollingIterations others :
  (2 ^ 32 <= _pollingIterations)%N ->
  (forall k, brought (others k) = [] /\ forall (l : LeafScheduler Q),
               _pollingSlot l = None ->
               exists l', applyOtherOps l (others k) = Returns l'
                          /\ _pollingSlot l' = None) ->
  forall polls iterations (l : LeafScheduler Q),
    (iterations < 2 ^ 32)%N ->
    _pollingSlot l = None ->
    poll fuel _pollingIterations others polls iterations l = None.
Proof.
  intros Hbig Hquiet. induction fuel as [| fuel IH]; intros polls iterations l Hit Hslot;
    cbn [poll];
    (assert ((iterations <? _pollingIterations)%N = true) as ->
       by (apply N.ltb_lt; lia)); [reflexivity |].
  destruct (Hquiet polls) as [_ Hops]. destruct (Hops l Hslot) as (l1 & Hl1 & Hs1).
  unfold pollSlot, mbind, outcome_bind, Outcome.bind. rewrite Hl1.
  cbn [slotGetTask]. rewrite Hs1. apply IH; [apply incr_lt | reflexivity].
Qed.

(** Without other threads, the loop changes nothing that the check after
    it would not do. *)
Lemma afterPolling_quiet others calls (l : LeafScheduler Q) polls :
  (forall k, others k = []) ->
  _pollingSlot l = None ->
  afterPolling others calls (None, setPollingSlot l None, polls)
  = afterPolling others calls (None, l, 0).
Proof.
  intros Hquiet Hslot. unfold afterPolling. rewrite !Hquiet, !pollSlot_quiet.
  unfold mbind, outcome_bind, Outcome.bind. cbn. rewrite Hslot. reflexivity.
Qed.

Lemma afterPolling_polls others calls (l : LeafScheduler Q) polls :
  (forall k, others k = []) ->
  afterPolling others calls (None, l, polls) = afterPolling others calls (None, l, 0).
Proof. intros Hquiet. unfold afterPolling. rewrite !Hquiet. reflexivity. Qed.

Lemma poll_quiet fuel _pollingIterations others calls :
  (forall k, others k = []) ->
  forall polls iterations (l : LeafScheduler Q) r,
    poll fuel _pollingIterations others polls iterations l = Some r ->
    r ≫= afterPolling others calls = afterPolling others calls (None, l, 0).
Proof.
  intros Hquiet. induction fuel as [| fuel IH]; intros polls iterations l r Hrun;
    cbn [poll] in Hrun;
    destruct (iterations <? _pollingIterations)%N;
    try discriminate;
    try (injection Hrun as <-; apply afterPolling_polls, Hquiet).
  rewrite Hquiet, pollSlot_quiet in Hrun.
  destruct (_pollingSlot l) as [t |] eqn:Hslot.
  - injection Hrun as <-. unfold afterPolling, mbind, outcome_bind, Outcome.bind.
    rewrite Hquiet, pollSlot_quiet, Hslot. reflexivity.
  - rewrite (IH _ _ _ _ Hrun).
    apply afterPolling_quiet; assumption.
Qed.

(** X16.  A leaf that holds a task serves [getTask] itself: the call returns a
    task that the leaf held, the one in the polling slot if there is one,
    without asking the parent, and the leaf is left not idle, with an
    empty polling slot and the rebalance flag cleared.  No task is lost.
    A batch is handed up only when the task came from the queue, the
    rebalance flag was set and the queue is left with more than one and a
    half times the threshold.  The call does not reach the polling loop:
    it ends whatever the number of iterations asked for, and whatever the
    other threads would do while it polls. *)
Theorem leafGetTask_serves_held_tasks :
  forall (fuel : nat) (_pollingIterations : N) (parent : list ParentOp)
         (others : nat -> list OtherOp) (l : LeafScheduler Q) (doWait : bool),
    heldTasks l <> [] ->
    exists t l',
      leafGetTask fuel _pollingIterations parent others l doWait
      = Some (Returns (Some t, l', if _idle l then [UnidleCPU] else []))
      /\ t ∈ heldTasks l
      /\ (forall t', _pollingSlot l = Some t' ->
                     t = t' /\ _queue l' = _queue l
                     /\ parentBatches l' = parentBatches l)
      /\ allTasks l ≡ₚ t :: allTasks l'
      /\ _pollingSlot l' = None
      /\ _idle l' = false
      /\ _rebalance l' = false
      /\ _queueThreshold l' = _queueThreshold l
      /\ (parentBatches l' <> parentBatches l ->
          _pollingSlot l = None /\ _rebalance l = true
          /\ 3 * _queueThreshold l < 2 * (getSize (_queue l) - 1)).
Proof.
  intros fuel iterations parent others l doWait Hheld.
  unfold leafGetTask, allTasks, heldTasks in *. cbn [slotGetTask].
  destruct (_pollingSlot l) as [t |] eqn:Hslot.
  - eexists t, _. split; [reflexivity |]. cbn.
    split; [left |]. split; [intros t' [= <-]; auto |].
    split; [reflexivity |]. leaf_side.
  - cbn [option_list app] in Hheld.
    pose proof (queueGetTask_spec (_queue l)) as Hspec.
    destruct (queueGetTask (_queue l)) as [[t |] q] eqn:Eq;
      [| destruct Hspec; contradiction].
    assert (getSize q = getSize (_queue l) - 1) as Hsize.
    { rewrite !getSize_spec, (Permutation_length Hspec). cbn. lia. }
    destruct (_rebalance l && bool_decide (3 * _queueThreshold l < 2 * getSize q))
      eqn:Hre.
    + destruct (handleQueueOverflow (_queueThreshold l) q (parentBatches l))
        as [q' parent'] eqn:Hover.
      eexists t, _. split; [reflexivity |]. cbn.
      split; [rewrite Hspec; left |]. split; [discriminate |].
      split.
      { rewrite (handleQueueOverflow_conserves _ _ _ _ _ Hover), Hspec.
        reflexivity. }
      apply andb_prop in Hre. destruct Hre as [Hre Hbig].
      apply bool_decide_eq_true in Hbig. rewrite Hsize in Hbig. leaf_side.
    + eexists t, _. split; [reflexivity |]. cbn.
      split; [rewrite Hspec; left |]. split; [discriminate |].
      split; [rewrite Hspec; reflexivity |]. leaf_side.
Qed.

(** *** A leaf without tasks *)

(** [getTask] of a leaf that holds no task, in closed form. *)
Lemma leafGetTask_empty fuel _pollingIterations parent others
    (l : LeafScheduler Q) doWait :
  heldTasks l = [] ->
  leafGetTask fuel _pollingIterations parent others l doWait
  = match applyParentOps (askingLeaf l) parent with
    | Returns l1 =>
      match (if doWait then poll fuel _pollingIterations others 0 0 l1
             else Some (pollOnce others l1)) with
      | Some polled => Some (polled ≫= afterPolling others (askingCalls l))
      | None => None
      end
    | AssertionFails what => Some (AssertionFails what)
    | FatalError msg => Some (FatalError msg)
    end.
Proof.
  intros Hheld. unfold heldTasks in Hheld. apply app_eq_nil in Hheld.
  destruct Hheld as [Hslot Hqueue].
  destruct (_pollingSlot l) as [t |] eqn:Es; [discriminate |]. clear Hslot.
  pose proof (queueGetTask_spec (_queue l)) as Hspec.
  unfold leafGetTask, askingLeaf, askingCalls. rewrite Es. cbn [slotGetTask].
  destruct (queueGetTask (_queue l)) as [[t |] q] eqn:Eq.
  - rewrite Hqueue in Hspec. apply Permutation_nil_cons in Hspec. contradiction.
  - destruct Hspec as [_ ->]. reflexivity.
Qed.

(** What the polling has seen when it ends, waiting or not. *)
Lemma polling_run fuel _pollingIterations others (l l' : LeafScheduler Q)
    (doWait : bool) task polls :
  (if doWait then poll fuel _pollingIterations others 0 0 l
   else Some (pollOnce others l)) = Some (Returns (task, l', polls)) ->
  option_list task ++ allTasks l' ≡ₚ allTasks l ++ arrived others polls
  /\ _idle l' = _idle l
  /\ (task <> None -> _pollingSlot l' = None).
Proof.
  destruct doWait.
  - intros Hrun. destruct (poll_run _ _ _ _ _ _ _ _ _ Hrun) as (n & -> & H).
    exact H.
  - unfold pollOnce, mbind, outcome_bind, Outcome.bind.
    destruct (pollSlot (others 0) l) as [[task1 l1] | |] eqn:Hpoll;
      try discriminate.
    intros [= <- <- <-].
    destruct (pollSlot_run _ _ _ _ Hpoll) as (Hall & Hidle & Hslot & _).
    unfold arrived, arrivedFrom. cbn [seq map concat]. rewrite app_nil_r. auto.
Qed.

Lemma arrived_S others polls :
  arrived others (S polls) = arrived others polls ++ brought (others polls).
Proof. exact (arrivedFrom_snoc others 0 polls). Qed.

(** How [getTask] ends once its polling has ended. *)
Lemma ending_run fuel _pollingIterations others calls (l l' : LeafScheduler Q)
    (doWait : bool) polled task calls' :
  (if doWait then poll fuel _pollingIterations others 0 0 l
   else Some (pollOnce others l)) = Some polled ->
  polled ≫= afterPolling others calls = Returns (task, l', calls') ->
  calls' = calls ++ (if task is Some _ then [] else [CpuBecomesIdle])
  /\ _idle l' = (if task is Some _ then _idle l else true)
  /\ _pollingSlot l' = None
  /\ exists polls,
       option_list task ++ allTasks l' ≡ₚ allTasks l ++ arrived others polls.
Proof.
  intros Hpolling Hend.
  destruct polled as [[[task1 l2] polls] | |]; try discriminate Hend.
  destruct (polling_run _ _ _ _ _ _ _ _ Hpolling) as (Hall & Hidle & Hslot).
  cbn [mbind outcome_bind Outcome.bind] in Hend. unfold afterPolling in Hend.
  destruct task1 as [t |].
  - injection Hend as <- <- <-. rewrite app_nil_r.
    split; [reflexivity |]. split; [exact Hidle |].
    split; [apply Hslot; discriminate |]. exists polls. exact Hall.
  - unfold mbind, outcome_bind, Outcome.bind in Hend.
    destruct (pollSlot (others polls) l2) as [[task2 l3] | |] eqn:Hpoll;
      try discriminate.
    destruct (pollSlot_run _ _ _ _ Hpoll) as (Hall3 & Hidle3 & Hslot3 & _).
    assert (option_list task2 ++ allTasks l3
            ≡ₚ allTasks l ++ arrived others (S polls)) as Hcons.
    { rewrite Hall3, arrived_S, app_assoc. cbn [option_list app] in Hall.
      rewrite Hall. reflexivity. }
    destruct task2 as [t |].
    + injection Hend as <- <- <-. rewrite app_nil_r.
      split; [reflexivity |]. split; [congruence |].
      split; [exact Hslot3 |]. exists (S polls). exact Hcons.
    + injection Hend as <- <- <-.
      split; [reflexivity |]. split; [reflexivity |].
      split; [exact Hslot3 |]. exists (S polls). exact Hcons.
Qed.

(** Without other threads, [getTask] ends in one way, if it ends. *)
Lemma ending_quiet fuel _pollingIterations others calls (l : LeafScheduler Q)
    (doWait : bool) polled :
  (forall k, others k = []) ->
  (if doWait then poll fuel _pollingIterations others 0 0 l
   else Some (pollOnce others l)) = Some polled ->
  polled ≫= afterPolling others calls = afterPolling others calls (None, l, 0).
Proof.
  intros Hquiet. destruct doWait.
  - apply poll_quiet, Hquiet.
  - intros [= <-]. unfold pollOnce. rewrite Hquiet, pollSlot_quiet.
    cbn [mbind outcome_bind Outcome.bind].
    destruct (_pollingSlot l) as [t |] eqn:Hslot.
    + unfold afterPolling, mbind, outcome_bind, Outcome.bind.
      rewrite Hquiet, pollSlot_quiet, Hslot. reflexivity.
    + apply afterPolling_quiet; assumption.
Qed.

(** A parent that only updates the threshold leaves the slot empty. *)
Lemma applyParentOps_thresholds (ops : list ParentOp) :
  Forall (fun op => exists n, op = ParentUpdatesThreshold n) ops ->
  forall l : LeafScheduler Q,
    exists l', applyParentOps l ops = Returns l' /\ _pollingSlot l' = _pollingSlot l.
Proof.
  induction 1 as [| op ops [n ->] _ IH]; intros l.
  - exists l. split; reflexivity.
  - cbn [applyParentOps applyParentOp].
    destruct (IH (updateQueueThreshold l n)) as (l' & Hrun & Hslot).
    exists l'. split; [exact Hrun |]. rewrite Hslot. reflexivity.
Qed.

(** X17.  A leaf that holds no task asks its parent, once, and then
    looks at its polling slot: once if the caller does not wait, else
    until a task is there or the counter of iterations has reached the
    number asked for.  The call ends when the caller does not wait or
    fewer than [2 ^ 32] iterations are asked for.  With [2 ^ 32]
    iterations or more the 32-bit counter never reaches the bound: if the
    caller waits, the parent hands nothing down and no other thread adds
    a task, the call does not return.  Whenever the call returns, the
    leaf is marked idle, with [cpuBecomesIdle] as its last call, exactly
    when it returns without a task; the polling slot is left empty; and
    the task returned and those the leaf holds or has handed up are the
    tasks handed up before, those the parent delivered and those the
    other threads brought while the leaf was polling.  Without other
    threads the leaf has taken a task exactly when the parent delivered
    one, nothing was handed up, and the result depends neither on
    whether the caller waits nor on the number of iterations. *)
Theorem leafGetTask_asks_parent :
  forall (fuel : nat) (_pollingIterations : N) (parent : list ParentOp)
         (others : nat -> list OtherOp) (l : LeafScheduler Q) (doWait : bool),
    heldTasks l = [] ->
    ((doWait = false \/ (_pollingIterations < 2 ^ 32)%N) ->
     N.to_nat _pollingIterations <= fuel ->
     exists r, leafGetTask fuel _pollingIterations parent others l doWait = Some r)
    /\ (doWait = true ->
        (2 ^ 32 <= _pollingIterations)%N ->
        Forall (fun op => exists n, op = ParentUpdatesThreshold n) parent ->
        (forall k, others k = []) ->
        leafGetTask fuel _pollingIterations parent others l doWait = None)
    /\ (forall task l' calls,
          leafGetTask fuel _pollingIterations parent others l doWait
          = Some (Returns (task, l', calls)) ->
          calls = (if _idle l then [UnidleCPU] else [])
                  ++ [ParentGetTask]
                  ++ (if task is Some _ then [] else [CpuBecomesIdle])
          /\ (task = None <-> _idle l' = true)
          /\ _pollingSlot l' = None
          /\ (exists polls,
                option_list task ++ allTasks l'
                ≡ₚ allTasks l ++ delivered parent ++ arrived others polls)
          /\ ((forall k, others k = []) ->
              (task = None <-> delivered parent = [])
              /\ parentBatches l' = parentBatches l
              /\ option_list task ++ heldTasks l' ≡ₚ delivered parent
              /\ forall fuel' _pollingIterations' doWait' r,
                   leafGetTask fuel' _pollingIterations' parent others l doWait'
                   = Some r ->
                   r = Returns (task, l', calls))).
Proof.
  intros fuel pI parent others l doWait Hheld.
  pose proof (fun f p d => leafGetTask_empty f p parent others l d Hheld) as Hclosed.
  split; [| split].
  - (* the call ends *)
    intros Hends Hfuel. rewrite Hclosed.
    destruct (applyParentOps (askingLeaf l) parent) as [l1 | |];
      try (eexists; reflexivity).
    destruct doWait; [| eexists; reflexivity].
    destruct Hends as [Hw | Hsmall]; [discriminate |].
    destruct (poll_ends fuel pI others Hsmall 0 0%N l1) as [r ->]; [lia | lia |].
    eexists; reflexivity.
  - (* the call does not return *)
    intros -> Hbig Hparent Hquiet. rewrite Hclosed.
    destruct (applyParentOps_thresholds parent Hparent (askingLeaf l))
      as (l1 & -> & Hslot).
    rewrite (poll_never fuel pI others Hbig); [reflexivity | | reflexivity | exact Hslot].
    intros k. rewrite Hquiet. split; [reflexivity |].
    intros l0 Hl0. exists l0. split; [reflexivity | exact Hl0].
  - (* what the call returns *)
    intros task l' calls Hrun. rewrite Hclosed in Hrun.
    destruct (applyParentOps (askingLeaf l) parent) as [l1 | |] eqn:Hops;
      try discriminate.
    destruct (applyParentOps_run _ _ _ Hops)
      as (Hheld1 & Hparent1 & Hidle1 & Hnone & Hsome).
    assert (heldTasks (askingLeaf l) = []) as Hheld0.
    { unfold heldTasks in *. cbn. apply app_eq_nil in Hheld. tauto. }
    rewrite Hheld0 in Hheld1. cbn [app] in Hheld1.
    cbn [askingLeaf parentBatches _idle _pollingSlot] in Hparent1, Hidle1, Hnone, Hsome.
    assert (allTasks l1 ≡ₚ allTasks l ++ delivered parent) as Hall1.
    { unfold allTasks. rewrite Hheld1, Hparent1, Hheld. cbn [app].
      apply Permutation_app_comm. }
    destruct (if doWait then poll fuel pI others 0 0 l1 else Some (pollOnce others l1))
      as [polled |] eqn:Hpolling; [| discriminate].
    injection Hrun as Hend.
    destruct (ending_run _ _ _ _ _ _ _ _ _ _ Hpolling Hend)
      as (Hcalls & Hidle & Hslot & polls & Hcons).
    split; [rewrite Hcalls; unfold askingCalls; rewrite <- app_assoc; reflexivity |].
    split; [rewrite Hidle, Hidle1; destruct task; split; congruence |].
    split; [exact Hslot |].
    split; [exists polls; rewrite Hcons, Hall1, <- app_assoc; reflexivity |].
    intros Hquiet.
    assert (forall f p d r,
              leafGetTask f p parent others l d = Some r ->
              r = afterPolling others (askingCalls l) (None, l1, 0)) as Hone.
    { intros f p d r Hr. rewrite Hclosed in Hr. cbv beta iota in Hr.
      destruct (if d then poll f p others 0 0 l1 else Some (pollOnce others l1))
        as [polled' |] eqn:Hpolling'; [| discriminate].
      injection Hr as <-. exact (ending_quiet _ _ _ _ _ _ _ Hquiet Hpolling'). }
    rewrite (ending_quiet _ _ _ _ _ _ _ Hquiet Hpolling) in Hend.
    assert (task = _pollingSlot l1
            /\ parentBatches l' = parentBatches l1
            /\ heldTasks l' = tasksOf (_queue l1)) as (Htask & Hparent' & Hheld').
    { revert Hend. unfold afterPolling. rewrite Hquiet, pollSlot_quiet.
      cbn [mbind outcome_bind Outcome.bind].
      destruct (_pollingSlot l1); intros [= <- <- _]; repeat split. }
    split.
    { rewrite Htask. split.
      - intros Hs. destruct (delivered parent) as [| x d] eqn:Hd; [reflexivity |].
        exfalso. apply Hsome; [reflexivity | discriminate | exact Hs].
      - intros Hd. apply Hnone, Hd. }
    split; [congruence |].
    split; [rewrite Htask, Hheld', <- Hheld1; reflexivity |].
    intros f p d r Hr. rewrite (Hone f p d r Hr). exact Hend.
Qed.

(** X18.  [disable] empties the leaf: with [everything] no smaller than the
    number of queued tasks, the queue and the polling slot are left empty
    and the leaf not idle.  A leaf that held no task hands nothing up; any
    other leaf hands up one batch, which holds every task it held, the one
    from the polling slot last.  The parent and the CPU manager are told
    that the leaf is no longer idle exactly when it was idle. *)
Theorem leafDisable_drains :
  forall (everything : nat) (l : LeafScheduler Q),
    getSize (_queue l) <= everything ->
    exists l',
      leafDisable everything l
      = (l', if _idle l then [UnidleChild; UnidleCPU] else [])
      /\ tasksOf (_queue l') = []
      /\ _pollingSlot l' = None
      /\ _idle l' = false
      /\ allTasks l' ≡ₚ allTasks l
      /\ (heldTasks l = [] -> parentBatches l' = parentBatches l)
      /\ (heldTasks l <> [] ->
          exists fromQueue,
            parentBatches l'
            = parentBatches l ++ [fromQueue ++ option_list (_pollingSlot l)]
            /\ fromQueue ≡ₚ tasksOf (_queue l)).
Proof.
  intros everything l Hall. unfold leafDisable, allTasks, heldTasks.
  pose proof (getTaskBatch_spec (_queue l) everything) as [Hp Hlen].
  destruct (getTaskBatch (_queue l) everything) as [batch q] eqn:Eb.
  cbn [fst snd slotGetTask] in *.
  rewrite getSize_spec in Hall.
  assert (tasksOf q = []) as Hq.
  { apply Permutation_length in Hp. rewrite length_app in Hp.
    apply length_zero_iff_nil. lia. }
  rewrite Hq, app_nil_r in Hp.
  eexists. split; [reflexivity |]. cbn.
  split; [exact Hq |]. split; [reflexivity |]. split; [reflexivity |].
  rewrite Hq. cbn [app].
  destruct (_pollingSlot l) as [t |] eqn:Hslot; cbn [option_list app].
  - rewrite bool_decide_eq_true_2 by (rewrite length_app; cbn; lia).
    split.
    { rewrite concat_app. cbn. rewrite app_nil_r, Hp.
      rewrite Permutation_app_comm, <- app_assoc. cbn.
      rewrite <- Permutation_middle. reflexivity. }
    split; [discriminate |]. intros _. exists batch. auto.
  - destruct batch as [| x batch].
    + apply Permutation_nil in Hp. rewrite Hp. cbn.
      split; [reflexivity |]. split; [reflexivity |]. intros H. congruence.
    + rewrite bool_decide_eq_true_2 by (cbn; lia).
      split.
      { rewrite concat_app. cbn [concat]. rewrite app_nil_r, <- Hp.
        apply Permutation_app_comm. }
      split.
      { intros H. cbn in H. rewrite H in Hp. symmetry in Hp.
        apply Permutation_nil_cons in Hp. contradiction. }
      intros _. exists (x :: batch). rewrite app_nil_r. auto.
Qed.

End LeafPollingFacts.

Section LeafPollingScenarios.
Import TreeScheduler LeafPolling MoreScenarios.

(** The leaf with four queued tasks serves the oldest. *)
Lemma leafGetTask_serves_held_tasks_witness :
  exists t l',
    leafGetTask 0 100 [] (fun _ => []) Scenario.fullLeaf true
    = Some (Returns (Some t, l', []))
    /\ t ∈ [1; 2; 3; 4]
    /\ _idle l' = false
    /\ parentBatches l' = [].
Proof.
  assert (heldTasks Scenario.fullLeaf <> []) as Hheld by discriminate.
  destruct (leafGetTask_serves_held_tasks 0 100 [] (fun _ => [])
              Scenario.fullLeaf true Hheld)
    as (t & l' & Hrun & Hin & _ & _ & _ & Hidle & _ & _ & Hparent).
  exists t, l'. split; [exact Hrun |]. split; [exact Hin |].
  split; [exact Hidle |].
  destruct (decide (parentBatches l' = parentBatches Scenario.fullLeaf))
    as [He | Hne]; [exact He |].
  destruct (Hparent Hne) as (_ & Hre & _). discriminate Hre.
Defined.

Example full_leaf_serves_oldest :
  leafGetTask 0 100 [] (fun _ => []) Scenario.fullLeaf true
  = Some (Returns (Some 1,
             {| _queueThreshold := 4; _rebalance := false; _pollingSlot := None;
                _queue := {| dq_policy := SchedulerInterface.FIFO_POLICY;
                             dq_tasks := [2; 3; 4] |};
                _idle := false; parentBatches := []; resumeIdleCalls := 0 |},
             [])).
Proof. reflexivity. Qed.

(** After the threshold of the full leaf is lowered to 1, the next
    [getTask] hands a batch up: three tasks are left, more than one and a
    half times the threshold. *)
Example rebalance_after_lowered_threshold :
  leafGetTask 0 100 [] (fun _ => []) (updateQueueThreshold Scenario.fullLeaf 1) true
  = Some (Returns (Some 1,
             {| _queueThreshold := 1; _rebalance := false; _pollingSlot := None;
                _queue := {| dq_policy := SchedulerInterface.FIFO_POLICY;
                             dq_tasks := [2; 3] |};
                _idle := false; parentBatches := [[4]]; resumeIdleCalls := 0 |},
             [])).
Proof. reflexivity. Qed.

(** The idle leaf asks its parent, which delivers a batch of two: the
    last of them is returned, the other is queued.  With [2 ^ 32]
    iterations asked for and nothing delivered, the waiting call has not
    returned after any number of passes, here seven. *)
Lemma leafGetTask_asks_parent_witness :
  (exists task l' calls,
     leafGetTask 0 100 [ParentAddsBatch [10; 11]] (fun _ => []) idleLeaf false
     = Some (Returns (task, l', calls))
     /\ calls = [UnidleCPU; ParentGetTask]
                ++ (if task is Some _ then [] else [CpuBecomesIdle])
     /\ (task = None <-> delivered [ParentAddsBatch [10; 11]] = [])
     /\ (task = None <-> _idle l' = true)
     /\ _pollingSlot l' = None
     /\ option_list task ++ heldTasks l' ≡ₚ [10; 11])
  /\ (exists r, leafGetTask 100 100 [] (fun _ => []) idleLeaf true = Some r)
  /\ leafGetTask 7 (2 ^ 32) [] (fun _ => []) idleLeaf true = None.
Proof.
  assert (heldTasks idleLeaf = []) as Hheld0 by reflexivity.
  split; [| split].
  - destruct (leafGetTask 0 100 [ParentAddsBatch [10; 11]] (fun _ => [])
                idleLeaf false)
      as [[[[task l'] calls] | |] |] eqn:Hrun; try discriminate Hrun.
    destruct (leafGetTask_asks_parent 0 100 [ParentAddsBatch [10; 11]]
                (fun _ => []) idleLeaf false Hheld0)
      as (_ & _ & Hreturns).
    destruct (Hreturns task l' calls Hrun)
      as (Hcalls & Hidle & Hslot & _ & Hquiet).
    destruct (Hquiet (fun _ => eq_refl)) as (Hnone & _ & Hheld & _).
    exists task, l', calls. split; [reflexivity |]. auto.
  - destruct (leafGetTask_asks_parent 100 100 [] (fun _ => []) idleLeaf true
                Hheld0) as (Hends & _).
    apply Hends; [right; reflexivity | cbn; lia].
  - destruct (leafGetTask_asks_parent 7 (2 ^ 32) [] (fun _ => []) idleLeaf true
                Hheld0) as (_ & Hnever & _).
    apply Hnever; [reflexivity | discriminate | constructor | reflexivity].
Defined.

(** An idle leaf to which the parent delivers nothing goes idle again,
    after the hundred looks at the slot that were asked for. *)
Example idle_leaf_stays_idle :
  leafGetTask 100 100 [] (fun _ => []) idleLeaf true
  = Some (Returns (None, idleLeaf, [UnidleCPU; ParentGetTask; CpuBecomesIdle])).
Proof. reflexivity. Qed.

(** With fewer passes than iterations asked for, the model has no answer
    yet. *)
Example idle_leaf_still_polling :
  leafGetTask 99 100 [] (fun _ => []) idleLeaf true = None.
Proof. reflexivity. Qed.

(** The counter of iterations wraps around. *)
Example iterations_wrap_around : incr (2 ^ 32 - 1) = 0%N.
Proof. reflexivity. Qed.

(** With [addsAfterTwoLooks], the third look at the slot finds task 7,
    and the leaf returns it although its parent delivered nothing.  A
    caller that does not wait looks twice, finds nothing and goes idle. *)
Example task_arrives_while_polling :
  leafGetTask 100 100 [] addsAfterTwoLooks idleLeaf true
  = Some (Returns (Some 7,
             {| _queueThreshold := 4; _rebalance := false; _pollingSlot := None;
                _queue := {| dq_policy := SchedulerInterface.FIFO_POLICY;
                             dq_tasks := [] |};
                _idle := false; parentBatches := []; resumeIdleCalls := 0 |},
             [UnidleCPU; ParentGetTask]))
  /\ leafGetTask 100 100 [] addsAfterTwoLooks idleLeaf false
     = Some (Returns (None, idleLeaf,
                      [UnidleCPU; ParentGetTask; CpuBecomesIdle])).
Proof. split; reflexivity. Qed.

(** Disabling the leaf with four queued tasks. *)
Lemma leafDisable_drains_witness :
  exists l',
    leafDisable 100 Scenario.fullLeaf = (l', [])
    /\ tasksOf (_queue l') = []
    /\ _pollingSlot l' = None
    /\ _idle l' = false
    /\ allTasks l' ≡ₚ allTasks Scenario.fullLeaf
    /\ (heldTasks Scenario.fullLeaf = [] -> parentBatches l' = [])
    /\ (heldTasks Scenario.fullLeaf <> [] ->
        exists fromQueue,
          parentBatches l' = [] ++ [fromQueue ++ option_list None]
          /\ fromQueue ≡ₚ [1; 2; 3; 4]).
Proof.
  assert (getSize (_queue Scenario.fullLeaf) <= 100) as Hall by (cbn; lia).
  exact (leafDisable_drains 100 Scenario.fullLeaf Hall).
Defined.

End LeafPollingScenarios.

(** ** The schedulers of [SchedulerInterface] *)

Section SchedulerFacts.
Import SchedulerInterface SchedulerTeardown.

(** X19.  The constructor returns exactly in a build without OpenCL and FPGA
    support; otherwise it stops with the fatal error, that of OpenCL
    first.  When it returns, it has created the host scheduler for all
    CPUs and a device scheduler for CUDA and for OpenACC exactly in the
    builds with them; all share one policy and the two settings, and the
    policy is LIFO exactly when the setting is "LIFO" or "lifo". *)
Theorem constructor_schedulers :
  forall (b : Build) (e : Environment) (n : Counts),
    (NANOS6_OPENCL b = true ->
     constructor b e n = FatalError "OpenCL is not supported yet.")
    /\ (NANOS6_OPENCL b = false -> USE_FPGA b = true ->
        constructor b e n = FatalError "FPGA is not supported yet.")
    /\ (NANOS6_OPENCL b = false -> USE_FPGA b = false ->
        exists s,
          constructor b e n = Returns s
          /\ computePlaceCount (_hostScheduler s) = getTotalCPUs n
          /\ (USE_CUDA b = true <-> _cudaScheduler s <> None)
          /\ (USE_OPENACC b = true <-> _openaccScheduler s <> None)
          /\ (forall d, _cudaScheduler s = Some d ->
                        computePlaceCount d = cudaComputePlaceCount n)
          /\ (forall d, _openaccScheduler s = Some d ->
                        computePlaceCount d = openaccComputePlaceCount n)
          /\ (forall d, d ∈ schedulersOf s ->
                        policy d = policy (_hostScheduler s)
                        /\ enablePriority d = getValue (NANOS6_PRIORITY e) true
                        /\ enableImmediateSuccessor d
                           = getValue (NANOS6_IMMEDIATE_SUCCESSOR e) true)
          /\ (policy (_hostScheduler s) = LIFO_POLICY
              <-> NANOS6_SCHEDULING_POLICY e = Some "LIFO"
                  \/ NANOS6_SCHEDULING_POLICY e = Some "lifo")).
Proof.
  intros b e n. unfold constructor.
  split; [intros ->; reflexivity |].
  split; [intros -> ->; reflexivity |].
  intros -> ->. eexists. split; [reflexivity |]. cbn.
  split; [reflexivity |].
  split; [destruct (USE_CUDA b); split; congruence |].
  split; [destruct (USE_OPENACC b); split; congruence |].
  split; [intros d; destruct (USE_CUDA b); intros [= <-]; reflexivity |].
  split; [intros d; destruct (USE_OPENACC b); intros [= <-]; reflexivity |].
  split.
  - intros d Hd. unfold schedulersOf in Hd.
    destruct (USE_CUDA b), (USE_OPENACC b); cbn in Hd;
      repeat (apply elem_of_cons in Hd; destruct Hd as [-> | Hd]);
      try (repeat split; reflexivity); inversion Hd.
  - rewrite choosePolicy_lifo. unfold _schedulingPolicy, getValue.
    destruct (NANOS6_SCHEDULING_POLICY e) as [v |].
    + split; (intros [H | H]; [left | right]; congruence).
    + split; intros [H | H]; discriminate.
Qed.

(** X20.  The destructor of an object that the constructor has returned, in
    the same build, returns, and it has deleted every scheduler the
    constructor created, each once: the host scheduler, then the CUDA and
    the OpenACC scheduler. *)
Theorem destructor_deletes_what_constructor_created :
  forall (b : Build) (e : Environment) (n : Counts) (s : SchedulerInterface),
    constructor b e n = Returns s ->
    destructor b s = Returns (schedulersOf s)
    /\ length (schedulersOf s)
       = 1 + (if USE_CUDA b then 1 else 0) + (if USE_OPENACC b then 1 else 0).
Proof.
  intros b e n s. unfold constructor, destructor, schedulersOf.
  destruct (NANOS6_OPENCL b); [discriminate |].
  destruct (USE_FPGA b); [discriminate |]. cbn.
  intros [= <-]. cbn.
  destruct (USE_CUDA b), (USE_OPENACC b); split; reflexivity.
Qed.

(** A build with CUDA on the host of the scenarios. *)
Lemma destructor_deletes_what_constructor_created_witness :
  exists s,
    constructor {| USE_CUDA := true; USE_OPENACC := false;
                   NANOS6_OPENCL := false; USE_FPGA := false |}
      Scenario.bogusPolicy Scenario.fourCPUs = Returns s
    /\ destructor {| USE_CUDA := true; USE_OPENACC := false;
                     NANOS6_OPENCL := false; USE_FPGA := false |} s
       = Returns (schedulersOf s)
    /\ length (schedulersOf s) = 2.
Proof.
  eexists. split; [reflexivity |].
  exact (destructor_deletes_what_constructor_created
           {| USE_CUDA := true; USE_OPENACC := false;
              NANOS6_OPENCL := false; USE_FPGA := false |}
           Scenario.bogusPolicy Scenario.fourCPUs _ eq_refl).
Defined.

End SchedulerFacts.


(** ** Starting the workers *)

Section StartupFacts.
Import ThreadManager Startup MoreScenarios.

Lemma cpuPreinitializeLoop_run N mask ids :
  forall i pre total,
    length pre = i ->
    cpuPreinitializeLoop N mask i ids (pre ++ replicate (length ids) None, total)
    = (pre ++ map (fun id => if CPU_ISSET N id mask then Some id else None) ids,
       total + length (filter (fun id => CPU_ISSET N id mask = true) ids)).
Proof.
  induction ids as [| id ids IH]; intros i pre total Hpre.
  - cbn. rewrite Nat.add_0_r. reflexivity.
  - cbn [cpuPreinitializeLoop map length replicate].
    destruct (CPU_ISSET N id mask) eqn:Hset.
    + rewrite filter_cons_True by exact Hset.
      replace (<[i := Some id]> (pre ++ None :: replicate (length ids) None))
        with ((pre ++ [Some id]) ++ replicate (length ids) None).
      * rewrite (IH (S i)) by (rewrite length_app; cbn; lia).
        rewrite <- !app_assoc. cbn [app length]. f_equal. lia.
      * rewrite <- app_assoc. cbn [app]. subst i.
        rewrite insert_app_r_alt by lia. rewrite Nat.sub_diag. reflexivity.
    + rewrite filter_cons_False by (rewrite Hset; discriminate).
      replace (pre ++ None :: replicate (length ids) None)
        with ((pre ++ [None]) ++ replicate (length ids) None)
        by (rewrite <- app_assoc; reflexivity).
      rewrite (IH (S i)) by (rewrite length_app; cbn; lia).
      rewrite <- !app_assoc. reflexivity.
Qed.

Lemma cpuInitializeLoop_run N mask ids :
  forall calls,
    cpuInitializeLoop
      (map (fun id => if CPU_ISSET N id mask then Some id else None) ids) calls
    = calls ++ filter (fun id => CPU_ISSET N id mask = true) ids.
Proof.
  induction ids as [| id ids IH]; intros calls.
  - cbn. rewrite app_nil_r. reflexivity.
  - cbn [map cpuInitializeLoop]. destruct (CPU_ISSET N id mask) eqn:Hset.
    + rewrite filter_cons_True by exact Hset. rewrite IH, <- app_assoc. reflexivity.
    + rewrite filter_cons_False by (rewrite Hset; discriminate). apply IH.
Qed.

(** X21.  [CPUManager::preinitialize] stops exactly when the affinity of the
    process cannot be read.  Otherwise it registers, at the index of each
    compute node, the CPU whose system id is in the mask, leaves the other
    entries null, marks no CPU idle, and counts the registered CPUs;
    [CPUManager::initialize] then calls [initializeThread] once for each
    registered CPU, in order, that is [_totalCPUs] times. *)
Theorem cpuManager_initializes_registered_cpus :
  forall (CPU_SETSIZE : nat) (rc : Z) (processCPUMask : cpu_set_t)
         (systemCPUIds : list nat),
    (rc <> 0%Z ->
     cpuPreinitialize CPU_SETSIZE rc processCPUMask systemCPUIds
     = FatalError " when retrieving the affinity of the process")
    /\ (rc = 0%Z ->
        exists _cpus _totalCPUs,
          cpuPreinitialize CPU_SETSIZE rc processCPUMask systemCPUIds
          = Returns (_cpus, _totalCPUs, replicate (length systemCPUIds) false, false)
          /\ length _cpus = length systemCPUIds
          /\ (forall i id, systemCPUIds !! i = Some id ->
                _cpus !! i
                = Some (if CPU_ISSET CPU_SETSIZE id processCPUMask
                        then Some id else None))
          /\ cpuInitialize _cpus
             = (filter (fun id => CPU_ISSET CPU_SETSIZE id processCPUMask = true)
                       systemCPUIds, true)
          /\ length (cpuInitialize _cpus).1 = _totalCPUs).
Proof.
  intros N rc mask ids. unfold cpuPreinitialize, handle. split.
  - intros Hrc. rewrite bool_decide_eq_true_2 by exact Hrc. reflexivity.
  - intros ->. rewrite bool_decide_eq_false_2 by tauto.
    cbn [failIf]. unfold mbind, outcome_bind, Outcome.bind.
    pose proof (cpuPreinitializeLoop_run N mask ids 0 [] 0 eq_refl) as Hrun.
    cbn [app] in Hrun. rewrite Hrun. cbn [Nat.add].
    eexists _, _. split; [rewrite length_map; reflexivity |].
    split; [apply length_map |]. split.
    { intros i id Hi.
      change (map ?f ids) with (f <$> ids).
      rewrite list_lookup_fmap, Hi. reflexivity. }
    unfold cpuInitialize. rewrite cpuInitializeLoop_run. cbn [app fst].
    split; reflexivity.
Qed.

Lemma preinitializeLoop_run N mask cpus :
  forall i pre post tc tt,
    length pre = i ->
    length cpus <= length post ->
    (forall j, cpus !! j = Some None -> CPU_ISSET N (i + j) mask = false) ->
    preinitializeLoop N mask 0 i cpus (pre ++ post, tc, tt)
    = Returns (pre ++ cpus ++ drop (length cpus) post,
               (tc + Z.of_nat (length (filter (fun k => CPU_ISSET N k mask = true)
                                              (seq i (length cpus)))))%Z,
               (tt + Z.of_nat (length (filter (fun k => CPU_ISSET N k mask = true)
                                              (seq i (length cpus)))))%Z).
Proof.
  induction cpus as [| cpu cpus IH]; intros i pre post tc tt Hpre Hpost Hok.
  - cbn. rewrite !Z.add_0_r. reflexivity.
  - destruct post as [| x post]; [cbn in Hpost; lia |].
    cbn [preinitializeLoop length seq drop].
    assert (<[i := cpu]> (pre ++ x :: post) = (pre ++ [cpu]) ++ post) as ->.
    { rewrite <- app_assoc. cbn [app]. subst i.
      rewrite insert_app_r_alt by lia. rewrite Nat.sub_diag. reflexivity. }
    assert (forall j, cpus !! j = Some None -> CPU_ISSET N (S i + j) mask = false)
      as Hok'.
    { intros j Hj. specialize (Hok (S j)). cbn in Hok.
      replace (S i + j) with (i + S j) by lia. apply Hok, Hj. }
    destruct (CPU_ISSET N i mask) eqn:Hset.
    + assert (cpu <> None) as Hcpu.
      { intros ->. specialize (Hok 0 eq_refl). rewrite Nat.add_0_r in Hok. congruence. }
      rewrite (bool_decide_eq_true_2 _ Hcpu). cbn [assert].
      unfold mbind at 1 2 3, outcome_bind at 1 2 3, Outcome.bind at 1 2 3.
      rewrite bool_decide_eq_true_2 by reflexivity.
      cbn [assert mret outcome_ret].
      rewrite (IH (S i)); [| rewrite length_app; cbn; lia | cbn in Hpost; lia | exact Hok'].
      rewrite filter_cons_True by exact Hset. rewrite <- !app_assoc. cbn [app length].
      do 2 f_equal; [f_equal |]; lia.
    + unfold mbind at 1, outcome_bind at 1, Outcome.bind at 1.
      cbn [mret outcome_ret].
      rewrite (IH (S i)); [| rewrite length_app; cbn; lia | cbn in Hpost; lia | exact Hok'].
      rewrite filter_cons_False by (rewrite Hset; discriminate).
      rewrite <- !app_assoc. reflexivity.
Qed.

Lemma preinitializeLoop_fails N mask cpus :
  forall i st,
    (exists j, cpus !! j = Some None /\ CPU_ISSET N (i + j) mask = true) ->
    preinitializeLoop N mask 0 i cpus st = AssertionFails "_cpus[i] != nullptr".
Proof.
  induction cpus as [| cpu cpus IH]; intros i [[vec tc] tt] (j & Hj & Hset).
  - discriminate.
  - cbn [preinitializeLoop].
    destruct j as [| j].
    + cbn in Hj. injection Hj as ->. rewrite Nat.add_0_r in Hset. rewrite Hset.
      reflexivity.
    + assert (exists j', cpus !! j' = Some None /\ CPU_ISSET N (S i + j') mask = true)
        as Hrest.
      { exists j. split; [exact Hj |]. replace (S i + j) with (i + S j) by lia.
        exact Hset. }
      destruct (CPU_ISSET N i mask).
      * destruct cpu as [c |]; [| reflexivity].
        cbn. apply IH, Hrest.
      * cbn. apply IH, Hrest.
Qed.

Lemma setThreads_same s : setThreads (threads s) s = s.
Proof. destruct s; reflexivity. Qed.

Lemma initializeLoop_run N mask ids :
  forall s,
    _shutdownThreads s = 0%Z ->
    (forall id, id ∈ ids -> CPU_ISSET N id mask = true -> getCPU s id <> None) ->
    initializeLoop N mask ids s
    = Returns (setThreads
                 (threads s
                  ++ map newWorker (filter (fun k => CPU_ISSET N k mask = true) ids))
                 s).
Proof.
  induction ids as [| id ids IH]; intros s Hsh Hok.
  - cbn. rewrite app_nil_r, setThreads_same. reflexivity.
  - cbn [initializeLoop]. destruct (CPU_ISSET N id mask) eqn:Hset.
    + rewrite (bool_decide_eq_true_2 (getCPU s id <> None))
        by (apply Hok; [left | exact Hset]).
      rewrite (bool_decide_eq_true_2 (_shutdownThreads s = 0%Z)) by exact Hsh.
      cbn [assert]. unfold mbind at 1 2 3, outcome_bind at 1 2 3, Outcome.bind at 1 2 3.
      cbn [mret outcome_ret].
      rewrite IH.
      * rewrite filter_cons_True by exact Hset. cbn [map].
        destruct s. unfold setThreads. cbn. rewrite <- app_assoc. reflexivity.
      * destruct s; exact Hsh.
      * intros id' Hin Hs. destruct s. apply (Hok id'); [right; exact Hin | exact Hs].
    + unfold mbind at 1, outcome_bind at 1, Outcome.bind at 1. cbn [mret outcome_ret].
      rewrite filter_cons_False by (rewrite Hset; discriminate).
      apply IH; [exact Hsh |]. intros id' Hin Hs. apply Hok; [right; exact Hin | exact Hs].
Qed.

Lemma initializeLoop_fails N mask ids :
  forall s,
    _shutdownThreads s = 0%Z ->
    (exists id, id ∈ ids /\ CPU_ISSET N id mask = true /\ getCPU s id = None) ->
    initializeLoop N mask ids s = AssertionFails "cpu != nullptr".
Proof.
  induction ids as [| id ids IH]; intros s Hsh (bad & Hin & Hset & Hnone).
  - inversion Hin.
  - cbn [initializeLoop].
    destruct (CPU_ISSET N id mask) eqn:Hid.
    + destruct (getCPU s id) as [c |] eqn:Hc.
      * rewrite (bool_decide_eq_true_2 (Some c <> None)) by discriminate.
        rewrite (bool_decide_eq_true_2 (_shutdownThreads s = 0%Z)) by exact Hsh.
        cbn [assert]. unfold mbind at 1 2 3, outcome_bind at 1 2 3, Outcome.bind at 1 2 3.
        cbn [mret outcome_ret].
        apply IH; [destruct s; exact Hsh |].
        apply elem_of_cons in Hin. destruct Hin as [-> | Hin]; [congruence |].
        exists bad. destruct s. auto.
      * rewrite (bool_decide_eq_false_2 (None <> None)) by tauto. reflexivity.
    + unfold mbind at 1, outcome_bind at 1, Outcome.bind at 1. cbn [mret outcome_ret].
      apply IH; [exact Hsh |].
      apply elem_of_cons in Hin. destruct Hin as [-> | Hin]; [congruence |].
      exists bad. auto.
Qed.

Lemma preinitialize_run N mask cpus :
  length cpus <= N ->
  (forall j, cpus !! j = Some None -> CPU_ISSET N j mask = false) ->
  preinitialize N 0 mask cpus
  = Returns ({| _mustExit := false;
                _cpus := cpus ++ replicate (N - length cpus) None;
                _idleThreads := [];
                _totalThreads := Z.of_nat (length (enabledBelow N mask (length cpus)));
                _shutdownThreads := 0;
                _mainShutdownControllerThread := None; threads := [];
                shutdown := NotCalled; failed := None |},
             Z.of_nat (length (enabledBelow N mask (length cpus)))).
Proof.
  intros Hlen Hok. unfold preinitialize, handle.
  rewrite bool_decide_eq_false_2 by tauto. cbn [failIf].
  unfold mbind at 1, outcome_bind at 1, Outcome.bind at 1.
  pose proof (preinitializeLoop_run N mask cpus 0 [] (replicate N None) 0%Z 0%Z
                eq_refl) as Hrun.
  cbn [app] in Hrun. rewrite Hrun; [| rewrite length_replicate; exact Hlen | exact Hok].
  unfold mbind, outcome_bind, Outcome.bind. cbn [mret outcome_ret].
  rewrite drop_replicate, !Z.add_0_l. reflexivity.
Qed.

Lemma getCPU_after_preinitialize N (cpus : list (option CPU)) s id :
  _cpus s = cpus ++ replicate (N - length cpus) None ->
  getCPU s id = match cpus !! id with Some cpu => cpu | None => None end.
Proof.
  intros Hs. unfold getCPU. rewrite Hs.
  destruct (decide (id < length cpus)) as [Hlt | Hge].
  - rewrite lookup_app_l by exact Hlt. reflexivity.
  - rewrite lookup_app_r by lia.
    rewrite (lookup_ge_None_2 cpus id) by lia.
    destruct (replicate (N - length cpus) None !! (id - length cpus)) as [c |] eqn:E;
      [| reflexivity].
    apply lookup_replicate in E. destruct E as [-> _]. reflexivity.
Qed.

Lemma filter_seq_below (P : nat -> Prop) `{!forall i, Decision (P i)} L N :
  L <= N ->
  (forall id, L <= id -> id < N -> ~ P id) ->
  filter P (seq 0 N) = filter P (seq 0 L).
Proof.
  intros Hle Hnone.
  replace N with (L + (N - L)) by lia. rewrite seq_app, filter_app. cbn [Nat.add].
  assert (filter P (seq L (N - L)) = []) as ->; [| apply app_nil_r].
  assert (Forall (fun id => ~ P id) (seq L (N - L))) as Hf.
  { apply Forall_forall. intros id Hin. apply elem_of_seq in Hin. apply Hnone; lia. }
  induction Hf as [| id l Hid Hl IH]; [reflexivity |].
  rewrite filter_cons_False by exact Hid. exact IH.
Qed.

(** X22.  When the affinity can be read, the compute nodes fit into [_cpus] and
    both functions pass their assertions, [initialize] has started exactly
    one worker on each CPU of the mask, in the order of the system ids,
    each on a CPU that [preinitialize] registered; [_totalThreads] and
    [_totalCPUs], counted by [preinitialize], are the number of these
    workers, and [_shutdownThreads] is zero.  If no CPU has a shutdown
    controller yet, the manager is then in a state from which the
    shutdown collective may start. *)
Theorem startup_one_worker_per_enabled_cpu :
  forall (CPU_SETSIZE : nat) (rc : Z) (processCPUMask : cpu_set_t)
         (cpus : list (option CPU)) (s s' : State) (totalCPUs : Z)
         (finished : bool),
    length cpus <= CPU_SETSIZE ->
    preinitialize CPU_SETSIZE rc processCPUMask cpus = Returns (s, totalCPUs) ->
    initialize CPU_SETSIZE processCPUMask s = Returns (s', finished) ->
    threads s' = map newWorker (enabledBelow CPU_SETSIZE processCPUMask CPU_SETSIZE)
    /\ (forall th, th ∈ threads s' ->
                   exists cpu, cpus !! _cpu th = Some (Some cpu))
    /\ _totalThreads s' = Z.of_nat (length (threads s'))
    /\ totalCPUs = _totalThreads s'
    /\ _shutdownThreads s' = 0%Z
    /\ finished = true
    /\ _cpus s' = cpus ++ replicate (CPU_SETSIZE - length cpus) None
    /\ ((forall k cpu, cpus !! k = Some (Some cpu) ->
                       _shutdownControlerThread cpu = None) ->
        initial s').
Proof.
  intros N rc mask cpus s s' totalCPUs finished Hlen Hpre Hinit.
  assert (rc = 0%Z) as ->.
  { destruct (decide (rc = 0%Z)) as [Hrc | Hrc]; [exact Hrc |].
    unfold preinitialize, handle in Hpre.
    rewrite bool_decide_eq_true_2 in Hpre by exact Hrc. discriminate. }
  assert (forall j, cpus !! j = Some None -> CPU_ISSET N j mask = false) as Hok.
  { intros j Hj. destruct (CPU_ISSET N j mask) eqn:Hset; [| reflexivity].
    unfold preinitialize, handle in Hpre.
    rewrite bool_decide_eq_false_2 in Hpre by tauto. cbn [failIf] in Hpre.
    unfold mbind at 1, outcome_bind at 1, Outcome.bind at 1 in Hpre.
    rewrite (preinitializeLoop_fails N mask cpus 0) in Hpre; [discriminate |].
    exists j. auto. }
  rewrite (preinitialize_run N mask cpus Hlen Hok) in Hpre.
  injection Hpre as <- <-.
  set (s := {| _mustExit := false;
               _cpus := cpus ++ replicate (N - length cpus) None;
               _idleThreads := [];
               _totalThreads := Z.of_nat (length (enabledBelow N mask (length cpus)));
               _shutdownThreads := 0;
               _mainShutdownControllerThread := None; threads := [];
               shutdown := NotCalled; failed := None |}) in *.
  assert (forall id, getCPU s id
                     = match cpus !! id with Some cpu => cpu | None => None end)
    as Hget by (intros id; apply (getCPU_after_preinitialize N); reflexivity).
  assert (forall id, id ∈ seq 0 N -> CPU_ISSET N id mask = true ->
                     getCPU s id <> None) as Hall.
  { intros id Hin Hset Hnone.
    unfold initialize in Hinit.
    rewrite (initializeLoop_fails N mask (seq 0 N) s) in Hinit; [discriminate | reflexivity |].
    exists id. auto. }
  unfold initialize in Hinit.
  rewrite (initializeLoop_run N mask (seq 0 N) s eq_refl Hall) in Hinit.
  injection Hinit as <- <-. cbn [setThreads threads s app].
  assert (enabledBelow N mask N = enabledBelow N mask (length cpus)) as Hsame.
  { unfold enabledBelow. apply filter_seq_below; [exact Hlen |].
    intros id Hge Hlt Hset.
    apply (Hall id); [apply elem_of_seq; lia | exact Hset |].
    rewrite Hget, (lookup_ge_None_2 cpus id) by lia. reflexivity. }
  fold (enabledBelow N mask N).
  assert (forall th, th ∈ map newWorker (enabledBelow N mask N) ->
                     status th = Busy /\ decrements th = 0
                     /\ exists cpu, cpus !! _cpu th = Some (Some cpu)) as Hworkers.
  { intros th Hth. apply elem_of_map_iff in Hth. destruct Hth as (id & <- & Hid).
    cbn. split; [reflexivity |]. split; [reflexivity |].
    apply list_elem_of_In, list_elem_of_filter in Hid. destruct Hid as [Hset Hid].
    specialize (Hall id Hid Hset). rewrite Hget in Hall.
    destruct (cpus !! id) as [[cpu |] |]; [eauto | congruence | congruence]. }
  split; [reflexivity |].
  split; [intros th Hth; apply Hworkers, Hth |].
  split; [cbn; rewrite length_map, Hsame; reflexivity |].
  split; [cbn; reflexivity |].
  split; [reflexivity |]. split; [reflexivity |]. split; [reflexivity |].
  intros Hfresh. unfold initial. cbn.
  split; [reflexivity |]. split; [reflexivity |]. split; [reflexivity |].
  split; [rewrite length_map, Hsame; reflexivity |].
  split; [constructor |].
  split; [intros t Ht; inversion Ht |].
  split.
  { intros t th Ht. apply list_elem_of_lookup_2 in Ht.
    destruct (Hworkers th Ht) as (-> & -> & _). auto. }
  split; [reflexivity |].
  intros k c Hk. apply lookup_app_Some in Hk.
  destruct Hk as [Hk | [_ Hk]]; [apply (Hfresh k), Hk |].
  apply lookup_replicate in Hk. destruct Hk as [Hk _]. discriminate.
Qed.

(** X23.  [preinitialize] stops with the fatal error exactly when the affinity
    cannot be read, and on its assertion when a CPU of the mask is a null
    compute node.  After it has returned, [initialize] stops on its
    assertion exactly when the mask holds a CPU beyond the compute nodes
    that [preinitialize] has registered: such a CPU is not counted by
    [preinitialize]. *)
Theorem startup_assertions :
  forall (CPU_SETSIZE : nat) (rc : Z) (processCPUMask : cpu_set_t)
         (cpus : list (option CPU)),
    length cpus <= CPU_SETSIZE ->
    (rc <> 0%Z ->
     preinitialize CPU_SETSIZE rc processCPUMask cpus
     = FatalError " when retrieving the affinity of the current pthread ")
    /\ (rc = 0%Z ->
        (exists i, cpus !! i = Some None
                   /\ CPU_ISSET CPU_SETSIZE i processCPUMask = true) ->
        preinitialize CPU_SETSIZE rc processCPUMask cpus
        = AssertionFails "_cpus[i] != nullptr")
    /\ (rc = 0%Z ->
        (forall i, cpus !! i = Some None ->
                   CPU_ISSET CPU_SETSIZE i processCPUMask = false) ->
        exists s,
          preinitialize CPU_SETSIZE rc processCPUMask cpus
          = Returns (s, Z.of_nat (length (enabledBelow CPU_SETSIZE processCPUMask
                                            (length cpus))))
          /\ ((exists i, length cpus <= i
                         /\ CPU_ISSET CPU_SETSIZE i processCPUMask = true) ->
              initialize CPU_SETSIZE processCPUMask s
              = AssertionFails "cpu != nullptr")
          /\ ((forall i, length cpus <= i ->
                         CPU_ISSET CPU_SETSIZE i processCPUMask = false) ->
              exists s', initialize CPU_SETSIZE processCPUMask s
                         = Returns (s', true))).
Proof.
  intros N rc mask cpus Hlen. split; [| split].
  - intros Hrc. unfold preinitialize, handle.
    rewrite bool_decide_eq_true_2 by exact Hrc. reflexivity.
  - intros -> Hbad. unfold preinitialize, handle.
    rewrite bool_decide_eq_false_2 by tauto. cbn [failIf].
    unfold mbind at 1, outcome_bind at 1, Outcome.bind at 1.
    rewrite (preinitializeLoop_fails N mask cpus 0); [reflexivity | exact Hbad].
  - intros -> Hok. eexists. split; [apply preinitialize_run; assumption |].
    match goal with
    | |- context [initialize N mask ?s0] => set (s := s0)
    end.
    assert (forall id, getCPU s id
                       = match cpus !! id with Some cpu => cpu | None => None end)
      as Hget by (intros id; apply (getCPU_after_preinitialize N); reflexivity).
    split.
    + intros (i & Hge & Hset). unfold initialize.
      rewrite (initializeLoop_fails N mask (seq 0 N) s); [reflexivity | reflexivity |].
      exists i. split; [| split; [exact Hset |]].
      * apply elem_of_seq. unfold CPU_ISSET in Hset.
        apply andb_prop in Hset. destruct Hset as [Hlt _].
        apply bool_decide_eq_true in Hlt. lia.
      * rewrite Hget, (lookup_ge_None_2 cpus i) by lia. reflexivity.
    + intros Hin. unfold initialize.
      rewrite (initializeLoop_run N mask (seq 0 N) s eq_refl).
      * eexists. reflexivity.
      * intros id _ Hset. rewrite Hget.
        destruct (cpus !! id) as [[cpu |] |] eqn:Hc; [discriminate | |].
        -- rewrite (Hok id Hc) in Hset. discriminate.
        -- apply lookup_ge_None in Hc. rewrite (Hin id Hc) in Hset. discriminate.
Qed.

Lemma startup_one_worker_per_enabled_cpu_witness :
  exists s s',
    preinitialize 4 0 threeOfFour (replicate 4 (Some freshCPU)) = Returns (s, 3%Z)
    /\ initialize 4 threeOfFour s = Returns (s', true)
    /\ threads s' = [newWorker 0; newWorker 1; newWorker 3]
    /\ _totalThreads s' = 3%Z
    /\ initial s'.
Proof.
  eexists _, _. split; [reflexivity |]. split; [reflexivity |].
  assert (length (replicate 4 (Some freshCPU)) <= 4) as Hlen by (cbn; lia).
  destruct (startup_one_worker_per_enabled_cpu 4 0 threeOfFour
              (replicate 4 (Some freshCPU)) _ _ 3%Z true Hlen eq_refl eq_refl)
    as (Hthreads & _ & Htotal & _ & _ & _ & _ & Hinitial).
  split; [exact Hthreads |]. split; [reflexivity |].
  apply Hinitial. intros k cpu Hk.
  apply lookup_replicate in Hk. destruct Hk as [Hk _].
  injection Hk as ->. reflexivity.
Defined.

Lemma startup_assertions_witness :
  (0 <> 0 ->
   preinitialize 4 0 threeOfFour [Some freshCPU; Some freshCPU]
   = FatalError " when retrieving the affinity of the current pthread ")%Z
  /\ exists s,
       preinitialize 4 0 threeOfFour [Some freshCPU; Some freshCPU]
       = Returns (s, 2%Z)
       /\ initialize 4 threeOfFour s = AssertionFails "cpu != nullptr".
Proof.
  assert (length [Some freshCPU; Some freshCPU] <= 4) as Hlen by (cbn; lia).
  destruct (startup_assertions 4 0 threeOfFour [Some freshCPU; Some freshCPU] Hlen)
    as (Hfatal & _ & Hreturns).
  split; [exact Hfatal |].
  destruct (Hreturns eq_refl) as (s & Hpre & Hfail & _).
  - intros [| [| i]] Hi; discriminate Hi.
  - exists s. split; [exact Hpre |]. apply Hfail. exists 3. split; [cbn; lia | reflexivity].
Defined.

End StartupFacts.

(** ** The assertions of the shutdown collective *)

Section ShutdownSanity.
Import ThreadManager ShutdownChecks.

Lemma pendingThreads_le ts : pendingThreads ts <= length ts.
Proof.
  induction ts as [| th ts IH]; cbn [pendingThreads length]; [lia |].
  case_bool_decide; lia.
Qed.

Lemma initial_SanityInv s : initial s -> SanityInv s.
Proof.
  intros (Hpc & _ & Hfailed & _ & _ & _ & Hthreads & Hmain & _).
  split.
  - intros t th Ht Hnp. exfalso. apply Hnp. apply (Hthreads t th Ht).
  - intros _ t th Ht. apply (Hthreads t th Ht).
  - unfold PcSanity. rewrite Hpc. exact I.
  - left. exact Hfailed.
Qed.

(** A step that leaves the CPUs' controllers, the position of the thread
    in [shutdown], the main controller and [failed] alone, and wakes
    nobody on a CPU that does not exist. *)
Lemma SanityInv_ext s s' :
  SanityInv s ->
  (forall j, controlerOf (_cpus s') j = controlerOf (_cpus s) j) ->
  (forall j c', _cpus s' !! j = Some (Some c') ->
                exists c, _cpus s !! j = Some (Some c)
                          /\ acceptsWork c = acceptsWork c') ->
  (forall j c, _cpus s !! j = Some (Some c) -> exists c', _cpus s' !! j = Some (Some c')) ->
  shutdown s' = shutdown s ->
  _mainShutdownControllerThread s' = _mainShutdownControllerThread s ->
  failed s' = failed s ->
  _totalThreads s' = _totalThreads s ->
  length (threads s') = length (threads s) ->
  (forall t th', threads s' !! t = Some th' -> ~ parked th' ->
                 exists c, _cpus s !! _cpu th' = Some (Some c)) ->
  (_mainShutdownControllerThread s = None ->
   forall t th', threads s' !! t = Some th' -> parked th') ->
  SanityInv s'.
Proof.
  intros [Hcpu Hmain Hpc Hfailed] Hctl Hacc Hkeep Hsh Hm Hf Htot Hlen Hcpu' Hmain'.
  assert (threads s' = [] <-> threads s = []) as Hnil.
  { rewrite <- !length_zero_iff_nil, Hlen. reflexivity. }
  split.
  - intros t th' Ht Hnp. destruct (Hcpu' t th' Ht Hnp) as [c Hc].
    apply (Hkeep _ _ Hc).
  - rewrite Hm. exact Hmain'.
  - unfold PcSanity in *. rewrite Hsh, Htot, Hm.
    destruct (shutdown s) as [| k sh part | k sh part | rest sh |]; try exact I.
    + destruct Hpc as (H1 & H2 & H3 & H4).
      split; [exact H1 |]. split; [intros j Hj; rewrite Hctl; apply H2, Hj |].
      split; [intros c Hc; rewrite Hctl; apply H3, Hc |].
      intros Hnone j c' Hj Hc' Ha. apply Hnil.
      destruct (Hacc j c' Hc') as (c & Hc & Hsame).
      apply (H4 Hnone j c Hj Hc). congruence.
    + destruct Hpc as (H1 & H2 & H3 & H4).
      split; [exact H1 |]. split; [intros j Hj; rewrite Hctl; apply H2, Hj |].
      split; [intros c Hc; rewrite Hctl; apply H3, Hc |].
      intros Hnone j c' Hj Hc' Ha. apply Hnil.
      destruct (Hacc j c' Hc') as (c & Hc & Hsame).
      apply (H4 Hnone j c Hj Hc). congruence.
    + destruct Hpc as (H1 & H2). split; [exact H1 |].
      intros c Hc. rewrite Hctl. apply H2, Hc.
  - rewrite Hf.
    destruct Hfailed as [Hnone | [[Hsome Hnobody] | Hfatal]];
      [left; exact Hnone | | right; right; exact Hfatal].
    right; left. split; [exact Hsome |]. intros j c' Hc' Ha. apply Hnil.
    destruct (Hacc j c' Hc') as (c & Hc & Hsame).
    apply (Hnobody j c Hc). congruence.
Qed.

(** The same, for a step of a worker: only the workers, the idle queue
    and [_shutdownThreads] change. *)
Lemma SanityInv_threads s s' :
  SanityInv s ->
  _cpus s' = _cpus s ->
  shutdown s' = shutdown s ->
  _mainShutdownControllerThread s' = _mainShutdownControllerThread s ->
  failed s' = failed s ->
  _totalThreads s' = _totalThreads s ->
  length (threads s') = length (threads s) ->
  (forall t th', threads s' !! t = Some th' -> ~ parked th' ->
                 exists c, _cpus s !! _cpu th' = Some (Some c)) ->
  (_mainShutdownControllerThread s = None ->
   forall t th', threads s' !! t = Some th' -> parked th') ->
  SanityInv s'.
Proof.
  intros HS Hcpus. intros. apply (SanityInv_ext s s'); try assumption.
  - intros j. rewrite Hcpus. reflexivity.
  - intros j c' Hc'. rewrite Hcpus in Hc'. eauto.
  - intros j c Hc. rewrite Hcpus. eauto.
Qed.

Lemma controlerOf_Some (cpus : list (option CPU)) (k : cpuid) c :
  cpus !! k = Some (Some c) -> controlerOf cpus k = _shutdownControlerThread c.
Proof. intros H. unfold controlerOf. rewrite H. reflexivity. Qed.

Lemma main_is_named s (t : tid) th :
  SanityInv s -> threads s !! t = Some th -> ~ parked th ->
  _mainShutdownControllerThread s <> None.
Proof.
  intros HS Ht Hnp Hnone. apply Hnp. exact (san_main s HS Hnone t th Ht).
Qed.

Lemma alter_keeps_cpu_valid s (f : WorkerThread -> WorkerThread) (t : tid) th :
  SanityInv s -> threads s !! t = Some th -> ~ parked th ->
  (forall x, _cpu (f x) = _cpu x) ->
  forall (t' : tid) th',
    alter f t (threads s) !! t' = Some th' -> ~ parked th' ->
    exists c, _cpus s !! _cpu th' = Some (Some c).
Proof.
  intros HS Ht Hnp Hf t' th' Ht' Hnp'.
  apply lookup_alter_inv in Ht'.
  destruct Ht' as [[-> (th0 & Ht0 & ->)] | [_ Ht']].
  - rewrite Ht in Ht0. injection Ht0 as <-. rewrite Hf.
    exact (san_cpu s HS t th Ht Hnp).
  - exact (san_cpu s HS t' th' Ht' Hnp').
Qed.

(** A failed [pthread_join] stops the process. *)
Lemma SanityInv_join_fails s :
  SanityInv s -> SanityInv (fail " during shutdown when joining pthread " s).
Proof.
  intros [Hcpu Hmain Hpc _]. split; [exact Hcpu | exact Hmain | exact Hpc |].
  right; right. reflexivity.
Qed.

(** The worker that a controller takes out of the idle queue passes the
    two checks on it. *)
Lemma idle_worker_passes_checks s pick next idle' :
  Inv s -> workersReady s ->
  getIdleThread (_idleThreads s) pick = Some (next, idle') ->
  holdsTask (threads s) next = false /\ isToBeResumed (threads s) next = false.
Proof.
  intros [HT _] HR Hget.
  destruct (getIdleThread_Some _ _ _ _ (inv_idle_nodup s HT) Hget) as (Hin & _).
  destruct (inv_idle s HT next Hin) as (thn & Hthn & Hsn).
  pose proof (HR next thn Hthn) as Hready. unfold workerReady in Hready.
  rewrite Hsn in Hready. destruct Hready as (Htask & _ & Hres).
  unfold holdsTask, isToBeResumed. rewrite Hthn, Htask, Hres.
  split; apply bool_decide_eq_false_2; intros H; apply H; reflexivity.
Qed.

Lemma workerStep_SanityInv t pick rc s s' :
  Inv s -> workersReady s ->
  SanityInv s -> workerStep t pick rc s = Some s' -> SanityInv s'.
Proof.
  intros HI HR HS Hstep. unfold workerStep in Hstep.
  destruct (threads s !! t) as [th |] eqn:Ht; [| discriminate].
  pose proof (HR t th Ht) as Hready. unfold workerReady in Hready.
  destruct (status th) eqn:Hst.
  - (* Busy *)
    destruct (bool_decide (_currentWorkerThread th = None)) eqn:Hcur;
      injection Hstep as <-.
    { apply bool_decide_eq_true in Hcur.
      destruct Hready as [_ [[Hc _] | (_ & Hres & c & Hc)]]; [congruence |].
      unfold threadStartup. rewrite Hc.
      destruct (_cpuToBeResumedOn th) as [cpu |]; [| congruence].
      apply (SanityInv_threads s); try reflexivity; try exact HS.
      + cbn. apply length_alter.
      + cbn. intros t' th' Ht' Hnp'. apply lookup_alter_inv in Ht'.
        destruct Ht' as [[-> (th0 & Ht0 & ->)] | [_ Ht']].
        * exfalso. apply Hnp'. left. rewrite Ht in Ht0. injection Ht0 as <-.
          exact Hst.
        * exact (san_cpu s HS t' th' Ht' Hnp').
      + cbn. intros Hnone t' th' Ht'. apply lookup_alter_inv in Ht'.
        destruct Ht' as [[-> (th0 & Ht0 & ->)] | [_ Ht']].
        * left. rewrite Ht in Ht0. injection Ht0 as <-. exact Hst.
        * exact (san_main s HS Hnone t' th' Ht'). }
    apply (SanityInv_threads s); try reflexivity; try exact HS.
    + cbn. apply length_alter.
    + cbn. intros t' th' Ht' Hnp'. apply lookup_alter_inv in Ht'.
      destruct Ht' as [[-> (th0 & Ht0 & ->)] | [_ Ht']].
      * exfalso. apply Hnp'. right. reflexivity.
      * exact (san_cpu s HS t' th' Ht' Hnp').
    + cbn. intros Hnone t' th' Ht'. apply lookup_alter_inv in Ht'.
      destruct Ht' as [[-> (th0 & Ht0 & ->)] | [_ Ht']].
      * right. reflexivity.
      * exact (san_main s HS Hnone t' th' Ht').
  - discriminate.
  - (* ShutdownEntry *)
    assert (~ parked th) as Hnp by (unfold parked; rewrite Hst; intros [H | H]; discriminate).
    destruct (san_cpu s HS t th Ht Hnp) as [c Hc]. rewrite Hc in Hstep.
    rewrite (bool_decide_eq_true_2 _ Hready) in Hstep. cbn [negb] in Hstep.
    pose proof (main_is_named s t th HS Ht Hnp) as Hmain.
    destruct (bool_decide (_shutdownControlerThread c = Some t));
      injection Hstep as <-;
      (apply (SanityInv_threads s); try reflexivity; try exact HS;
       [cbn; apply length_alter
       | cbn; apply (alter_keeps_cpu_valid s _ t th HS Ht Hnp); reflexivity
       | intros Hnone; contradiction]).
  - (* ControllerLoop *)
    assert (~ parked th) as Hnp by (unfold parked; rewrite Hst; intros [H | H]; discriminate).
    pose proof (main_is_named s t th HS Ht Hnp) as Hmain.
    destruct (getIdleThread (_idleThreads s) pick) as [[next idle'] |] eqn:Hget.
    + destruct (idle_worker_passes_checks s pick next idle' HI HR Hget)
        as [Htask Hres].
      rewrite Htask, Hres in Hstep. injection Hstep as <-.
      apply (SanityInv_threads s); try reflexivity; try exact HS.
      * cbn. rewrite !length_alter. reflexivity.
      * cbn. intros t' th' Ht' Hnp'.
        apply lookup_alter_inv in Ht'.
        destruct Ht' as [[-> (th0 & Ht0 & ->)] | [_ Ht']].
        -- apply lookup_alter_inv in Ht0.
           destruct Ht0 as [[_ (th1 & Ht1 & ->)] | [_ Ht0]]; cbn.
           ++ exact (san_cpu s HS t th Ht Hnp).
           ++ rewrite Ht in Ht0. injection Ht0 as <-.
              exact (san_cpu s HS t th Ht Hnp).
        -- apply lookup_alter_inv in Ht'.
           destruct Ht' as [[-> (th1 & Ht1 & ->)] | [_ Ht']]; cbn.
           ++ exact (san_cpu s HS t th Ht Hnp).
           ++ exact (san_cpu s HS t' th' Ht' Hnp').
      * intros Hnone; contradiction.
    + destruct (negb isMainController).
      * injection Hstep as <-.
        apply (SanityInv_threads s); try reflexivity; try exact HS;
          [cbn; apply length_alter
          | cbn; apply (alter_keeps_cpu_valid s _ t th HS Ht Hnp); reflexivity
          | intros Hnone; contradiction].
      * destruct (bool_decide (_shutdownThreads s = 1)%Z); injection Hstep as <-;
          [| exact HS].
        apply (SanityInv_threads s); try reflexivity; try exact HS;
          [cbn; apply length_alter
          | cbn; apply (alter_keeps_cpu_valid s _ t th HS Ht Hnp); reflexivity
          | intros Hnone; contradiction].
  - (* ControllerJoin *)
    assert (~ parked th) as Hnp by (unfold parked; rewrite Hst; intros [H | H]; discriminate).
    pose proof (main_is_named s t th HS Ht Hnp) as Hmain.
    destruct (hasExited (threads s) next); [| discriminate]. injection Hstep as <-.
    destruct (afterJoin_cases rc s
                (setThreads
                   (alter (setStatus (ControllerLoop isMainController)) t
                      (threads s)) s))
      as [-> | ->]; [| apply SanityInv_join_fails; exact HS].
    apply (SanityInv_threads s); try reflexivity; try exact HS;
      [cbn; apply length_alter
      | cbn; apply (alter_keeps_cpu_valid s _ t th HS Ht Hnp); reflexivity
      | intros Hnone; contradiction].
  - (* Decrementing *)
    assert (~ parked th) as Hnp by (unfold parked; rewrite Hst; intros [H | H]; discriminate).
    pose proof (main_is_named s t th HS Ht Hnp) as Hmain.
    injection Hstep as <-.
    apply (SanityInv_threads s); try reflexivity; try exact HS;
      [cbn; apply length_alter
      | cbn; apply (alter_keeps_cpu_valid s _ t th HS Ht Hnp); reflexivity
      | intros Hnone; contradiction].
  - (* Exiting *)
    assert (~ parked th) as Hnp by (unfold parked; rewrite Hst; intros [H | H]; discriminate).
    pose proof (main_is_named s t th HS Ht Hnp) as Hmain.
    injection Hstep as <-.
    apply (SanityInv_threads s); try reflexivity; try exact HS;
      [cbn; apply length_alter
      | cbn; apply (alter_keeps_cpu_valid s _ t th HS Ht Hnp); reflexivity
      | intros Hnone; contradiction].
  - discriminate.
Qed.

Lemma cpuStarted_SanityInv c s s' :
  SanityInv s -> cpuStarted c s = Some s' -> SanityInv s'.
Proof.
  intros HS Hstep. unfold cpuStarted in Hstep.
  destruct (_cpus s !! c) as [[cpu |] |] eqn:Hc; try discriminate.
  injection Hstep as <-.
  assert (c < length (_cpus s)) as Hlt by (eapply lookup_lt_Some, Hc).
  apply (SanityInv_ext s); try reflexivity; try exact HS; cbn.
  - intros j. apply (controlerOf_insert_same _ _ _ cpu); [exact Hc | reflexivity].
  - intros j c' Hc'. destruct (decide (j = c)) as [-> | Hne].
    + rewrite list_lookup_insert_eq in Hc' by exact Hlt.
      injection Hc' as <-. exists cpu. split; [exact Hc | reflexivity].
    + rewrite list_lookup_insert_ne in Hc' by congruence. eauto.
  - intros j c0 Hc0. destruct (decide (j = c)) as [-> | Hne].
    + rewrite list_lookup_insert_eq by exact Hlt. eauto.
    + rewrite list_lookup_insert_ne by congruence. eauto.
  - exact (san_cpu s HS).
  - exact (san_main s HS).
Qed.

Lemma SanityInv_setPc pc s :
  SanityInv s -> PcSanity (setPc pc s) -> SanityInv (setPc pc s).
Proof.
  intros [Hcpu Hmain _ Hfailed] Hpc. split; [exact Hcpu | exact Hmain | exact Hpc |].
  exact Hfailed.
Qed.

(** The two sanity checks at the head of both loops of [shutdown] hold. *)
Lemma sanity_checks_pass s sh :
  Inv s -> _mustExit s = true -> sh = _totalThreads s ->
  negb (bool_decide (_totalThreads s = sh)) = false
  /\ negb (bool_decide (_shutdownThreads s ≤ sh)%Z) = false.
Proof.
  intros [HT _] Hexit ->.
  rewrite bool_decide_eq_true_2 by reflexivity.
  rewrite bool_decide_eq_true_2; [split; reflexivity |].
  rewrite (inv_count s HT Hexit), (inv_total s HT).
  pose proof (pendingThreads_le (threads s)). lia.
Qed.

(** When the controllers are joined, every worker has decremented the
    counter. *)
Lemma all_joined_counter_zero s sh :
  Inv s -> shutdown s = JoinLoop [] sh -> _shutdownThreads s = 0%Z.
Proof.
  intros [HT HP] Hpc. unfold PcInv in HP. rewrite Hpc in HP.
  destruct HP as [Hexit (m & Hm & [(c & Hin & _) | Hex])];
    [apply elem_of_nil in Hin; destruct Hin |].
  apply hasExited_status in Hex as (thm & Hthm & Hsm).
  destruct (inv_main s HT m Hm) as (thm' & Hthm' & Hp).
  rewrite Hthm in Hthm'. injection Hthm' as <-.
  unfold mainProgress in Hp. rewrite Hsm in Hp.
  rewrite (inv_count s HT Hexit), Hp. reflexivity.
Qed.

Lemma shutdownStep_SanityInv pick rc s s' :
  Inv s -> SanityInv s -> failed s = None ->
  shutdownStep pick rc s = Some s' -> SanityInv s'.
Proof.
  intros HI HS Hnofail Hstep. pose proof HI as [HT HP].
  pose proof (san_pc s HS) as Hpc. unfold PcSanity in Hpc. unfold PcInv in HP.
  unfold shutdownStep in Hstep.
  destruct (shutdown s) as [| k sh part | k sh part | rest sh |] eqn:Epc.
  - (* the call *)
    injection Hstep as <-.
    destruct (inv_before s HT HP) as (Hmain & Hctl & Hall).
    split; cbn.
    + exact (san_cpu s HS).
    + exact (san_main s HS).
    + unfold PcSanity. cbn. split; [reflexivity |].
      split; [intros j _; apply Hctl |].
      split; [intros c Hc; inversion Hc |].
      intros _ j c Hj. lia.
    + left. exact Hnofail.
  - (* head of the loop over the CPUs *)
    destruct HP as [Hexit HP]. destruct Hpc as (Hsh & Hlater & Hpart & Hnobody).
    destruct (_cpus s !! k) as [cpu |] eqn:Hk.
    + destruct (sanity_checks_pass s sh HI Hexit Hsh) as [Hchk1 Hchk2].
      rewrite Hchk1, Hchk2 in Hstep.
      assert (PcSanity (setPc (WakeLoop (S k) sh part) s)
              \/ exists c, cpu = Some c /\ acceptsWork c = true) as Hnext.
      { destruct cpu as [c |]; [destruct (acceptsWork c) eqn:Ha; [right; eauto |] |];
          left; unfold PcSanity; cbn;
          (split; [exact Hsh |]);
          (split; [intros j Hj; apply Hlater; lia |]);
          (split; [exact Hpart |]);
          intros Hnone j c' Hj Hc' Ha';
          (destruct (decide (j = k)) as [-> | Hne];
           [rewrite Hk in Hc'; congruence
           | apply (Hnobody Hnone j c'); [lia | exact Hc' | exact Ha']]). }
      destruct cpu as [c |].
      * destruct (acceptsWork c) eqn:Ha; injection Hstep as <-.
        -- apply SanityInv_setPc; [exact HS |]. unfold PcSanity. cbn.
           auto.
        -- apply SanityInv_setPc; [exact HS |].
           destruct Hnext as [Hnext | (c' & [= <-] & Hc')]; [exact Hnext | congruence].
      * injection Hstep as <-. apply SanityInv_setPc; [exact HS |].
        destruct Hnext as [Hnext | (c' & Hc' & _)]; [exact Hnext | discriminate].
    + destruct (bool_decide (_mainShutdownControllerThread s = None)) eqn:Hm;
        injection Hstep as <-.
      * apply bool_decide_eq_true in Hm.
        split; cbn; [exact (san_cpu s HS) | exact (san_main s HS) | |].
        -- unfold PcSanity. cbn. rewrite Epc. auto.
        -- right; left. split; [reflexivity |]. intros j c Hc Ha. cbn in Hc |- *.
           apply (Hnobody Hm j c); [| exact Hc | exact Ha].
           apply lookup_ge_None in Hk. apply lookup_lt_Some in Hc. lia.
      * apply SanityInv_setPc; [exact HS |]. unfold PcSanity. cbn. auto.
  - (* waiting for an idle worker *)
    destruct HP as [Hexit HP]. destruct Hpc as (Hsh & Hlater & Hpart & Hnobody).
    destruct (_cpus s !! k) as [[c |] |] eqn:Hk; try discriminate.
    destruct (isBeingInitialized c); [injection Hstep as <-; exact HS |].
    assert (k < length (_cpus s)) as Hlt by (eapply lookup_lt_Some, Hk).
    destruct (getIdleThread (_idleThreads s) pick) as [[idleThread idle'] |] eqn:Hget.
    + assert (_shutdownControlerThread c = None) as Hfree.
      { rewrite <- (controlerOf_Some _ k c Hk). apply Hlater. lia. }
      rewrite bool_decide_eq_true_2 in Hstep by exact Hfree.
      injection Hstep as <-.
      assert (forall j x, _cpus s !! j = Some (Some x) ->
                exists x', <[k := Some (setControler idleThread c)]> (_cpus s) !! j
                           = Some (Some x')) as Hkeep.
      { intros j x Hx. destruct (decide (j = k)) as [-> | Hne].
        - rewrite list_lookup_insert_eq by exact Hlt. eauto.
        - rewrite list_lookup_insert_ne by congruence. eauto. }
      split; cbn.
      * intros t th' Ht' Hnp'. apply lookup_alter_inv in Ht'.
        destruct Ht' as [[-> (th0 & Ht0 & ->)] | [_ Ht']]; cbn.
        -- rewrite list_lookup_insert_eq by exact Hlt. eauto.
        -- destruct (san_cpu s HS t th' Ht' Hnp') as [x Hx]. apply (Hkeep _ _ Hx).
      * destruct (_mainShutdownControllerThread s); discriminate.
      * unfold PcSanity. cbn. split; [exact Hsh |].
        split; [intros j Hj; rewrite controlerOf_insert_ne by lia; apply Hlater; lia |].
        split.
        -- intros c' Hc'. apply elem_of_cons in Hc'.
           destruct (decide (c' = k)) as [-> | Hne].
           ++ rewrite (controlerOf_insert_eq _ _ _ _ Hk). discriminate.
           ++ rewrite controlerOf_insert_ne by congruence.
              destruct Hc' as [-> | Hc']; [congruence | apply Hpart, Hc'].
        -- destruct (_mainShutdownControllerThread s); discriminate.
      * left. exact Hnofail.
    + destruct (bool_decide (0 < _shutdownThreads s)%Z) eqn:Hpos;
        injection Hstep as <-; [exact HS |].
      apply bool_decide_eq_false in Hpos.
      apply SanityInv_setPc; [exact HS |]. unfold PcSanity. cbn.
      split; [exact Hsh |]. split; [intros j Hj; apply Hlater; lia |].
      split; [exact Hpart |].
      intros Hnone j c' Hj Hc' Ha'.
      apply length_zero_iff_nil.
      assert (pendingThreads (threads s) = length (threads s)) as Hall.
      { apply pendingThreads_all. intros t th Ht.
        rewrite (inv_dec s HT t th Ht).
        destruct (san_main s HS Hnone t th Ht) as [-> | ->]; reflexivity. }
      pose proof (inv_count s HT Hexit) as Hcount. rewrite Hall in Hcount. lia.
  - (* joining the controllers *)
    destruct HP as [Hexit HP]. destruct Hpc as (Hsh & Hrest).
    destruct rest as [| cpu rest].
    + destruct (sanity_checks_pass s sh HI Hexit Hsh) as [Hchk1 _].
      rewrite Hchk1 in Hstep.
      rewrite (all_joined_counter_zero s sh HI Epc) in Hstep.
      injection Hstep as <-. apply SanityInv_setPc; [exact HS |]. exact I.
    + destruct (sanity_checks_pass s sh HI Hexit Hsh) as [Hchk1 Hchk2].
      rewrite Hchk1, Hchk2 in Hstep.
      destruct (_cpus s !! cpu) as [[c |] |] eqn:Hc; try discriminate.
      destruct (_shutdownControlerThread c) as [ctl |] eqn:Hctl.
      * destruct (hasExited (threads s) ctl); [| discriminate].
        injection Hstep as <-.
        destruct (afterJoin_cases rc s (setPc (JoinLoop rest sh) s))
          as [-> | ->]; [| apply SanityInv_join_fails; exact HS].
        apply SanityInv_setPc; [exact HS |].
        unfold PcSanity. cbn. split; [exact Hsh |].
        intros c' Hc'. apply Hrest. right. exact Hc'.
      * exfalso. apply (Hrest cpu); [left |].
        rewrite (controlerOf_Some _ cpu c Hc). exact Hctl.
  - discriminate.
Qed.

(** *** What the collective relies on in the workers *)

Lemma workerReady_cpus (cpus cpus' : list (option CPU)) (t : tid) th :
  (forall j c, cpus !! j = Some (Some c) -> exists c', cpus' !! j = Some (Some c')) ->
  workerReady cpus t th -> workerReady cpus' t th.
Proof.
  intros Hkeep. unfold workerReady. destruct (status th); try exact id.
  intros [Htask [Hstarted | (Hcur & Hres & c & Hc)]]; (split; [exact Htask |]);
    [left; exact Hstarted | right].
  split; [exact Hcur |]. split; [exact Hres |]. exact (Hkeep _ _ Hc).
Qed.

(** One worker changes, and is as the collective needs it afterwards. *)
Lemma workersReady_alter s (f : WorkerThread -> WorkerThread) (t : tid) th :
  workersReady s ->
  threads s !! t = Some th ->
  workerReady (_cpus s) t (f th) ->
  forall (t' : tid) th',
    alter f t (threads s) !! t' = Some th' -> workerReady (_cpus s) t' th'.
Proof.
  intros HR Ht Hf t' th' Ht'. apply lookup_alter_inv in Ht'.
  destruct Ht' as [[-> (th0 & Ht0 & ->)] | [_ Ht']].
  - rewrite Ht in Ht0. injection Ht0 as <-. exact Hf.
  - exact (HR t' th' Ht').
Qed.

Ltac ready_alter :=
  unfold workersReady; cbn [threads _cpus setThreads setIdleThreads].

Lemma workerStep_workersReady t pick rc s s' :
  Inv s -> workersReady s -> workerStep t pick rc s = Some s' -> workersReady s'.
Proof.
  intros HI HR Hstep. pose proof HI as [HT _]. unfold workerStep in Hstep.
  destruct (threads s !! t) as [th |] eqn:Ht; [| discriminate].
  pose proof (HR t th Ht) as Hready. unfold workerReady in Hready.
  destruct (status th) eqn:Hst.
  - (* Busy *)
    destruct (bool_decide (_currentWorkerThread th = None)) eqn:Hcur;
      injection Hstep as <-.
    + apply bool_decide_eq_true in Hcur.
      destruct Hready as [Htask [[Hc _] | (_ & Hres & c & Hc)]]; [congruence |].
      unfold threadStartup. rewrite Hc.
      destruct (_cpuToBeResumedOn th) as [cpu |]; [| congruence].
      ready_alter; apply (workersReady_alter s _ t th HR Ht).
      unfold workerReady. cbn. rewrite Hst. auto.
    + apply bool_decide_eq_false in Hcur.
      destruct Hready as [Htask [[Hc Hres] | (Hc & _)]]; [| congruence].
      ready_alter; apply (workersReady_alter s _ t th HR Ht).
      unfold workerReady. cbn. auto.
  - discriminate.
  - (* ShutdownEntry *)
    destruct (_cpus s !! _cpu th) as [[c |] |]; try (injection Hstep as <-; exact HR).
    destruct (negb (bool_decide (_currentWorkerThread th = Some t)));
      [injection Hstep as <-; exact HR |].
    destruct (bool_decide (_shutdownControlerThread c = Some t));
      injection Hstep as <-; ready_alter; apply (workersReady_alter s _ t th HR Ht);
      exact Hready.
  - (* ControllerLoop *)
    destruct (getIdleThread (_idleThreads s) pick) as [[next idle'] |] eqn:Hget.
    + destruct (holdsTask (threads s) next); [injection Hstep as <-; exact HR |].
      destruct (isToBeResumed (threads s) next); [injection Hstep as <-; exact HR |].
      injection Hstep as <-.
      destruct (getIdleThread_Some _ _ _ _ (inv_idle_nodup s HT) Hget) as (Hin & _).
      destruct (inv_idle s HT next Hin) as (thn & Hthn & Hsn).
      pose proof (HR next thn Hthn) as Hn. unfold workerReady in Hn.
      rewrite Hsn in Hn. destruct Hn as (_ & Hcurn & _).
      intros t' th' Ht'. cbn in Ht'. apply lookup_alter_inv in Ht'.
      destruct Ht' as [[-> (th0 & Ht0 & ->)] | [_ Ht']].
      * apply lookup_alter_inv in Ht0.
        destruct Ht0 as [[-> (th1 & Ht1 & ->)] | [_ Ht0]].
        -- rewrite Hthn in Ht1. injection Ht1 as <-. exact Hcurn.
        -- rewrite Ht in Ht0. injection Ht0 as <-. exact Hready.
      * apply lookup_alter_inv in Ht'.
        destruct Ht' as [[-> (th1 & Ht1 & ->)] | [_ Ht']].
        -- rewrite Hthn in Ht1. injection Ht1 as <-. exact Hcurn.
        -- exact (HR t' th' Ht').
    + destruct (negb isMainController).
      * injection Hstep as <-. ready_alter; apply (workersReady_alter s _ t th HR Ht).
        exact Hready.
      * destruct (bool_decide (_shutdownThreads s = 1)%Z); injection Hstep as <-;
          [| exact HR].
        ready_alter; apply (workersReady_alter s _ t th HR Ht). exact Hready.
  - (* ControllerJoin *)
    destruct (hasExited (threads s) next); [| discriminate]. injection Hstep as <-.
    destruct (afterJoin_cases rc s
                (setThreads
                   (alter (setStatus (ControllerLoop isMainController)) t
                      (threads s)) s))
      as [-> | ->]; [| exact HR].
    ready_alter; apply (workersReady_alter s _ t th HR Ht). exact Hready.
  - (* Decrementing *)
    injection Hstep as <-. ready_alter; apply (workersReady_alter s _ t th HR Ht). exact Hready.
  - (* Exiting *)
    injection Hstep as <-. ready_alter; apply (workersReady_alter s _ t th HR Ht). exact Hready.
  - discriminate.
Qed.

Lemma insert_keeps_cpus (cpus : list (option CPU)) (k : cpuid) c x :
  cpus !! k = Some (Some c) ->
  forall j c0, cpus !! j = Some (Some c0) ->
               exists c', <[k := Some x]> cpus !! j = Some (Some c').
Proof.
  intros Hk j c0 Hj.
  assert (k < length cpus) as Hlt by (eapply lookup_lt_Some, Hk).
  destruct (decide (j = k)) as [-> | Hne].
  - rewrite list_lookup_insert_eq by exact Hlt. eauto.
  - rewrite list_lookup_insert_ne by congruence. eauto.
Qed.

Lemma shutdownStep_workersReady pick rc s s' :
  Inv s -> workersReady s -> shutdownStep pick rc s = Some s' -> workersReady s'.
Proof.
  intros [HT _] HR Hstep. unfold shutdownStep in Hstep.
  destruct (shutdown s) as [| k sh part | k sh part | rest sh |] eqn:Epc.
  - injection Hstep as <-. exact HR.
  - destruct (_cpus s !! k) as [cpu |].
    + destruct (negb (bool_decide (_totalThreads s = sh)));
        [injection Hstep as <-; exact HR |].
      destruct (negb (bool_decide (_shutdownThreads s ≤ sh)%Z));
        [injection Hstep as <-; exact HR |].
      destruct cpu as [c |]; [destruct (acceptsWork c) |];
        injection Hstep as <-; exact HR.
    + destruct (bool_decide (_mainShutdownControllerThread s = None));
        injection Hstep as <-; exact HR.
  - destruct (_cpus s !! k) as [[c |] |] eqn:Hk; try discriminate.
    destruct (isBeingInitialized c); [injection Hstep as <-; exact HR |].
    destruct (getIdleThread (_idleThreads s) pick) as [[idleThread idle'] |] eqn:Hget.
    + destruct (bool_decide (_shutdownControlerThread c = None));
        injection Hstep as <-; [| exact HR].
      destruct (getIdleThread_Some _ _ _ _ (inv_idle_nodup s HT) Hget) as (Hin & _).
      destruct (inv_idle s HT idleThread Hin) as (thn & Hthn & Hsn).
      pose proof (HR idleThread thn Hthn) as Hn. unfold workerReady in Hn.
      rewrite Hsn in Hn. destruct Hn as (_ & Hcurn & _).
      intros t' th' Ht'. cbn in Ht' |- *.
      apply (workerReady_cpus (_cpus s)); [apply (insert_keeps_cpus _ _ c), Hk |].
      apply (workersReady_alter s (resumeForShutdown k) idleThread thn HR Hthn);
        [exact Hcurn | exact Ht'].
    + destruct (bool_decide (0 < _shutdownThreads s)%Z); injection Hstep as <-;
        exact HR.
  - destruct rest as [| cpu rest].
    + destruct (negb (bool_decide (_totalThreads s = sh)));
        [injection Hstep as <-; exact HR |].
      destruct (negb (bool_decide (_shutdownThreads s = 0)%Z));
        injection Hstep as <-; exact HR.
    + destruct (negb (bool_decide (_totalThreads s = sh)));
        [injection Hstep as <-; exact HR |].
      destruct (negb (bool_decide (_shutdownThreads s ≤ sh)%Z));
        [injection Hstep as <-; exact HR |].
      destruct (_cpus s !! cpu) as [[c |] |]; try discriminate.
      destruct (_shutdownControlerThread c) as [ctl |];
        [| injection Hstep as <-; exact HR].
      destruct (hasExited (threads s) ctl); [| discriminate].
      injection Hstep as <-.
      destruct (afterJoin_cases rc s (setPc (JoinLoop rest sh) s))
        as [-> | ->]; exact HR.
  - discriminate.
Qed.

Lemma cpuStarted_workersReady c s s' :
  workersReady s -> cpuStarted c s = Some s' -> workersReady s'.
Proof.
  intros HR Hstep. unfold cpuStarted in Hstep.
  destruct (_cpus s !! c) as [[cpu |] |] eqn:Hc; try discriminate.
  injection Hstep as <-. intros t th Ht. cbn in Ht |- *.
  apply (workerReady_cpus (_cpus s)); [apply (insert_keeps_cpus _ _ cpu), Hc |].
  exact (HR t th Ht).
Qed.

Lemma step_workersReady a s s' :
  Inv s -> workersReady s -> step a s = Some s' -> workersReady s'.
Proof.
  intros HI HR Hstep. unfold step in Hstep.
  destruct (failed s); [discriminate |].
  destruct a as [pick rc | t pick rc | c].
  - exact (shutdownStep_workersReady pick rc s s' HI HR Hstep).
  - exact (workerStep_workersReady t pick rc s s' HI HR Hstep).
  - exact (cpuStarted_workersReady c s s' HR Hstep).
Qed.

Lemma step_SanityInv a s s' :
  Inv s -> workersReady s -> SanityInv s -> step a s = Some s' -> SanityInv s'.
Proof.
  intros HI HR HS Hstep. unfold step in Hstep.
  destruct (failed s) eqn:Hf; [discriminate |].
  destruct a as [pick rc | t pick rc | c].
  - exact (shutdownStep_SanityInv pick rc s s' HI HS Hf Hstep).
  - exact (workerStep_SanityInv t pick rc s s' HI HR HS Hstep).
  - exact (cpuStarted_SanityInv c s s' HS Hstep).
Qed.

Lemma run_SanityInv schedule :
  forall s s', Inv s -> workersReady s -> SanityInv s ->
               run schedule s = Some s' -> SanityInv s'.
Proof.
  induction schedule as [| a schedule IH]; intros s s' HI HR HS Hrun.
  - injection Hrun as <-. exact HS.
  - cbn [run] in Hrun. destruct (step a s) as [s1 |] eqn:Hstep; [| discriminate].
    apply (IH s1 s'); [exact (step_Inv a s s1 HI Hstep) | | | exact Hrun].
    + exact (step_workersReady a s s1 HI HR Hstep).
    + exact (step_SanityInv a s s1 HI HR HS Hstep).
Qed.

(** *** Where the fatal error comes from *)

Lemma step_join_error a s s' :
  step a s = Some s' ->
  failed s' = Some " during shutdown when joining pthread " ->
  joinFails a.
Proof.
  unfold step. destruct (failed s) eqn:Hf; [discriminate |].
  destruct a as [pick rc | t pick rc | c]; cbn [joinFails].
  - unfold shutdownStep, afterJoin, handle, failIf.
    destruct (bool_decide (rc <> 0%Z)) eqn:Hrc;
      [intros _ _; apply bool_decide_eq_true in Hrc; exact Hrc |].
    repeat match goal with
           | |- context [match ?x with _ => _ end] => destruct x
           end;
      intros [= <-]; cbn; congruence.
  - unfold workerStep, threadStartup, afterJoin, handle, failIf.
    destruct (bool_decide (rc <> 0%Z)) eqn:Hrc;
      [intros _ _; apply bool_decide_eq_true in Hrc; exact Hrc |].
    repeat match goal with
           | |- context [match ?x with _ => _ end] => destruct x
           end;
      intros [= <-]; cbn; congruence.
  - unfold cpuStarted.
    repeat match goal with
           | |- context [match ?x with _ => _ end] => destruct x
           end;
      intros [= <-]; cbn; congruence.
Qed.

Lemma run_join_error schedule :
  forall s s',
    failed s = None ->
    run schedule s = Some s' ->
    failed s' = Some " during shutdown when joining pthread " ->
    Exists joinFails schedule.
Proof.
  induction schedule as [| a schedule IH]; intros s s' Hf Hrun Hfatal.
  - injection Hrun as <-. congruence.
  - cbn [run] in Hrun. destruct (step a s) as [s1 |] eqn:Hstep; [| discriminate].
    destruct (failed s1) as [what |] eqn:Hf1.
    + destruct schedule as [| b schedule].
      * injection Hrun as <-. apply Exists_cons_hd.
        apply (step_join_error a s s1 Hstep). congruence.
      * cbn [run] in Hrun. unfold step in Hrun. rewrite Hf1 in Hrun. discriminate.
    + apply Exists_cons_tl. exact (IH s1 s' Hf1 Hrun Hfatal).
Qed.

(** X24.  From a state in which [shutdown] may be called and whose
    workers are as the collective needs them, no interleaving of the
    collective makes an assertion of [shutdown], [threadStartup] or
    [threadShutdownSequence] fail but one: neither the checks of the
    counters at the head of the two loops of [shutdown] and at its end,
    nor the checks that a CPU has no controller before it is given one
    and has one when it is joined, nor the checks of [threadStartup],
    nor those of [threadShutdownSequence] on the CPU of the worker, on
    the thread-local pointer, and on the task and the CPU to be resumed
    on of the worker it takes out of the idle queue.  The assertion that
    can fail is that a main controller has been named, and then there was
    nobody to wake: no worker, or no CPU that accepts work.  The only
    other stop is the fatal error after a [pthread_join] that has
    answered an error. *)
Theorem shutdown_sanity_checks_hold :
  forall (s0 s : State) (schedule : list Action),
    initial s0 ->
    workersReady s0 ->
    run schedule s0 = Some s ->
    failed s = None
    \/ (failed s = Some "_mainShutdownControllerThread != nullptr"
        /\ (threads s0 = []
            \/ forall j c, _cpus s !! j = Some (Some c) -> acceptsWork c = false))
    \/ (failed s = Some " during shutdown when joining pthread "
        /\ Exists joinFails schedule).
Proof.
  intros s0 s schedule Hinit Hready Hrun.
  pose proof (run_SanityInv schedule s0 s (initial_Inv s0 Hinit) Hready
                (initial_SanityInv s0 Hinit) Hrun) as HS.
  destruct (san_failed s HS) as [Hnone | [[Hsome Hnobody] | Hfatal]];
    [left; exact Hnone | right; left | right; right].
  - split; [exact Hsome |].
    destruct (run_totalThreads schedule s0 s Hrun) as [_ Hlen].
    destruct (threads s0) as [| th0 ts0] eqn:Hts; [left; reflexivity |].
    right. intros j c Hc. destruct (acceptsWork c) eqn:Ha; [| reflexivity].
    pose proof (Hnobody j c Hc Ha) as Hnil. rewrite Hnil in Hlen. discriminate.
  - split; [exact Hfatal |].
    destruct Hinit as (_ & _ & Hf & _).
    exact (run_join_error schedule s0 s Hf Hrun Hfatal).
Qed.

End ShutdownSanity.

(** ** [ThreadManager::shutdown] returns after the last worker *)

Section ShutdownJoinFacts.
Import ThreadManager ShutdownJoins.

Lemma initial_JoinInv s : initial s -> JoinInv s.
Proof.
  intros (_ & _ & _ & _ & _ & _ & Hthreads & _ & Hctl).
  split.
  - intros c t Hc. unfold controlerOf in Hc.
    destruct (_cpus s !! c) as [[cpu |] |] eqn:Hk; try discriminate.
    rewrite (Hctl c cpu Hk) in Hc. discriminate.
  - intros t th Ht Hrole. unfold controlling in Hrole.
    destruct (proj1 (Hthreads t th Ht)) as [Hs | Hs]; rewrite Hs in Hrole;
      contradiction.
  - intros t th Ht Hin. unfold inSequence in Hin.
    destruct (proj1 (Hthreads t th Ht)) as [Hs | Hs]; rewrite Hs in Hin;
      contradiction.
Qed.

Lemma joinedByShutdown_threads s s' c t :
  shutdown s' = shutdown s ->
  (hasExited (threads s) t = true -> hasExited (threads s') t = true) ->
  joinedByShutdown s c t -> joinedByShutdown s' c t.
Proof.
  unfold joinedByShutdown. intros -> H. destruct (shutdown s); tauto.
Qed.

(** Steps that leave the workers and the controllers alone. *)
Lemma JoinInv_ext s s' :
  JoinInv s ->
  (forall j, controlerOf (_cpus s') j = controlerOf (_cpus s) j) ->
  threads s' = threads s ->
  (forall c t, controlerOf (_cpus s) c = Some t ->
               joinedByShutdown s c t -> joinedByShutdown s' c t) ->
  JoinInv s'.
Proof.
  intros [Hctl Hrole Hjoiner] Hsame Hts Hpc. split.
  - intros c t Hc. rewrite Hsame in Hc. apply (Hpc c t Hc), Hctl, Hc.
  - intros t th Ht. rewrite Hts in Ht. rewrite Hsame. apply Hrole, Ht.
  - intros t th Ht Hin. rewrite Hts in Ht. rewrite Hsame, Hts.
    apply (Hjoiner t th Ht Hin).
Qed.

(** A worker that waits for nobody moves on, on the same CPU. *)
Lemma JoinInv_alter s s' (f : WorkerThread -> WorkerThread) (t : tid) th :
  JoinInv s ->
  threads s !! t = Some th ->
  status th <> Exited ->
  (forall n b, status th <> ControllerJoin n b) ->
  (forall x, _cpu (f x) = _cpu x) ->
  _cpus s' = _cpus s ->
  shutdown s' = shutdown s ->
  threads s' = alter f t (threads s) ->
  (controlling (f th) -> controlerOf (_cpus s) (_cpu th) = Some t) ->
  (inSequence (f th) -> inSequence th) ->
  JoinInv s'.
Proof.
  intros [Hctl Hrole Hjoiner] Ht Hlive Hnojoin Hcpu Hcpus Hpc Hts Hrole' Hin'.
  assert (forall x thx, threads s !! x = Some thx -> inSequence thx ->
            controlerOf (_cpus s) (_cpu thx) = Some x
            \/ exists t' th' b, threads s' !! t' = Some th'
                                /\ status th' = ControllerJoin x b) as Hkeep.
  { intros x thx Hx Hinx.
    destruct (Hjoiner x thx Hx Hinx) as [Hl | (t' & th' & b & Ht' & Hs')];
      [left; exact Hl |].
    right. exists t', th', b. split; [| exact Hs'].
    rewrite Hts, list_lookup_alter_ne; [exact Ht' |].
    intros ->. rewrite Ht in Ht'. injection Ht' as <-.
    exact (Hnojoin _ _ Hs'). }
  split.
  - intros c x Hc. rewrite Hcpus in Hc.
    apply (joinedByShutdown_threads s s' c x Hpc); [| apply Hctl, Hc].
    rewrite Hts. apply (hasExited_alter_live f t (threads s) th x Ht Hlive).
  - intros x thx Hx Hc. rewrite Hcpus. rewrite Hts in Hx.
    apply lookup_alter_inv in Hx.
    destruct Hx as [[-> (th0 & Ht0 & ->)] | [_ Hx]].
    + rewrite Ht in Ht0. injection Ht0 as <-. rewrite Hcpu. exact (Hrole' Hc).
    + exact (Hrole x thx Hx Hc).
  - intros x thx Hx Hinx. rewrite Hcpus. rewrite Hts in Hx.
    apply lookup_alter_inv in Hx.
    destruct Hx as [[-> (th0 & Ht0 & ->)] | [_ Hx]].
    + rewrite Ht in Ht0. injection Ht0 as <-. rewrite Hcpu.
      exact (Hkeep t th Ht (Hin' Hinx)).
    + exact (Hkeep x thx Hx Hinx).
Qed.

(** A busy worker changes, and stays busy. *)
Lemma JoinInv_alter_busy s s' (f : WorkerThread -> WorkerThread) (t : tid) th :
  JoinInv s ->
  threads s !! t = Some th ->
  status th = Busy ->
  (forall x, status (f x) = status x) ->
  _cpus s' = _cpus s ->
  shutdown s' = shutdown s ->
  threads s' = alter f t (threads s) ->
  JoinInv s'.
Proof.
  intros [Hctl Hrole Hjoiner] Ht Hbusy Hf Hcpus Hpc Hts.
  split.
  - intros c x Hc. rewrite Hcpus in Hc.
    apply (joinedByShutdown_threads s s' c x Hpc); [| apply Hctl, Hc].
    rewrite Hts. apply (hasExited_alter_live f t (threads s) th x Ht).
    rewrite Hbusy. discriminate.
  - intros x thx Hx Hc. rewrite Hcpus. rewrite Hts in Hx.
    apply lookup_alter_inv in Hx.
    destruct Hx as [[-> (th0 & Ht0 & ->)] | [_ Hx]].
    + rewrite Ht in Ht0. injection Ht0 as <-.
      unfold controlling in Hc. rewrite Hf, Hbusy in Hc. contradiction.
    + exact (Hrole x thx Hx Hc).
  - intros x thx Hx Hinx. rewrite Hcpus. rewrite Hts in Hx.
    apply lookup_alter_inv in Hx.
    destruct Hx as [[-> (th0 & Ht0 & ->)] | [_ Hx]].
    + rewrite Ht in Ht0. injection Ht0 as <-.
      unfold inSequence in Hinx. rewrite Hf, Hbusy in Hinx. contradiction.
    + destruct (Hjoiner x thx Hx Hinx) as [Hl | (t' & th' & b & Ht' & Hs')];
        [left; exact Hl |].
      right. exists t', th', b. split; [| exact Hs'].
      rewrite Hts, list_lookup_alter_ne; [exact Ht' |].
      intros ->. rewrite Ht in Ht'. injection Ht' as <-. congruence.
Qed.

Lemma JoinInv_fail what s : JoinInv s -> JoinInv (fail what s).
Proof.
  intros HJ. apply (JoinInv_ext s); [exact HJ | reflexivity | reflexivity |].
  intros c t _ H. exact H.
Qed.

Lemma workerStep_JoinInv t pick rc s s' :
  Inv s -> JoinInv s -> workerStep t pick rc s = Some s' -> JoinInv s'.
Proof.
  intros [HT _] HJ Hstep. unfold workerStep in Hstep.
  destruct (threads s !! t) as [th |] eqn:Ht; [| discriminate].
  destruct (status th) eqn:Hst.
  - (* Busy *)
    destruct (bool_decide (_currentWorkerThread th = None)); injection Hstep as <-.
    { unfold threadStartup.
      destruct (_cpus s !! _cpu th) as [[c |] |];
        [| apply JoinInv_fail; exact HJ ..].
      destruct (_cpuToBeResumedOn th) as [cpu |].
      - apply (JoinInv_alter_busy s _ (afterStartup t cpu) t th HJ Ht Hst);
          reflexivity.
      - apply (JoinInv_alter_busy s _ (setCurrentWorkerThread t) t th HJ Ht Hst);
          reflexivity. }
    apply (JoinInv_alter s _ (setStatus Idle) t th HJ Ht);
      try reflexivity; try (rewrite Hst; discriminate);
      unfold controlling, inSequence; cbn; contradiction.
  - discriminate.
  - (* ShutdownEntry *)
    destruct (_cpus s !! _cpu th) as [[c |] |] eqn:Hc.
    + destruct (negb (bool_decide (_currentWorkerThread th = Some t)));
        [injection Hstep as <-; apply JoinInv_fail; exact HJ |].
      case_bool_decide as Hctl; injection Hstep as <-.
      * apply (JoinInv_alter s _ (setStatus (ControllerLoop
                 (bool_decide (_mainShutdownControllerThread s = Some t)))) t th HJ Ht);
          try reflexivity; try (rewrite Hst; discriminate).
        -- intros _. unfold controlerOf. rewrite Hc. exact Hctl.
        -- intros _. unfold inSequence. rewrite Hst. exact I.
      * apply (JoinInv_alter s _ (setStatus Decrementing) t th HJ Ht);
          try reflexivity; try (rewrite Hst; discriminate).
        -- unfold controlling; cbn; contradiction.
        -- intros _. unfold inSequence. rewrite Hst. exact I.
    + injection Hstep as <-.
      apply (JoinInv_ext s); [exact HJ | reflexivity | reflexivity | auto].
    + injection Hstep as <-.
      apply (JoinInv_ext s); [exact HJ | reflexivity | reflexivity | auto].
  - (* ControllerLoop *)
    assert (controlerOf (_cpus s) (_cpu th) = Some t) as Hmine.
    { apply (join_role s HJ t th Ht). unfold controlling. rewrite Hst. exact I. }
    destruct (getIdleThread (_idleThreads s) pick) as [[next idle'] |] eqn:Hget.
    + assert (forall what, JoinInv (fail what (setIdleThreads idle' s))) as Hfail.
      { intros what. apply (JoinInv_ext s); [exact HJ | reflexivity | reflexivity |].
        intros c x _ H. exact H. }
      destruct (holdsTask (threads s) next); [injection Hstep as <-; apply Hfail |].
      destruct (isToBeResumed (threads s) next);
        [injection Hstep as <-; apply Hfail |].
      clear Hfail. injection Hstep as <-.
      destruct (getIdleThread_Some _ _ _ _ (inv_idle_nodup s HT) Hget)
        as (Hnext & _ & _ & _).
      destruct (inv_idle s HT next Hnext) as (thn & Hthn & Hidle).
      assert (next <> t) as Hne.
      { intros ->. rewrite Ht in Hthn. injection Hthn as <-. congruence. }
      destruct HJ as [Hctl Hrole Hjoiner].
      assert (alter (resumeForShutdown (_cpu th)) next (threads s) !! t = Some th)
        as Ht1 by (rewrite list_lookup_alter_ne by congruence; exact Ht).
      split; cbn.
      * intros c x Hc.
        apply (joinedByShutdown_threads s _ c x); [reflexivity | | apply Hctl, Hc].
        cbn. intros Hex.
        apply (hasExited_alter_live _ t _ th x Ht1); [rewrite Hst; discriminate |].
        apply (hasExited_alter_live _ next _ thn x Hthn); [rewrite Hidle; discriminate |].
        exact Hex.
      * intros x thx Hx Hc. apply lookup_alter_inv in Hx.
        destruct Hx as [[-> (th0 & Ht0 & ->)] | [Hxt Hx]].
        -- rewrite Ht1 in Ht0. injection Ht0 as <-. exact Hmine.
        -- apply lookup_alter_inv in Hx.
           destruct Hx as [[-> (th0 & Ht0 & ->)] | [_ Hx]].
           ++ unfold controlling in Hc. cbn in Hc. contradiction.
           ++ exact (Hrole x thx Hx Hc).
      * intros x thx Hx Hinx. apply lookup_alter_inv in Hx.
        destruct Hx as [[-> (th0 & Ht0 & ->)] | [Hxt Hx]].
        -- rewrite Ht1 in Ht0. injection Ht0 as <-. left. exact Hmine.
        -- apply lookup_alter_inv in Hx.
           destruct Hx as [[-> (th0 & Ht0 & ->)] | [Hxn Hx]].
           ++ right. exists t, (setStatus (ControllerJoin next isMainController) th),
                isMainController.
              split; [| reflexivity]. apply lookup_alter_same. exact Ht1.
           ++ destruct (Hjoiner x thx Hx Hinx) as [Hl | (t' & th' & b & Ht' & Hs')];
                [left; exact Hl |].
              right. exists t', th', b. split; [| exact Hs'].
              rewrite !list_lookup_alter_ne; [exact Ht' | |].
              ** intros ->. rewrite Hthn in Ht'. injection Ht' as <-. congruence.
              ** intros ->. rewrite Ht in Ht'. injection Ht' as <-. congruence.
    + assert (JoinInv (setThreads (alter (setStatus Decrementing) t (threads s)) s))
        as Hdec.
      { apply (JoinInv_alter s _ (setStatus Decrementing) t th HJ Ht);
          try reflexivity; try (rewrite Hst; discriminate).
        - unfold controlling; cbn; contradiction.
        - intros _. unfold inSequence. rewrite Hst. exact I. }
      destruct (negb isMainController); [injection Hstep as <-; exact Hdec |].
      destruct (bool_decide (_shutdownThreads s = 1)%Z); injection Hstep as <-;
        [exact Hdec | exact HJ].
  - (* ControllerJoin *)
    assert (controlerOf (_cpus s) (_cpu th) = Some t) as Hmine.
    { apply (join_role s HJ t th Ht). unfold controlling. rewrite Hst. exact I. }
    destruct (hasExited (threads s) next) eqn:Hex; [| discriminate].
    injection Hstep as <-.
    destruct (afterJoin_cases rc s
                (setThreads
                   (alter (setStatus (ControllerLoop isMainController)) t
                      (threads s)) s))
      as [-> | ->]; [| apply JoinInv_fail; exact HJ].
    destruct HJ as [Hctl Hrole Hjoiner].
    split; cbn.
    + intros c x Hc.
      apply (joinedByShutdown_threads s _ c x); [reflexivity | | apply Hctl, Hc].
      cbn. apply (hasExited_alter_live _ t _ th x Ht). rewrite Hst. discriminate.
    + intros x thx Hx Hc. apply lookup_alter_inv in Hx.
      destruct Hx as [[-> (th0 & Ht0 & ->)] | [_ Hx]].
      * rewrite Ht in Ht0. injection Ht0 as <-. exact Hmine.
      * exact (Hrole x thx Hx Hc).
    + intros x thx Hx Hinx. apply lookup_alter_inv in Hx.
      destruct Hx as [[-> (th0 & Ht0 & ->)] | [Hxt Hx]].
      * rewrite Ht in Ht0. injection Ht0 as <-. left. exact Hmine.
      * destruct (Hjoiner x thx Hx Hinx) as [Hl | (t' & th' & b & Ht' & Hs')];
          [left; exact Hl |].
        right. exists t', th', b. split; [| exact Hs'].
        rewrite list_lookup_alter_ne; [exact Ht' |].
        intros ->. rewrite Ht in Ht'. injection Ht' as <-.
        rewrite Hst in Hs'. injection Hs' as -> _.
        apply hasExited_status in Hex as (thn & Hthn & Hexited).
        rewrite Hx in Hthn. injection Hthn as <-.
        unfold inSequence in Hinx. rewrite Hexited in Hinx. exact Hinx.
  - (* Decrementing *)
    injection Hstep as <-.
    apply (JoinInv_alter s _ afterDecrement
             t th HJ Ht);
      try reflexivity; try (rewrite Hst; discriminate).
    + unfold controlling; cbn; contradiction.
    + intros _. unfold inSequence. rewrite Hst. exact I.
  - (* Exiting *)
    injection Hstep as <-.
    apply (JoinInv_alter s _ (setStatus Exited) t th HJ Ht);
      try reflexivity; try (rewrite Hst; discriminate);
      unfold controlling, inSequence; cbn; contradiction.
  - discriminate.
Qed.

Lemma shutdownStep_JoinInv pick rc s s' :
  Inv s -> JoinInv s -> shutdownStep pick rc s = Some s' -> JoinInv s'.
Proof.
  intros [HT HP] HJ Hstep. unfold shutdownStep in Hstep. unfold PcInv in HP.
  destruct (shutdown s) as [| k sh part | k sh part | rest sh |] eqn:Epc.
  - (* the call *)
    injection Hstep as <-. destruct (inv_before s HT HP) as (_ & Hnone & _).
    apply (JoinInv_ext s); [exact HJ | reflexivity | reflexivity |].
    intros c t Hc. rewrite Hnone in Hc. discriminate.
  - (* head of the loop over the CPUs *)
    assert (forall pc, (forall c t, joinedByShutdown s c t ->
                                    joinedByShutdown (setPc pc s) c t) ->
                       JoinInv (setPc pc s)) as Hset.
    { intros pc Hpc. apply (JoinInv_ext s); [exact HJ | reflexivity | reflexivity |].
      intros c t _. apply Hpc. }
    assert (forall what, JoinInv (fail what s)) as Hfail.
    { intros what. apply (JoinInv_ext s); [exact HJ | reflexivity | reflexivity |].
      intros c t _ H. exact H. }
    destruct (_cpus s !! k) as [cpu |] eqn:Hk.
    + destruct (negb (bool_decide (_totalThreads s = sh)));
        [injection Hstep as <-; apply Hfail |].
      destruct (negb (bool_decide (_shutdownThreads s ≤ sh)%Z));
        [injection Hstep as <-; apply Hfail |].
      destruct cpu as [c |]; [destruct (acceptsWork c) |];
        injection Hstep as <-; apply Hset; intros c' t;
        unfold joinedByShutdown; cbn; rewrite Epc; auto.
    + destruct (bool_decide (_mainShutdownControllerThread s = None));
        injection Hstep as <-; [apply Hfail |].
      apply Hset. intros c' t. unfold joinedByShutdown. cbn. rewrite Epc. auto.
  - (* waiting for an idle worker *)
    destruct (_cpus s !! k) as [[c |] |] eqn:Hk; try discriminate.
    destruct (isBeingInitialized c); [injection Hstep as <-; exact HJ |].
    destruct (getIdleThread (_idleThreads s) pick) as [[idleThread idle'] |] eqn:Hget.
    + case_bool_decide as Hfree; injection Hstep as <-.
      * destruct (getIdleThread_Some _ _ _ _ (inv_idle_nodup s HT) Hget)
          as (Hin & _ & _ & _).
        destruct (inv_idle s HT idleThread Hin) as (thi & Hthi & Hidle).
        assert (controlerOf (_cpus s) k = None) as Hknone.
        { unfold controlerOf. rewrite Hk. exact Hfree. }
        destruct HJ as [Hctl Hrole Hjoiner].
        assert (forall x thx, threads s !! x = Some thx ->
                  controlerOf (_cpus s) (_cpu thx) = Some x ->
                  controlerOf (<[k := Some (setControler idleThread c)]> (_cpus s))
                    (_cpu thx) = Some x) as Hkeep.
        { intros x thx Hx Hc. rewrite controlerOf_insert_ne; [exact Hc |].
          intros ->. rewrite Hknone in Hc. discriminate. }
        split; cbn.
        -- intros c' t Hc'. unfold joinedByShutdown. cbn.
           destruct (decide (c' = k)) as [-> | Hne]; [left |].
           rewrite controlerOf_insert_ne in Hc' by congruence.
           pose proof (Hctl c' t Hc') as Hold. unfold joinedByShutdown in Hold.
           rewrite Epc in Hold. right. exact Hold.
        -- intros x thx Hx Hc. apply lookup_alter_inv in Hx.
           destruct Hx as [[-> (th0 & Ht0 & ->)] | [_ Hx]].
           ++ unfold controlling in Hc. cbn in Hc. contradiction.
           ++ apply (Hkeep x thx Hx). exact (Hrole x thx Hx Hc).
        -- intros x thx Hx Hinx. apply lookup_alter_inv in Hx.
           destruct Hx as [[-> (th0 & Ht0 & ->)] | [Hxi Hx]].
           ++ left. cbn. apply (controlerOf_insert_eq _ _ _ _ Hk).
           ++ destruct (Hjoiner x thx Hx Hinx) as [Hl | (t' & th' & b & Ht' & Hs')];
                [left; exact (Hkeep x thx Hx Hl) |].
              right. exists t', th', b. split; [| exact Hs'].
              rewrite list_lookup_alter_ne; [exact Ht' |].
              intros ->. rewrite Hthi in Ht'. injection Ht' as <-. congruence.
      * apply (JoinInv_ext s); [exact HJ | reflexivity | reflexivity |].
        intros c' t _ H. exact H.
    + destruct (bool_decide (0 < _shutdownThreads s)%Z); injection Hstep as <-;
        [exact HJ |].
      apply (JoinInv_ext s); [exact HJ | reflexivity | reflexivity |].
      intros c' t _. unfold joinedByShutdown. cbn. rewrite Epc. auto.
  - (* joining the controllers *)
    destruct rest as [| cpu rest].
    + destruct (negb (bool_decide (_totalThreads s = sh)));
        [injection Hstep as <-; apply JoinInv_fail; exact HJ |].
      destruct (negb (bool_decide (_shutdownThreads s = 0)%Z));
        [injection Hstep as <-; apply JoinInv_fail; exact HJ |].
      injection Hstep as <-.
      apply (JoinInv_ext s); [exact HJ | reflexivity | reflexivity |].
      intros c t _. unfold joinedByShutdown. cbn. rewrite Epc.
      intros [Hin | Hex]; [inversion Hin | exact Hex].
    + assert (forall what, JoinInv (fail what s)) as Hfail.
      { intros what. apply (JoinInv_ext s); [exact HJ | reflexivity | reflexivity |].
        intros c t _ H. exact H. }
      destruct (negb (bool_decide (_totalThreads s = sh)));
        [injection Hstep as <-; apply Hfail |].
      destruct (negb (bool_decide (_shutdownThreads s ≤ sh)%Z));
        [injection Hstep as <-; apply Hfail |].
      destruct (_cpus s !! cpu) as [[c |] |] eqn:Hc; try discriminate.
      destruct (_shutdownControlerThread c) as [ctl |] eqn:Hctl;
        [| injection Hstep as <-; apply Hfail].
      destruct (hasExited (threads s) ctl) eqn:Hex; [| discriminate].
      injection Hstep as <-.
      destruct (afterJoin_cases rc s (setPc (JoinLoop rest sh) s))
        as [-> | ->]; [| apply Hfail].
      apply (JoinInv_ext s); [exact HJ | reflexivity | reflexivity |].
      intros c' t Hc'. unfold joinedByShutdown. cbn. rewrite Epc.
      intros [Hin | Hdone]; [| right; exact Hdone].
      apply elem_of_cons in Hin as [-> | Hin]; [| left; exact Hin].
      right. unfold controlerOf in Hc'. rewrite Hc, Hctl in Hc'.
      injection Hc' as <-. exact Hex.
  - discriminate.
Qed.

Lemma cpuStarted_JoinInv c s s' :
  JoinInv s -> cpuStarted c s = Some s' -> JoinInv s'.
Proof.
  intros HJ Hstep. unfold cpuStarted in Hstep.
  destruct (_cpus s !! c) as [[cpu |] |] eqn:Hc; try discriminate.
  injection Hstep as <-.
  apply (JoinInv_ext s); [exact HJ | | reflexivity | auto].
  intros j. cbn. apply (controlerOf_insert_same _ _ _ cpu); [exact Hc | reflexivity].
Qed.

Lemma run_JoinInv schedule :
  forall s s', Inv s -> JoinInv s -> run schedule s = Some s' -> JoinInv s'.
Proof.
  induction schedule as [| a schedule IH]; intros s s' HI HJ Hrun.
  - injection Hrun as <-. exact HJ.
  - cbn [run] in Hrun. destruct (step a s) as [s1 |] eqn:Hstep; [| discriminate].
    apply (IH s1 s'); [exact (step_Inv a s s1 HI Hstep) | | exact Hrun].
    unfold step in Hstep. destruct (failed s); [discriminate |].
    destruct a as [pick rc | t pick rc | c].
    + exact (shutdownStep_JoinInv pick rc s s1 HI HJ Hstep).
    + exact (workerStep_JoinInv t pick rc s s1 HI HJ Hstep).
    + exact (cpuStarted_JoinInv c s s1 HJ Hstep).
Qed.

(** X25.  When [ThreadManager::shutdown] returns, whatever the
    interleaving was, every worker is through [exit()]: none is parked,
    none is still inside [threadShutdownSequence], and the idle queue is
    empty. *)
Theorem shutdown_returns_after_last_worker :
  forall s0 s : State,
    reachable s0 s ->
    shutdown s = Returned ->
    (forall t th, threads s !! t = Some th -> status th = Exited)
    /\ _idleThreads s = [].
Proof.
  intros s0 s [Hinit [schedule Hrun]] Hpc.
  pose proof (run_Inv schedule s0 s (initial_Inv s0 Hinit) Hrun) as [HT HP].
  pose proof (run_JoinInv schedule s0 s (initial_Inv s0 Hinit)
                (initial_JoinInv s0 Hinit) Hrun) as HJ.
  unfold PcInv in HP. rewrite Hpc in HP.
  destruct HP as [Hexit (m & Hm & Hex)].
  apply hasExited_status in Hex as (thm & Hthm & Hsm).
  destruct (inv_main s HT m Hm) as (thm' & Hthm' & Hp).
  rewrite Hthm in Hthm'. injection Hthm' as <-.
  unfold mainProgress in Hp. rewrite Hsm in Hp.
  assert (forall t th, threads s !! t = Some th ->
            status th = Exiting \/ status th = Exited) as Hlate.
  { intros t th Ht.
    pose proof (pendingThreads_zero (threads s) t th Hp Ht) as Hnz.
    pose proof (inv_dec s HT t th Ht) as Hd.
    destruct (status th); try (exfalso; exact (Hnz Hd)); auto. }
  assert (forall t th, threads s !! t = Some th -> status th = Exited) as Hall.
  { intros t th Ht. destruct (Hlate t th Ht) as [Hexiting | Hdone]; [| exact Hdone].
    exfalso.
    assert (inSequence th) as Hin by (unfold inSequence; rewrite Hexiting; exact I).
    destruct (join_joiner s HJ t th Ht Hin) as [Hc | (t' & th' & b & Ht' & Hs')].
    - pose proof (join_ctl s HJ _ _ Hc) as Hj. unfold joinedByShutdown in Hj.
      rewrite Hpc in Hj. apply hasExited_status in Hj as (th0 & Ht0 & Hs0).
      rewrite Ht in Ht0. injection Ht0 as <-. congruence.
    - destruct (Hlate t' th' Ht') as [H | H]; congruence. }
  split; [exact Hall |].
  destruct (_idleThreads s) as [| t idle] eqn:Hidle; [reflexivity |].
  exfalso. destruct (inv_idle s HT t) as (th & Ht & Hs).
  - rewrite Hidle. left.
  - rewrite (Hall t th Ht) in Hs. discriminate.
Qed.

End ShutdownJoinFacts.

Section ShutdownSanityScenarios.
Import ThreadManager ShutdownChecks ShutdownJoins.

Lemma beforeShutdown_ready : workersReady Scenario.beforeShutdown.
Proof.
  intros t th Ht.
  destruct t as [| [| [| t]]]; cbn in Ht; try discriminate;
    injection Ht as <-; unfold workerReady; cbn; auto.
  split; [reflexivity |]. right. split; [reflexivity |].
  split; [discriminate | eauto].
Qed.

(** The collective of the scenario ends without a failed assertion. *)
Lemma shutdown_sanity_checks_hold_witness :
  failed Scenario.afterShutdown = None
  \/ (failed Scenario.afterShutdown
      = Some "_mainShutdownControllerThread != nullptr"
      /\ (threads Scenario.beforeShutdown = []
          \/ forall j c, _cpus Scenario.afterShutdown !! j = Some (Some c) ->
                         acceptsWork c = false))
  \/ (failed Scenario.afterShutdown
      = Some " during shutdown when joining pthread "
      /\ Exists joinFails Scenario.collectiveShutdown).
Proof.
  apply (shutdown_sanity_checks_hold Scenario.beforeShutdown Scenario.afterShutdown
           Scenario.collectiveShutdown).
  - exact beforeShutdown_initial.
  - exact beforeShutdown_ready.
  - reflexivity.
Defined.

(** In the scenario [shutdown] has returned: its workers have all exited
    and the idle queue is empty. *)
Lemma shutdown_returns_after_last_worker_witness :
  (forall t th, threads Scenario.afterShutdown !! t = Some th -> status th = Exited)
  /\ _idleThreads Scenario.afterShutdown = [].
Proof.
  apply (shutdown_returns_after_last_worker
           Scenario.beforeShutdown Scenario.afterShutdown); [| reflexivity].
  split; [exact beforeShutdown_initial |].
  exists Scenario.collectiveShutdown. reflexivity.
Defined.

End ShutdownSanityScenarios.

(** ** From the start of the workers to their shutdown *)

Section StartupThenShutdown.
Import ThreadManager Startup ShutdownChecks MoreScenarios.

(** The manager as [preinitialize] and [initialize] leave it. *)
Lemma startup_state N rc mask (cpus : list (option CPU)) s s' totalCPUs finished :
  length cpus <= N ->
  preinitialize N rc mask cpus = Returns (s, totalCPUs) ->
  initialize N mask s = Returns (s', finished) ->
  threads s' = map newWorker (enabledBelow N mask N)
  /\ (forall id, id ∈ enabledBelow N mask N ->
                 exists cpu, cpus !! id = Some (Some cpu))
  /\ _cpus s' = cpus ++ replicate (N - length cpus) None
  /\ _idleThreads s' = []
  /\ _totalThreads s' = Z.of_nat (length (enabledBelow N mask N))
  /\ _mustExit s' = false /\ shutdown s' = NotCalled /\ failed s' = None
  /\ _mainShutdownControllerThread s' = None.
Proof.
  intros Hlen Hpre Hinit.
  assert (rc = 0%Z) as ->.
  { destruct (decide (rc = 0%Z)) as [Hrc | Hrc]; [exact Hrc |].
    unfold preinitialize, handle in Hpre.
    rewrite bool_decide_eq_true_2 in Hpre by exact Hrc. discriminate. }
  assert (forall j, cpus !! j = Some None -> CPU_ISSET N j mask = false) as Hok.
  { intros j Hj. destruct (CPU_ISSET N j mask) eqn:Hset; [| reflexivity].
    unfold preinitialize, handle in Hpre.
    rewrite bool_decide_eq_false_2 in Hpre by tauto. cbn [failIf] in Hpre.
    unfold mbind at 1, outcome_bind at 1, Outcome.bind at 1 in Hpre.
    rewrite (preinitializeLoop_fails N mask cpus 0) in Hpre; [discriminate |].
    exists j. auto. }
  rewrite (preinitialize_run N mask cpus Hlen Hok) in Hpre.
  injection Hpre as <- <-.
  set (s := {| _mustExit := false;
               _cpus := cpus ++ replicate (N - length cpus) None;
               _idleThreads := [];
               _totalThreads := Z.of_nat (length (enabledBelow N mask (length cpus)));
               _shutdownThreads := 0;
               _mainShutdownControllerThread := None; threads := [];
               shutdown := NotCalled; failed := None |}) in *.
  assert (forall id, getCPU s id
                     = match cpus !! id with Some cpu => cpu | None => None end)
    as Hget by (intros id; apply (getCPU_after_preinitialize N); reflexivity).
  assert (forall id, id ∈ seq 0 N -> CPU_ISSET N id mask = true ->
                     getCPU s id <> None) as Hall.
  { intros id Hin Hset Hnone.
    unfold initialize in Hinit.
    rewrite (initializeLoop_fails N mask (seq 0 N) s) in Hinit;
      [discriminate | reflexivity |].
    exists id. auto. }
  unfold initialize in Hinit.
  rewrite (initializeLoop_run N mask (seq 0 N) s eq_refl Hall) in Hinit.
  injection Hinit as <- <-. cbn [setThreads threads s app].
  assert (enabledBelow N mask N = enabledBelow N mask (length cpus)) as Hsame.
  { unfold enabledBelow. apply filter_seq_below; [exact Hlen |].
    intros id Hge Hlt Hset.
    apply (Hall id); [apply elem_of_seq; lia | exact Hset |].
    rewrite Hget, (lookup_ge_None_2 cpus id) by lia. reflexivity. }
  fold (enabledBelow N mask N).
  split; [reflexivity |]. split.
  { intros id Hid. apply list_elem_of_filter in Hid. destruct Hid as [Hset Hid].
    specialize (Hall id Hid Hset). rewrite Hget in Hall.
    destruct (cpus !! id) as [[cpu |] |]; [eauto | congruence | congruence]. }
  cbn. rewrite Hsame. repeat split; reflexivity.
Qed.

(** The workers that [initialize] has created are as the collective
    needs them. *)
Lemma startup_workersReady N rc mask (cpus : list (option CPU)) s s' totalCPUs finished :
  length cpus <= N ->
  preinitialize N rc mask cpus = Returns (s, totalCPUs) ->
  initialize N mask s = Returns (s', finished) ->
  workersReady s'.
Proof.
  intros Hlen Hpre Hinit.
  destruct (startup_state N rc mask cpus s s' totalCPUs finished Hlen Hpre Hinit)
    as (Hthreads & Hvalid & Hcpus & _).
  intros t th Ht. rewrite Hthreads in Ht.
  apply list_elem_of_lookup_2, elem_of_map_iff in Ht.
  destruct Ht as (id & <- & Hid). apply list_elem_of_In in Hid.
  destruct (Hvalid id Hid) as [cpu Hcpu].
  unfold workerReady. cbn. split; [reflexivity |]. right.
  split; [reflexivity |]. split; [discriminate |].
  exists cpu. rewrite Hcpus. apply lookup_app_l_Some, Hcpu.
Qed.

Lemma startup_initial N rc mask (cpus : list (option CPU)) s s' totalCPUs finished :
  length cpus <= N ->
  preinitialize N rc mask cpus = Returns (s, totalCPUs) ->
  initialize N mask s = Returns (s', finished) ->
  (forall k cpu, cpus !! k = Some (Some cpu) -> _shutdownControlerThread cpu = None) ->
  initial s'.
Proof.
  intros Hlen Hpre Hinit Hfresh.
  destruct (startup_state N rc mask cpus s s' totalCPUs finished Hlen Hpre Hinit)
    as (Hthreads & _ & Hcpus & Hidle & Htotal & Hexit & Hpc & Hfailed & Hmain).
  unfold initial. rewrite Hthreads, Hcpus, Hidle, Htotal, length_map.
  split; [exact Hpc |]. split; [exact Hexit |]. split; [exact Hfailed |].
  split; [reflexivity |]. split; [constructor |].
  split; [intros t Ht; inversion Ht |].
  split.
  { intros t th Ht. apply list_elem_of_lookup_2, elem_of_map_iff in Ht.
    destruct Ht as (id & <- & _). cbn. auto. }
  split; [exact Hmain |].
  intros k c Hk. apply lookup_app_Some in Hk.
  destruct Hk as [Hk | [_ Hk]]; [apply (Hfresh k), Hk |].
  apply lookup_replicate in Hk. destruct Hk as [Hk _]. discriminate.
Qed.

(** X27.  The workers that [ThreadManager::initialize] has created, on
    CPUs without a shutdown controller, are as the shutdown collective
    needs them: each is yet to run [threadStartup], on a registered CPU,
    with this CPU to be resumed on and without a task.  Whatever the
    interleaving of [threadStartup], parking, [shutdown] and
    [threadShutdownSequence] from there, no assertion of these functions
    fails but the one that a main controller has been named, which fails
    only if there is no worker or no CPU that accepts work; the only
    other stop is the fatal error after a [pthread_join] that has
    answered an error. *)
Theorem startup_then_shutdown_sanity :
  forall (CPU_SETSIZE : nat) (rc : Z) (processCPUMask : cpu_set_t)
         (cpus : list (option CPU)) (s s' : State) (totalCPUs : Z)
         (finished : bool) (schedule : list Action) (s'' : State),
    length cpus <= CPU_SETSIZE ->
    preinitialize CPU_SETSIZE rc processCPUMask cpus = Returns (s, totalCPUs) ->
    initialize CPU_SETSIZE processCPUMask s = Returns (s', finished) ->
    (forall k cpu, cpus !! k = Some (Some cpu) ->
                   _shutdownControlerThread cpu = None) ->
    workersReady s'
    /\ (forall t th, threads s' !! t = Some th ->
          status th = Busy /\ _currentWorkerThread th = None
          /\ getTask th = None /\ _cpuToBeResumedOn th = Some (_cpu th))
    /\ (run schedule s' = Some s'' ->
        failed s'' = None
        \/ (failed s'' = Some "_mainShutdownControllerThread != nullptr"
            /\ (threads s' = []
                \/ forall j c, _cpus s'' !! j = Some (Some c) ->
                               acceptsWork c = false))
        \/ (failed s'' = Some " during shutdown when joining pthread "
            /\ Exists joinFails schedule)).
Proof.
  intros N rc mask cpus s s' totalCPUs finished schedule s'' Hlen Hpre Hinit Hfresh.
  pose proof (startup_workersReady N rc mask cpus s s' totalCPUs finished
                Hlen Hpre Hinit) as Hready.
  pose proof (startup_initial N rc mask cpus s s' totalCPUs finished
                Hlen Hpre Hinit Hfresh) as Hinitial.
  split; [exact Hready |]. split.
  { destruct (startup_state N rc mask cpus s s' totalCPUs finished Hlen Hpre Hinit)
      as (Hthreads & _).
    intros t th Ht. rewrite Hthreads in Ht.
    apply list_elem_of_lookup_2, elem_of_map_iff in Ht.
    destruct Ht as (id & <- & _). cbn. auto. }
  intros Hrun.
  pose proof (run_SanityInv schedule s' s'' (initial_Inv s' Hinitial) Hready
                (initial_SanityInv s' Hinitial) Hrun) as HS.
  destruct (san_failed s'' HS) as [Hnone | [[Hsome Hnobody] | Hfatal]];
    [left; exact Hnone | right; left | right; right].
  - split; [exact Hsome |].
    destruct (run_totalThreads schedule s' s'' Hrun) as [_ Hlen'].
    destruct (threads s') as [| th0 ts0] eqn:Hts; [left; reflexivity |].
    right. intros j c Hc. destruct (acceptsWork c) eqn:Ha; [| reflexivity].
    pose proof (Hnobody j c Hc Ha) as Hnil. rewrite Hnil in Hlen'. discriminate.
  - split; [exact Hfatal |].
    destruct Hinitial as (_ & _ & Hf & _).
    exact (run_join_error schedule s' s'' Hf Hrun Hfatal).
Qed.

(** Three workers on four CPUs: worker 0 runs [threadStartup] and parks,
    [shutdown] is called and names it the controller of CPU 0. *)
Lemma startup_then_shutdown_sanity_witness :
  exists s s' s'',
    preinitialize 4 0 threeOfFour (replicate 4 (Some freshCPU)) = Returns (s, 3%Z)
    /\ initialize 4 threeOfFour s = Returns (s', true)
    /\ run [Worker 0 0 0; Worker 0 0 0; Shutdown 0 0; Shutdown 0 0; Shutdown 0 0]
           s' = Some s''
    /\ workersReady s'
    /\ _mainShutdownControllerThread s'' = Some 0
    /\ (failed s'' = None
        \/ (failed s'' = Some "_mainShutdownControllerThread != nullptr"
            /\ (threads s' = []
                \/ forall j c, _cpus s'' !! j = Some (Some c) ->
                               acceptsWork c = false))
        \/ (failed s'' = Some " during shutdown when joining pthread "
            /\ Exists joinFails
                 [Worker 0 0 0; Worker 0 0 0; Shutdown 0 0; Shutdown 0 0;
                  Shutdown 0 0])).
Proof.
  eexists _, _, _. split; [reflexivity |]. split; [reflexivity |].
  split; [reflexivity |].
  assert (length (replicate 4 (Some freshCPU)) <= 4) as Hlen by (cbn; lia).
  match goal with
  | |- workersReady ?s1 /\ _mainShutdownControllerThread ?s2 = _ /\ _ =>
    destruct (startup_then_shutdown_sanity 4 0 threeOfFour
                (replicate 4 (Some freshCPU)) _ s1 3%Z true
                [Worker 0 0 0; Worker 0 0 0; Shutdown 0 0; Shutdown 0 0;
                 Shutdown 0 0]
                s2 Hlen eq_refl eq_refl) as (Hready & _ & Hsan)
  end.
  - intros k cpu Hk. apply lookup_replicate in Hk. destruct Hk as [Hk _].
    injection Hk as ->. reflexivity.
  - split; [exact Hready |]. split; [reflexivity |]. apply Hsan. reflexivity.
Defined.

End StartupThenShutdown.
